(* ===== verification/_CoqProject ===== *)
-Q . S2P
Prelude.v
Kmonad.v
Spinlock.v
Mem.v
Riscv.v
Kalloc.v
Cstring.v
Vm.v
PageTable.v
VmWalk.v
VmFree.v
VmUser.v
VmProc.v
VmGrow.v
VmSpec.v
Proc.v
ProcSpec.v
SleepWakeup.v
Iface.v
Sleeplock.v
Bio.v
Disk.v
BioSpec.v
Virtio.v
Log.v
LogSpec.v
Sim.v
Fs.v
Uart.v
Printf.v
Console.v
Pipe.v
PipeSpec.v
File.v
Usr.v
CacheSim.v
LogSim.v
Exec.v
Sysproc.v
SbrkSpec.v
Sysfile.v
Trap.v
Kernel.v
Asm.v
FsDev.v
FsSim.v
FsBlock.v
FsOps.v
FsFile.v
FsInode.v
FsTrunc.v
FsTable.v
FsDir.v
FsPath.v
Crash.v
Durable.v
Mkfs.v
Usys.v
Ulib.v
Umalloc.v
Uprintf.v
Grep.v
Uprogs.v
Utests.v
UtFiles.v
UtProcs.v
UtRun.v
Shell.v
ShellRun.v
ShellParse.v
