(* ===== verification/Prelude.v ===== *)
(** * xv6 for RISC-V: a verification development

    xv6 is a small Unix kernel for RISC-V multiprocessors, with a C library,
    a shell and other programs that run on it.  This library translates the C
    code to executable Rocq definitions, a file per source file as far as
    possible, and proves what the parts promise to each other.

    ** The program and its models

    Locks and processes.
    - kernel/spinlock.c: Spinlock.v is the machine of several CPUs, one step
      per memory access of [acquire] and [release].  Kmonad.v is the same code
      as one thread sees it: a monad over a state, with the locks the thread
      holds, [panic], and [swtch] as the point where other threads run.  The
      larger components are written in this monad.
    - kernel/proc.c: Proc.v has the process table, [sched], [sleep], [wakeup],
      [kkill], [kwait] and the rest; SleepWakeup.v is [sleep], [wakeup] and
      [kkill] as a step relation for any interleaving; Exec.v has [kfork], [kexit] and
      [userinit], with [kexec] of kernel/exec.c.
    - kernel/sleeplock.c: Sleeplock.v.

    Memory.
    - kernel/kalloc.c: Kalloc.v, on the memory of Mem.v, where the free list
      is threaded through the free pages.  Constants of riscv.h, memlayout.h
      and param.h: Riscv.v.  kernel/string.c: Cstring.v.
    - kernel/vm.c: Vm.v has all functions on page tables in memory.
      PageTable.v gives them an abstract reading as trees; VmWalk.v, VmFree.v,
      VmUser.v, VmProc.v and VmGrow.v have the lemmas, VmSpec.v the
      contracts.

    Disk and files.
    - kernel/virtio_disk.c: Virtio.v; kernel/bio.c: Bio.v and BioSpec.v;
      kernel/log.c: Log.v and LogSpec.v; kernel/fs.c: Fs.v, with the theorems
      in FsDev.v (the ideal disk they are stated on), FsBlock.v (bitmap),
      FsFile.v (file contents), FsInode.v ([readi], [writei]), FsTrunc.v
      ([itrunc]), FsTable.v (inode table), FsDir.v (directories), FsPath.v
      (path names).
    - The three layers together: the code of log.c and fs.c is written
      against classes, so that one text runs on an ideal disk and on the
      buffer cache.  Sim.v has a relational logic for two runs of the kernel
      monad, Disk.v the disk as a sequence of writes, CacheSim.v relates the
      buffer cache to the block device of LogSpec.v, LogSim.v runs log.c on
      the cache, FsSim.v and FsOps.v relate every function of fs.c on the
      cache and the log to its run on the ideal disk, and Crash.v puts
      [begin_op], the calls, [end_op], a crash and the next boot together;
      Durable.v applies it to [filewrite] of file.c.  Usr.v is what both
      sides share of the rest of the kernel: the process that runs, with its
      memory and current directory, and the table of open files.
    - kernel/pipe.c: Pipe.v and PipeSpec.v; kernel/file.c: File.v.
    - mkfs/mkfs.c: Mkfs.v.

    System calls, traps and devices.
    - kernel/syscall.c, sysproc.c and sysfile.c: Sysproc.v (with SbrkSpec.v) and Sysfile.v;
      kernel/trap.c, plic.c and start.c: Trap.v; kernel/console.c, uart.c and
      printf.c: Console.v, Uart.v, Printf.v.
    - kernel/entry.S, swtch.S, trampoline.S, kernelvec.S and the stubs of
      user/usys.pl: Asm.v, as lists of instructions run on the registers of a
      hart.
    - Iface.v has the classes through which one component uses another, and
      Kernel.v puts all of them into one state, with [main] and the entry
      points for traps.

    User programs.
    - Usys.v: a program is a tree of system calls, run by a handler that
      stands for the kernel.  user/ulib.c: Ulib.v; user/printf.c: Uprintf.v;
      user/umalloc.c: Umalloc.v; user/grep.c: Grep.v; the small programs:
      Uprogs.v; user/sh.c: Shell.v, ShellRun.v and ShellParse.v; the test
      programs forktest.c, stressfs.c, logstress.c, forphan.c, dorphan.c and
      grind.c: Utests.v; user/usertests.c: UtFiles.v and UtProcs.v (the
      tests), UtRun.v (the driver).

    The state of a component is a [Record] with the fields of the C structs;
    an array of structs is a list and a pointer into it an index; memory the
    C code handles as bytes (pages, blocks, pipes, user memory) is a function
    from addresses to bytes.  An operation has the name it has in C.

    ** What the theorems show

    - Locks: no spin lock is held twice in any interleaving, code that follows
      the rules never panics in the lock code, each step of the lock code is
      the atomic operation it stands for, and interrupts stay off while a lock is held (Spinlock.v).  A wakeup is
      never lost by callers that test and set their condition under its lock,
      whatever other channels and kills are about (SleepWakeup.v).  The operations on the process table change
      what they should and keep it consistent on every failure path
      (ProcSpec.v).
    - Memory: [kalloc] and [kfree] implement a stack of pages (Kalloc.v); the
      functions of vm.c read and change page tables as the tree model says,
      lose no page and free no page twice, also when memory runs out;
      [uvmalloc] and [uvmcopy] give out zeroed or copied pages or undo
      everything; what [copyout] stores [copyin] reads (VmSpec.v).  A lazy
      [sbrk] can pass MAXVA, and the next fault there panics (SbrkSpec.v).
    - Log: a crash at any disk write of a commit leaves all of the transaction
      or nothing, and recovery can crash and start again (LogSpec.v).
    - Crashes: a sequence of transactions of fs.c calls that returns on the
      ideal disk and fits the log gives the same results on the buffer cache
      and the log, and a crash at any disk write followed by a boot gives the
      ideal disk after a prefix of them (Crash.v).  So the theorems about
      fs.c, stated on the ideal disk, hold of the composed system too.  Data
      is copied from and to the memory of the process by the code of vm.c;
      the one case left out is a copy into a block that fails after some of
      its bytes, at which the ideal disk stops: there the code leaves bytes
      in the cache that it does not log, which FsInode.v proves.  Every
      transaction of [filewrite] fits the log, and after a crash the file on
      the disk has its old bytes with a whole number of chunks of the new
      ones, all of them once [filewrite] has returned (Durable.v).
    - Buffer cache: one buffer per block, contents kept, the ring in order of
      use (BioSpec.v).
    - File system: blocks are allocated once; [writei] and [readi] behave as
      a byte array with a size; [itrunc] frees each block of the file once; a
      directory is a map that [dirlink] extends;
      [iget] keeps one entry per inode; [namex] is a walk over the elements
      of the path.  Out-of-space paths are included.
    - Pipes: the ring buffer implements a bounded queue for [pipewrite] and
      [piperead] (PipeSpec.v).
    - Assembly: a trap gives the user program all its registers back,
      [swtch] resumes a thread with the registers it had, an interrupt of the
      kernel changes no register but [tp] (Asm.v).
    - User programs: the regular expressions of grep have their usual meaning
      and grep prints the lines that match (of at most 1022 characters, each
      with its newline), wc counts lines, words and characters, however [read]
      cuts the input; the shell's parser ends on
      every line and inverts a printer; [runcmd] connects the programs of a
      command as its text says; decimal printing and [atoi] are inverse;
      the random numbers of grind are those of Park and Miller (Utests.v); the
      driver of usertests reports what its children exit with, and gives up
      when it cannot fork (UtRun.v).

    ** Bounds and fuel

    Loops that are not structural take a number of turns.  In the kernel
    monad running out of turns is an outcome of its own, [OFuel], so that a
    theorem that says an operation returns also says that the turns were
    enough.  The bounds come from the arguments of the loop (pages of a range,
    characters of a string, entries of a table).  Only loops that wait for
    other threads or for a device, as in [acquiresleep] or [uartwrite], take
    the parameter [Fuel], as nothing in the code bounds them.  User programs
    that read until the end of the input take the number of reads; a program
    without enough is [Stuck], and the theorems give numbers that suffice.
    Machine integers are [Z] with their wrap-around written out.

    ** Not modelled

    - The registers of a thread inside C code: in the kernel monad [swtch] is
      a scheduling point, and Asm.v shows what the assembly promises there.
    - The TLB, caches and the memory order of the hardware: [sfence_vma],
      [fence] and the atomic builtins are steps on one shared memory.
    - Devices: the UART, the PLIC and the virtio device are parameters, as
      are the addresses the linker assigns ([LinkMap] in Riscv.v).
    - Names of locks and other data used for debugging only.
    - The tests of usertests.c that load and store at raw addresses or pass
      them to the kernel (copyin, sbrkbasic, kernmem, lazy_alloc and the like):
      a user program is a tree of system calls here, without memory.
    - Crash.v runs one transaction at a time: log.c also lets several
      operations share a commit, and a disk write is taken to be atomic, as
      the log itself assumes.  The process that runs is the one with pid 1,
      the number its sleep locks record, and it never waits for another one.
    - The theorems about one component run its code from one scheduling point
      to the next; that other threads keep their hands off in between is the
      subject of Spinlock.v, and the composition of both is not proved. *)

From Stdlib Require Export ZArith Lia ZifyBool.
From stdpp Require Export strings.
From stdpp Require Export prelude gmap.

#[global] Open Scope Z_scope.

(** ** Machine integers

    A [w]-bit unsigned integer is a [Z] in [0, 2^w); the C conversions and the
    wrap-around of unsigned arithmetic are the functions below. *)

Definition wrap (w z : Z) : Z := z mod 2 ^ w.
Definition u8 (z : Z) : Z := z mod 256.
Definition u16 (z : Z) : Z := z mod 65536.
Definition u32 (z : Z) : Z := z mod 4294967296.
Definition u64 (z : Z) : Z := z mod 18446744073709551616.

(** Conversion to a signed 16- or 32-bit integer. *)
Definition i16 (z : Z) : Z := (z + 32768) mod 65536 - 32768.
Definition i32 (z : Z) : Z := (z + 2147483648) mod 4294967296 - 2147483648.

Lemma u8_range z : 0 <= u8 z < 256.
Proof. unfold u8. apply Z.mod_pos_bound. lia. Qed.
Lemma u16_range z : 0 <= u16 z < 65536.
Proof. unfold u16. apply Z.mod_pos_bound. lia. Qed.
Lemma u32_range z : 0 <= u32 z < 4294967296.
Proof. unfold u32. apply Z.mod_pos_bound. lia. Qed.
Lemma u64_range z : 0 <= u64 z < 18446744073709551616.
Proof. unfold u64. apply Z.mod_pos_bound. lia. Qed.
Lemma i32_range z : -2147483648 <= i32 z < 2147483648.
Proof. unfold i32. pose proof (Z.mod_pos_bound (z + 2147483648) 4294967296). lia. Qed.

Lemma u8_small z : 0 <= z < 256 -> u8 z = z.
Proof. apply Z.mod_small. Qed.
Lemma u16_small z : 0 <= z < 65536 -> u16 z = z.
Proof. apply Z.mod_small. Qed.
Lemma u32_small z : 0 <= z < 4294967296 -> u32 z = z.
Proof. apply Z.mod_small. Qed.
Lemma u64_small z : 0 <= z < 18446744073709551616 -> u64 z = z.
Proof. apply Z.mod_small. Qed.
Lemma i32_small z : -2147483648 <= z < 2147483648 -> i32 z = z.
Proof. intros. unfold i32. rewrite Z.mod_small; lia. Qed.

(** ** Automation *)

(** Linear arithmetic with quotients and remainders by constants. *)
Ltac dlia := Z.to_euclidean_division_equations; lia.

(** ** Lists *)
Lemma Forall_elem {A} (P : A -> Prop) l x : Forall P l -> x ∈ l -> P x.
Proof. intros HF Hx. rewrite list_elem_of_lookup in Hx. destruct Hx as [i Hi].
  eapply Forall_lookup_1; eauto. Qed.

(** ** Lists of addresses as multisets

    [occ x l] counts [x] in [l]; permutation, duplicate-freeness and
    membership goals over [++] and [::] reduce to linear arithmetic on
    counts. *)
Definition occ (x : Z) (l : list Z) : nat := count_occ Z.eq_dec l x.
Definition one (x a : Z) : nat := if Z.eq_dec a x then 1%nat else 0%nat.

Lemma occ_nil x : occ x [] = 0%nat.
Proof. reflexivity. Qed.
Lemma occ_cons x a l : occ x (a :: l) = (one x a + occ x l)%nat.
Proof. unfold occ, one. simpl. destruct (Z.eq_dec a x); reflexivity. Qed.
Lemma occ_app x l1 l2 : occ x (l1 ++ l2) = (occ x l1 + occ x l2)%nat.
Proof. apply count_occ_app. Qed.
Lemma one_refl x : one x x = 1%nat.
Proof. unfold one. destruct (Z.eq_dec x x); [reflexivity|contradiction]. Qed.

Lemma Permutation_occ l1 l2 : l1 ≡ₚ l2 <-> forall x, occ x l1 = occ x l2.
Proof. apply (Permutation_count_occ Z.eq_dec). Qed.
Lemma elem_occ x l : x ∈ l <-> (1 <= occ x l)%nat.
Proof. rewrite list_elem_of_In, (count_occ_In Z.eq_dec). unfold occ. lia. Qed.
Lemma not_elem_occ x l : x ∉ l <-> occ x l = 0%nat.
Proof. rewrite elem_occ. lia. Qed.
Lemma NoDup_occ l : NoDup l <-> forall x, (occ x l <= 1)%nat.
Proof. rewrite NoDup_ListNoDup, (NoDup_count_occ Z.eq_dec). reflexivity. Qed.

Create Rewrite HintDb occ.
#[export] Hint Rewrite occ_nil occ_cons occ_app one_refl : occ.

(** Instantiate what the context says about multisets at [x]. *)
Ltac occ_hyps x :=
  repeat match goal with
  | H : ?l1 ≡ₚ ?l2 |- _ =>
      lazymatch goal with
      | _ : occ x l1 = occ x l2 |- _ => fail
      | _ => pose proof (proj1 (Permutation_occ l1 l2) H x)
      end
  | H : NoDup ?l |- _ =>
      lazymatch goal with
      | _ : (occ x l <= 1)%nat |- _ => fail
      | _ => pose proof (proj1 (NoDup_occ l) H x)
      end
  | H : x ∈ ?l |- _ => apply elem_occ in H
  | H : x ∉ ?l |- _ => apply not_elem_occ in H
  end.

(** Solve a permutation, [NoDup] or (non-)membership goal. *)
Ltac msolve :=
  lazymatch goal with
  | |- _ ≡ₚ _ => apply Permutation_occ; let x := fresh "x" in intros x; occ_hyps x
  | |- NoDup _ => apply NoDup_occ; let x := fresh "x" in intros x; occ_hyps x
  | |- ?x ∉ _ => apply not_elem_occ; occ_hyps x
  | |- ?x ∈ _ => apply elem_occ; occ_hyps x
  end; autorewrite with occ in *; lia.

(** ** Record update

    [r <| f := v |>] is [r] with field [f] set to [v]; [r <| f ::= g |>] applies
    [g] to the field.  A record type opts in with an instance of [Eta], its
    eta expansion, in which the update replaces one projection. *)
Class Eta (R : Type) := eta : R -> R.
Class Update {R T : Type} (proj : R -> T) := update : (T -> T) -> R -> R.
#[global] Hint Mode Update - - + : typeclass_instances.
#[global] Arguments update {R T} proj {_} f r /.

Ltac solve_update :=
  lazymatch goal with
  | |- @Update ?R ?T ?proj =>
      let e := eval hnf in (_ : Eta R) in
      lazymatch eval pattern proj in e with
      | ?k _ => exact (fun f : T -> T => k (fun r => f (proj r)))
      end
  end.
#[global] Hint Extern 1 (@Update _ _ _) => solve_update : typeclass_instances.

Notation "r <| p := v |>" := (update p (fun _ => v) r)
  (at level 1, left associativity, p at level 10, v at level 200).
Notation "r <| p ::= f |>" := (update p f r)
  (at level 1, left associativity, p at level 10, f at level 200).
