(* ===== verification/Kmonad.v ===== *)
(** * The kernel monad

    Kernel code runs as a thread: it reads and writes a shared state [S], it
    holds a set of spin locks, it can panic, and it can give up the CPU in
    [sched()].  [out S A] is the result of running such code up to its next
    scheduling point.  Between two scheduling points a thread runs without
    interleaving: the code between [acquire] and [release] of a spin lock is
    atomic for the other CPUs (Spinlock.v models the lock itself and proves
    mutual exclusion), and a thread that gives up the CPU holds no spin lock
    but its own [p->lock] ([sched()] checks it). *)

From S2P Require Import Prelude.

Declare Scope kmonad_scope.
Delimit Scope kmonad_scope with km.
#[global] Open Scope kmonad_scope.

(** ** Locks and wait channels

    In C a lock and a wait channel are addresses; here they are names.  A
    sleep lock belongs to a buffer of [bcache.buf[]] or to an entry of
    [itable.inode[]]. *)

Inductive slid := SLbuf (i : nat) | SLinode (i : nat).

Inductive lockid :=
| LKmem | LPid | LWait | LProc (i : nat) | LItable | LFtable | LLog | LBcache
| LVdisk | LTicks | LCons | LPr | LTx | LPipe (a : Z) | LSleep (l : slid).

Inductive chan :=
| CNull | CLog | CPipeRead (a : Z) | CPipeWrite (a : Z) | CCons | CTicks | CTx
| CDiskFree | CBuf (i : nat) | CSleep (l : slid) | CProc (i : nat).

#[global] Instance slid_eq_dec : EqDecision slid.
Proof. solve_decision. Defined.
#[global] Instance lockid_eq_dec : EqDecision lockid.
Proof. solve_decision. Defined.
#[global] Instance chan_eq_dec : EqDecision chan.
Proof. solve_decision. Defined.

(** What belongs to the thread and not to the shared state: the spin locks it
    holds, most recent first, and [myproc()] as an index into [proc[]]
    ([None] when [mycpu()->proc] is 0). *)
Record tls := Tls { held : list lockid; me : option nat }.

(** ** Outcomes

    [ORet]: the code returned.  [OPanic]: it called [panic()].  [OSwtch]: it
    switched to the scheduler, and goes on with whatever state it finds when
    it runs again.  [OFuel]: the bound given to a loop was too small. *)
Inductive out (S A : Type) : Type :=
| ORet (a : A) (t : tls) (s : S)
| OPanic (msg : string)
| OSwtch (s : S) (k : S -> out S A)
| OFuel.
Arguments ORet {S A}.
Arguments OPanic {S A}.
Arguments OSwtch {S A}.
Arguments OFuel {S A}.

Definition M (S A : Type) : Type := tls -> S -> out S A.

Fixpoint obind {S A B} (o : out S A) (f : A -> tls -> S -> out S B) : out S B :=
  match o with
  | ORet a t s => f a t s
  | OPanic msg => OPanic msg
  | OSwtch s k => OSwtch s (fun s' => obind (k s') f)
  | OFuel => OFuel
  end.

Definition ret {S A} (a : A) : M S A := fun t s => ORet a t s.
Definition bind {S A B} (m : M S A) (f : A -> M S B) : M S B :=
  fun t s => obind (m t s) f.
Definition panic {S A} (msg : string) : M S A := fun _ _ => OPanic msg.
Definition get {S} : M S S := fun t s => ORet s t s.
Definition put {S} (s' : S) : M S unit := fun t _ => ORet tt t s'.
Definition gets {S A} (f : S -> A) : M S A := fun t s => ORet (f s) t s.
Definition modify {S} (f : S -> S) : M S unit := fun t s => ORet tt t (f s).
Definition swtch {S} : M S unit := fun t s => OSwtch s (fun s' => ORet tt t s').
Definition outoffuel {S A} : M S A := fun _ _ => OFuel.
Definition my_held {S} : M S (list lockid) := fun t s => ORet (held t) t s.

Notation "'let*' x := m 'in' k" := (bind m (fun x => k))
  (at level 10, x name, m at level 100, k at level 200)
  : kmonad_scope.
Notation "'let*' ' p := m 'in' k" := (bind m (fun x => match x with p => k end))
  (at level 10, p pattern, m at level 100, k at level 200)
  : kmonad_scope.
Notation "m ;; k" := (bind m (fun _ => k))
  (at level 100, k at level 200, right associativity) : kmonad_scope.

Definition when {S} (b : bool) (m : M S unit) : M S unit :=
  if b then m else ret tt.

(** [for(;;)]/[while] with the loop variables [x]: the body gives the next
    values of the variables or the result that leaves the loop. *)
Fixpoint loop {S X A} (fuel : nat) (body : X -> M S (X + A)) (x : X) : M S A :=
  match fuel with
  | O => outoffuel
  | Datatypes.S n =>
      let* r := body x in
      match r with inl x' => loop n body x' | inr a => ret a end
  end.

(** [for (x in l) body] *)
Fixpoint for_each {S X} (l : list X) (body : X -> M S unit) : M S unit :=
  match l with
  | [] => ret tt
  | x :: l' => body x ;; for_each l' body
  end.

(** [for (x in l) if (...) return ...]: the first result wins. *)
Fixpoint for_find {S X A} (l : list X) (body : X -> M S (option A)) : M S (option A) :=
  match l with
  | [] => ret None
  | x :: l' =>
      let* r := body x in
      match r with Some a => ret (Some a) | None => for_find l' body end
  end.

(** ** Spin locks as a thread sees them (kernel/spinlock.c)

    [holding(lk)] is membership in [held]. *)
Definition holding (lk : lockid) (t : tls) : bool := bool_decide (lk ∈ held t).

Fixpoint remove_lock (lk : lockid) (l : list lockid) : list lockid :=
  match l with
  | [] => []
  | x :: l' => if decide (x = lk) then l' else x :: remove_lock lk l'
  end.

Definition acquire {S} (lk : lockid) : M S unit := fun t s =>
  if holding lk t then OPanic "acquire"
  else ORet tt (Tls (lk :: held t) (me t)) s.

Definition release {S} (lk : lockid) : M S unit := fun t s =>
  if holding lk t then ORet tt (Tls (remove_lock lk (held t)) (me t)) s
  else OPanic "release".

(** [myproc()]: the process running on this CPU, if any. *)
Definition curproc {S} : M S (option nat) := fun t s => ORet (me t) t s.

(** [c->proc = p], in the scheduler. *)
Definition set_curproc {S} (p : option nat) : M S unit := fun t s => ORet tt (Tls (held t) p) s.

(** [myproc()], where the code goes on to use the pointer. *)
Definition myproc {S} : M S nat := fun t s =>
  match me t with Some p => ORet p t s | None => OPanic "kerneltrap" end.

(** ** Running a component inside a larger state *)
Record lens (T S : Type) := Lens { lget : T -> S; lput : S -> T -> T }.
Arguments Lens {T S}.
Arguments lget {T S}.
Arguments lput {T S}.

Fixpoint ozoom {T S A} (L : lens T S) (x : T) (o : out S A) : out T A :=
  match o with
  | ORet a t s => ORet a t (lput L s x)
  | OPanic msg => OPanic msg
  | OSwtch s k => OSwtch (lput L s x) (fun x' => ozoom L x' (k (lget L x')))
  | OFuel => OFuel
  end.

Definition zoom {T S A} (L : lens T S) (m : M S A) : M T A :=
  fun t x => ozoom L x (m t (lget L x)).

(** ** Weakest preconditions

    [wp F R Q o]: [o] does not panic, every state it leaves by returning
    satisfies [Q], where the states it is resumed in after a context switch
    are related by [R] to the state it switched in.  [F] is what holds if the
    fuel runs out: [False] for total correctness. *)
Fixpoint wp {S A} (F : Prop) (R : S -> S -> Prop) (Q : A -> tls -> S -> Prop)
    (o : out S A) : Prop :=
  match o with
  | ORet a t s => Q a t s
  | OPanic _ => False
  | OSwtch s k => forall s', R s s' -> wp F R Q (k s')
  | OFuel => F
  end.

Lemma wp_obind {S A B} F R Q (o : out S A) (f : A -> tls -> S -> out S B) :
  wp F R Q (obind o f) <-> wp F R (fun a t s => wp F R Q (f a t s)) o.
Proof.
  induction o as [a t s|msg|s k IH|]; simpl; try tauto.
  split; intros H s' Hs'; apply IH; auto.
Qed.

Lemma wp_mono {S A} F R (Q Q' : A -> tls -> S -> Prop) (o : out S A) :
  (forall a t s, Q a t s -> Q' a t s) -> wp F R Q o -> wp F R Q' o.
Proof. intros HQ. induction o; simpl; auto. Qed.

Lemma bind_ret {S A B} (m : M S A) (f : A -> M S B) t s a t' s' :
  m t s = ORet a t' s' -> bind m f t s = f a t' s'.
Proof. unfold bind. intros ->. reflexivity. Qed.

(** Run the first statement of a sequence, known to return by [E]. *)
Ltac kstep E := rewrite (bind_ret _ _ _ _ _ _ _ E); cbv beta.

Lemma bind_swtch {S A B} (m : M S A) (f : A -> M S B) t s s' k :
  m t s = OSwtch s' k -> bind m f t s = OSwtch s' (fun x => obind (k x) f).
Proof. unfold bind. intros ->. reflexivity. Qed.

Lemma bind_panic {S A B} (m : M S A) (f : A -> M S B) t s msg :
  m t s = OPanic msg -> bind m f t s = OPanic msg.
Proof. unfold bind. intros ->. reflexivity. Qed.

(** Lock bookkeeping: taking a lock that is not held and giving it back leaves
    the thread as it was. *)
Lemma acquire_free {S} lk t (s : S) :
  lk ∉ held t -> acquire lk t s = ORet tt (Tls (lk :: held t) (me t)) s.
Proof. intros H. unfold acquire, holding. rewrite bool_decide_eq_false_2; auto. Qed.

Lemma release_top {S} lk l p (s : S) :
  release lk (Tls (lk :: l) p) s = ORet tt (Tls l p) s.
Proof.
  unfold release, holding. simpl. rewrite bool_decide_eq_true_2 by set_solver.
  destruct (decide (lk = lk)); [reflexivity|contradiction].
Qed.

Lemma tls_eta t : Tls (held t) (me t) = t.
Proof. destruct t; reflexivity. Qed.

Lemma zoom_ret {T S A} (L : lens T S) (m : M S A) t x a t' s' :
  m t (lget L x) = ORet a t' s' -> zoom L m t x = ORet a t' (lput L s' x).
Proof. unfold zoom. intros ->. reflexivity. Qed.

(** A counted loop keeps an invariant indexed by the counter. *)
Lemma for_each_seq {S} (I : nat -> S -> Prop) (body : nat -> M S unit) t n : forall a s,
  (forall i s, (a <= i < a + n)%nat -> I i s ->
     exists s', body i t s = ORet tt t s' /\ I (Datatypes.S i) s') ->
  I a s -> exists s', for_each (seq a n) body t s = ORet tt t s' /\ I (a + n)%nat s'.
Proof.
  induction n as [|n IH]; intros a s Hb Ha; simpl.
  - exists s. rewrite Nat.add_0_r. auto.
  - destruct (Hb a s) as (s1 & E1 & H1); [lia|auto|].
    destruct (IH (Datatypes.S a) s1) as (s2 & E2 & H2); [|auto|].
    { intros i s' Hi. apply Hb. lia. }
    exists s2. unfold bind. rewrite E1. split; [exact E2|].
    replace (a + Datatypes.S n)%nat with (Datatypes.S a + n)%nat by lia. exact H2.
Qed.

(** A critical section whose body leaves the lock on top of the held locks. *)
Definition with_lock {S A} (lk : lockid) (m : M S A) : M S A :=
  acquire lk ;; let* a := m in release lk ;; ret a.

Lemma with_lock_ret {S A} lk (m : M S A) t s a s' :
  lk ∉ held t ->
  m (Tls (lk :: held t) (me t)) s = ORet a (Tls (lk :: held t) (me t)) s' ->
  with_lock lk m t s = ORet a t s'.
Proof.
  intros Hfree Hm. unfold with_lock.
  erewrite bind_ret by (apply acquire_free; auto).
  erewrite bind_ret by apply Hm.
  erewrite bind_ret by apply release_top.
  unfold ret. rewrite tls_eta. reflexivity.
Qed.

(** ** Equivalence of programs

    Two outcomes are equivalent when they end alike and, where they switch to
    the scheduler, go on alike from every state. *)
Fixpoint oeq {S A} (o o' : out S A) : Prop :=
  match o, o' with
  | ORet a t s, ORet a' t' s' => a = a' /\ t = t' /\ s = s'
  | OPanic m, OPanic m' => m = m'
  | OSwtch s k, OSwtch s' k' => s = s' /\ forall x, oeq (k x) (k' x)
  | OFuel, OFuel => True
  | _, _ => False
  end.

Definition meq {S A} (m m' : M S A) : Prop := forall t s, oeq (m t s) (m' t s).
Infix "≈" := meq (at level 70) : kmonad_scope.

Lemma oeq_refl {S A} (o : out S A) : oeq o o.
Proof. induction o; simpl; auto. Qed.

Lemma oeq_sym {S A} (o o' : out S A) : oeq o o' -> oeq o' o.
Proof. revert o'. induction o; intros []; simpl; intuition eauto. Qed.

Lemma oeq_trans {S A} (o1 o2 o3 : out S A) : oeq o1 o2 -> oeq o2 o3 -> oeq o1 o3.
Proof.
  revert o2 o3. induction o1 as [| |s k IH|]; intros [] []; simpl; intuition (eauto; congruence).
Qed.

#[global] Instance meq_equiv {S A} : Equivalence (@meq S A).
Proof.
  split; intros m; unfold meq; intros; eauto using oeq_refl, oeq_sym, oeq_trans.
Qed.

Lemma obind_oeq {S A B} (o o' : out S A) (f f' : A -> M S B) :
  oeq o o' -> (forall a, f a ≈ f' a) -> oeq (obind o f) (obind o' f').
Proof.
  intros Ho Hf. revert o' Ho. induction o as [a t s|msg|s k IH|]; intros []; simpl; try tauto.
  - intros (-> & -> & ->). apply Hf.
  - intros [-> Hk]. split; auto.
Qed.

(** [bind] respects the equivalence in both arguments. *)
#[global] Instance bind_meq {S A B} :
  Proper (meq ==> pointwise_relation A meq ==> meq) (@bind S A B).
Proof. intros m m' Hm f f' Hf t s. apply obind_oeq; [apply Hm|exact Hf]. Qed.

Lemma bind_assoc {S A B C} (m : M S A) (f : A -> M S B) (g : B -> M S C) :
  bind (bind m f) g ≈ bind m (fun a => bind (f a) g).
Proof.
  intros t s. unfold bind. induction (m t s) as [a t' s'|msg|s' k IH|]; simpl; auto using oeq_refl.
Qed.

Lemma bind_ret_l {S A B} (a : A) (f : A -> M S B) : bind (ret a) f ≈ f a.
Proof. intros t s. apply oeq_refl. Qed.

Lemma bind_cong {S A B} (m : M S A) (f f' : A -> M S B) :
  (forall a, f a ≈ f' a) -> bind m f ≈ bind m f'.
Proof. intros Hf t s. apply obind_oeq; [apply oeq_refl|exact Hf]. Qed.

Lemma loop_meq {S X A} n (body body' : X -> M S (X + A)) x :
  (forall x, body x ≈ body' x) -> loop n body x ≈ loop n body' x.
Proof.
  intros Hb. revert x. induction n as [|n IH]; intros x; [reflexivity|]. simpl.
  rewrite (Hb x). apply bind_cong. intros [x'|a]; [apply IH|reflexivity].
Qed.

(** A program that returns does so under the equivalence too. *)
Lemma meq_ret {S A} (m m' : M S A) t s a t' s' : m ≈ m' -> m' t s = ORet a t' s' -> m t s = ORet a t' s'.
Proof. intros Hm E. specialize (Hm t s). rewrite E in Hm. destruct (m t s); simpl in Hm; try tauto. by destruct Hm as (-> & -> & ->). Qed.
