(* ===== verification/Spinlock.v ===== *)
(** * Spin locks on several CPUs (kernel/spinlock.c)

    The instruction-level machine behind [acquire] and [release]: locks with
    their [locked] word and [cpu] pointer, CPUs with the interrupt enable bit
    and the [noff]/[intena] nesting of [push_off]/[pop_off], and a program
    counter per CPU inside the two functions, so that every interleaving of
    the CPUs' memory operations is a sequence of steps.  The theorems say that
    the locks exclude each other, that [holding] and the panics mean what they
    should, that interrupts are off while a lock is held and restored
    afterwards, and that the machine refines locks whose operations are atomic, which is
    how Kmonad.v lets the rest of the kernel take them. *)

From S2P Require Import Prelude.

(** [struct spinlock]; the [name] field is only for debugging. *)
Record spinlock := Spinlock { locked : Z; lcpu : option nat }.

(** The part of [struct cpu] that spinlock.c uses, and the SIE bit of the
    CPU's [sstatus]. *)
Record cpu := Cpu { noff : Z; intena : bool; intr : bool }.

Definition initlock : spinlock := Spinlock 0 None.

(** [holding(lk)] on CPU [c]. *)
Definition holding_on (lk : spinlock) (c : nat) : bool :=
  negb (locked lk =? 0) && bool_decide (lcpu lk = Some c).

Definition push_off (c : cpu) : cpu :=
  let old := intr c in
  let ena := if noff c =? 0 then old else intena c in
  Cpu (noff c + 1) ena false.

(** [inr] is the panic. *)
Definition pop_off (c : cpu) : cpu + string :=
  if intr c then inr "pop_off - interruptible"
  else if noff c <? 1 then inr "pop_off"
  else
    let n := noff c - 1 in
    inl (Cpu n (intena c) (if (n =? 0) && intena c then true else intr c)).

(** Where a CPU is: outside the two functions, or before the named action. *)
Inductive pc :=
  | Idle
  | AcqCheck (lk : nat)   (* after push_off, before the holding() test *)
  | AcqSwap (lk : nat)    (* in the test-and-set loop *)
  | AcqCpu (lk : nat)     (* before lk->cpu = mycpu() *)
  | RelCpu (lk : nat)     (* before lk->cpu = 0 *)
  | RelUnlock (lk : nat)  (* before __sync_lock_release *)
  | RelPop.               (* before pop_off *)

#[global] Instance pc_eq_dec : EqDecision pc.
Proof. solve_decision. Defined.

(** What the code running on an idle CPU asks for. *)
Inductive cmd := Acquire (lk : nat) | Release (lk : nat) | PushOff | PopOff | IntrOn | IntrOff.

(** The machine.  [hold] and [depth] are bookkeeping about the callers: the
    locks that were acquired and not yet released, and the open [push_off]s
    other than those of locks. *)
Record mach := Mach {
  locks : nat -> spinlock;
  cpus : nat -> cpu;
  pcs : nat -> pc;
  hold : nat -> list nat;
  depth : nat -> nat;
}.

Definition set_at {A} (f : nat -> A) (i : nat) (x : A) : nat -> A :=
  fun j => if decide (j = i) then x else f j.

Definition with_pc (c : nat) (p : pc) (m : mach) : mach :=
  Mach (locks m) (cpus m) (set_at (pcs m) c p) (hold m) (depth m).
Definition with_cpu (c : nat) (x : cpu) (m : mach) : mach :=
  Mach (locks m) (set_at (cpus m) c x) (pcs m) (hold m) (depth m).
Definition with_lock_at (lk : nat) (x : spinlock) (m : mach) : mach :=
  Mach (set_at (locks m) lk x) (cpus m) (pcs m) (hold m) (depth m).
Definition with_hold (c : nat) (l : list nat) (m : mach) : mach :=
  Mach (locks m) (cpus m) (pcs m) (set_at (hold m) c l) (depth m).
Definition with_depth (c : nat) (d : nat) (m : mach) : mach :=
  Mach (locks m) (cpus m) (pcs m) (hold m) (set_at (depth m) c d).

Fixpoint drop_lock (lk : nat) (l : list nat) : list nat :=
  match l with
  | [] => []
  | x :: l' => if decide (x = lk) then l' else x :: drop_lock lk l'
  end.

Inductive res := Next (m : mach) | Panic (msg : string).

(** One step of CPU [c]; [q] is its request when it is idle. *)
Definition cpu_step (c : nat) (q : cmd) (m : mach) : res :=
  match pcs m c with
  | Idle =>
      match q with
      | Acquire lk => Next (with_pc c (AcqCheck lk) (with_cpu c (push_off (cpus m c)) m))
      | Release lk =>
          if negb (holding_on (locks m lk) c) then Panic "release"
          else Next (with_pc c (RelCpu lk) (with_hold c (drop_lock lk (hold m c)) m))
      | PushOff => Next (with_depth c (S (depth m c)) (with_cpu c (push_off (cpus m c)) m))
      | PopOff =>
          match pop_off (cpus m c) with
          | inr msg => Panic msg
          | inl x => Next (with_depth c (pred (depth m c)) (with_cpu c x m))
          end
      | IntrOn => Next (with_cpu c (Cpu (noff (cpus m c)) (intena (cpus m c)) true) m)
      | IntrOff => Next (with_cpu c (Cpu (noff (cpus m c)) (intena (cpus m c)) false) m)
      end
  | AcqCheck lk =>
      if holding_on (locks m lk) c then Panic "acquire" else Next (with_pc c (AcqSwap lk) m)
  | AcqSwap lk =>
      let old := locked (locks m lk) in
      let m := with_lock_at lk (Spinlock 1 (lcpu (locks m lk))) m in
      if negb (old =? 0) then Next m else Next (with_pc c (AcqCpu lk) m)
  | AcqCpu lk =>
      Next (with_pc c Idle (with_hold c (lk :: hold m c)
        (with_lock_at lk (Spinlock (locked (locks m lk)) (Some c)) m)))
  | RelCpu lk =>
      Next (with_pc c (RelUnlock lk) (with_lock_at lk (Spinlock (locked (locks m lk)) None) m))
  | RelUnlock lk =>
      Next (with_pc c RelPop (with_lock_at lk (Spinlock 0 (lcpu (locks m lk))) m))
  | RelPop =>
      match pop_off (cpus m c) with
      | inr msg => Panic msg
      | inl x => Next (with_pc c Idle (with_cpu c x m))
      end
  end.

(** ** Reachable machines *)

Definition init (ena : nat -> bool) : mach :=
  Mach (fun _ => initlock) (fun c => Cpu 0 false (ena c)) (fun _ => Idle) (fun _ => []) (fun _ => O).

(** The callers' side of the contract: release what you hold, pop what you
    pushed, and leave the interrupt bit alone in between. *)
Definition legal (c : nat) (q : cmd) (m : mach) : Prop :=
  pcs m c = Idle ->
  match q with
  | Acquire lk => lk ∉ hold m c
  | Release lk => lk ∈ hold m c
  | PushOff => True
  | PopOff => depth m c <> O
  | IntrOn | IntrOff => hold m c = [] /\ depth m c = O
  end.

Inductive reach (ena : nat -> bool) : mach -> Prop :=
  | reach_init : reach ena (init ena)
  | reach_step c q m m' :
      reach ena m -> legal c q m -> cpu_step c q m = Next m' -> reach ena m'.

(** CPU [c] owns [lk]: its test-and-set succeeded and it has not yet done the
    store that frees the lock. *)
Definition pending (p : pc) : gset nat :=
  match p with AcqCpu lk | RelCpu lk | RelUnlock lk => {[lk]} | _ => ∅ end.
Definition owned (m : mach) (c : nat) : gset nat := list_to_set (hold m c) ∪ pending (pcs m c).

Record inv (m : mach) : Prop := Inv {
  inv_excl : forall c c' lk, lk ∈ owned m c -> lk ∈ owned m c' -> c = c';
  inv_locked : forall c lk, lk ∈ owned m c -> locked (locks m lk) <> 0;
  inv_cpu : forall c lk, lcpu (locks m lk) = Some c <-> lk ∈ hold m c \/ pcs m c = RelCpu lk;
  inv_once : forall c, NoDup (hold m c) /\ forall lk, lk ∈ pending (pcs m c) -> lk ∉ hold m c;
  inv_wait : forall c lk, pcs m c = AcqCheck lk \/ pcs m c = AcqSwap lk -> lk ∉ hold m c;
  inv_noff : forall c, noff (cpus m c) =
    Z.of_nat (length (hold m c) + depth m c) + (if decide (pcs m c = Idle) then 0 else 1);
  inv_intr : forall c, 0 < noff (cpus m c) -> intr (cpus m c) = false;
}.

Lemma elem_of_drop_lock lk x l : NoDup l -> x ∈ drop_lock lk l <-> x ∈ l /\ x <> lk.
Proof.
  induction l as [|y l IH]; intros Hd; simpl; [rewrite elem_of_nil; tauto|].
  apply NoDup_cons in Hd as [Hy Hd]. case_decide; subst; rewrite !elem_of_cons.
  - split; [|tauto]. intros Hx. split; [auto|]. intros ->. contradiction.
  - rewrite IH by auto. split; [|tauto]. intros [->|[? ?]]; tauto.
Qed.

Lemma drop_lock_spec lk l :
  NoDup l -> lk ∈ l -> NoDup (drop_lock lk l) /\ length l = S (length (drop_lock lk l)).
Proof.
  induction l as [|y l IH]; intros Hd Hin; [by apply elem_of_nil in Hin|].
  simpl. apply NoDup_cons in Hd as [Hy Hd]. case_decide as E; [auto|].
  apply elem_of_cons in Hin as [->|Hin]; [contradiction|].
  destruct (IH Hd Hin) as [Hd' Hl]. split; [|simpl; lia].
  constructor; [|auto]. rewrite elem_of_drop_lock by auto. tauto.
Qed.

(** Case analysis on whether the CPU or lock in question is the one that
    moved. *)
Lemma set_at_eq {A} (f : nat -> A) i x : set_at f i x i = x.
Proof. unfold set_at. by rewrite decide_True. Qed.
Lemma set_at_ne {A} (f : nat -> A) i j x : j <> i -> set_at f i x j = f j.
Proof. intros. unfold set_at. by rewrite decide_False. Qed.

Ltac at_case i j :=
  destruct (decide (j = i)); [subst; rewrite ?set_at_eq in *|rewrite ?set_at_ne in * by assumption].
Ltac at_cases :=
  repeat match goal with
  | H : context [set_at _ ?i _ ?j] |- _ => at_case i j
  | |- context [set_at _ ?i _ ?j] => at_case i j
  end.

Lemma owned_elem m c lk : lk ∈ owned m c <-> lk ∈ hold m c \/ lk ∈ pending (pcs m c).
Proof. unfold owned. rewrite elem_of_union, elem_of_list_to_set. reflexivity. Qed.

Lemma in_pending lk :
  lk ∈ pending (AcqCpu lk) /\ lk ∈ pending (RelCpu lk) /\ lk ∈ pending (RelUnlock lk).
Proof. simpl. rewrite elem_of_singleton. auto. Qed.

Lemma push_off_noff x : noff (push_off x) = noff x + 1 /\ intr (push_off x) = false.
Proof. auto. Qed.

(** [acquire] enters: interrupts off, nesting deeper. *)
Lemma inv_enter c lk m :
  inv m -> pcs m c = Idle -> lk ∉ hold m c ->
  inv (with_pc c (AcqCheck lk) (with_cpu c (push_off (cpus m c)) m)).
Proof.
  intros [Hex Hlo Hcpu Hon Hw Hno Hin] Hpc Hlk. constructor; intros c0; simpl.
  - intros c1 lk0. rewrite !owned_elem. simpl. 
    intros H1 H2. apply (Hex c0 c1 lk0); rewrite owned_elem; at_cases; rewrite ?Hpc; simpl in *; auto.
  - intros lk0. rewrite owned_elem. simpl. intros H1. apply (Hlo c0). rewrite owned_elem.
    at_cases; rewrite ?Hpc; simpl in *; auto.
  - intros lk0. rewrite Hcpu. at_cases; [rewrite Hpc|reflexivity]. intuition discriminate.
  - destruct (Hon c0) as [Hd Hp]. split; [auto|]. intros lk0. at_cases; simpl; [intros H; by apply elem_of_empty in H|auto].
  - intros lk0. at_cases; [|apply Hw]. intros [H|H]; congruence.
  - at_cases; [|apply Hno]. simpl. rewrite Hno, Hpc. simpl. lia.
  - at_cases; [reflexivity|apply Hin].
Qed.

(** A change of CPU [c] alone, at the same program counter. *)
Lemma inv_cpu_only c x d m :
  inv m ->
  noff x = Z.of_nat (length (hold m c) + d) + (if decide (pcs m c = Idle) then 0 else 1) ->
  (0 < noff x -> intr x = false) ->
  inv (with_depth c d (with_cpu c x m)).
Proof.
  intros [Hex Hlo Hcpu Hon Hw Hno Hin] Hx Hi. constructor; auto; intros c0; simpl.
  - at_cases; [exact Hx|apply Hno].
  - at_cases; [exact Hi|apply Hin].
Qed.

Lemma pop_off_ok x x' :
  pop_off x = inl x' -> noff x' = noff x - 1 /\ (0 < noff x' -> intr x' = false) /\ 1 <= noff x.
Proof.
  unfold pop_off. destruct (intr x) eqn:E; [discriminate|]. destruct (noff x <? 1) eqn:E1; [discriminate|].
  intros [= <-]. simpl. split; [reflexivity|]. split; [|lia]. intros H.
  destruct (noff x - 1 =? 0) eqn:E2; [lia|]. reflexivity.
Qed.

(** Moving the program counter of [c] when what it owns stays the same. *)
Lemma inv_move c p m :
  inv m -> pcs m c <> Idle -> p <> Idle ->
  pending p = pending (pcs m c) ->
  (forall lk, p = RelCpu lk <-> pcs m c = RelCpu lk) ->
  (forall lk, p = AcqCheck lk \/ p = AcqSwap lk -> lk ∉ hold m c) ->
  inv (with_pc c p m).
Proof.
  intros [Hex Hlo Hcpu Hon Hw Hno Hin] Hni Hp Hpe Hr Hwt. constructor; intros c0; simpl.
  - intros c1 lk. rewrite !owned_elem. simpl. intros H1 H2. apply (Hex c0 c1 lk); rewrite owned_elem;
      at_cases; rewrite ?Hpe in *; auto.
  - intros lk. rewrite owned_elem. simpl. intros H1. apply (Hlo c0). rewrite owned_elem.
    at_cases; rewrite ?Hpe in *; auto.
  - intros lk. rewrite Hcpu. at_cases; [by rewrite Hr|reflexivity].
  - destruct (Hon c0) as [Hd Hq]. split; [auto|]. at_cases; [rewrite Hpe|]; auto.
  - intros lk. at_cases; auto.
  - at_cases; [|apply Hno]. rewrite Hno, !decide_False by auto. reflexivity.
  - apply Hin.
Qed.

(** The failed test-and-set stores the 1 that was there. *)
Lemma inv_spin lk m :
  inv m -> inv (with_lock_at lk (Spinlock 1 (lcpu (locks m lk))) m).
Proof.
  intros [Hex Hlo Hcpu Hon Hw Hno Hin]. constructor; auto; intros c0 lk0; simpl.
  - intros H. at_cases; simpl; [lia|]. eapply Hlo; eauto.
  - at_cases; simpl; apply Hcpu.
Qed.

(** The successful test-and-set makes [c] the owner. *)
Lemma inv_swap c lk m :
  inv m -> pcs m c = AcqSwap lk -> locked (locks m lk) = 0 ->
  inv (with_pc c (AcqCpu lk) (with_lock_at lk (Spinlock 1 (lcpu (locks m lk))) m)).
Proof.
  intros Hinv Hpc Hfree. pose proof Hinv as [Hex Hlo Hcpu Hon Hw Hno Hin].
  assert (Hnone : forall c', lk ∉ owned m c') by (intros c' H; apply (Hlo c' lk); auto).
  assert (Hown : forall c0 lk0, lk0 ∈ owned (with_pc c (AcqCpu lk)
      (with_lock_at lk (Spinlock 1 (lcpu (locks m lk))) m)) c0 ->
      lk0 ∈ owned m c0 \/ (c0 = c /\ lk0 = lk)).
  { intros c0 lk0. rewrite !owned_elem. simpl. at_cases; [|tauto]. rewrite Hpc. simpl.
    rewrite elem_of_singleton. tauto. }
  constructor; intros c0; simpl.
  - intros c1 lk0 H1 H2. destruct (Hown _ _ H1) as [H1'|[-> ->]], (Hown _ _ H2) as [H2'|[-> E]];
      subst; auto; try (exfalso; eapply Hnone; eauto; fail). eapply Hex; eauto.
  - intros lk0 H1. at_cases; simpl; [lia|]. destruct (Hown _ _ H1) as [H1'|[-> ->]]; [|done].
    eapply Hlo; eauto.
  - intros lk0. assert (Hc : lcpu (set_at (locks m) lk (Spinlock 1 (lcpu (locks m lk))) lk0) = lcpu (locks m lk0)).
    { at_cases; reflexivity. }
    rewrite Hc, Hcpu. clear Hc. at_cases; [rewrite Hpc|reflexivity]. intuition discriminate.
  - destruct (Hon c0) as [Hd Hq]. split; [auto|]. intros lk0. at_cases; [|apply Hq]. simpl.
    rewrite elem_of_singleton. intros ->. apply Hw. auto.
  - intros lk0. at_cases; [|apply Hw]. intros [H|H]; discriminate.
  - at_cases; [|apply Hno]. rewrite Hno, Hpc. reflexivity.
  - apply Hin.
Qed.

(** [lk->cpu = mycpu()] completes [acquire]. *)
Lemma inv_acquired c lk m :
  inv m -> pcs m c = AcqCpu lk ->
  inv (with_pc c Idle (with_hold c (lk :: hold m c)
        (with_lock_at lk (Spinlock (locked (locks m lk)) (Some c)) m))).
Proof.
  intros Hinv Hpc. pose proof Hinv as [Hex Hlo Hcpu Hon Hw Hno Hin].
  assert (Hme : lk ∈ owned m c) by (rewrite owned_elem, Hpc; right; apply in_pending).
  assert (Hlk : lk ∉ hold m c) by (apply Hon; rewrite Hpc; apply in_pending).
  set (m' := with_pc _ _ _).
  assert (Hown : forall c0 lk0, lk0 ∈ owned m' c0 -> lk0 ∈ owned m c0).
  { intros c0 lk0. rewrite !owned_elem. unfold m'. simpl. at_cases; [|tauto]. rewrite Hpc. simpl.
    rewrite elem_of_cons, elem_of_singleton, elem_of_empty. tauto. }
  constructor; intros c0; simpl.
  - intros c1 lk0 H1 H2. eapply Hex; eauto.
  - intros lk0 H1. at_cases; simpl; eapply Hlo; eauto.
  - intros lk0. destruct (decide (lk0 = lk)) as [->|E]; rewrite ?set_at_eq, ?(set_at_ne (locks m)) by auto; simpl.
    + split.
      * intros [= <-]. left. rewrite set_at_eq. by left.
      * intros H. f_equal. apply (Hex c c0 lk); [auto|]. rewrite owned_elem.
        at_cases; [right; rewrite Hpc; apply in_pending|].
        destruct H as [H|H]; [by left|right]. rewrite H. apply in_pending.
    + rewrite Hcpu. at_cases; [|reflexivity]. rewrite elem_of_cons, Hpc. intuition congruence.
  - split; at_cases; [constructor; [auto|apply Hon]|apply Hon|simpl; intros lk0 H; by apply elem_of_empty in H|apply Hon].
  - intros lk0. at_cases; [|apply Hw]. intros [H|H]; discriminate.
  - at_cases; [|apply Hno]. rewrite Hno, Hpc. simpl. lia.
  - apply Hin.
Qed.

(** [release] starts: the lock is no longer counted as held, but owned. *)
Lemma inv_release c lk m :
  inv m -> pcs m c = Idle -> lk ∈ hold m c ->
  inv (with_pc c (RelCpu lk) (with_hold c (drop_lock lk (hold m c)) m)).
Proof.
  intros Hinv Hpc Hlk. pose proof Hinv as [Hex Hlo Hcpu Hon Hw Hno Hin].
  destruct (Hon c) as [Hd _]. destruct (drop_lock_spec lk (hold m c) Hd Hlk) as [Hd' Hlen].
  set (m' := with_pc _ _ _).
  assert (Hown : forall c0 lk0, lk0 ∈ owned m' c0 -> lk0 ∈ owned m c0).
  { intros c0 lk0. rewrite !owned_elem. unfold m'. simpl. at_cases; [|tauto]. simpl.
    rewrite elem_of_drop_lock, elem_of_singleton by auto. intros [[? _]| ->]; auto. }
  constructor; intros c0; simpl.
  - intros c1 lk0 H1 H2. eapply Hex; eauto.
  - intros lk0 H1. eapply Hlo; eauto.
  - intros lk0. rewrite Hcpu. at_cases; [|reflexivity].
    rewrite elem_of_drop_lock, Hpc by auto. destruct (decide (lk0 = lk)) as [->|]; [tauto|].
    intuition congruence.
  - split; at_cases; auto; try apply Hon. intros lk0. simpl. rewrite elem_of_singleton. intros ->.
    rewrite elem_of_drop_lock by auto. tauto.
  - intros lk0. at_cases; [|apply Hw]. intros [H|H]; discriminate.
  - at_cases; [|apply Hno]. rewrite Hno, Hpc, Hlen. simpl. lia.
  - apply Hin.
Qed.

(** [lk->cpu = 0] and the store that frees the lock. *)
Lemma inv_clear c lk m :
  inv m -> pcs m c = RelCpu lk ->
  inv (with_pc c (RelUnlock lk) (with_lock_at lk (Spinlock (locked (locks m lk)) None) m)).
Proof.
  intros Hinv Hpc. pose proof Hinv as [Hex Hlo Hcpu Hon Hw Hno Hin].
  assert (Hme : lk ∈ owned m c) by (rewrite owned_elem, Hpc; right; apply in_pending).
  assert (Hlk : lk ∉ hold m c) by (apply Hon; rewrite Hpc; apply in_pending).
  set (m' := with_pc _ _ _).
  assert (Hown : forall c0 lk0, lk0 ∈ owned m' c0 -> lk0 ∈ owned m c0).
  { intros c0 lk0. rewrite !owned_elem. unfold m'. simpl. at_cases; [|tauto]. by rewrite Hpc. }
  constructor; intros c0; simpl.
  - intros c1 lk0 H1 H2. eapply Hex; eauto.
  - intros lk0 H1. at_cases; simpl; eapply Hlo; eauto.
  - intros lk0. destruct (decide (lk0 = lk)) as [->|E];
      rewrite ?set_at_eq, ?(set_at_ne (locks m)) by auto; simpl.
    + split; [discriminate|]. intros H. exfalso. at_cases.
      * destruct H as [H|H]; [contradiction|discriminate].
      * assert (c0 = c); [|contradiction]. apply (Hex c0 c lk); [|auto]. rewrite owned_elem.
        destruct H as [H|H]; [by left|right; rewrite H; apply in_pending].
    + rewrite Hcpu. at_cases; [|reflexivity]. rewrite Hpc. intuition congruence.
  - split; at_cases; try apply Hon. intros lk0. simpl. rewrite elem_of_singleton. by intros ->.
  - intros lk0. at_cases; [|apply Hw]. intros [H|H]; discriminate.
  - at_cases; [|apply Hno]. rewrite Hno, Hpc. reflexivity.
  - apply Hin.
Qed.

Lemma inv_unlock c lk m :
  inv m -> pcs m c = RelUnlock lk ->
  inv (with_pc c RelPop (with_lock_at lk (Spinlock 0 (lcpu (locks m lk))) m)).
Proof.
  intros Hinv Hpc. pose proof Hinv as [Hex Hlo Hcpu Hon Hw Hno Hin].
  assert (Hme : lk ∈ owned m c) by (rewrite owned_elem, Hpc; right; apply in_pending).
  assert (Hlk : lk ∉ hold m c) by (apply Hon; rewrite Hpc; apply in_pending).
  set (m' := with_pc _ _ _).
  assert (Hown : forall c0 lk0, lk0 ∈ owned m' c0 -> lk0 ∈ owned m c0 /\ lk0 <> lk).
  { intros c0 lk0 H. assert (H' : lk0 ∈ owned m c0).
    { revert H. rewrite !owned_elem. unfold m'. simpl. at_cases; [|tauto]. simpl.
      rewrite elem_of_empty. tauto. }
    split; [auto|]. intros ->. assert (c0 = c) as -> by (eapply Hex; eauto).
    revert H. rewrite owned_elem. unfold m'. simpl. rewrite set_at_eq. simpl.
    rewrite elem_of_empty. tauto. }
  constructor; intros c0; simpl.
  - intros c1 lk0 H1 H2. eapply Hex; apply Hown; eauto.
  - intros lk0 H1. apply Hown in H1 as [H1 Hne]. rewrite set_at_ne by auto. eapply Hlo; eauto.
  - intros lk0. assert (Hc : lcpu (set_at (locks m) lk (Spinlock 0 (lcpu (locks m lk))) lk0) = lcpu (locks m lk0)).
    { at_cases; reflexivity. }
    rewrite Hc, Hcpu. clear Hc. at_cases; [rewrite Hpc|reflexivity]. intuition discriminate.
  - destruct (Hon c0) as [Hd Hq]. split; [auto|]. intros lk0. at_cases; [|apply Hq]. simpl.
    rewrite elem_of_empty. tauto.
  - intros lk0. at_cases; [|apply Hw]. intros [H|H]; discriminate.
  - at_cases; [|apply Hno]. rewrite Hno, Hpc. reflexivity.
  - apply Hin.
Qed.

(** [pop_off] completes [release]. *)
Lemma inv_popped c x m :
  inv m -> pcs m c = RelPop -> noff x = noff (cpus m c) - 1 -> (0 < noff x -> intr x = false) ->
  inv (with_pc c Idle (with_cpu c x m)).
Proof.
  intros [Hex Hlo Hcpu Hon Hw Hno Hin] Hpc Hx Hi.
  assert (Hown : forall c0 lk0, lk0 ∈ owned (with_pc c Idle (with_cpu c x m)) c0 -> lk0 ∈ owned m c0).
  { intros c0 lk0. rewrite !owned_elem. simpl. at_cases; [|tauto]. by rewrite Hpc. }
  constructor; intros c0; simpl.
  - intros c1 lk0 H1 H2. eapply Hex; eauto.
  - intros lk0 H1. eapply Hlo; eauto.
  - intros lk0. rewrite Hcpu. at_cases; [rewrite Hpc|reflexivity]. intuition discriminate.
  - destruct (Hon c0) as [Hd Hq]. split; [auto|]. intros lk0. at_cases; [|apply Hq]. simpl.
    rewrite elem_of_empty. tauto.
  - intros lk0. at_cases; [|apply Hw]. intros [H|H]; discriminate.
  - at_cases; [|apply Hno]. rewrite Hx, Hno, Hpc. simpl. lia.
  - at_cases; [exact Hi|apply Hin].
Qed.

(** [intr_on] and [intr_off] outside any critical section. *)
Lemma inv_intr_set c x m :
  inv m -> noff x = noff (cpus m c) -> noff x = 0 -> inv (with_cpu c x m).
Proof.
  intros [Hex Hlo Hcpu Hon Hw Hno Hin] Hx H0. constructor; auto; intros c0; simpl; at_cases; auto.
  - rewrite Hx. apply Hno.
  - lia.
Qed.

Lemma inv_idle c m :
  inv m -> pcs m c = Idle -> noff (cpus m c) = Z.of_nat (length (hold m c) + depth m c).
Proof. intros Hinv Hpc. rewrite (inv_noff m Hinv c), Hpc. simpl. lia. Qed.

Lemma spin_inv_step c q m m' : inv m -> legal c q m -> cpu_step c q m = Next m' -> inv m'.
Proof.
  intros Hinv Hleg Hs. unfold cpu_step in Hs. unfold legal in Hleg.
  destruct (pcs m c) as [|lk|lk|lk|lk|lk|] eqn:Hpc; [specialize (Hleg eq_refl)|clear Hleg..].
  - pose proof (inv_idle c m Hinv Hpc) as Hno.
    destruct q as [lk|lk| | | |]; simplify_eq.
    + by apply inv_enter.
    + destruct (negb _); simplify_eq. by apply inv_release.
    + apply inv_cpu_only; simpl; [auto| |auto]. rewrite Hpc. simpl. lia.
    + destruct (pop_off _) as [x|] eqn:Ep; simplify_eq. apply pop_off_ok in Ep as (Ex & Hi & _).
      apply inv_cpu_only; [auto| |auto]. rewrite Hpc. simpl. lia.
    + destruct Hleg as [Hh Hd]. rewrite Hh, Hd in Hno. by apply inv_intr_set.
    + destruct Hleg as [Hh Hd]. rewrite Hh, Hd in Hno. by apply inv_intr_set.
  - destruct (holding_on _ _); simplify_eq. apply inv_move; rewrite ?Hpc; try discriminate; auto.
    + intros lk0. split; discriminate.
    + intros lk0 [H|H]; [discriminate|]. injection H as <-. apply (inv_wait m Hinv). auto.
  - destruct (locked (locks m lk) =? 0) eqn:El; simpl in Hs; simplify_eq.
    + apply inv_swap; auto. lia.
    + by apply inv_spin.
  - simplify_eq. by apply inv_acquired.
  - simplify_eq. by apply inv_clear.
  - simplify_eq. by apply inv_unlock.
  - destruct (pop_off _) as [x|] eqn:Ep; simplify_eq. apply pop_off_ok in Ep as (Ex & Hi & _).
    by apply inv_popped.
Qed.

Lemma inv_init ena : inv (init ena).
Proof.
  assert (Hno : forall c lk, lk ∉ owned (init ena) c).
  { intros c lk. rewrite owned_elem. simpl. rewrite elem_of_nil, elem_of_empty. tauto. }
  constructor; simpl.
  - intros c c' lk H. by apply Hno in H.
  - intros c lk H. by apply Hno in H.
  - intros c lk. split; [discriminate|]. intros [H|H]; [by apply elem_of_nil in H|discriminate].
  - intros c. split; [constructor|]. intros lk H. by apply elem_of_empty in H.
  - intros c lk _ H. by apply elem_of_nil in H.
  - reflexivity.
  - intros c. lia.
Qed.

Lemma reach_inv ena m : reach ena m -> inv m.
Proof. induction 1 as [|c q m m' _ IH Hl Hs]; [apply inv_init|by eapply spin_inv_step]. Qed.

Lemma holding_hold c lk m :
  inv m -> pcs m c = Idle \/ pcs m c = AcqCheck lk -> holding_on (locks m lk) c = true <-> lk ∈ hold m c.
Proof.
  intros Hinv Hpc. unfold holding_on. rewrite andb_true_iff, bool_decide_eq_true, (inv_cpu m Hinv).
  split.
  - intros [_ [H|H]]; [auto|]. destruct Hpc; congruence.
  - intros H. split; [|auto]. apply negb_true_iff, Z.eqb_neq. apply (inv_locked m Hinv c).
    rewrite owned_elem. auto.
Qed.

(** The atomic locks that the rest of the kernel sees: [o c] is what CPU [c]
    owns, a try takes the lock exactly when nobody owns it, and its owner
    gives it back. *)
Inductive aop := ASkip | ATry (c lk : nat) | AFree (c lk : nat).

Inductive atomic_step (o o' : nat -> gset nat) : aop -> Prop :=
  | at_skip : (forall c, o' c = o c) -> atomic_step o o' ASkip
  | at_take c lk :
      (forall c', lk ∉ o c') -> o' c = {[lk]} ∪ o c -> (forall c', c' <> c -> o' c' = o c') ->
      atomic_step o o' (ATry c lk)
  | at_busy c lk c0 : lk ∈ o c0 -> (forall c', o' c' = o c') -> atomic_step o o' (ATry c lk)
  | at_free c lk :
      lk ∈ o c -> o' c = o c ∖ {[lk]} -> (forall c', c' <> c -> o' c' = o c') ->
      atomic_step o o' (AFree c lk).

(** The atomic operation behind the next step of CPU [c]: the test-and-set of
    [acquire] is the try, the last store of [release] gives the lock back, and
    nothing else is seen. *)
Definition aop_of (m : mach) (c : nat) : aop :=
  match pcs m c with AcqSwap lk => ATry c lk | RelUnlock lk => AFree c lk | _ => ASkip end.

(** The words in memory say who owns what: [lk->locked] is 0 exactly when
    nobody owns [lk], and [lk->cpu] names the owner or is 0. *)
Record couples (m : mach) (o : nat -> gset nat) : Prop := Couples {
  cp_locked : forall lk, locked (locks m lk) <> 0 <-> exists c, lk ∈ o c;
  cp_cpu : forall lk c, lcpu (locks m lk) = Some c -> lk ∈ o c;
}.

(** What one step does to what the CPUs own. *)
Lemma owned_step c q m m' :
  inv m -> legal c q m -> cpu_step c q m = Next m' -> (forall lk, locked (locks m lk) <> 0 -> exists c, lk ∈ owned m c) ->
  atomic_step (owned m) (owned m') (aop_of m c).
Proof.
  intros Hinv Hlegal Hstep Hfree. unfold cpu_step in Hstep. unfold legal in Hlegal. unfold aop_of.
  destruct (pcs m c) as [|lk|lk|lk|lk|lk|] eqn:Hpc; [specialize (Hlegal eq_refl)|clear Hlegal..].
  - destruct q as [lk|lk| | | |]; simplify_eq; try (apply at_skip; reflexivity).
    + apply at_skip. intros c0. unfold owned. simpl. at_cases; [rewrite Hpc|]; reflexivity.
    + destruct (negb _); simplify_eq. apply at_skip. intros c0. unfold owned. simpl. at_cases; [|reflexivity].
      destruct (inv_once m Hinv c) as [Hd _]. apply set_eq. intros x. rewrite Hpc. simpl.
      rewrite !elem_of_union, !elem_of_list_to_set, elem_of_drop_lock, elem_of_singleton, elem_of_empty by auto.
      destruct (decide (x = lk)) as [->|]; tauto.
    + destruct (pop_off _); simplify_eq. apply at_skip. reflexivity.
  - destruct (holding_on _ _); simplify_eq. apply at_skip. intros c0. unfold owned. simpl.
    at_cases; [rewrite Hpc|]; reflexivity.
  - destruct (locked (locks m lk) =? 0) eqn:El; simpl in Hstep; simplify_eq.
    2:{ destruct (Hfree lk) as [c0 H0]; [lia|]. by apply (at_busy _ _ c lk c0). }
    apply (at_take _ _ c lk).
    + intros c' H. apply (inv_locked m Hinv c' lk H). lia.
    + unfold owned. simpl. rewrite set_at_eq, Hpc. simpl. apply set_eq. intros x.
      rewrite !elem_of_union, elem_of_empty. tauto.
    + intros c' Hne. unfold owned. simpl. by rewrite set_at_ne.
  - simplify_eq. apply at_skip. intros c0. unfold owned. simpl. at_cases; [rewrite Hpc|reflexivity].
    simpl. apply set_eq. intros x. rewrite !elem_of_union, elem_of_empty. tauto.
  - simplify_eq. apply at_skip. intros c0. unfold owned. simpl. at_cases; [rewrite Hpc|]; reflexivity.
  - simplify_eq. apply (at_free _ _ c lk).
    + rewrite owned_elem, Hpc. right. apply in_pending.
    + destruct (inv_once m Hinv c) as [_ Hp]. rewrite Hpc in Hp. simpl in Hp.
      specialize (Hp lk ltac:(by apply elem_of_singleton)).
      unfold owned. simpl. rewrite set_at_eq, Hpc. simpl. apply set_eq. intros x.
      rewrite elem_of_difference, !elem_of_union, elem_of_list_to_set, elem_of_singleton, elem_of_empty.
      destruct (decide (x = lk)) as [->|]; tauto.
    + intros c' Hne. unfold owned. simpl. by rewrite set_at_ne.
  - destruct (pop_off _) as [y|]; simplify_eq. apply at_skip. intros c0. unfold owned. simpl.
    at_cases; [rewrite Hpc|]; reflexivity.
Qed.

(** What one step does to the [locked] words. *)
Lemma locked_step c q m m' lk :
  cpu_step c q m = Next m' -> locked (locks m' lk) <> 0 ->
  (locked (locks m lk) <> 0 /\ aop_of m c <> AFree c lk) \/ aop_of m c = ATry c lk.
Proof.
  unfold cpu_step, aop_of. intros Hs.
  destruct (pcs m c) as [|k|k|k|k|k|] eqn:Hpc.
  - destruct q; simplify_eq; try (by left); [destruct (negb _)|destruct (pop_off _)]; simplify_eq; by left.
  - destruct (holding_on _ _); simplify_eq; by left.
  - destruct (negb _); simplify_eq; simpl; at_cases; auto; by left.
  - simplify_eq. simpl. at_cases; by left.
  - simplify_eq. simpl. at_cases; by left.
  - simplify_eq. simpl. at_cases; [done|]. intros H. left. split; [exact H|congruence].
  - destruct (pop_off _); simplify_eq; by left.
Qed.

(** A step of the atomic locks keeps the owner of a lock it does not free, and
    after a try somebody owns the lock. *)
Lemma atomic_keeps o o' c a lk :
  atomic_step o o' a -> (exists c0, lk ∈ o c0) -> a <> AFree c lk -> (forall c0 k, a = AFree c0 k -> c0 = c) ->
  exists c0, lk ∈ o' c0.
Proof.
  intros Ha [c0 H0] Hne Hc. exists c0. destruct Ha as [He|c1 k _ E He|c1 k c2 _ He|c1 k _ E He].
  - by rewrite He.
  - destruct (decide (c0 = c1)) as [->|]; [rewrite E; set_solver|by rewrite He].
  - by rewrite He.
  - assert (c1 = c) as -> by eauto. destruct (decide (c0 = c)) as [->|]; [|by rewrite He].
    rewrite E. assert (lk <> k) by congruence. set_solver.
Qed.

Lemma try_owned o o' c lk : atomic_step o o' (ATry c lk) -> exists c0, lk ∈ o' c0.
Proof.
  inversion 1 as [|c1 k _ E _|c1 k c2 H2 He|]; subst.
  - exists c. rewrite E. set_solver.
  - exists c2. by rewrite He.
Qed.

(** A lock whose word is not 0 has an owner. *)
Lemma reach_owner ena m : reach ena m -> forall lk, locked (locks m lk) <> 0 -> exists c, lk ∈ owned m c.
Proof.
  induction 1 as [|c q m m' Hr IH Hl Hs]; intros lk; [done|]. intros Hlk.
  pose proof (owned_step _ _ _ _ (reach_inv _ _ Hr) Hl Hs IH) as Ha.
  destruct (locked_step _ _ _ _ _ Hs Hlk) as [[H0 Hne]|E].
  - eapply atomic_keeps; eauto. intros c0 k. unfold aop_of. destruct (pcs m c); congruence.
  - rewrite E in Ha. by eapply try_owned.
Qed.

Lemma reach_couples ena m : reach ena m -> couples m (owned m).
Proof.
  intros Hr. pose proof (reach_inv _ _ Hr) as Hinv. constructor.
  - intros lk. split; [by apply (reach_owner ena)|]. intros [c Hc]. by apply (inv_locked m Hinv c).
  - intros lk c H. apply (inv_cpu m Hinv) in H. rewrite owned_elem.
    destruct H as [H|H]; [by left|right; rewrite H; apply in_pending].
Qed.

(** Whether interrupts are, or will be after the last [pop_off], enabled. *)
Definition enabled (x : cpu) : bool := if noff x =? 0 then intr x else intena x.

Lemma push_enabled x : 0 <= noff x -> enabled (push_off x) = enabled x.
Proof.
  intros H. unfold enabled, push_off. simpl. destruct (noff x + 1 =? 0) eqn:E; [lia|].
  destruct (noff x =? 0); reflexivity.
Qed.

Lemma pop_enabled x x' : pop_off x = inl x' -> enabled x' = enabled x.
Proof.
  unfold pop_off, enabled. destruct (intr x) eqn:Ei; [discriminate|].
  destruct (noff x <? 1) eqn:E; [discriminate|]. intros [= <-]. simpl.
  destruct (noff x =? 0) eqn:E0; [lia|]. destruct (noff x - 1 =? 0); [|reflexivity].
  simpl. destruct (intena x); reflexivity.
Qed.

Lemma noff_nonneg c m : inv m -> 0 <= noff (cpus m c).
Proof. intros H. rewrite (inv_noff m H c). destruct (decide _); lia. Qed.

Lemma pop_off_runs c m :
  inv m -> 1 <= noff (cpus m c) -> exists x, pop_off (cpus m c) = inl x.
Proof.
  intros Hinv H. unfold pop_off. rewrite (inv_intr m Hinv c) by lia.
  destruct (noff (cpus m c) <? 1) eqn:E; [lia|]. eauto.
Qed.

(** C4: spin locks exclude each other on any number of CPUs and in any
    interleaving of their memory operations: no lock is held by two CPUs, and
    a CPU that follows the calling rules never hits one of the panics of
    [acquire], [release] or [pop_off]. *)
Theorem spinlock_exclusion ena m c q
    (Hreach : reach ena m) (Hlegal : legal c q m) :
  (forall c1 c2 lk, lk ∈ hold m c1 -> lk ∈ hold m c2 -> c1 = c2) /\
  exists m', cpu_step c q m = Next m'.
Proof.
  pose proof (reach_inv _ _ Hreach) as Hinv. split.
  { intros c1 c2 lk H1 H2. apply (inv_excl m Hinv c1 c2 lk); rewrite owned_elem; auto. }
  unfold cpu_step. unfold legal in Hlegal.
  destruct (pcs m c) as [|lk|lk|lk|lk|lk|] eqn:Hpc; [specialize (Hlegal eq_refl)|clear Hlegal..]; eauto.
  - destruct q as [lk|lk| | | |]; eauto.
    + apply (holding_hold c lk m Hinv) in Hlegal; [|auto]. rewrite Hlegal. simpl. eauto.
    + destruct (pop_off_runs c m Hinv) as [x ->]; [|eauto].
      rewrite (inv_idle c m Hinv Hpc). lia.
  - destruct (holding_on (locks m lk) c) eqn:Eh; [|eauto]. exfalso.
    apply (holding_hold c lk m Hinv) in Eh; [|auto]. apply (inv_wait m Hinv c lk); auto.
  - destruct (negb _); eauto.
  - destruct (pop_off_runs c m Hinv) as [x ->]; [|eauto].
    rewrite (inv_noff m Hinv c), Hpc. simpl. lia.
Qed.

(** C36: the lock implementation refines atomic locks.  In every reachable
    machine the words in memory agree with who owns what ([lk->locked] is 0
    exactly when nobody owns [lk], [lk->cpu] names the owner or is 0), and
    whichever CPU steps, that step is the atomic operation its place in the
    code stands for: the test-and-set of [acquire] takes the lock exactly when
    nobody owns it, the last store of [release] gives it back, every other
    instruction of the two functions is invisible, and afterwards the words
    agree with the new owners. *)
Theorem spinlock_refines ena m m' c q
    (Hreach : reach ena m) (Hlegal : legal c q m) (Hstep : cpu_step c q m = Next m') :
  couples m (owned m) /\
  atomic_step (owned m) (owned m') (aop_of m c) /\
  couples m' (owned m').
Proof.
  pose proof (reach_inv _ _ Hreach) as Hinv. split_and!.
  - by apply (reach_couples ena).
  - apply (owned_step c q); auto. by apply (reach_owner ena).
  - apply (reach_couples ena). by eapply reach_step.
Qed.

(** interrupts are off on a CPU from the [push_off] of its first lock
    until the [pop_off] of its last one, in whatever order the locks are
    released, and then are what they were before: no step of [acquire],
    [release], [push_off] or [pop_off] changes the setting that the last
    [pop_off] restores. *)
Theorem push_pop_off_nesting ena m c q m' c0
    (Hreach : reach ena m) (Hlegal : legal c q m) (Hstep : cpu_step c q m = Next m')
    (Hq : q <> IntrOn /\ q <> IntrOff) :
  (hold m c0 <> [] -> intr (cpus m c0) = false) /\
  (pcs m c0 = Idle -> hold m c0 = [] -> depth m c0 = O -> enabled (cpus m c0) = intr (cpus m c0)) /\
  enabled (cpus m' c0) = enabled (cpus m c0).
Proof.
  pose proof (reach_inv _ _ Hreach) as Hinv. split; [|split].
  - intros Hh. apply (inv_intr m Hinv). rewrite (inv_noff m Hinv).
    destruct (hold m c0); [contradiction|]. simpl. destruct (decide _); lia.
  - intros Hpc Hh Hd. unfold enabled. rewrite (inv_idle c0 m Hinv Hpc), Hh, Hd. reflexivity.
  - pose proof (noff_nonneg c m Hinv) as Hnn. unfold cpu_step in Hstep.
    destruct (pcs m c) as [|lk|lk|lk|lk|lk|] eqn:Hpc.
    + destruct q as [lk|lk| | | |]; simplify_eq; try tauto.
      * simpl. at_cases; [by apply push_enabled|reflexivity].
      * destruct (negb _); simplify_eq. reflexivity.
      * simpl. at_cases; [by apply push_enabled|reflexivity].
      * destruct (pop_off _) as [x|] eqn:Ep; simplify_eq. simpl.
        at_cases; [by eapply pop_enabled|reflexivity].
    + destruct (holding_on _ _); simplify_eq. reflexivity.
    + destruct (negb _); simplify_eq; reflexivity.
    + simplify_eq. reflexivity.
    + simplify_eq. reflexivity.
    + simplify_eq. reflexivity.
    + destruct (pop_off _) as [x|] eqn:Ep; simplify_eq. simpl.
      at_cases; [by eapply pop_enabled|reflexivity].
Qed.

(** ** Two CPUs race for lock 0 *)

Definition run_step (m : mach) (x : nat * cmd) : mach :=
  match cpu_step (fst x) (snd x) m with Next m' => m' | Panic _ => m end.

(** CPU 0 acquires lock 0 while CPU 1 spins on it. *)
Definition demo_schedule : list (nat * cmd) :=
  [(0, Acquire 0); (1, Acquire 0); (0, Acquire 0); (1, Acquire 0); (0, Acquire 0);
   (1, Acquire 0); (0, Acquire 0); (1, Acquire 0)]%nat.

Definition legalb (c : nat) (q : cmd) (m : mach) : bool :=
  match pcs m c, q with
  | Idle, Acquire lk => bool_decide (lk ∉ hold m c)
  | Idle, Release lk => bool_decide (lk ∈ hold m c)
  | Idle, PopOff => bool_decide (depth m c <> O)
  | Idle, (IntrOn | IntrOff) => bool_decide (hold m c = [] /\ depth m c = O)
  | _, _ => true
  end.

Lemma legalb_ok c q m : legalb c q m = true -> legal c q m.
Proof.
  unfold legalb, legal. intros H Hpc. rewrite Hpc in H.
  destruct q; auto; by apply bool_decide_eq_true in H.
Qed.

Fixpoint legal_run (m : mach) (l : list (nat * cmd)) : bool :=
  match l with
  | [] => true
  | x :: l' => legalb (fst x) (snd x) m &&
      match cpu_step (fst x) (snd x) m with Next m' => legal_run m' l' | Panic _ => false end
  end.

Lemma legal_run_reach ena l : forall m,
  reach ena m -> legal_run m l = true -> reach ena (fold_left run_step l m).
Proof.
  induction l as [|x l IH]; intros m Hm Hl; [exact Hm|]. simpl in *.
  apply andb_true_iff in Hl as [Hx Hl]. unfold run_step at 2.
  destruct (cpu_step (fst x) (snd x) m) as [m'|] eqn:E; [|discriminate].
  apply IH; [|exact Hl]. eapply reach_step; eauto. by apply legalb_ok.
Qed.

Definition demo_mach : mach := fold_left run_step demo_schedule (init (fun _ => true)).

Lemma demo_reach : reach (fun _ => true) demo_mach.
Proof.
  apply legal_run_reach; [constructor|]. vm_compute. reflexivity.
Qed.

Lemma spinlock_exclusion_witness :
  (forall c1 c2 lk, lk ∈ hold demo_mach c1 -> lk ∈ hold demo_mach c2 -> c1 = c2) /\
  exists m', cpu_step 0 (Release 0) demo_mach = Next m'.
Proof.
  apply (spinlock_exclusion (fun _ => true) demo_mach 0 (Release 0)); [apply demo_reach|].
  intros _. by left.
Defined.

(** CPU 0 is about to do the store that frees the lock CPU 1 spins on. *)
Definition demo_releasing : mach :=
  fold_left run_step [(0, Release 0); (0, Release 0)]%nat demo_mach.

Lemma spinlock_refines_witness :
  let m' := run_step demo_releasing (0%nat, Release 0) in
  couples demo_releasing (owned demo_releasing) /\
  atomic_step (owned demo_releasing) (owned m') (AFree 0 0) /\
  couples m' (owned m').
Proof.
  apply (spinlock_refines (fun _ => true) demo_releasing _ 0 (Release 0)); [| |reflexivity].
  - apply legal_run_reach; [apply demo_reach|]. vm_compute. reflexivity.
  - intros H. discriminate H.
Defined.
