(* ===== verification/Mem.v ===== *)
(** * Physical memory

    Memory is a function from addresses to bytes, with little-endian loads and
    stores of [n] bytes and the closed forms of [memset] and [memmove] that
    the kernel components use.  Cstring.v translates the loops of
    kernel/string.c and proves that they compute these closed forms. *)

From S2P Require Import Prelude.

Definition mem := Z -> Z.

Definition byte_at (m : mem) (a : Z) : Z := u8 (m a).

(** [*p = v] for an [n]-byte object at [a]. *)
Definition mstore (n a v : Z) (m : mem) : mem := fun x =>
  if (a <=? x) && (x <? a + n) then u8 (Z.shiftr v (8 * (x - a))) else m x.

Fixpoint mload (n : nat) (a : Z) (m : mem) : Z :=
  match n with
  | O => 0
  | S n' => byte_at m a + 256 * mload n' (a + 1) m
  end.

Abbreviation load64 := (mload 8).
Abbreviation store64 := (mstore 8).
Abbreviation load32 := (mload 4).
Abbreviation store32 := (mstore 4).

(** [memset(dst, c, n)] and [memmove(dst, src, n)]. *)
Definition mset (dst c n : Z) (m : mem) : mem := fun x =>
  if (dst <=? x) && (x <? dst + n) then u8 c else m x.
Definition mmove (dst src n : Z) (m : mem) : mem := fun x =>
  if (dst <=? x) && (x <? dst + n) then m (x - dst + src) else m x.

(** [n] bytes from [a], and a store of a list of bytes. *)
Fixpoint bytes_at (m : mem) (a : Z) (n : nat) : list Z :=
  match n with O => [] | S n' => byte_at m a :: bytes_at m (a + 1) n' end.

Definition mwrite (a : Z) (l : list Z) (m : mem) : mem := fun x =>
  if (a <=? x) && (x <? a + Z.of_nat (length l))
  then default 0 (l !! Z.to_nat (x - a)) else m x.

(** ** Lemmas *)

(** Two memories that agree on [a, a+n). *)
Definition agree (m m' : mem) (a n : Z) : Prop :=
  forall x, a <= x < a + n -> m x = m' x.

Lemma byte_at_range m a : 0 <= byte_at m a < 256.
Proof. apply u8_range. Qed.

Lemma mload_range n a m : 0 <= mload n a m < 256 ^ Z.of_nat n.
Proof.
  revert a. induction n as [|n IH]; intros a.
  - simpl. lia.
  - cbn [mload]. pose proof (byte_at_range m a). specialize (IH (a + 1)).
    rewrite Nat2Z.inj_succ, Z.pow_succ_r by lia. lia.
Qed.

Lemma load64_range a m : 0 <= load64 a m < 18446744073709551616.
Proof. exact (mload_range 8 a m). Qed.

Lemma mload_agree n a m m' :
  agree m m' a (Z.of_nat n) -> mload n a m = mload n a m'.
Proof.
  revert a. induction n as [|n IH]; intros a H; [reflexivity|].
  cbn [mload]. rewrite (IH (a + 1)).
  - unfold byte_at. rewrite (H a) by lia. reflexivity.
  - intros x Hx. apply H. lia.
Qed.

Lemma agree_sym m m' a n : agree m m' a n -> agree m' m a n.
Proof. intros H x Hx. symmetry. auto. Qed.

Lemma agree_trans m1 m2 m3 a n : agree m1 m2 a n -> agree m2 m3 a n -> agree m1 m3 a n.
Proof. intros H1 H2 x Hx. rewrite H1 by auto. auto. Qed.

Lemma agree_sub m m' a n b k : agree m m' a n -> a <= b -> b + k <= a + n -> agree m m' b k.
Proof. intros H ?? x Hx. apply H. lia. Qed.

(** A store touches only its bytes. *)
Lemma mstore_out n a v m x : ~ (a <= x < a + n) -> mstore n a v m x = m x.
Proof.
  intros H. unfold mstore.
  destruct ((a <=? x) && (x <? a + n)) eqn:E; [lia|reflexivity].
Qed.

Lemma mset_out dst c n m x : ~ (dst <= x < dst + n) -> mset dst c n m x = m x.
Proof.
  intros H. unfold mset.
  destruct ((dst <=? x) && (x <? dst + n)) eqn:E; [lia|reflexivity].
Qed.

Lemma mset_in dst c n m x : dst <= x < dst + n -> mset dst c n m x = u8 c.
Proof.
  intros H. unfold mset.
  destruct ((dst <=? x) && (x <? dst + n)) eqn:E; [reflexivity|lia].
Qed.

Lemma mmove_out dst src n m x : ~ (dst <= x < dst + n) -> mmove dst src n m x = m x.
Proof.
  intros H. unfold mmove.
  destruct ((dst <=? x) && (x <? dst + n)) eqn:E; [lia|reflexivity].
Qed.

Lemma mmove_in dst src n m x :
  dst <= x < dst + n -> mmove dst src n m x = m (x - dst + src).
Proof.
  intros H. unfold mmove.
  destruct ((dst <=? x) && (x <? dst + n)) eqn:E; [reflexivity|lia].
Qed.

Lemma mwrite_out a l m x :
  ~ (a <= x < a + Z.of_nat (length l)) -> mwrite a l m x = m x.
Proof.
  intros H. unfold mwrite.
  destruct ((a <=? x) && (x <? a + Z.of_nat (length l))) eqn:E; [lia|reflexivity].
Qed.

Lemma u8_idem z : u8 (u8 z) = u8 z.
Proof. unfold u8. apply Z.mod_mod. lia. Qed.

(** A load sees the last store at its address, truncated to its width. *)
Lemma mload_mstore_aux k n a v m j :
  0 <= j -> j + Z.of_nat k <= n ->
  mload k (a + j) (mstore n a v m) = Z.shiftr v (8 * j) mod 256 ^ Z.of_nat k.
Proof.
  revert j. induction k as [|k IH]; intros j Hj Hk.
  - cbn [mload]. rewrite Z.mod_1_r. reflexivity.
  - cbn [mload]. replace (a + j + 1) with (a + (j + 1)) by lia.
    rewrite IH by lia.
    unfold byte_at, mstore.
    destruct ((a <=? a + j) && (a + j <? a + n)) eqn:E; [|lia].
    rewrite u8_idem. unfold u8.
    replace (a + j - a) with j by lia.
    rewrite Nat2Z.inj_succ, Z.pow_succ_r by lia.
    replace (8 * (j + 1)) with (8 * j + 8) by lia.
    rewrite <- Z.shiftr_shiftr by lia.
    set (w := Z.shiftr v (8 * j)).
    rewrite (Z.shiftr_div_pow2 w 8) by lia.
    change (2 ^ 8) with 256.
    rewrite Z.rem_mul_r by (lia || (apply Z.pow_pos_nonneg; lia)).
    reflexivity.
Qed.

Lemma mload_mstore_same n a v m :
  mload n a (mstore (Z.of_nat n) a v m) = v mod 256 ^ Z.of_nat n.
Proof.
  pose proof (mload_mstore_aux n (Z.of_nat n) a v m 0) as H.
  rewrite Z.add_0_r, Z.mul_0_r, Z.shiftr_0_r in H. apply H; lia.
Qed.

Lemma load64_store64 a v m :
  0 <= v < 18446744073709551616 -> load64 a (store64 a v m) = v.
Proof.
  intros H. etransitivity; [exact (mload_mstore_same 8 a v m)|].
  apply Z.mod_small. exact H.
Qed.

Lemma load32_range a m : 0 <= load32 a m < 4294967296.
Proof. exact (mload_range 4 a m). Qed.

Lemma load32_store32 a v m : 0 <= v < 4294967296 -> load32 a (store32 a v m) = v.
Proof. intros H. etransitivity; [exact (mload_mstore_same 4 a v m)|]. by apply Z.mod_small. Qed.

Lemma mload_mstore_other k n a b v m :
  b + Z.of_nat k <= a \/ a + n <= b ->
  mload k b (mstore n a v m) = mload k b m.
Proof. intros H. apply mload_agree. intros x Hx. apply mstore_out. lia. Qed.

Lemma mload_mset_other k dst c n b m :
  b + Z.of_nat k <= dst \/ dst + n <= b ->
  mload k b (mset dst c n m) = mload k b m.
Proof. intros H. apply mload_agree. intros x Hx. apply mset_out. lia. Qed.

Lemma mload_mmove_other k dst src n b m :
  b + Z.of_nat k <= dst \/ dst + n <= b ->
  mload k b (mmove dst src n m) = mload k b m.
Proof. intros H. apply mload_agree. intros x Hx. apply mmove_out. lia. Qed.

Lemma mload_mset_zero k dst n b m :
  dst <= b -> b + Z.of_nat k <= dst + n -> mload k b (mset dst 0 n m) = 0.
Proof.
  revert b. induction k as [|k IH]; intros b ??; [reflexivity|].
  cbn [mload]. rewrite IH by lia. unfold byte_at. rewrite mset_in by lia. reflexivity.
Qed.

Lemma length_bytes_at m a n : length (bytes_at m a n) = n.
Proof. revert a. induction n; intros; simpl; auto. Qed.

Lemma lookup_bytes_at m a n i :
  (i < n)%nat -> bytes_at m a n !! i = Some (byte_at m (a + Z.of_nat i)).
Proof.
  revert a i. induction n as [|n IH]; intros a i Hi; [lia|].
  destruct i as [|i]; simpl.
  - rewrite Z.add_0_r. reflexivity.
  - rewrite IH by lia. do 2 f_equal. lia.
Qed.

Lemma bytes_at_agree m m' a n :
  agree m m' a (Z.of_nat n) -> bytes_at m a n = bytes_at m' a n.
Proof.
  revert a. induction n as [|n IH]; intros a H; [reflexivity|].
  simpl. unfold byte_at. rewrite (H a) by lia. f_equal. apply IH.
  intros x Hx. apply H. lia.
Qed.

(** Reading back a list of bytes that was written. *)
Lemma bytes_at_mwrite a l m :
  Forall (fun b => 0 <= b < 256) l -> bytes_at (mwrite a l m) a (length l) = l.
Proof.
  intros Hl. apply list_eq. intros i.
  destruct (decide (i < length l)%nat) as [Hi|Hi].
  - rewrite lookup_bytes_at by auto.
    destruct (lookup_lt_is_Some_2 l i Hi) as [b Hb]. rewrite Hb. f_equal.
    unfold byte_at, mwrite.
    destruct ((a <=? a + Z.of_nat i) && (a + Z.of_nat i <? a + Z.of_nat (length l))) eqn:E; [|lia].
    replace (Z.to_nat (a + Z.of_nat i - a)) with i by lia. rewrite Hb. simpl.
    apply u8_small. rewrite Forall_lookup in Hl. eauto.
  - rewrite !lookup_ge_None_2; auto; rewrite ?length_bytes_at; lia.
Qed.

#[global] Arguments mload : simpl never.
#[global] Arguments mstore : simpl never.
#[global] Arguments mset : simpl never.
#[global] Arguments mmove : simpl never.
#[global] Arguments mwrite : simpl never.
