(* ===== verification/Riscv.v ===== *)
(** * Constants and address arithmetic

    kernel/param.h, kernel/memlayout.h and the page-table part of
    kernel/riscv.h: sizes, the physical and virtual memory layout, PTE fields
    and the Sv39 index of an address, with the bit-level facts that the
    page-table code relies on. *)

From S2P Require Import Prelude.

(** ** kernel/param.h *)
Definition NPROC : nat := 64.
Definition NCPU : nat := 8.
Definition NOFILE : nat := 16.
Definition NFILE : nat := 100.
Definition NINODE : nat := 50.
Definition NDEV : Z := 10.
Definition ROOTDEV : Z := 1.
Definition MAXARG : nat := 32.
Definition MAXOPBLOCKS : Z := 10.
Definition LOGBLOCKS : Z := MAXOPBLOCKS * 3.
Definition NBUF : nat := 30.
Definition FSSIZE : Z := 2000.
Definition MAXPATH : Z := 128.
Definition USERSTACK : Z := 1.

(** ** kernel/riscv.h: pages and page-table entries *)
Definition PGSIZE : Z := 4096.
Definition PGSHIFT : Z := 12.
Definition PGROUNDUP (sz : Z) : Z := Z.land (u64 (sz + PGSIZE - 1)) (Z.lnot (PGSIZE - 1)).
Definition PGROUNDDOWN (a : Z) : Z := Z.land a (Z.lnot (PGSIZE - 1)).

Definition PTE_V : Z := Z.shiftl 1 0.
Definition PTE_R : Z := Z.shiftl 1 1.
Definition PTE_W : Z := Z.shiftl 1 2.
Definition PTE_X : Z := Z.shiftl 1 3.
Definition PTE_U : Z := Z.shiftl 1 4.

Definition PA2PTE (pa : Z) : Z := u64 (Z.shiftl (Z.shiftr pa 12) 10).
Definition PTE2PA (pte : Z) : Z := u64 (Z.shiftl (Z.shiftr pte 10) 12).
Definition PTE_FLAGS (pte : Z) : Z := Z.land pte 1023.

Definition PXMASK : Z := 511.
Definition PXSHIFT (level : Z) : Z := PGSHIFT + 9 * level.
Definition PX (level va : Z) : Z := Z.land (Z.shiftr va (PXSHIFT level)) PXMASK.

Definition MAXVA : Z := Z.shiftl 1 (9 + 9 + 9 + 12 - 1).

Definition SATP_SV39 : Z := Z.shiftl 8 60.
Definition MAKE_SATP (pagetable : Z) : Z := Z.lor SATP_SV39 (Z.shiftr pagetable 12).

(** ** kernel/memlayout.h *)
Definition UART0 : Z := 0x10000000.
Definition UART0_IRQ : Z := 10.
Definition VIRTIO0 : Z := 0x10001000.
Definition VIRTIO0_IRQ : Z := 1.
Definition PLIC : Z := 0x0c000000.
Definition PLIC_SENABLE (hart : Z) : Z := PLIC + 0x2080 + hart * 0x100.
Definition PLIC_SPRIORITY (hart : Z) : Z := PLIC + 0x201000 + hart * 0x2000.
Definition PLIC_SCLAIM (hart : Z) : Z := PLIC + 0x201004 + hart * 0x2000.
Definition KERNBASE : Z := 0x80000000.
Definition PHYSTOP : Z := KERNBASE + 128 * 1024 * 1024.
Definition TRAMPOLINE : Z := MAXVA - PGSIZE.
Definition KSTACK (p : Z) : Z := TRAMPOLINE - (p + 1) * 2 * PGSIZE.
Definition TRAPFRAME : Z := TRAMPOLINE - PGSIZE.

(** Symbols that the linker script kernel/kernel.ld or the assembly files
    define, and addresses of functions; their values come from the link, so the model takes them as arguments. *)
Class LinkMap := {
  sym_end : Z;         (** [end], first address after the kernel *)
  sym_etext : Z;       (** [etext], end of the kernel's code *)
  sym_trampoline : Z;  (** [trampoline], page-aligned code page *)
  sym_uservec : Z;     (** [uservec] and [userret] in the trampoline *)
  sym_userret : Z;
  sym_kernelvec : Z;   (** [kernelvec] of kernelvec.S *)
  sym_forkret : Z;     (** addresses of C functions that are stored *)
  sym_usertrap : Z;
}.

(** What kernel.ld guarantees of them: the kernel starts at KERNBASE, the
    trampoline is the last page of the text, and the image ends in RAM. *)
Class LinkMapOk {L : LinkMap} : Prop := {
  trampoline_aligned : sym_trampoline mod PGSIZE = 0;
  trampoline_low : KERNBASE <= sym_trampoline;
  etext_eq : sym_etext = sym_trampoline + PGSIZE;
  end_low : sym_etext <= sym_end;
  end_high : sym_end <= PHYSTOP;
}.

Create HintDb consts.
#[export] Hint Unfold NPROC NCPU NOFILE NFILE NINODE NDEV ROOTDEV MAXARG MAXOPBLOCKS
  LOGBLOCKS NBUF FSSIZE MAXPATH USERSTACK PGSIZE PGSHIFT MAXVA KERNBASE PHYSTOP
  TRAMPOLINE TRAPFRAME KSTACK UART0 VIRTIO0 PLIC PXMASK PXSHIFT : consts.

(** Arithmetic with the constants unfolded. *)
Ltac kconsts := autounfold with consts in *;
  change (Z.shiftl 1 (9 + 9 + 9 + 12 - 1)) with 274877906944 in *.
Ltac klia := kconsts; lia.

(** ** Rounding *)
Lemma land_lnot_4095 a : Z.land a (Z.lnot 4095) = a - a mod 4096.
Proof.
  change (Z.lnot 4095) with (Z.lnot (Z.ones 12)).
  change 4096 with (2 ^ 12). rewrite <- Z.land_ones by lia.
  rewrite <- Z.ldiff_land.
  rewrite Z.ldiff_ones_r by lia.
  rewrite Z.land_ones, Z.shiftr_div_pow2, Z.shiftl_mul_pow2 by lia.
  pose proof (Z.div_mod a (2 ^ 12)). lia.
Qed.

Lemma PGROUNDDOWN_eq a : PGROUNDDOWN a = a - a mod 4096.
Proof. apply land_lnot_4095. Qed.

Lemma PGROUNDUP_eq sz :
  0 <= sz -> sz + 4095 < 18446744073709551616 -> PGROUNDUP sz = 4096 * ((sz + 4095) / 4096).
Proof.
  intros ??. unfold PGROUNDUP. change (PGSIZE - 1) with 4095.
  replace (sz + PGSIZE - 1) with (sz + 4095) by klia.
  rewrite u64_small, land_lnot_4095 by lia.
  pose proof (Z.div_mod (sz + 4095) 4096). lia.
Qed.

Lemma PGROUNDDOWN_aligned a : PGROUNDDOWN a mod 4096 = 0.
Proof. rewrite PGROUNDDOWN_eq. rewrite Zminus_mod_idemp_r, Z.sub_diag. reflexivity. Qed.

Lemma PGROUNDDOWN_bounds a : PGROUNDDOWN a <= a < PGROUNDDOWN a + 4096.
Proof. rewrite PGROUNDDOWN_eq. pose proof (Z.mod_pos_bound a 4096). lia. Qed.

(** ** Page-table entries *)
Lemma PX_eq level va : 0 <= level -> PX level va = va / 2 ^ (12 + 9 * level) mod 512.
Proof.
  intros. unfold PX, PXMASK, PXSHIFT, PGSHIFT.
  change 511 with (Z.ones 9). rewrite Z.land_ones by lia.
  rewrite Z.shiftr_div_pow2 by lia. reflexivity.
Qed.

Lemma PX_range level va : 0 <= level -> 0 <= PX level va < 512.
Proof. intros. rewrite PX_eq by auto. apply Z.mod_pos_bound. lia. Qed.

(** A PTE built from a page-aligned address and permission bits gives back
    both. *)
Lemma pte_build pa perm :
  0 <= pa < 2 ^ 56 -> 0 <= perm < 1024 ->
  Z.lor (PA2PTE pa) perm = pa / 4096 * 1024 + perm.
Proof.
  intros Hpa Hperm. unfold PA2PTE.
  rewrite Z.shiftl_mul_pow2, Z.shiftr_div_pow2 by lia.
  change (2 ^ 12) with 4096. change (2 ^ 10) with 1024.
  rewrite u64_small by (change (2 ^ 56) with 72057594037927936 in *; dlia).
  rewrite <- Z.lxor_lor.
  - rewrite <- Z.add_nocarry_lxor; [reflexivity|].
    apply Z.bits_inj'. intros n Hn. rewrite Z.land_spec, Z.bits_0.
    change 1024 with (2 ^ 10). rewrite Z.mul_pow2_bits by lia.
    destruct (decide (n < 10)).
    + rewrite Z.testbit_neg_r by lia. reflexivity.
    + rewrite <- (Z.mod_small perm (2 ^ 10)) by lia.
      rewrite Z.mod_pow2_bits_high by lia. apply andb_false_r.
  - apply Z.bits_inj'. intros n Hn. rewrite Z.land_spec, Z.bits_0.
    change 1024 with (2 ^ 10). rewrite Z.mul_pow2_bits by lia.
    destruct (decide (n < 10)).
    + rewrite Z.testbit_neg_r by lia. reflexivity.
    + rewrite <- (Z.mod_small perm (2 ^ 10)) by lia.
      rewrite Z.mod_pow2_bits_high by lia. apply andb_false_r.
Qed.

Lemma PTE2PA_eq pte : 0 <= pte < 2 ^ 62 -> PTE2PA pte = pte / 1024 * 4096.
Proof.
  intros H. unfold PTE2PA. rewrite Z.shiftl_mul_pow2, Z.shiftr_div_pow2 by lia.
  change (2 ^ 12) with 4096. change (2 ^ 10) with 1024. change (2 ^ 62) with 4611686018427387904 in *.
  apply u64_small. dlia.
Qed.

Lemma PTE2PA_build pa perm :
  0 <= pa < 2 ^ 56 -> pa mod 4096 = 0 -> 0 <= perm < 1024 ->
  PTE2PA (Z.lor (PA2PTE pa) perm) = pa.
Proof.
  intros Hpa Hal Hperm. rewrite pte_build by auto.
  change (2 ^ 56) with 72057594037927936 in *.
  rewrite PTE2PA_eq by (change (2 ^ 62) with 4611686018427387904; dlia).
  rewrite Z.div_add_l by lia. rewrite (Z.div_small perm 1024) by lia. dlia.
Qed.

Lemma PTE_FLAGS_build pa perm :
  0 <= pa < 2 ^ 56 -> 0 <= perm < 1024 -> PTE_FLAGS (Z.lor (PA2PTE pa) perm) = perm.
Proof.
  intros Hpa Hperm. rewrite pte_build by auto. unfold PTE_FLAGS.
  change 1023 with (Z.ones 10). rewrite Z.land_ones by lia. change (2 ^ 10) with 1024.
  rewrite Z.add_comm, Z.mod_add by lia. apply Z.mod_small. auto.
Qed.

Lemma pte_build_range pa perm :
  0 <= pa < 2 ^ 56 -> 0 <= perm < 1024 ->
  0 <= Z.lor (PA2PTE pa) perm < 18446744073709551616.
Proof.
  intros Hpa Hperm. rewrite pte_build by auto.
  change (2 ^ 56) with 72057594037927936 in *. dlia.
Qed.

(** Testing a flag of a PTE looks only at the permission bits. *)
Lemma land_build pa perm bits :
  0 <= pa < 2 ^ 56 -> 0 <= bits < 1024 ->
  Z.land (Z.lor (PA2PTE pa) perm) bits = Z.land perm bits.
Proof.
  intros Hpa Hb. rewrite Z.land_lor_distr_l.
  replace (Z.land (PA2PTE pa) bits) with 0; [reflexivity|].
  unfold PA2PTE. rewrite u64_small.
  - symmetry. apply Z.bits_inj'. intros n Hn. rewrite Z.land_spec, Z.bits_0.
    destruct (decide (n < 10)).
    + rewrite Z.shiftl_spec_low by lia. reflexivity.
    + rewrite <- (Z.mod_small bits (2 ^ 10)) by lia.
      rewrite Z.mod_pow2_bits_high by lia. apply andb_false_r.
  - rewrite Z.shiftl_mul_pow2, Z.shiftr_div_pow2 by lia.
    change (2 ^ 12) with 4096. change (2 ^ 10) with 1024.
    change (2 ^ 56) with 72057594037927936 in *. dlia.
Qed.
