(* ===== verification/Kalloc.v ===== *)
(** * Physical page allocator (kernel/kalloc.c)

    Free pages form a linked list through their own first eight bytes
    ([struct run]); [kmem.freelist] is its head.  The state is physical memory
    and that head.  The abstract state is the list of free pages: [kmem_inv]
    relates the two, and the theorems say what [kfree], [kalloc], [freerange]
    and [kinit] do to it. *)

From S2P Require Import Prelude Kmonad Mem Riscv.

Record vmst := Vmst { phys : mem; freelist : Z }.

Definition on_phys (f : mem -> mem) (s : vmst) : vmst := Vmst (f (phys s)) (freelist s).
Definition set_freelist (r : Z) (s : vmst) : vmst := Vmst (phys s) r.

Section Kalloc.
Context {L : LinkMap}.

(** [kfree(pa)]: panic unless [pa] is a page the allocator owns, fill the page
    with ones, and push it on the free list. *)
Definition kfree (pa : Z) : M vmst unit :=
  if negb (pa mod PGSIZE =? 0) || (pa <? sym_end) || (PHYSTOP <=? pa)
  then panic "kfree"
  else
    modify (on_phys (mset pa 1 PGSIZE)) ;;
    acquire LKmem ;;
    let* f := gets freelist in
    modify (on_phys (store64 pa f)) ;;
    modify (set_freelist pa) ;;
    release LKmem.

(** [kalloc()]: pop a page and fill it with fives, or return 0. *)
Definition kalloc : M vmst Z :=
  acquire LKmem ;;
  let* r := gets freelist in
  when (negb (r =? 0))
    (let* m := gets phys in modify (set_freelist (load64 r m))) ;;
  release LKmem ;;
  when (negb (r =? 0)) (modify (on_phys (mset r 5 PGSIZE))) ;;
  ret r.

(** [freerange(pa_start, pa_end)]; one iteration per page, so
    [(pa_end - p) / PGSIZE + 1] tests suffice. *)
Definition freerange (pa_start pa_end : Z) : M vmst unit :=
  let p0 := PGROUNDUP pa_start in
  loop (Z.to_nat ((pa_end - p0) / PGSIZE + 2))
    (fun p =>
       if p + PGSIZE <=? pa_end
       then kfree p ;; ret (inl (p + PGSIZE))
       else ret (inr tt))
    p0.

(** [kinit()]; [initlock] leaves the lock free. *)
Definition kinit : M vmst unit := freerange sym_end PHYSTOP.

(** ** The free list as a list of pages *)

Fixpoint flist (m : mem) (f : Z) (l : list Z) : Prop :=
  match l with
  | [] => f = 0
  | p :: l' => f = p /\ p <> 0 /\ flist m (load64 p m) l'
  end.

Definition valid_page (p : Z) : Prop :=
  p mod PGSIZE = 0 /\ sym_end <= p < PHYSTOP.

Definition kmem_inv (s : vmst) (l : list Z) : Prop :=
  flist (phys s) (freelist s) l /\ NoDup l /\ Forall valid_page l.

(** Pages [p0, p0 + PGSIZE, ...], [n] of them. *)
Fixpoint pages_from (p0 : Z) (n : nat) : list Z :=
  match n with O => [] | S n' => p0 :: pages_from (p0 + PGSIZE) n' end.

(** ** Lemmas *)

Lemma pages_disjoint p q :
  p mod PGSIZE = 0 -> q mod PGSIZE = 0 -> p <> q -> p + PGSIZE <= q \/ q + PGSIZE <= p.
Proof. unfold PGSIZE. intros. dlia. Qed.

Lemma flist_agree m m' f l :
  (forall p, p ∈ l -> agree m m' p 8) -> flist m f l -> flist m' f l.
Proof.
  revert f. induction l as [|p l IH]; intros f Ha; simpl; [auto|].
  intros (-> & Hp & Hl). repeat split; auto.
  rewrite <- (mload_agree 8 p m m') by (apply Ha; set_solver).
  apply IH; [|auto]. intros q Hq. apply Ha. set_solver.
Qed.

Lemma kmem_inv_agree s s' l :
  freelist s = freelist s' ->
  (forall p, p ∈ l -> agree (phys s) (phys s') p PGSIZE) ->
  kmem_inv s l -> kmem_inv s' l.
Proof.
  intros Hf Ha (Hl & Hd & Hv). split; [|auto].
  rewrite <- Hf. eapply flist_agree; [|exact Hl].
  intros p Hp. apply (agree_sub _ _ p PGSIZE); [auto|lia|klia].
Qed.

Lemma valid_page_guard p :
  valid_page p ->
  (negb (p mod PGSIZE =? 0) || (p <? sym_end) || (PHYSTOP <=? p)) = false.
Proof. intros [H1 H2]. lia. Qed.

(** What [kfree] computes on a valid page. *)
Lemma kfree_eq p t s :
  valid_page p -> LKmem ∉ held t ->
  kfree p t s =
  ORet tt t (Vmst (store64 p (freelist s) (mset p 1 PGSIZE (phys s))) p).
Proof.
  intros Hv Hh. unfold kfree. rewrite valid_page_guard by auto.
  unfold bind, modify, gets. simpl. rewrite acquire_free by auto. simpl.
  rewrite release_top, tls_eta. reflexivity.
Qed.

Lemma kalloc_eq t s :
  LKmem ∉ held t ->
  kalloc t s =
  if freelist s =? 0 then ORet 0 t s
  else ORet (freelist s) t
         (Vmst (mset (freelist s) 5 PGSIZE (phys s)) (load64 (freelist s) (phys s))).
Proof.
  intros Hh. unfold kalloc, bind, gets, when. rewrite acquire_free by auto. simpl.
  destruct (freelist s =? 0) eqn:E; simpl; rewrite tls_eta; unfold ret.
  - f_equal. lia.
  - reflexivity.
Qed.

Lemma kfree_other_bytes p q s x :
  valid_page p -> valid_page q -> p <> q -> q <= x < q + PGSIZE ->
  store64 p (freelist s) (mset p 1 PGSIZE (phys s)) x = phys s x.
Proof.
  intros [Hp _] [Hq _] Hne Hx. destruct (pages_disjoint p q Hp Hq Hne);
    (rewrite mstore_out by klia; rewrite mset_out by klia; reflexivity).
Qed.

Lemma kfree_inv p t s l :
  valid_page p -> p <> 0 -> 0 <= freelist s < 18446744073709551616 ->
  p ∉ l -> kmem_inv s l -> LKmem ∉ held t ->
  exists s', kfree p t s = ORet tt t s' /\ kmem_inv s' (p :: l) /\
    (forall x, ~ (p <= x < p + PGSIZE) -> phys s' x = phys s x).
Proof.
  intros Hv Hp0 Hr Hnin (Hl & Hd & Hva) Hh.
  eexists. split; [apply kfree_eq; auto|]. split.
  - split; [|split; [constructor; auto|constructor; auto]].
    simpl. split; [reflexivity|]. split; [auto|].
    rewrite load64_store64 by auto.
    eapply flist_agree; [|exact Hl].
    intros q Hq x Hx. symmetry. pose proof (Forall_elem _ _ _ Hva Hq).
    apply (kfree_other_bytes p q); auto; [by intros ->|klia].
  - intros x Hx. simpl. rewrite mstore_out by klia. apply mset_out; auto.
Qed.

Lemma flist_head_range m f l :
  flist m f l -> Forall valid_page l -> 0 <= sym_end -> 0 <= f < 18446744073709551616.
Proof.
  destruct l as [|p l]; simpl; intros H HF He; [lia|].
  destruct H as (-> & _). apply Forall_cons in HF as [[_ H] _]. klia.
Qed.

Lemma kalloc_inv t s l :
  kmem_inv s l -> LKmem ∉ held t ->
  match l with
  | [] => kalloc t s = ORet 0 t s
  | p :: l' =>
      exists s', kalloc t s = ORet p t s' /\ kmem_inv s' l' /\ (p ∉ l') /\ valid_page p /\ p <> 0 /\
        (forall x, p <= x < p + PGSIZE -> phys s' x = 5) /\
        (forall x, ~ (p <= x < p + PGSIZE) -> phys s' x = phys s x)
  end.
Proof.
  intros (Hl & Hd & Hv) Hh. rewrite kalloc_eq by auto.
  destruct l as [|p l']; simpl in Hl.
  - rewrite Hl. reflexivity.
  - destruct Hl as (Hf & Hp0 & Hl).
    rewrite Hf. destruct (p =? 0) eqn:E; [lia|].
    apply NoDup_cons in Hd as [Hnin Hd]. apply Forall_cons in Hv as [Hvp Hv].
    eexists. split; [reflexivity|]. split; [split; [|auto]|].
    + simpl. eapply flist_agree; [|exact Hl].
      intros q Hq x Hx. destruct (Forall_elem _ _ _ Hv Hq) as [Hqa _]. destruct Hvp as [Hpa _].
      symmetry. apply mset_out.
      destruct (pages_disjoint p q Hpa Hqa); [by intros ->|klia|klia].
    + repeat split; auto; try apply Hvp; simpl.
      * intros x Hx. apply mset_in. auto.
      * intros x Hx. apply mset_out. auto.
Qed.

Lemma elem_of_pages_from p0 n q :
  q ∈ pages_from p0 n <-> exists i, 0 <= i < Z.of_nat n /\ q = p0 + i * PGSIZE.
Proof.
  revert p0. induction n as [|n IH]; intros p0; simpl.
  - split; [by intros ?%not_elem_of_nil|]. intros (i & Hi & _). lia.
  - rewrite elem_of_cons, IH. split.
    + intros [->|(i & Hi & ->)]; [exists 0; lia|exists (i + 1); lia].
    + intros (i & Hi & ->). destruct (decide (i = 0)) as [->|]; [left; lia|].
      right. exists (i - 1). lia.
Qed.

Lemma freerange_loop n : forall p pa_end fuel t s l,
  LinkMapOk -> p mod PGSIZE = 0 -> sym_end <= p -> 
  p + Z.of_nat n * PGSIZE <= pa_end < p + (Z.of_nat n + 1) * PGSIZE ->
  pa_end <= PHYSTOP -> (n < fuel)%nat -> LKmem ∉ held t ->
  kmem_inv s l -> Forall (fun q => q < p) l ->
  exists s', loop fuel
    (fun p => if p + PGSIZE <=? pa_end then kfree p ;; ret (inl (p + PGSIZE)) else ret (inr tt))
    p t s = ORet tt t s' /\ kmem_inv s' (rev (pages_from p n) ++ l).
Proof.
  induction n as [|n IH]; intros p pa_end fuel t s l HL Hal Hlo Hend Hhi Hf Hh Hinv Hlt;
    (destruct fuel as [|fuel]; [lia|]); simpl; unfold bind at 1.
  - destruct (p + PGSIZE <=? pa_end) eqn:E; [klia|]. simpl. eauto.
  - destruct (p + PGSIZE <=? pa_end) eqn:E; [|klia].
    assert (Hvp : valid_page p) by (split; [auto|klia]).
    assert (0 <= sym_end) by (destruct HL; klia).
    assert (Hp0 : p <> 0) by (destruct HL; klia).
    assert (Hnin : p ∉ l) by (intros Hin; pose proof (Forall_elem _ _ _ Hlt Hin); simpl in *; lia).
    destruct (kfree_inv p t s l) as (s1 & E1 & Hinv1 & _); auto.
    { destruct Hinv as (Hl & _ & Hv). eapply flist_head_range; eauto. }
    unfold bind at 1. rewrite E1. simpl.
    destruct (IH (p + PGSIZE) pa_end fuel t s1 (p :: l)) as (s2 & E2 & Hinv2); auto; try klia.
    { unfold PGSIZE in *. dlia. }
    { constructor; [klia|]. eapply Forall_impl; [exact Hlt|]. simpl. klia. }
    exists s2. split; [exact E2|]. rewrite <- app_assoc. exact Hinv2.
Qed.

End Kalloc.

(** ** The allocator as a stack of pages

    The contract of the allocator: a stack of free pages.  [Alloc] pops, or
    answers 0 when the stack is empty; [Free p] pushes a page that is not on
    it. *)
Inductive kop := Alloc | Free (p : Z).

Definition spec_step (o : kop) (l : list Z) : Z * list Z :=
  match o with
  | Alloc => match l with [] => (0, []) | p :: l' => (p, l') end
  | Free p => (0, p :: l)
  end.

Fixpoint spec_run (ops : list kop) (l : list Z) : list Z * list Z :=
  match ops with
  | [] => ([], l)
  | o :: ops' =>
      let '(r, l1) := spec_step o l in
      let '(rs, l2) := spec_run ops' l1 in (r :: rs, l2)
  end.

(** Callers free only pages they own: pages of the allocator that are not
    free. *)
Fixpoint legal {L : LinkMap} (ops : list kop) (l : list Z) : Prop :=
  match ops with
  | [] => True
  | o :: ops' =>
      match o with Alloc => True | Free p => valid_page p /\ (p ∉ l) end /\
      legal ops' (snd (spec_step o l))
  end.

Definition kop_run {L : LinkMap} (o : kop) : M vmst Z :=
  match o with Alloc => kalloc | Free p => kfree p ;; ret 0 end.

Fixpoint kops_run {L : LinkMap} (ops : list kop) : M vmst (list Z) :=
  match ops with
  | [] => ret []
  | o :: ops' => let* r := kop_run o in let* rs := kops_run ops' in ret (r :: rs)
  end.

Lemma kop_refines `{LinkMapOk} o l t s :
  kmem_inv s l -> LKmem ∉ held t ->
  match o with Alloc => True | Free p => valid_page p /\ (p ∉ l) end ->
  exists s', kop_run o t s = ORet (fst (spec_step o l)) t s' /\ kmem_inv s' (snd (spec_step o l)).
Proof.
  intros Hk Hlk Ho. destruct o as [|p]; simpl.
  - pose proof (kalloc_inv t s l Hk Hlk) as Ha. destruct l as [|p l].
    + exists s. auto.
    + destruct Ha as (s1 & E & Hk1 & _). exists s1. auto.
  - destruct Ho as [Hv Hn].
    destruct (kfree_inv p t s l) as (s1 & E & Hk1 & _); auto.
    { destruct Hv. destruct H. klia. }
    { destruct Hk as (Hfl & _ & Hvl). eapply flist_head_range; eauto. destruct H. klia. }
    exists s1. unfold bind. rewrite E. auto.
Qed.

#[global] Arguments kfree : simpl never.
#[global] Arguments kalloc : simpl never.

(** A link map used to evaluate the model: a small kernel image that leaves
    the last sixteen pages of RAM to the allocator. *)
Definition demo_link : LinkMap := {|
  sym_end := PHYSTOP - 16 * PGSIZE - 100;
  sym_etext := 0x80008000;
  sym_trampoline := 0x80007000;
  sym_uservec := 0x80007000;
  sym_userret := 0x8000709c;
  sym_kernelvec := 0x80005a10;
  sym_forkret := 0x80001a2c;
  sym_usertrap := 0x80002b14;
|}.
Lemma demo_link_ok : LinkMapOk (L := demo_link).
Proof. split; vm_compute; congruence. Qed.

Definition thread0 : tls := Tls [] (Some 0%nat).

(** [kinit] puts every page of RAM from [end] up to [PHYSTOP] on the free
    list exactly once, and no other address: it never panics, and afterwards
    the list holds precisely the valid pages, without duplicates. *)
Theorem kinit_spec {L : LinkMap} (HL : LinkMapOk) (t : tls) (s : vmst)
    (Hfree : freelist s = 0) (Hlock : LKmem ∉ held t) :
  exists s' l, kinit t s = ORet tt t s' /\ kmem_inv s' l /\
    forall p, p ∈ l <-> valid_page p.
Proof.
  unfold kinit, freerange. set (p0 := PGROUNDUP sym_end).
  assert (Hp0 : p0 = 4096 * ((sym_end + 4095) / 4096)).
  { apply PGROUNDUP_eq; destruct HL; klia. }
  assert (Hb : sym_end <= p0 <= PHYSTOP) by (destruct HL; kconsts; dlia).
  assert (Hal : p0 mod PGSIZE = 0) by (unfold PGSIZE; dlia).
  set (n := Z.to_nat ((PHYSTOP - p0) / PGSIZE)).
  assert (Hn : PHYSTOP = p0 + Z.of_nat n * PGSIZE) by (unfold n; kconsts; dlia).
  destruct (freerange_loop n p0 PHYSTOP (Z.to_nat ((PHYSTOP - p0) / PGSIZE + 2)) t s [])
    as (s' & E & Hinv); auto; try klia.
  { unfold n, PGSIZE. dlia. }
  { split; [exact Hfree|split; constructor]. }
  exists s', (rev (pages_from p0 n)). rewrite app_nil_r in Hinv.
  split; [exact E|]. split; [exact Hinv|].
  intros p. rewrite list_elem_of_In, <- in_rev, <- list_elem_of_In, elem_of_pages_from. split.
  - intros (i & Hi & ->). split; unfold PGSIZE in *; [dlia|klia].
  - intros [Hpa Hpr]. exists ((p - p0) / PGSIZE). split; unfold PGSIZE in *; dlia.
Qed.

(** C7: the allocator implements a stack of pages.  Every sequence of [kalloc]
    and [kfree] calls whose frees are legal runs without panic, returns what
    the stack returns (0 exactly when it is empty), and ends with the linked
    list in memory holding the stack's contents. *)
Theorem kalloc_refines {L : LinkMap} (HL : LinkMapOk) (ops : list kop) (l : list Z) (t : tls) (s : vmst)
    (Hinv : kmem_inv s l) (Hlock : LKmem ∉ held t) (Hlegal : legal ops l) :
  exists s', kops_run ops t s = ORet (fst (spec_run ops l)) t s' /\
    kmem_inv s' (snd (spec_run ops l)).
Proof.
  revert l s Hinv Hlegal. induction ops as [|o ops IH]; intros l s Hinv Hlegal.
  - exists s. auto.
  - destruct Hlegal as [Ho Hops].
    destruct (kop_refines o l t s) as (s1 & E1 & Hk1); auto.
    destruct (IH _ s1 Hk1 Hops) as (s2 & E2 & Hk2). exists s2. simpl.
    destruct (spec_step o l) as [r l1]. simpl in *.
    destruct (spec_run ops l1) as [rs l2]. simpl in *. kstep E1. kstep E2. split; [reflexivity|exact Hk2].
Qed.

Lemma kalloc_refines_witness : exists s',
  kops_run (L := demo_link) [Free (PHYSTOP - 4096); Free (PHYSTOP - 8192); Alloc; Alloc; Alloc]
    thread0 (Vmst (fun _ => 0) 0) = ORet [0; 0; PHYSTOP - 8192; PHYSTOP - 4096; 0] thread0 s' /\
  kmem_inv (L := demo_link) s' [].
Proof.
  apply (kalloc_refines (L := demo_link) demo_link_ok
    [Free (PHYSTOP - 4096); Free (PHYSTOP - 8192); Alloc; Alloc; Alloc] [] thread0 (Vmst (fun _ => 0) 0)).
  - split; [reflexivity|split; constructor].
  - apply not_elem_of_nil.
  - unfold legal, valid_page. simpl. rewrite list_elem_of_singleton, elem_of_nil. repeat split; vm_compute; congruence || tauto.
Defined.
