(* ===== verification/Cstring.v ===== *)
(** * Byte and string routines (kernel/string.c)

    The loops of kernel/string.c over byte memory, one step per byte, and
    their specifications: [memset] and [memmove] compute the closed forms
    [mset] and [mmove] of Mem.v (for [memmove], overlapping regions
    included), the string functions are characterised through [cstr], the
    characters before the first NUL among the first [n] bytes. *)

From S2P Require Import Prelude Mem.

(** [for(i = 0; i < n; i++) cdst[i] = c;] *)
Fixpoint memset_loop (fuel : nat) (i dst c n : Z) (m : mem) : mem :=
  match fuel with
  | O => m
  | S f => if i <? n then memset_loop f (i + 1) dst c n (mstore 1 (dst + i) c m) else m
  end.
Definition memset (dst c n : Z) (m : mem) : mem := memset_loop (Z.to_nat n) 0 dst c n m.

(** [while(n-- > 0)]: [n] iterations. *)
Fixpoint memcmp (n : nat) (s1 s2 : Z) (m : mem) : Z :=
  match n with
  | O => 0
  | S n' =>
      if negb (byte_at m s1 =? byte_at m s2) then byte_at m s1 - byte_at m s2
      else memcmp n' (s1 + 1) (s2 + 1) m
  end.

Fixpoint memmove_back (n : nat) (s d : Z) (m : mem) : mem :=
  match n with
  | O => m
  | S n' => memmove_back n' (s - 1) (d - 1) (mstore 1 (d - 1) (byte_at m (s - 1)) m)
  end.
Fixpoint memmove_fwd (n : nat) (s d : Z) (m : mem) : mem :=
  match n with
  | O => m
  | S n' => memmove_fwd n' (s + 1) (d + 1) (mstore 1 d (byte_at m s) m)
  end.
Definition memmove (dst src n : Z) (m : mem) : mem :=
  if n =? 0 then m
  else if (src <? dst) && (dst <? src + n)
  then memmove_back (Z.to_nat n) (src + n) (dst + n) m
  else memmove_fwd (Z.to_nat n) src dst m.

Definition memcpy (dst src n : Z) (m : mem) : mem := memmove dst src n m.

(** [while(n > 0 && *p && *p == *q)] *)
Fixpoint strncmp (n : nat) (p q : Z) (m : mem) : Z :=
  match n with
  | O => 0
  | S n' =>
      if negb (byte_at m p =? 0) && (byte_at m p =? byte_at m q)
      then strncmp n' (p + 1) (q + 1) m
      else byte_at m p - byte_at m q
  end.

(** The second loop of [strncpy]: [while(n-- > 0) *s++ = 0;] *)
Fixpoint strncpy_pad (n : nat) (s : Z) (m : mem) : mem :=
  match n with
  | O => m
  | S n' => strncpy_pad n' (s + 1) (mstore 1 s 0 m)
  end.
Fixpoint strncpy (n : nat) (s t : Z) (m : mem) : mem :=
  match n with
  | O => m
  | S n' =>
      let b := byte_at m t in
      let m' := mstore 1 s b m in
      if b =? 0 then strncpy_pad n' (s + 1) m' else strncpy n' (s + 1) (t + 1) m'
  end.

(** [while(--n > 0 && (<copy a byte>) != 0) ; *s = 0;], with [k] the value of
    [n - 1] before the test. *)
Fixpoint safestrcpy_loop (k : nat) (s t : Z) (m : mem) : mem :=
  match k with
  | O => mstore 1 s 0 m
  | S k' =>
      let b := byte_at m t in
      let m' := mstore 1 s b m in
      if b =? 0 then mstore 1 (s + 1) 0 m' else safestrcpy_loop k' (s + 1) (t + 1) m'
  end.
Definition safestrcpy (s t n : Z) (m : mem) : mem :=
  if n <=? 0 then m else safestrcpy_loop (Z.to_nat (n - 1)) s t m.

(** [for(n = 0; s[n]; n++)]: [None] when the fuel runs out. *)
Fixpoint strlen_loop (fuel : nat) (s n : Z) (m : mem) : option Z :=
  match fuel with
  | O => None
  | S f => if byte_at m (s + n) =? 0 then Some n else strlen_loop f s (n + 1) m
  end.
Definition strlen (fuel : nat) (s : Z) (m : mem) : option Z := strlen_loop fuel s 0 m.

(** ** Specifications *)

(** The characters of a list before its first NUL. *)
Fixpoint ctake (l : list Z) : list Z :=
  match l with [] => [] | b :: l' => if b =? 0 then [] else b :: ctake l' end.

(** The string at [p], read over at most [n] bytes. *)
Definition cstr (m : mem) (p : Z) (n : nat) : list Z := ctake (bytes_at m p n).

Lemma byte_at_mstore1 a v m x :
  byte_at (mstore 1 a v m) x = if decide (x = a) then u8 v else byte_at m x.
Proof.
  unfold byte_at. destruct (decide (x = a)) as [->|H].
  - unfold mstore. destruct ((a <=? a) && (a <? a + 1)) eqn:E; [|lia].
    rewrite Z.sub_diag, Z.mul_0_r, Z.shiftr_0_r. apply u8_idem.
  - rewrite mstore_out by lia. reflexivity.
Qed.

Lemma byte_at_mset dst c n m x :
  byte_at (mset dst c n m) x = if decide (dst <= x < dst + n) then u8 c else byte_at m x.
Proof.
  unfold byte_at. case_decide; [rewrite mset_in by lia; apply u8_idem|].
  rewrite mset_out by lia. reflexivity.
Qed.

Lemma byte_at_mmove dst src n m x :
  byte_at (mmove dst src n m) x =
  if decide (dst <= x < dst + n) then byte_at m (x - dst + src) else byte_at m x.
Proof.
  unfold byte_at. case_decide; [rewrite mmove_in by lia|rewrite mmove_out by lia]; reflexivity.
Qed.

Lemma u8_byte_at m x : u8 (byte_at m x) = byte_at m x.
Proof. apply u8_idem. Qed.

(** Solves goals about bytes read after single-byte stores. *)
Ltac bytes := rewrite ?byte_at_mstore1, ?u8_byte_at;
  repeat (case_decide; try lia); rewrite ?u8_byte_at; try reflexivity; try (f_equal; lia).

Lemma memset_loop_spec fuel : forall i dst c n m x,
  0 <= i -> n - i <= Z.of_nat fuel ->
  byte_at (memset_loop fuel i dst c n m) x =
  if decide (dst + i <= x < dst + n) then u8 c else byte_at m x.
Proof.
  induction fuel as [|f IH]; intros i dst c n m x Hi Hf; simpl.
  - case_decide; [lia|reflexivity].
  - destruct (i <? n) eqn:E.
    + rewrite IH by lia. bytes.
    + case_decide; [lia|reflexivity].
Qed.

Lemma memmove_fwd_spec n : forall s d m x,
  ~ (s < d < s + Z.of_nat n) ->
  byte_at (memmove_fwd n s d m) x =
  if decide (d <= x < d + Z.of_nat n) then byte_at m (x - d + s) else byte_at m x.
Proof.
  induction n as [|n IH]; intros s d m x Hov; simpl.
  - case_decide; [lia|reflexivity].
  - rewrite IH by lia. bytes.
Qed.

Lemma memmove_back_spec n : forall s d m x,
  s < d ->
  byte_at (memmove_back n s d m) x =
  if decide (d - Z.of_nat n <= x < d) then byte_at m (x - d + s) else byte_at m x.
Proof.
  induction n as [|n IH]; intros s d m x Hov; simpl.
  - case_decide; [lia|reflexivity].
  - rewrite IH by lia. bytes.
Qed.

(** [memset] and [memmove] have the effect of the closed forms the rest of
    the kernel model uses: every byte of the destination range gets the fill
    byte, respectively the byte the source range held before the call, even
    when the ranges overlap, and no other byte changes. *)
Theorem memset_memmove_spec (dst src c n : Z) (m : mem) (Hn : 0 <= n) :
  (forall x, byte_at (memset dst c n m) x = byte_at (mset dst c n m) x) /\
  (forall x, byte_at (memmove dst src n m) x = byte_at (mmove dst src n m) x).
Proof.
  split; intros x.
  - unfold memset. rewrite memset_loop_spec, byte_at_mset by lia.
    rewrite Z.add_0_r. reflexivity.
  - unfold memmove. rewrite byte_at_mmove.
    destruct (n =? 0) eqn:E0; [case_decide; [lia|reflexivity]|].
    destruct ((src <? dst) && (dst <? src + n)) eqn:E.
    + rewrite memmove_back_spec by lia. rewrite Z2Nat.id by lia.
      repeat case_decide; try lia; try reflexivity. f_equal. lia.
    + rewrite memmove_fwd_spec by lia. rewrite Z2Nat.id by lia. reflexivity.
Qed.

Lemma cstr_S m p n :
  cstr m p (S n) = if byte_at m p =? 0 then [] else byte_at m p :: cstr m (p + 1) n.
Proof. reflexivity. Qed.

Lemma cstr_agree m m' p n :
  agree m m' p (Z.of_nat n) -> cstr m p n = cstr m' p n.
Proof. intros H. unfold cstr. erewrite bytes_at_agree; eauto. Qed.

(** [strncmp(p, q, n)] is 0 exactly when the two strings, cut after [n]
    characters, are equal; this is the test [namecmp] makes on directory
    entries. *)
Lemma strncmp_zero_iff (n : nat) (p q : Z) (m : mem) :
  strncmp n p q m = 0 <-> cstr m p n = cstr m q n.
Proof.
  revert p q. induction n as [|n IH]; intros p q; [split; reflexivity|].
  rewrite !cstr_S. cbn [strncmp].
  destruct (byte_at m p =? 0) eqn:Ep, (byte_at m q =? 0) eqn:Eq; simpl.
  - split; [reflexivity|lia].
  - split; [lia|discriminate].
  - destruct (byte_at m p =? byte_at m q) eqn:E; [lia|]. split; [lia|discriminate].
  - destruct (byte_at m p =? byte_at m q) eqn:E.
    + rewrite IH. apply Z.eqb_eq in E. rewrite E. split; [intros ->; reflexivity|congruence].
    + split; [lia|intros [=]; lia].
Qed.

Lemma strncpy_pad_spec n : forall s m x,
  byte_at (strncpy_pad n s m) x =
  if decide (s <= x < s + Z.of_nat n) then 0 else byte_at m x.
Proof.
  induction n as [|n IH]; intros s m x; simpl.
  - case_decide; [lia|reflexivity].
  - rewrite IH. bytes.
Qed.

(** The bytes a string of at most [n] characters occupies in an [n]-byte
    field. *)
Definition field_of (n : nat) (l : list Z) : list Z := l ++ replicate (n - length l) 0.

Lemma bytes_at_zero m a n :
  (forall x, a <= x < a + Z.of_nat n -> byte_at m x = 0) -> bytes_at m a n = replicate n 0.
Proof.
  revert a. induction n as [|n IH]; intros a H; [reflexivity|].
  simpl. f_equal; [apply H; lia|apply IH; intros x Hx; apply H; lia].
Qed.

Lemma bytes_at_ext m m' a n :
  (forall x, a <= x < a + Z.of_nat n -> byte_at m x = byte_at m' x) ->
  bytes_at m a n = bytes_at m' a n.
Proof.
  revert a. induction n as [|n IH]; intros a H; [reflexivity|].
  simpl. f_equal; [apply H; lia|apply IH; intros x Hx; apply H; lia].
Qed.

Lemma strncpy_frame n : forall s t m x,
  ~ (s <= x < s + Z.of_nat n) -> byte_at (strncpy n s t m) x = byte_at m x.
Proof.
  induction n as [|n IH]; intros s t m x Hx; cbn [strncpy]; [reflexivity|].
  destruct (byte_at m t =? 0).
  - rewrite strncpy_pad_spec. bytes.
  - rewrite IH by lia. bytes.
Qed.

(** [strncpy(s, t, n)] fills the [n] bytes at [s] with the string at [t]
    cut after [n] characters, padded with NULs, and touches nothing else,
    when the two areas do not overlap. *)
Lemma strncpy_spec (n : nat) (s t : Z) (m : mem)
    (Hsep : s + Z.of_nat n <= t \/ t + Z.of_nat n <= s) :
  bytes_at (strncpy n s t m) s n = field_of n (cstr m t n) /\
  forall x, ~ (s <= x < s + Z.of_nat n) -> byte_at (strncpy n s t m) x = byte_at m x.
Proof.
  split; [|apply strncpy_frame].
  revert s t m Hsep. induction n as [|n IH]; intros s t m Hsep; [reflexivity|].
  rewrite cstr_S. cbn [strncpy bytes_at].
  destruct (byte_at m t =? 0) eqn:E.
  - unfold field_of. simpl. f_equal.
    + rewrite strncpy_pad_spec. bytes.
    + apply bytes_at_zero. intros x Hx. rewrite strncpy_pad_spec. bytes.
  - unfold field_of. simpl. f_equal.
    + rewrite strncpy_frame by lia. bytes.
    + rewrite IH by lia. unfold field_of.
      replace (cstr (mstore 1 s (byte_at m t) m) (t + 1) n) with (cstr m (t + 1) n); [reflexivity|].
      apply cstr_agree. intros x Hx. symmetry. apply mstore_out. lia.
Qed.

Lemma safestrcpy_loop_frame k : forall s t m x,
  ~ (s <= x < s + Z.of_nat k + 1) -> byte_at (safestrcpy_loop k s t m) x = byte_at m x.
Proof.
  induction k as [|k IH]; intros s t m x Hx; cbn [safestrcpy_loop].
  - bytes.
  - destruct (byte_at m t =? 0); [bytes|]. rewrite IH by lia. bytes.
Qed.

Lemma safestrcpy_loop_spec k : forall s t m,
  s + Z.of_nat k + 1 <= t \/ t + Z.of_nat k <= s ->
  cstr (safestrcpy_loop k s t m) s (S k) = cstr m t k.
Proof.
  induction k as [|k IH]; intros s t m Hsep; rewrite cstr_S.
  - cbn [safestrcpy_loop]. replace (byte_at _ s) with 0 by bytes. reflexivity.
  - rewrite (cstr_S m t). cbn [safestrcpy_loop]. destruct (byte_at m t =? 0) eqn:E.
    + replace (byte_at _ s) with 0 by bytes. reflexivity.
    + replace (byte_at _ s) with (byte_at m t).
      2: { rewrite safestrcpy_loop_frame by lia. bytes. }
      rewrite E. f_equal. rewrite IH by lia. apply cstr_agree.
      intros x Hx. apply mstore_out. lia.
Qed.

(** [safestrcpy(s, t, n)] for [n > 0] leaves at [s] a string that ends
    within the [n] bytes and equals the first [n - 1] characters of [t]; it
    writes no byte outside the [n] bytes. *)
Theorem safestrcpy_spec (s t n : Z) (m : mem) (Hn : 0 < n)
    (Hsep : s + n <= t \/ t + n <= s) :
  cstr (safestrcpy s t n m) s (Z.to_nat n) = cstr m t (Z.to_nat (n - 1)) /\
  (exists x, s <= x < s + n /\ byte_at (safestrcpy s t n m) x = 0) /\
  forall x, ~ (s <= x < s + n) -> byte_at (safestrcpy s t n m) x = byte_at m x.
Proof.
  unfold safestrcpy. destruct (n <=? 0) eqn:E; [lia|].
  set (k := Z.to_nat (n - 1)). replace (Z.to_nat n) with (S k) by lia.
  split; [apply safestrcpy_loop_spec; lia|]. split.
  - assert (H : forall k s t m, exists x, s <= x < s + Z.of_nat k + 1 /\
      (byte_at (safestrcpy_loop k s t m) x = 0)).
    { clear. induction k as [|k IH]; intros s t m; cbn [safestrcpy_loop].
      - exists s. split; [lia|bytes].
      - destruct (byte_at m t =? 0).
        + exists (s + 1). split; [lia|bytes].
        + destruct (IH (s + 1) (t + 1) (mstore 1 s (byte_at m t) m)) as (x & Hx & H0).
          exists x. split; [lia|exact H0]. }
    destruct (H k s t m) as (x & Hx & H0). exists x. split; [lia|exact H0].
  - intros x Hx. apply safestrcpy_loop_frame. lia.
Qed.

(** [strlen] finds the length of the string when the fuel exceeds it. *)
Lemma strlen_loop_spec fuel : forall s n m k,
  (forall i, n <= i < k -> byte_at m (s + i) <> 0) -> byte_at m (s + k) = 0 ->
  n <= k -> k - n < Z.of_nat fuel -> strlen_loop fuel s n m = Some k.
Proof.
  induction fuel as [|f IH]; intros s n m k Hnz Hz Hnk Hf; [lia|]. simpl.
  destruct (byte_at m (s + n) =? 0) eqn:E.
  - destruct (decide (n = k)) as [->|]; [reflexivity|]. specialize (Hnz n). lia.
  - apply IH; auto; [intros i Hi; apply Hnz; lia| |];
      destruct (decide (n = k)) as [->|]; lia.
Qed.
