(* ===== verification/Vm.v ===== *)
(** * Virtual memory (kernel/vm.c)

    Sv39 page tables in physical memory: every function of kernel/vm.c over
    the state of Kalloc.v (memory and the free list).  A page table is the
    address of its root page.  Kernel buffers that the C code passes as
    pointers (the source of [copyout], the destination of [copyin]) are lists
    of bytes.  Loops carry a bound on the number of iterations computed from
    their arguments; the contracts of VmSpec.v include that it is enough. *)

From S2P Require Import Prelude Kmonad Mem Riscv Kalloc.

Section Vm.
Context {L : LinkMap}.

Definition read64 (a : Z) : M vmst Z := gets (fun s => load64 a (phys s)).
Definition write64 (a v : Z) : M vmst unit := modify (on_phys (store64 a v)).

(** [*pte] where the code has not checked [pte] for 0: loading through a null
    pointer traps, and [kerneltrap] panics. *)
Definition deref64 (a : Z) : M vmst Z :=
  if a =? 0 then panic "kerneltrap" else read64 a.

Definition pte_test (e bit : Z) : bool := negb (Z.land e bit =? 0).

(** The loop of [walk]: [level] counts down to 0. *)
Fixpoint walk_from (level : nat) (pagetable va : Z) (alloc : bool) : M vmst Z :=
  match level with
  | O => ret (pagetable + 8 * PX 0 va)
  | S l =>
      let pte := pagetable + 8 * PX (Z.of_nat level) va in
      let* e := read64 pte in
      if pte_test e PTE_V then walk_from l (PTE2PA e) va alloc
      else if negb alloc then ret 0
      else
        let* pg := kalloc in
        if pg =? 0 then ret 0
        else
          modify (on_phys (mset pg 0 PGSIZE)) ;;
          write64 pte (Z.lor (PA2PTE pg) PTE_V) ;;
          walk_from l pg va alloc
  end.

(** [walk(pagetable, va, alloc)]: the address of the leaf PTE, or 0. *)
Definition walk (pagetable va : Z) (alloc : bool) : M vmst Z :=
  if MAXVA <=? va then panic "walk" else walk_from 2 pagetable va alloc.

Definition walkaddr (pagetable va : Z) : M vmst Z :=
  if MAXVA <=? va then ret 0
  else
    let* pte := walk pagetable va false in
    if pte =? 0 then ret 0
    else
      let* e := read64 pte in
      if negb (pte_test e PTE_V) then ret 0
      else if negb (pte_test e PTE_U) then ret 0
      else ret (PTE2PA e).

Definition mappages (pagetable va size pa perm : Z) : M vmst Z :=
  if negb (va mod PGSIZE =? 0) then panic "mappages: va not aligned"
  else if negb (size mod PGSIZE =? 0) then panic "mappages: size not aligned"
  else if size =? 0 then panic "mappages: size"
  else
    let last := u64 (va + size - PGSIZE) in
    loop (Z.to_nat (size / PGSIZE))
      (fun x => let '(a, pa) := x in
         let* pte := walk pagetable a true in
         if pte =? 0 then ret (inr (-1))
         else
           let* e := read64 pte in
           if pte_test e PTE_V then panic "mappages: remap"
           else
             write64 pte (Z.lor (Z.lor (PA2PTE pa) perm) PTE_V) ;;
             if a =? last then ret (inr 0)
             else ret (inl (u64 (a + PGSIZE), u64 (pa + PGSIZE))))
      (va, pa).

(** [uvmcreate()]: an empty user page table, or 0. *)
Definition uvmcreate : M vmst Z :=
  let* pagetable := kalloc in
  if pagetable =? 0 then ret 0
  else modify (on_phys (mset pagetable 0 PGSIZE)) ;; ret pagetable.

Definition uvmunmap (pagetable va npages : Z) (do_free : bool) : M vmst unit :=
  if negb (va mod PGSIZE =? 0) then panic "uvmunmap: not aligned"
  else
    let stop := u64 (va + u64 (npages * PGSIZE)) in
    loop (Z.to_nat npages + 1)
      (fun a =>
         if a <? stop then
           let* pte := walk pagetable a false in
           if pte =? 0 then ret (inl (u64 (a + PGSIZE)))
           else
             let* e := read64 pte in
             if negb (pte_test e PTE_V) then ret (inl (u64 (a + PGSIZE)))
             else
               when do_free (kfree (PTE2PA e)) ;;
               write64 pte 0 ;;
               ret (inl (u64 (a + PGSIZE)))
         else ret (inr tt))
      va.

Definition uvmdealloc (pagetable oldsz newsz : Z) : M vmst Z :=
  if oldsz <=? newsz then ret oldsz
  else
    when (PGROUNDUP newsz <? PGROUNDUP oldsz)
      (let npages := i32 ((PGROUNDUP oldsz - PGROUNDUP newsz) / PGSIZE) in
       uvmunmap pagetable (PGROUNDUP newsz) (u64 npages) true) ;;
    ret newsz.

Definition uvmalloc (pagetable oldsz newsz xperm : Z) : M vmst Z :=
  if newsz <? oldsz then ret oldsz
  else
    let oldsz := PGROUNDUP oldsz in
    loop (Z.to_nat ((newsz - oldsz) / PGSIZE + 2))
      (fun a =>
         if a <? newsz then
           let* m := kalloc in
           if m =? 0 then uvmdealloc pagetable a oldsz ;; ret (inr 0)
           else
             modify (on_phys (mset m 0 PGSIZE)) ;;
             let* r := mappages pagetable a PGSIZE m (Z.lor (Z.lor PTE_R PTE_U) xperm) in
             if negb (r =? 0) then
               kfree m ;; uvmdealloc pagetable a oldsz ;; ret (inr 0)
             else ret (inl (u64 (a + PGSIZE)))
         else ret (inr newsz))
      oldsz.

(** [freewalk(pagetable)]; the recursion descends one level per call, and
    [depth] bounds the number of levels. *)
Fixpoint freewalk (depth : nat) (pagetable : Z) : M vmst unit :=
  match depth with
  | O => outoffuel
  | S d =>
      for_each (seq 0 512)
        (fun i =>
           let slot := pagetable + 8 * Z.of_nat i in
           let* pte := read64 slot in
           if pte_test pte PTE_V && (Z.land pte (Z.lor (Z.lor PTE_R PTE_W) PTE_X) =? 0) then
             freewalk d (PTE2PA pte) ;; write64 slot 0
           else if pte_test pte PTE_V then panic "freewalk: leaf"
           else ret tt) ;;
      kfree pagetable
  end.

Definition uvmfree (pagetable sz : Z) : M vmst unit :=
  when (0 <? sz) (uvmunmap pagetable 0 (PGROUNDUP sz / PGSIZE) true) ;;
  freewalk 3 pagetable.

(** [uvmcopy(old, new, sz)]; [err] is the label of the same name. *)
Definition uvmcopy (old new sz : Z) : M vmst Z :=
  let err i := uvmunmap new 0 (i / PGSIZE) true ;; ret (inr (-1)) in
  loop (Z.to_nat (sz / PGSIZE + 2))
    (fun i =>
       if i <? sz then
         let* pte := walk old i false in
         if pte =? 0 then ret (inl (u64 (i + PGSIZE)))
         else
           let* e := read64 pte in
           if negb (pte_test e PTE_V) then ret (inl (u64 (i + PGSIZE)))
           else
             let pa := PTE2PA e in
             let flags := PTE_FLAGS e in
             let* m := kalloc in
             if m =? 0 then err i
             else
               modify (on_phys (mmove m pa PGSIZE)) ;;
               let* r := mappages new i PGSIZE m flags in
               if negb (r =? 0) then kfree m ;; err i
               else ret (inl (u64 (i + PGSIZE)))
       else ret (inr 0))
    0.

Definition uvmclear (pagetable va : Z) : M vmst unit :=
  let* pte := walk pagetable va false in
  if pte =? 0 then panic "uvmclear"
  else let* e := read64 pte in write64 pte (Z.land e (Z.lnot PTE_U)).

Definition ismapped (pagetable va : Z) : M vmst bool :=
  let* pte := walk pagetable va false in
  if pte =? 0 then ret false
  else let* e := read64 pte in ret (pte_test e PTE_V).

(** [vmfault(pagetable, va, read)]; [psz] and [ppt] are [myproc()->sz] and
    [myproc()->pagetable].  The C code does not use [read]. *)
Definition vmfault (psz ppt pagetable va : Z) : M vmst Z :=
  if psz <=? va then ret 0
  else
    let va := PGROUNDDOWN va in
    let* mapped := ismapped pagetable va in
    if mapped then ret 0
    else
      let* m := kalloc in
      if m =? 0 then ret 0
      else
        modify (on_phys (mset m 0 PGSIZE)) ;;
        let* r := mappages ppt va PGSIZE m (Z.lor (Z.lor PTE_W PTE_U) PTE_R) in
        if negb (r =? 0) then kfree m ;; ret 0 else ret m.

(** [copyout(pagetable, dstva, src, len)] with the bytes [src]. *)
Definition copyout (psz ppt pagetable dstva : Z) (src : list Z) : M vmst Z :=
  loop (S (length src))
    (fun x => let '(dstva, src) := x in
       match src with
       | [] => ret (inr 0)
       | _ =>
           let va0 := PGROUNDDOWN dstva in
           if MAXVA <=? va0 then ret (inr (-1))
           else
             let* pa0 := walkaddr pagetable va0 in
             let* pa0 := if pa0 =? 0 then vmfault psz ppt pagetable va0 else ret pa0 in
             if pa0 =? 0 then ret (inr (-1))
             else
               let* pte := walk pagetable va0 false in
               let* e := deref64 pte in
               if negb (pte_test e PTE_W) then ret (inr (-1))
               else
                 let n := Z.to_nat (PGSIZE - (dstva - va0)) in
                 modify (on_phys (mwrite (pa0 + (dstva - va0)) (take n src))) ;;
                 ret (inl (u64 (va0 + PGSIZE), drop n src))
       end)
    (dstva, src).

(** [copyin(pagetable, dst, srcva, len)]: the return value and the bytes that
    were stored at [dst]. *)
Definition copyin (psz ppt pagetable srcva : Z) (len : nat) : M vmst (Z * list Z) :=
  loop (S len)
    (fun x => let '(srcva, len, acc) := x in
       match len with
       | O => ret (inr (0, acc))
       | _ =>
           let va0 := PGROUNDDOWN srcva in
           let* pa0 := walkaddr pagetable va0 in
           let* pa0 := if pa0 =? 0 then vmfault psz ppt pagetable va0 else ret pa0 in
           if pa0 =? 0 then ret (inr (-1, acc))
           else
             let n := Nat.min (Z.to_nat (PGSIZE - (srcva - va0))) len in
             let* l := gets (fun s => bytes_at (phys s) (pa0 + (srcva - va0)) n) in
             ret (inl (u64 (va0 + PGSIZE), (len - n)%nat, acc ++ l))
       end)
    (srcva, len, []).

(** The inner loop of [copyinstr] over at most [n] bytes at [p]: whether a NUL
    was found, the bytes stored at [dst], and how many were not NUL. *)
Fixpoint copyinstr_page (n : nat) (p : Z) (m : mem) : bool * list Z :=
  match n with
  | O => (false, [])
  | S n' =>
      if byte_at m p =? 0 then (true, [0])
      else let '(b, l) := copyinstr_page n' (p + 1) m in (b, byte_at m p :: l)
  end.

(** [copyinstr(pagetable, dst, srcva, max)]: the return value and the bytes
    stored at [dst]. *)
Definition copyinstr (pagetable srcva : Z) (max : nat) : M vmst (Z * list Z) :=
  loop (S max)
    (fun x => let '(srcva, max, acc) := x in
       match max with
       | O => ret (inr (-1, acc))
       | _ =>
           let va0 := PGROUNDDOWN srcva in
           let* pa0 := walkaddr pagetable va0 in
           if pa0 =? 0 then ret (inr (-1, acc))
           else
             let n := Nat.min (Z.to_nat (PGSIZE - (srcva - va0))) max in
             let* r := gets (fun s => copyinstr_page n (pa0 + (srcva - va0)) (phys s)) in
             let '(got_null, l) := r in
             if got_null : bool then ret (inr (0, acc ++ l))
             else ret (inl (u64 (va0 + PGSIZE), (max - n)%nat, acc ++ l))
       end)
    (srcva, max, []).

(** ** The kernel's page table *)

Definition kvmmap (kpgtbl va pa sz perm : Z) : M vmst unit :=
  let* r := mappages kpgtbl va sz pa perm in
  if negb (r =? 0) then panic "kvmmap" else ret tt.

(** [proc_mapstacks] of kernel/proc.c: a kernel stack for each process. *)
Definition proc_mapstacks (kpgtbl : Z) : M vmst unit :=
  for_each (seq 0 NPROC)
    (fun p =>
       let* pa := kalloc in
       if pa =? 0 then panic "kalloc"
       else kvmmap kpgtbl (KSTACK (Z.of_nat p)) pa PGSIZE (Z.lor PTE_R PTE_W)).

Definition kvmmake : M vmst Z :=
  let* kpgtbl := kalloc in
  modify (on_phys (mset kpgtbl 0 PGSIZE)) ;;
  kvmmap kpgtbl UART0 UART0 PGSIZE (Z.lor PTE_R PTE_W) ;;
  kvmmap kpgtbl VIRTIO0 VIRTIO0 PGSIZE (Z.lor PTE_R PTE_W) ;;
  kvmmap kpgtbl PLIC PLIC 0x4000000 (Z.lor PTE_R PTE_W) ;;
  kvmmap kpgtbl KERNBASE KERNBASE (sym_etext - KERNBASE) (Z.lor PTE_R PTE_X) ;;
  kvmmap kpgtbl sym_etext sym_etext (PHYSTOP - sym_etext) (Z.lor PTE_R PTE_W) ;;
  kvmmap kpgtbl TRAMPOLINE sym_trampoline PGSIZE (Z.lor PTE_R PTE_X) ;;
  proc_mapstacks kpgtbl ;;
  ret kpgtbl.

(** ** User page tables of processes (kernel/proc.c) *)

Definition proc_pagetable (trapframe : Z) : M vmst Z :=
  let* pagetable := uvmcreate in
  if pagetable =? 0 then ret 0
  else
    let* r := mappages pagetable TRAMPOLINE PGSIZE sym_trampoline (Z.lor PTE_R PTE_X) in
    if r <? 0 then uvmfree pagetable 0 ;; ret 0
    else
      let* r := mappages pagetable TRAPFRAME PGSIZE trapframe (Z.lor PTE_R PTE_W) in
      if r <? 0 then
        uvmunmap pagetable TRAMPOLINE 1 false ;;
        uvmfree pagetable 0 ;;
        ret 0
      else ret pagetable.

Definition proc_freepagetable (pagetable sz : Z) : M vmst unit :=
  uvmunmap pagetable TRAMPOLINE 1 false ;;
  uvmunmap pagetable TRAPFRAME 1 false ;;
  uvmfree pagetable sz.

End Vm.
