(* ===== verification/PageTable.v ===== *)
(** * Page tables as trees in memory

    The abstraction behind kernel/vm.c.  [ptree m l b ps]: the page at [b] is
    the root of a page-table (sub)tree of level [l] whose pages are [ps].
    [pte_of m l b va] is the leaf PTE that the tree holds for [va] (0 when the
    walk ends early): the abstract page table is this function of [va].  The
    lemmas say that the tree and its PTEs depend only on the pages of the
    tree, and that a store to one leaf slot changes the PTE of exactly one
    page. *)

From S2P Require Import Prelude Kmonad Mem Riscv Kalloc Vm.

Section PageTable.
Context {L : LinkMap}.

(** The virtual addresses that three 9-bit indices and a 12-bit offset can
    tell apart.  The kernel uses the lower half, below [MAXVA]. *)
Definition SV39 : Z := 549755813888.
#[local] Hint Unfold SV39 : consts.

(** The slot of [va] in the page at [b], at level [l]. *)
Definition slot (l : nat) (b va : Z) : Z := b + 8 * PX (Z.of_nat l) va.

(** [walk] without allocation, as a function of memory. *)
Fixpoint pure_walk (m : mem) (l : nat) (b va : Z) : Z :=
  match l with
  | O => slot 0 b va
  | S l' =>
      let e := load64 (slot l b va) m in
      if pte_test e PTE_V then pure_walk m l' (PTE2PA e) va else 0
  end.

Definition pte_of (m : mem) (l : nat) (b va : Z) : Z :=
  let a := pure_walk m l b va in if a =? 0 then 0 else load64 a m.

(** A PTE that points to a lower-level page table. *)
Definition interior (e : Z) : Prop := Z.land e (Z.lor (Z.lor PTE_R PTE_W) PTE_X) = 0.

(** The pages of the 512 subtrees below a page. *)
Definition kids (f : nat -> list Z) : list Z := concat (map f (seq 0 512)).

Fixpoint ptree (m : mem) (l : nat) (b : Z) (ps : list Z) : Prop :=
  match l with
  | O => ps = [b]
  | S l' =>
      exists f : nat -> list Z,
        ps = b :: kids f /\
        forall i, (i < 512)%nat ->
          let e := load64 (b + 8 * Z.of_nat i) m in
          if pte_test e PTE_V
          then interior e /\ ptree m l' (PTE2PA e) (f i)
          else f i = []
  end.

(** [x] is an address inside one of the pages [ps]. *)
Definition in_pages (ps : list Z) (x : Z) : Prop :=
  exists p, p ∈ ps /\ p <= x < p + PGSIZE.

(** The memories agree on the pages [ps]; outside them. *)
Definition same_on (ps : list Z) (m m' : mem) : Prop := forall x, in_pages ps x -> m x = m' x.
Definition same_off (ps : list Z) (m m' : mem) : Prop := forall x, ~ in_pages ps x -> m' x = m x.

Lemma pure_walk_0 m b va : pure_walk m 0 b va = slot 0 b va.
Proof. reflexivity. Qed.
Lemma pure_walk_S m l b va :
  pure_walk m (S l) b va =
  (let e := load64 (slot (S l) b va) m in
   if pte_test e PTE_V then pure_walk m l (PTE2PA e) va else 0).
Proof. reflexivity. Qed.

(** ** Children *)

Lemma kids_elem f q : q ∈ kids f <-> exists i, (i < 512)%nat /\ q ∈ f i.
Proof.
  unfold kids. rewrite list_elem_of_In, in_concat. split.
  - intros (l & Hl & Hq). apply in_map_iff in Hl as (i & <- & Hi).
    apply in_seq in Hi. exists i. split; [lia|]. by apply list_elem_of_In.
  - intros (i & Hi & Hq). exists (f i). split; [|by apply list_elem_of_In].
    apply in_map_iff. exists i. split; [reflexivity|]. apply in_seq. lia.
Qed.

Definition upd (f : nat -> list Z) (i : nat) (x : list Z) : nat -> list Z :=
  fun j => if decide (j = i) then x else f j.

Lemma concat_map_upd_notin f i x l :
  i ∉ l -> concat (map (upd f i x) l) = concat (map f l).
Proof.
  induction l as [|j l IH]; intros H; [reflexivity|].
  apply not_elem_of_cons in H as [Hj Hl]. simpl. rewrite IH by auto.
  unfold upd. case_decide; [by subst|reflexivity].
Qed.

Lemma concat_map_upd_perm f i x l :
  NoDup l -> i ∈ l -> concat (map (upd f i x) l) ≡ₚ x ++ concat (map (upd f i []) l).
Proof.
  induction l as [|j l IH]; intros Hd Hi; [by apply not_elem_of_nil in Hi|].
  apply NoDup_cons in Hd as [Hj Hd]. simpl.
  destruct (decide (j = i)) as [->|Hne].
  - rewrite !concat_map_upd_notin by auto. unfold upd at 1 2.
    destruct (decide (i = i)); [reflexivity|contradiction].
  - assert (i ∈ l) by (apply elem_of_cons in Hi as [?|?]; [by subst|auto]).
    rewrite IH by auto.
    replace (upd f i x j) with (f j) by (unfold upd; by case_decide).
    replace (upd f i [] j) with (f j) by (unfold upd; by case_decide).
    rewrite !app_assoc. f_equiv. apply Permutation_app_comm.
Qed.

Lemma upd_id f i l : concat (map (upd f i (f i)) l) = concat (map f l).
Proof.
  f_equal. apply map_ext. intros j. unfold upd. case_decide; [by subst|reflexivity].
Qed.

(** All pages but those of child [i]. *)
Definition rest (f : nat -> list Z) (i : nat) : list Z := kids (upd f i []).

Lemma kids_split f i : (i < 512)%nat -> kids f ≡ₚ f i ++ rest f i.
Proof.
  intros Hi. unfold kids, rest, kids. rewrite <- (upd_id f i).
  apply concat_map_upd_perm; [apply NoDup_seq|]. apply elem_of_seq. lia.
Qed.

Lemma kids_upd f i x : (i < 512)%nat -> kids (upd f i x) ≡ₚ x ++ rest f i.
Proof.
  intros Hi. apply concat_map_upd_perm; [apply NoDup_seq|]. apply elem_of_seq. lia.
Qed.

Lemma rest_elem f i j q : (j < 512)%nat -> j <> i -> q ∈ f j -> q ∈ rest f i.
Proof.
  intros Hj Hne Hq. apply kids_elem. exists j. split; [auto|].
  unfold upd. by case_decide.
Qed.

(** ** Pages *)

Lemma in_pages_app ps qs x : in_pages (ps ++ qs) x <-> in_pages ps x \/ in_pages qs x.
Proof.
  split.
  - intros (p & Hp & Hx). apply elem_of_app in Hp as [?|?]; [left|right]; exists p; auto.
  - intros [(p & Hp & Hx)|(p & Hp & Hx)]; exists p; split; auto; apply elem_of_app; auto.
Qed.

Lemma in_pages_perm ps qs x : ps ≡ₚ qs -> in_pages ps x -> in_pages qs x.
Proof. intros HP (p & Hp & Hx). exists p. split; [|auto]. by rewrite <- HP. Qed.

Lemma in_pages_sub ps qs x : ps ⊆ qs -> in_pages ps x -> in_pages qs x.
Proof. intros HP (p & Hp & Hx). exists p. auto. Qed.

Lemma slot_in_page l b va :
  b <= slot l b va /\ slot l b va + 8 <= b + PGSIZE.
Proof. unfold slot. pose proof (PX_range (Z.of_nat l) va). klia. Qed.

Lemma slot_in_pages l b va ps x :
  b ∈ ps -> slot l b va <= x < slot l b va + 8 -> in_pages ps x.
Proof. intros Hb Hx. exists b. split; [auto|]. pose proof (slot_in_page l b va). lia. Qed.

Lemma same_on_sub ps qs m m' : ps ⊆ qs -> same_on qs m m' -> same_on ps m m'.
Proof. intros Hs H x Hx. apply H. eapply in_pages_sub; eauto. Qed.

(** Distinct valid pages do not share addresses. *)
Lemma pages_apart ps qs x :
  Forall valid_page ps -> Forall valid_page qs -> NoDup (ps ++ qs) ->
  in_pages ps x -> ~ in_pages qs x.
Proof.
  intros Hp Hq Hd (p & Hpe & Hpx) (q & Hqe & Hqx).
  destruct (Forall_elem _ _ _ Hp Hpe) as [Hpa _].
  destruct (Forall_elem _ _ _ Hq Hqe) as [Hqa _].
  assert (p <> q).
  { intros ->. apply NoDup_app in Hd as (_ & Hn & _). eapply Hn; eauto. }
  destruct (pages_disjoint p q); auto; lia.
Qed.

(** ** The tree depends only on its pages *)

Lemma ptree_root m l b ps : ptree m l b ps -> b ∈ ps.
Proof.
  destruct l; simpl; [intros ->; by left|].
  intros (f & -> & _). by left.
Qed.

Lemma read_slot m m' l b va ps :
  b ∈ ps -> same_on ps m m' -> load64 (slot l b va) m = load64 (slot l b va) m'.
Proof.
  intros Hb Hs. apply mload_agree. intros x Hx. apply Hs.
  eapply slot_in_pages; eauto.
Qed.

Lemma read_entry m m' b i ps :
  (i < 512)%nat -> b ∈ ps -> same_on ps m m' ->
  load64 (b + 8 * Z.of_nat i) m = load64 (b + 8 * Z.of_nat i) m'.
Proof.
  intros Hi Hb Hs. apply mload_agree. intros x Hx. apply Hs.
  exists b. split; [auto|klia].
Qed.

Lemma ptree_same l : forall m m' b ps,
  same_on ps m m' -> ptree m l b ps -> ptree m' l b ps.
Proof.
  induction l as [|l IH]; intros m m' b ps Hs; simpl; [auto|].
  intros (f & -> & Hf). exists f. split; [reflexivity|]. intros i Hi.
  rewrite <- (read_entry m m' b i (b :: kids f)) by (auto; by left).
  specialize (Hf i Hi). simpl in Hf. destruct (pte_test _ PTE_V); [|auto].
  destruct Hf as [Hint Ht]. split; [auto|]. eapply IH; [|exact Ht].
  eapply same_on_sub; [|exact Hs]. intros q Hq. right. apply kids_elem. eauto.
Qed.

(** The child that [va] selects. *)
Lemma ptree_child m l b ps va :
  ptree m (S l) b ps ->
  exists f i, ps = b :: kids f /\ (i < 512)%nat /\ PX (Z.of_nat (S l)) va = Z.of_nat i /\
    slot (S l) b va = b + 8 * Z.of_nat i /\
    (forall j, (j < 512)%nat ->
      let e := load64 (b + 8 * Z.of_nat j) m in
      if pte_test e PTE_V then interior e /\ ptree m l (PTE2PA e) (f j) else f j = []).
Proof.
  intros (f & -> & Hf). pose proof (PX_range (Z.of_nat (S l)) va ltac:(lia)) as Hr.
  exists f, (Z.to_nat (PX (Z.of_nat (S l)) va)).
  repeat split; auto; try lia. unfold slot. lia.
Qed.

Lemma pure_walk_same l : forall m m' b ps va,
  same_on ps m m' -> ptree m l b ps -> pure_walk m' l b va = pure_walk m l b va.
Proof.
  induction l as [|l IH]; intros m m' b ps va Hs Ht; [reflexivity|].
  simpl. rewrite <- (read_slot m m' (S l) b va ps) by (auto; eapply ptree_root; eauto).
  destruct (ptree_child m l b ps va Ht) as (f & i & -> & Hi & _ & Hsl & Hf).
  specialize (Hf i Hi). simpl in Hf. rewrite Hsl in *.
  destruct (pte_test _ PTE_V); [|reflexivity].
  eapply IH; [|apply Hf]. eapply same_on_sub; [|exact Hs].
  intros q Hq. right. apply kids_elem. eauto.
Qed.

(** The walk ends in a slot of one of the tree's pages. *)
Lemma pure_walk_slot l : forall m b ps va,
  ptree m l b ps -> pure_walk m l b va <> 0 ->
  exists q, q ∈ ps /\ pure_walk m l b va = slot 0 q va.
Proof.
  induction l as [|l IH]; intros m b ps va Ht Hw.
  - exists b. simpl in Ht. subst. split; [by left|reflexivity].
  - destruct (ptree_child m l b ps va Ht) as (f & i & -> & Hi & _ & Hsl & Hf).
    specialize (Hf i Hi). simpl in *. rewrite Hsl in *.
    destruct (pte_test _ PTE_V); [|contradiction].
    destruct Hf as [_ Hc]. destruct (IH m _ (f i) va Hc Hw) as (q & Hq & E).
    exists q. split; [|auto]. right. apply kids_elem. eauto.
Qed.

Lemma pte_of_same l m m' b ps va :
  same_on ps m m' -> ptree m l b ps -> pte_of m' l b va = pte_of m l b va.
Proof.
  intros Hs Ht. unfold pte_of. rewrite (pure_walk_same l m m' b ps) by auto.
  destruct (pure_walk m l b va =? 0) eqn:E; [reflexivity|].
  destruct (pure_walk_slot l m b ps va Ht) as (q & Hq & ->); [lia|].
  symmetry. eapply read_slot; eauto.
Qed.

(** The walk of the C code, without allocation, computes [pure_walk]. *)
Lemma walk_from_pure l : forall b va t s,
  walk_from l b va false t s = ORet (pure_walk (phys s) l b va) t s.
Proof.
  induction l as [|l IH]; intros b va t s; [reflexivity|].
  cbn [walk_from pure_walk]. unfold bind, read64, gets. simpl.
  unfold slot. destruct (pte_test _ PTE_V); [apply IH|reflexivity].
Qed.

Lemma walk_pure b va t s :
  va < MAXVA -> walk b va false t s = ORet (pure_walk (phys s) 2 b va) t s.
Proof.
  intros H. unfold walk. destruct (MAXVA <=? va) eqn:E; [lia|]. apply walk_from_pure.
Qed.

(** ** A store to a leaf slot *)

(** [va] and [va'] select the same entries down from level [l]. *)
Definition same_idx (l : nat) (va va' : Z) : Prop :=
  forall j, (j <= l)%nat -> PX (Z.of_nat j) va = PX (Z.of_nat j) va'.

Lemma digits_eq x y :
  0 <= x < 134217728 -> 0 <= y < 134217728 ->
  x mod 512 = y mod 512 -> x / 512 mod 512 = y / 512 mod 512 ->
  x / 512 / 512 mod 512 = y / 512 / 512 mod 512 -> x = y.
Proof.
  intros Hx Hy H0 H1 H2.
  rewrite !(Z.mod_small (_ / 512 / 512)) in H2 by dlia.
  assert (H : x / 512 = y / 512) by (rewrite (Z.div_mod (x / 512) 512), (Z.div_mod (y / 512) 512); lia).
  rewrite (Z.div_mod x 512), (Z.div_mod y 512); lia.
Qed.

Lemma same_idx_page va va' :
  0 <= va < SV39 -> 0 <= va' < SV39 -> same_idx 2 va va' -> va / 4096 = va' / 4096.
Proof.
  intros Hv Hv' H. pose proof (H 0%nat ltac:(lia)) as H0. pose proof (H 1%nat ltac:(lia)) as H1.
  pose proof (H 2%nat ltac:(lia)) as H2. rewrite !PX_eq in H0, H1, H2 by lia.
  change (2 ^ (12 + 9 * Z.of_nat 0)) with 4096 in H0.
  change (2 ^ (12 + 9 * Z.of_nat 1)) with (4096 * 512) in H1.
  change (2 ^ (12 + 9 * Z.of_nat 2)) with (4096 * 512 * 512) in H2.
  rewrite <- (Z.div_div va (4096 * 512) 512), <- (Z.div_div va' (4096 * 512) 512) in H2 by lia.
  rewrite <- (Z.div_div va 4096 512), <- (Z.div_div va' 4096 512) in H1, H2 by lia. kconsts.
  assert (0 <= va / 4096 < 134217728) by dlia.
  assert (0 <= va' / 4096 < 134217728) by dlia.
  apply digits_eq; auto.
Qed.

Lemma page_same_idx va va' l : va / 4096 = va' / 4096 -> same_idx l va va'.
Proof.
  intros H j _. rewrite !PX_eq by lia.
  rewrite Z.pow_add_r by lia. change (2 ^ 12) with 4096.
  rewrite <- !Z.div_div by (lia || apply Z.pow_pos_nonneg; lia). by rewrite H.
Qed.

Lemma pure_walk_idx l : forall m b va va',
  same_idx l va va' -> pure_walk m l b va = pure_walk m l b va'.
Proof.
  induction l as [|l IH]; intros m b va va' H; cbn [pure_walk]; unfold slot.
  - rewrite (H 0%nat) by lia. reflexivity.
  - rewrite (H (S l)) by lia. destruct (pte_test _ PTE_V); [|reflexivity].
    apply IH. intros j Hj. apply H. lia.
Qed.

Lemma pte_of_S m l b va :
  pte_of m (S l) b va =
  (let e := load64 (slot (S l) b va) m in
   if pte_test e PTE_V then pte_of m l (PTE2PA e) va else 0).
Proof. unfold pte_of. cbn [pure_walk]. destruct (pte_test _ PTE_V); reflexivity. Qed.

Lemma store_other_page q m v a x :
  (q <= a /\ a + 8 <= q + PGSIZE) -> ~ in_pages [q] x -> store64 a v m x = m x.
Proof.
  intros Ha Hx. apply mstore_out. intros H. apply Hx. exists q. split; [by left|lia].
Qed.


(** The store leaves the pages without the slot's page alone. *)
Lemma leaf_store_same m l b ps qs va v :
  ptree m l b ps -> pure_walk m l b va <> 0 -> Forall valid_page ps ->
  Forall valid_page qs -> NoDup (ps ++ qs) ->
  same_on qs m (store64 (pure_walk m l b va) v m).
Proof.
  intros Ht Hw Hp Hq Hd x Hx. symmetry.
  destruct (pure_walk_slot l m b ps va Ht Hw) as (q & Hqp & ->).
  apply (store_other_page q); [pose proof (slot_in_page 0 q va); lia|].
  intros Hin. eapply (pages_apart ps qs x); eauto.
  eapply in_pages_sub; [|exact Hin]. intros y Hy. apply list_elem_of_singleton in Hy. by subst.
Qed.


Lemma leaf_store_tree l : forall m b ps va v,
  ptree m l b ps -> NoDup ps -> Forall valid_page ps -> pure_walk m l b va <> 0 ->
  let m' := store64 (pure_walk m l b va) v m in
  ptree m' l b ps /\
  (forall va', pure_walk m' l b va' = pure_walk m l b va') /\
  (forall va', ~ same_idx l va va' -> pte_of m' l b va' = pte_of m l b va').
Proof.
  induction l as [|l IH]; intros m b ps va v Ht Hd Hv Hw m'.
  - simpl in Ht. split; [exact Ht|]. split; [reflexivity|]. intros va' Hne.
    unfold pte_of, m'. cbn [pure_walk]. destruct (_ =? 0); [reflexivity|].
    apply mload_mstore_other. unfold slot. change (Z.of_nat 0) with 0.
    assert (PX 0 va <> PX 0 va').
    { intros E. apply Hne. intros j Hj. by replace j with 0%nat by lia. }
    lia.
  - destruct (ptree_child m l b ps va Ht) as (f & i & -> & Hi & Hix & Hsl & Hf).
    pose proof (Hf i Hi) as Hfi. cbn zeta in Hfi.
    assert (Hwc : pure_walk m (S l) b va =
      (if pte_test (load64 (b + 8 * Z.of_nat i) m) PTE_V
       then pure_walk m l (PTE2PA (load64 (b + 8 * Z.of_nat i) m)) va else 0))
      by (cbn [pure_walk]; rewrite Hsl; reflexivity).
    destruct (pte_test (load64 (b + 8 * Z.of_nat i) m) PTE_V) eqn:EV; [|contradiction].
    destruct Hfi as [_ Hc]. set (c := PTE2PA _) in *.
    rewrite Hwc in Hw. unfold m'. rewrite Hwc.
    pose proof (kids_split f i Hi) as Hks.
    apply Forall_cons in Hv as [Hvb Hvk].
    assert (Hvi : Forall valid_page (f i)).
    { apply Forall_forall. intros q Hq. eapply Forall_elem; [exact Hvk|]. apply kids_elem. eauto. }
    destruct (IH m c (f i) va v Hc) as (IHt & IHw & IHp); auto; [msolve|].
    set (m1 := store64 (pure_walk m l c va) v m) in *.
    assert (Hb : forall j, (j < 512)%nat ->
      load64 (b + 8 * Z.of_nat j) m1 = load64 (b + 8 * Z.of_nat j) m).
    { intros j Hj. symmetry. apply (read_entry m m1 b j [b]); [auto|by left|].
      apply (leaf_store_same m l c (f i) [b]); auto. msolve. }
    assert (Hj : forall j, (j < 512)%nat -> j <> i -> same_on (f j) m m1).
    { intros j Hj Hji. eapply same_on_sub with (qs := rest f i).
      - intros q Hq. eapply rest_elem; eauto.
      - eapply leaf_store_same; eauto; [|msolve].
        apply Forall_forall. intros q Hq. eapply Forall_elem; [exact Hvk|].
        rewrite Hks. apply elem_of_app. auto. }
    split; [|split].
    + exists f. split; [reflexivity|]. intros j Hjl. cbn zeta. rewrite Hb by auto.
      specialize (Hf j Hjl). cbn zeta in Hf. destruct (pte_test _ PTE_V); [|auto].
      destruct Hf as [Hint Htj]. split; [auto|].
      destruct (decide (j = i)) as [->|]; [exact IHt|]. eapply ptree_same; eauto.
    + intros va'. destruct (ptree_child m l b (b :: kids f) va' Ht)
        as (f' & i' & Ef & Hi' & Hix' & Hsl' & _).
      cbn [pure_walk]. rewrite Hsl', Hb by auto. clear f' Ef.
      specialize (Hf i' Hi'). cbn zeta in Hf. destruct (pte_test _ PTE_V) eqn:EV'; [|reflexivity].
      destruct (decide (i' = i)) as [->|]; [apply IHw|].
      eapply pure_walk_same; [apply Hj; eauto|apply Hf].
    + intros va' Hne. destruct (ptree_child m l b (b :: kids f) va' Ht)
        as (f' & i' & Ef & Hi' & Hix' & Hsl' & _).
      rewrite !pte_of_S, Hsl', Hb by auto. clear f' Ef. cbn zeta.
      specialize (Hf i' Hi'). cbn zeta in Hf. destruct (pte_test _ PTE_V) eqn:EV'; [|reflexivity].
      destruct (decide (i' = i)) as [->|].
      * apply IHp. intros Hs. apply Hne. intros j Hjl.
        destruct (decide (j = S l)) as [->|]; [congruence|]. apply Hs. lia.
      * eapply pte_of_same; [apply Hj; eauto|apply Hf].
Qed.

Lemma leaf_store_pte l m b ps va v va' :
  ptree m l b ps -> NoDup ps -> Forall valid_page ps -> pure_walk m l b va <> 0 ->
  0 <= v < 18446744073709551616 -> same_idx l va va' ->
  pte_of (store64 (pure_walk m l b va) v m) l b va' = v.
Proof.
  intros Ht Hd Hv Hw Hr Hs. unfold pte_of.
  destruct (leaf_store_tree l m b ps va v Ht Hd Hv Hw) as (_ & Hwalk & _).
  rewrite Hwalk, <- (pure_walk_idx l m b va va' Hs).
  destruct (pure_walk m l b va =? 0) eqn:E; [lia|]. apply load64_store64. auto.
Qed.

End PageTable.

#[global] Arguments pure_walk : simpl never.
#[global] Arguments ptree : simpl never.
#[global] Arguments pte_of : simpl never.
#[global] Hint Unfold SV39 : consts.
