(* ===== verification/VmWalk.v ===== *)
(** * [walk] with allocation, [mappages] and [uvmunmap]

    The invariant [vm_inv s root ps l]: [ps] are the pages of the page table
    at [root], [l] the free list, all distinct valid pages.  [walk] keeps it
    and every PTE; [mappages] sets exactly the PTEs of its range; [uvmunmap]
    clears exactly those of its range and frees what they mapped. *)

From S2P Require Import Prelude Kmonad Mem Riscv Kalloc Vm PageTable.

Section VmWalk.
Context {L : LinkMap} {HL : LinkMapOk}.

Lemma valid_page_pos p : valid_page p -> 0 < p /\ p < 2 ^ 56 /\ p mod 4096 = 0.
Proof. intros [Ha Hr]. destruct HL. change (2 ^ 56) with 72057594037927936. klia. Qed.

(** A zeroed page is an empty table of any level. *)
Lemma ptree_zero m l p :
  (forall x, p <= x < p + PGSIZE -> m x = 0) ->
  ptree m l p [p] /\ forall va, pte_of m l p va = 0.
Proof.
  intros Hz.
  assert (Hr : forall i, (i < 512)%nat -> load64 (p + 8 * Z.of_nat i) m = 0).
  { intros i Hi. rewrite <- (mload_mset_zero 8 p PGSIZE (p + 8 * Z.of_nat i) m) by klia.
    apply mload_agree. intros x Hx. rewrite Hz by klia. symmetry. apply mset_in. klia. }
  destruct l as [|l].
  - split; [reflexivity|]. intros va. unfold pte_of. rewrite pure_walk_0.
    pose proof (PX_range (Z.of_nat 0) va ltac:(lia)).
    destruct (_ =? 0); [reflexivity|]. unfold slot.
    replace (PX (Z.of_nat 0) va) with (Z.of_nat (Z.to_nat (PX (Z.of_nat 0) va))) by lia.
    apply Hr. lia.
  - split.
    + exists (fun _ => []). split; [|intros i Hi; cbn zeta; rewrite Hr by auto; reflexivity].
      reflexivity.
    + intros va. rewrite pte_of_S. pose proof (PX_range (Z.of_nat (S l)) va ltac:(lia)).
      unfold slot. replace (PX (Z.of_nat (S l)) va) with (Z.of_nat (Z.to_nat (PX (Z.of_nat (S l)) va))) by lia.
      rewrite Hr by lia. reflexivity.
Qed.

(** Replacing child [i] of a table. *)
Lemma ptree_replace m m' l b f i qs :
  (i < 512)%nat ->
  (forall j, (j < 512)%nat ->
     let e := load64 (b + 8 * Z.of_nat j) m in
     if pte_test e PTE_V then interior e /\ ptree m l (PTE2PA e) (f j) else f j = []) ->
  (let e := load64 (b + 8 * Z.of_nat i) m' in
   pte_test e PTE_V = true /\ interior e /\ ptree m' l (PTE2PA e) qs) ->
  (forall j, (j < 512)%nat -> j <> i ->
     load64 (b + 8 * Z.of_nat j) m' = load64 (b + 8 * Z.of_nat j) m /\ same_on (f j) m m') ->
  ptree m' (S l) b (b :: kids (upd f i qs)).
Proof.
  intros Hi Hf Hei Hj. exists (upd f i qs). split; [reflexivity|].
  intros j Hjl. cbn zeta in *. unfold upd. destruct (decide (j = i)) as [->|Hne].
  - destruct Hei as (-> & ? & ?). auto.
  - destruct (Hj j Hjl Hne) as [-> Hs]. specialize (Hf j Hjl).
    destruct (pte_test _ PTE_V); [|auto]. destruct Hf. split; [auto|]. eapply ptree_same; eauto.
Qed.

Lemma pte_of_replace m m' l b f i va :
  (i < 512)%nat ->
  (forall j, (j < 512)%nat ->
     let e := load64 (b + 8 * Z.of_nat j) m in
     if pte_test e PTE_V then interior e /\ ptree m l (PTE2PA e) (f j) else f j = []) ->
  (forall j, (j < 512)%nat -> j <> i ->
     load64 (b + 8 * Z.of_nat j) m' = load64 (b + 8 * Z.of_nat j) m /\ same_on (f j) m m') ->
  (PX (Z.of_nat (S l)) va = Z.of_nat i ->
   pte_of m' (S l) b va = pte_of m (S l) b va) ->
  pte_of m' (S l) b va = pte_of m (S l) b va.
Proof.
  intros Hi Hf Hj Heq. pose proof (PX_range (Z.of_nat (S l)) va ltac:(lia)) as Hr.
  destruct (decide (PX (Z.of_nat (S l)) va = Z.of_nat i)) as [E|E]; [auto|].
  rewrite !pte_of_S. cbn zeta. unfold slot.
  set (j := Z.to_nat (PX (Z.of_nat (S l)) va)) in *.
  replace (PX (Z.of_nat (S l)) va) with (Z.of_nat j) in * by lia.
  destruct (Hj j) as [-> Hs]; [lia|lia|]. specialize (Hf j ltac:(lia)). cbn zeta in Hf.
  destruct (pte_test _ PTE_V); [|reflexivity]. eapply pte_of_same; [exact Hs|apply Hf].
Qed.

(** The pages that changed are away from [qs]. *)
Lemma same_off_on ps qs m m' :
  same_off ps m m' -> Forall valid_page ps -> Forall valid_page qs -> NoDup (ps ++ qs) ->
  same_on qs m m'.
Proof.
  intros Hs Hp Hq Hd x Hx. symmetry. apply Hs. intros Hin.
  eapply (pages_apart ps qs x); eauto.
Qed.

Lemma same_off_trans ps m1 m2 m3 : same_off ps m1 m2 -> same_off ps m2 m3 -> same_off ps m1 m3.
Proof. intros H1 H2 x Hx. rewrite H2 by auto. auto. Qed.

Lemma same_off_sub ps qs m m' : ps ⊆ qs -> same_off ps m m' -> same_off qs m m'.
Proof. intros Hs H x Hx. apply H. intros Hin. apply Hx. eapply in_pages_sub; eauto. Qed.

Lemma Forall_valid_sub ps qs : ps ⊆ qs -> Forall valid_page qs -> Forall valid_page ps.
Proof. intros Hs HF. apply Forall_forall. intros x Hx. eapply Forall_elem; eauto. Qed.

Lemma kids_sub f i : (i < 512)%nat -> f i ⊆ kids f.
Proof. intros Hi q Hq. apply kids_elem. eauto. Qed.
Lemma rest_sub f i : rest f i ⊆ kids f.
Proof.
  intros q Hq. apply kids_elem in Hq as (j & Hj & Hq). apply kids_elem. exists j.
  split; [auto|]. unfold upd in Hq. case_decide; [by apply not_elem_of_nil in Hq|auto].
Qed.

Lemma kmem_inv_off s s' l ps :
  freelist s' = freelist s -> kmem_inv s l -> same_off ps (phys s) (phys s') ->
  Forall valid_page ps -> NoDup (ps ++ l) -> kmem_inv s' l.
Proof.
  intros Hf Hk Hs Hv Hd. eapply kmem_inv_agree; [symmetry; exact Hf| |exact Hk].
  intros p Hp x Hx. eapply (same_off_on ps l); eauto; [apply Hk|].
  exists p. auto.
Qed.

(** [walk_from] on a subtree [ps], with free list [l]. *)
Definition walk_post (lvl : nat) (b va : Z) (ps l : list Z) (s : vmst) (r : Z) (s' : vmst) : Prop :=
  exists ps' l',
    ptree (phys s') lvl b ps' /\ kmem_inv s' l' /\ ps' ++ l' ≡ₚ ps ++ l /\
    same_off (ps ++ l) (phys s) (phys s') /\
    (forall va', pte_of (phys s') lvl b va' = pte_of (phys s) lvl b va') /\
    (r = 0 -> l' = []) /\ (r <> 0 -> r = pure_walk (phys s') lvl b va).


Lemma walk_reassemble lvl b va ps_i' f i l l' s s' r :
  (i < 512)%nat -> PX (Z.of_nat (S lvl)) va = Z.of_nat i ->
  (forall j, (j < 512)%nat ->
     let e := load64 (b + 8 * Z.of_nat j) (phys s) in
     if pte_test e PTE_V then interior e /\ ptree (phys s) lvl (PTE2PA e) (f j) else f j = []) ->
  (let e := load64 (b + 8 * Z.of_nat i) (phys s') in
   pte_test e PTE_V = true /\ interior e /\ ptree (phys s') lvl (PTE2PA e) ps_i' /\
   (r <> 0 -> r = pure_walk (phys s') lvl (PTE2PA e) va) /\
   forall va', PX (Z.of_nat (S lvl)) va' = Z.of_nat i ->
     pte_of (phys s') (S lvl) b va' = pte_of (phys s) (S lvl) b va') ->
  (forall j, (j < 512)%nat -> j <> i ->
     load64 (b + 8 * Z.of_nat j) (phys s') = load64 (b + 8 * Z.of_nat j) (phys s)) ->
  same_off (b :: f i ++ l) (phys s) (phys s') ->
  (forall j, (j < 512)%nat -> j <> i -> same_on (f j) (phys s) (phys s')) ->
  kmem_inv s' l' -> ps_i' ++ l' ≡ₚ f i ++ l -> (r = 0 -> l' = []) ->
  walk_post (S lvl) b va (b :: kids f) l s r s'.
Proof.
  intros Hi Hix Hf (He & Hint & Ht & Hr & Hpi) Hother Hoff Hon Hk Hperm Hr0.
  exists (b :: kids (upd f i ps_i')), l'.
  pose proof (kids_split f i Hi). pose proof (kids_upd f i ps_i' Hi).
  split; [eapply ptree_replace; eauto|]. split; [auto|]. split; [msolve|].
  split; [|split; [|split]]; [| |auto|].
  - eapply same_off_sub; [|exact Hoff]. intros q Hq.
    apply elem_occ in Hq. apply elem_occ. occ_hyps q. autorewrite with occ in *. lia.
  - intros va'. eapply pte_of_replace; eauto.
  - intros Hne. specialize (Hr Hne). rewrite pure_walk_S. unfold slot. rewrite Hix, He. exact Hr.
Qed.

(** What [walk] with allocation does at level [lvl]. *)
Definition walk_ok (lvl : nat) : Prop := forall b ps l va t s,
  ptree (phys s) lvl b ps -> kmem_inv s l -> NoDup (ps ++ l) -> Forall valid_page ps ->
  LKmem ∉ held t ->
  exists r s', walk_from lvl b va true t s = ORet r t s' /\ walk_post lvl b va ps l s r s'.

(** The entries of the table [b], the subtrees [f] below it. *)
Definition entries (m : mem) (lvl : nat) (b : Z) (f : nat -> list Z) : Prop :=
  forall j, (j < 512)%nat ->
    let e := load64 (b + 8 * Z.of_nat j) m in
    if pte_test e PTE_V then interior e /\ ptree m lvl (PTE2PA e) (f j) else f j = [].

(** The walk goes on in an existing subtree. *)
Lemma walk_descend lvl b f i l va t s :
  walk_ok lvl -> (i < 512)%nat -> PX (Z.of_nat (S lvl)) va = Z.of_nat i ->
  entries (phys s) lvl b f -> kmem_inv s l -> NoDup ((b :: kids f) ++ l) ->
  valid_page b -> Forall valid_page (kids f) -> LKmem ∉ held t ->
  let e := load64 (b + 8 * Z.of_nat i) (phys s) in
  pte_test e PTE_V = true ->
  exists r s', walk_from lvl (PTE2PA e) va true t s = ORet r t s' /\
    walk_post (S lvl) b va (b :: kids f) l s r s'.
Proof.
  intros IH Hi Hix Hf Hk Hd Hvb Hvk Hlk e EV.
  pose proof (kids_split f i Hi) as Hks. pose proof (Hf i Hi) as Hfi. cbn zeta in Hfi. fold e in Hfi.
  rewrite EV in Hfi. destruct Hfi as [Hint Hc].
  assert (Hvi : Forall valid_page (f i)) by (eapply Forall_valid_sub; [apply kids_sub; eauto|auto]).
  destruct (IH (PTE2PA e) (f i) l va t s) as (r & s' & E & Hpost); auto; [msolve|].
  exists r, s'. split; [exact E|].
  destruct Hpost as (ps_i' & l' & Ht' & Hk' & Hperm & Hoff & Hpte & Hr0 & Hr).
  assert (Hvil : Forall valid_page (f i ++ l)) by (apply Forall_app; split; [auto|apply Hk]).
  assert (Hb : forall j, (j < 512)%nat ->
    load64 (b + 8 * Z.of_nat j) (phys s') = load64 (b + 8 * Z.of_nat j) (phys s)).
  { intros j Hj. symmetry. apply (read_entry _ _ b j [b]); [auto|by left|].
    eapply same_off_on; eauto. msolve. }
  eapply (walk_reassemble lvl b va ps_i' f i l l'); eauto.
  - cbn zeta. rewrite Hb by auto. fold e. repeat split; auto.
    intros va' Hva'. rewrite !pte_of_S. unfold slot. rewrite Hva', Hb by auto.
    fold e. cbn zeta. rewrite EV. apply Hpte.
  - eapply same_off_sub; [|exact Hoff]. intros q Hq. by right.
  - intros j Hj Hji. eapply same_on_sub with (qs := rest f i).
    { intros q Hq. eapply rest_elem; eauto. }
    eapply same_off_on; eauto; [|msolve].
    eapply Forall_valid_sub; [apply rest_sub|]. exact Hvk.
Qed.

(** The state after page [p] was zeroed and linked into entry [i] of [b]. *)
Definition new_table (b p : Z) (i : nat) (s : vmst) : vmst :=
  on_phys (store64 (b + 8 * Z.of_nat i) (Z.lor (PA2PTE p) PTE_V)) (on_phys (mset p 0 PGSIZE) s).

Lemma new_table_spec b p i s s1 :
  (i < 512)%nat -> valid_page b -> valid_page p -> b <> p ->
  (forall x, ~ (p <= x < p + PGSIZE) -> phys s1 x = phys s x) ->
  let s3 := new_table b p i s1 in
  same_off [b; p] (phys s) (phys s3) /\
  (forall x, p <= x < p + PGSIZE -> phys s3 x = 0) /\
  load64 (b + 8 * Z.of_nat i) (phys s3) = Z.lor (PA2PTE p) PTE_V /\
  (forall j, (j < 512)%nat -> j <> i ->
     load64 (b + 8 * Z.of_nat j) (phys s3) = load64 (b + 8 * Z.of_nat j) (phys s)).
Proof.
  intros Hi Hvb Hvp Hbp Hout1 s3.
  pose proof (valid_page_pos p Hvp) as (Hpp & Hp56 & Hpal).
  assert (Hdisj : b + PGSIZE <= p \/ p + PGSIZE <= b)
    by (apply pages_disjoint; [apply Hvb|apply Hvp|auto]).
  split; [|split; [|split]].
  - intros x Hx. unfold s3. simpl.
    rewrite mstore_out. 2: { intros H. apply Hx. exists b. split; [by left|klia]. }
    rewrite mset_out. 2: { intros H. apply Hx. exists p. split; [right; by left|klia]. }
    apply Hout1. intros H. apply Hx. exists p. split; [right; by left|klia].
  - intros x Hx. unfold s3. simpl. rewrite mstore_out by klia. by rewrite mset_in by klia.
  - unfold s3. simpl. apply load64_store64. apply pte_build_range; [lia|done].
  - intros j Hj Hji. unfold s3. simpl. rewrite mload_mstore_other by lia.
    rewrite mload_mset_other by klia. apply mload_agree. intros x Hx. apply Hout1. klia.
Qed.

Lemma table_pte p :
  valid_page p -> let e := Z.lor (PA2PTE p) PTE_V in
  PTE2PA e = p /\ pte_test e PTE_V = true /\ interior e.
Proof.
  intros Hv e. destruct (valid_page_pos p Hv) as (Hpp & Hp56 & Hpal).
  split; [apply PTE2PA_build; [lia|auto|done]|].
  unfold e, pte_test, interior. split; rewrite land_build by (lia || done); reflexivity.
Qed.

(** The walk goes on in a fresh subtree made of page [p]. *)
Lemma walk_grow lvl b f i p l va t s s1 :
  walk_ok lvl -> (i < 512)%nat -> PX (Z.of_nat (S lvl)) va = Z.of_nat i ->
  entries (phys s) lvl b f -> NoDup ((b :: kids f) ++ p :: l) ->
  valid_page b -> Forall valid_page (kids f) -> valid_page p -> LKmem ∉ held t ->
  pte_test (load64 (b + 8 * Z.of_nat i) (phys s)) PTE_V = false ->
  kmem_inv s1 l -> (forall x, ~ (p <= x < p + PGSIZE) -> phys s1 x = phys s x) ->
  exists r s', walk_from lvl p va true t (new_table b p i s1) = ORet r t s' /\
    walk_post (S lvl) b va (b :: kids f) (p :: l) s r s'.
Proof.
  intros IH Hi Hix Hf Hd Hvb Hvk Hvp Hlk EV Hk1 Hout1.
  pose proof (kids_split f i Hi) as Hks.
  assert (Hfi : f i = []) by (pose proof (Hf i Hi) as H; cbn zeta in H; rewrite EV in H; exact H).
  assert (Hbp : b <> p).
  { intros ->. apply NoDup_occ with (x := p) in Hd. autorewrite with occ in Hd. lia. }
  destruct (new_table_spec b p i s s1) as (Hs3 & Hz & Hei & Hej); auto.
  set (s3 := new_table b p i s1) in *. destruct (table_pte p Hvp) as (He2 & HeV & HeI).
  destruct (ptree_zero (phys s3) lvl p Hz) as [Htp Hpz].
  assert (Hvl : Forall valid_page l) by apply Hk1.
  assert (Hk3 : kmem_inv s3 l).
  { eapply (kmem_inv_off s1 s3 l [b; p]); auto; [|msolve].
    intros x Hx. rewrite (Hs3 x Hx). symmetry. apply Hout1. intros H. apply Hx.
    exists p. split; [right; by left|auto]. }
  destruct (IH p [p] l va t s3) as (r & s' & E & Hpost); auto; [msolve|].
  exists r, s'. split; [exact E|].
  destruct Hpost as (ps_i' & l' & Ht' & Hk' & Hperm & Hoff & Hpte & Hr0 & Hr).
  assert (Hvpl : Forall valid_page ([p] ++ l)) by (constructor; auto).
  assert (Hb : forall j, (j < 512)%nat ->
    load64 (b + 8 * Z.of_nat j) (phys s') = load64 (b + 8 * Z.of_nat j) (phys s3)).
  { intros j Hj. symmetry. apply (read_entry _ _ b j [b]); [auto|by left|].
    eapply same_off_on; eauto. msolve. }
  eapply (walk_reassemble lvl b va ps_i' f i (p :: l) l'); eauto; try (rewrite Hfi; simpl).
  - cbn zeta. rewrite Hb, Hei, He2 by auto. repeat split; auto.
    intros va' Hva'. rewrite !pte_of_S. unfold slot. rewrite Hva', Hb, Hei, He2 by auto. cbn zeta.
    rewrite EV, HeV, Hpte. apply Hpz.
  - intros j Hj Hji. rewrite Hb, Hej by auto. reflexivity.
  - eapply same_off_trans; (eapply same_off_sub; [|eassumption]); intros q Hq; [|by right].
    apply elem_occ in Hq. apply elem_occ. autorewrite with occ in *. lia.
  - intros j Hj Hji. eapply same_on_sub with (qs := rest f i).
    { intros q Hq. eapply rest_elem; eauto. }
    assert (Hvr : Forall valid_page (rest f i)) by (eapply Forall_valid_sub; [apply rest_sub|exact Hvk]).
    intros x Hx. transitivity (phys s3 x).
    + eapply (same_off_on [b; p] (rest f i)); eauto. msolve.
    + eapply (same_off_on ([p] ++ l) (rest f i)); eauto. msolve.
  - exact Hperm.
Qed.

Lemma walk_alloc lvl : walk_ok lvl.
Proof.
  induction lvl as [|lvl IH]; intros b ps l va t s Ht Hk Hd Hv Hlk.
  - exists (slot 0 b va), s. split; [reflexivity|].
    exists ps, l. change (ps = [b]) in Ht. subst ps.
    assert (slot 0 b va <> 0).
    { apply Forall_cons in Hv as [Hv _]. pose proof (valid_page_pos b Hv).
      pose proof (slot_in_page 0 b va). lia. }
    split; [reflexivity|]. split; [auto|]. split; [reflexivity|].
    split; [intros x _; reflexivity|]. split; [reflexivity|]. split; [contradiction|reflexivity].
  - destruct (ptree_child (phys s) lvl b ps va Ht) as (f & i & -> & Hi & Hix & Hsl & Hf).
    cbn [walk_from]. unfold bind at 1, read64, gets. cbn [obind].
    fold (slot (S lvl) b va). rewrite Hsl.
    apply Forall_cons in Hv as [Hvb Hvk].
    destruct (pte_test (load64 (b + 8 * Z.of_nat i) (phys s)) PTE_V) eqn:EV.
    + eapply walk_descend; eauto.
    + cbn [negb]. pose proof (kalloc_inv t s l Hk Hlk) as Hka. destruct l as [|p l0].
      * unfold bind at 1. rewrite Hka. exists 0, s. split; [reflexivity|].
        exists (b :: kids f), []. split; [exact Ht|]. split; [auto|]. split; [reflexivity|].
        split; [intros x _; reflexivity|]. split; [reflexivity|]. split; [reflexivity|contradiction].
      * destruct Hka as (s1 & E1 & Hk1 & Hpn & Hvp & Hp0 & Hin1 & Hout1).
        unfold bind at 1. rewrite E1. cbn [obind]. destruct (p =? 0) eqn:Ep0; [lia|].
        eapply walk_grow; eauto.
Qed.

(** ** The invariant of a page table *)

Definition vm_inv (s : vmst) (root : Z) (ps l : list Z) : Prop :=
  ptree (phys s) 2 root ps /\ kmem_inv s l /\ NoDup (ps ++ l) /\ Forall valid_page ps.

(** The leaf PTE of [va] in the page table at [root]. *)
Definition pt (s : vmst) (root va : Z) : Z := pte_of (phys s) 2 root va.

(** From [s] to [s'] only pages of the table and free pages were touched, and
    pages moved only from the free list to the table or back. *)
Definition vm_step (root : Z) (ps l : list Z) (s : vmst) (ps' l' : list Z) (s' : vmst) : Prop :=
  vm_inv s' root ps' l' /\ ps' ++ l' ≡ₚ ps ++ l /\ same_off (ps ++ l) (phys s) (phys s').

Lemma vm_step_refl root ps l s : vm_inv s root ps l -> vm_step root ps l s ps l s.
Proof. intros H. split; [auto|]. split; [reflexivity|]. intros x _. reflexivity. Qed.

Lemma vm_step_trans root ps l s ps1 l1 s1 ps2 l2 s2 :
  vm_step root ps l s ps1 l1 s1 -> vm_step root ps1 l1 s1 ps2 l2 s2 ->
  vm_step root ps l s ps2 l2 s2.
Proof.
  intros (_ & P1 & O1) (I2 & P2 & O2). split; [auto|]. split; [by rewrite P2|].
  intros x Hx. rewrite O2; [apply O1; auto|]. intros Hin. apply Hx.
  eapply in_pages_perm; eauto.
Qed.

Lemma vm_inv_valid s root ps l : vm_inv s root ps l -> Forall valid_page (ps ++ l).
Proof. intros (_ & Hk & _ & Hv). apply Forall_app. split; [auto|apply Hk]. Qed.

Lemma walk_spec root va ps l t s :
  va < MAXVA -> vm_inv s root ps l -> LKmem ∉ held t ->
  exists r s' ps' l', walk root va true t s = ORet r t s' /\
    vm_step root ps l s ps' l' s' /\ (forall va', pt s' root va' = pt s root va') /\
    (r = 0 -> l' = []) /\ (r <> 0 -> r = pure_walk (phys s') 2 root va).
Proof.
  intros Hva Hinv Hlk. pose proof (vm_inv_valid _ _ _ _ Hinv) as Hval.
  destruct Hinv as (Ht & Hk & Hd & Hv).
  destruct (walk_alloc 2 root ps l va t s) as (r & s' & E & Hp); auto.
  destruct Hp as (ps' & l' & Ht' & Hk' & Hperm & Hoff & Hpte & Hr0 & Hr).
  exists r, s', ps', l'. unfold walk. destruct (MAXVA <=? va) eqn:EM; [lia|].
  split; [exact E|]. split; [|auto]. split; [|auto].
  split; [auto|]. split; [auto|]. split; [msolve|].
  eapply Forall_valid_sub; [|exact Hval]. intros q Hq. rewrite <- Hperm. apply elem_of_app. auto.
Qed.

(** A store to the leaf slot of [va]. *)
Lemma store_pte_spec root va v ps l s :
  vm_inv s root ps l -> 0 <= va < MAXVA -> pure_walk (phys s) 2 root va <> 0 ->
  0 <= v < 18446744073709551616 ->
  let s' := on_phys (store64 (pure_walk (phys s) 2 root va) v) s in
  vm_step root ps l s ps l s' /\
  forall va', 0 <= va' < SV39 ->
    pt s' root va' = if decide (va / 4096 = va' / 4096) then v else pt s root va'.
Proof.
  intros Hinv Hva Hw Hv s'. pose proof (vm_inv_valid _ _ _ _ Hinv) as Hval.
  destruct Hinv as (Ht & Hk & Hd & Hvp).
  assert (Hdp : NoDup ps) by msolve.
  destruct (leaf_store_tree 2 (phys s) root ps va v Ht Hdp Hvp Hw) as (Ht' & _ & Hpo).
  assert (Hoff : same_off ps (phys s) (phys s')).
  { intros x Hx. destruct (pure_walk_slot 2 _ root ps va Ht Hw) as (q & Hq & Eq).
    unfold s'. simpl. rewrite Eq. apply mstore_out. intros H. apply Hx.
    eapply slot_in_pages; eauto. }
  split; [split; [|split]|].
  - split; [exact Ht'|]. split; [|auto]. eapply (kmem_inv_off s); eauto.
  - reflexivity.
  - eapply same_off_sub; [|exact Hoff]. intros q Hq. apply elem_of_app. auto.
  - intros va' Hva'. unfold pt. simpl. case_decide as E.
    + eapply leaf_store_pte; eauto. by apply page_same_idx.
    + apply Hpo. intros Hs. apply E. apply same_idx_page; auto. klia.
Qed.

(** ** [mappages] *)

(** The PTE that [mappages] writes. *)
Definition leaf_pte (pa perm : Z) : Z := Z.lor (Z.lor (PA2PTE pa) perm) PTE_V.

Lemma lor_bound a b n : 0 <= n -> 0 <= a < 2 ^ n -> 0 <= b < 2 ^ n -> 0 <= Z.lor a b < 2 ^ n.
Proof.
  intros Hn Ha Hb. rewrite <- (Z.mod_small a (2 ^ n)), <- (Z.mod_small b (2 ^ n)) by lia.
  rewrite <- !Z.land_ones, <- Z.land_lor_distr_l, Z.land_ones by lia.
  apply Z.mod_pos_bound. lia.
Qed.

Lemma leaf_pte_range pa perm :
  0 <= pa < 2 ^ 56 -> 0 <= perm < 1024 -> 0 <= leaf_pte pa perm < 18446744073709551616.
Proof.
  intros Hpa Hp. unfold leaf_pte. rewrite <- Z.lor_assoc. apply pte_build_range; [auto|].
  apply (lor_bound perm PTE_V 10); [lia|auto|done].
Qed.

Lemma leaf_pte_valid pa perm :
  0 <= pa < 2 ^ 56 -> 0 <= perm < 1024 -> pte_test (leaf_pte pa perm) PTE_V = true.
Proof.
  intros Hpa Hp. unfold leaf_pte, pte_test. rewrite <- Z.lor_assoc, land_build by (auto; done).
  rewrite Z.land_lor_distr_l. change (Z.land PTE_V PTE_V) with 1.
  destruct (Z.lor (Z.land perm PTE_V) 1 =? 0) eqn:E; [|reflexivity].
  apply Z.eqb_eq, Z.lor_eq_0_iff in E as [_ E]. discriminate.
Qed.

Lemma leaf_pte_pa pa perm :
  0 <= pa < 2 ^ 56 -> pa mod 4096 = 0 -> 0 <= perm < 1024 -> PTE2PA (leaf_pte pa perm) = pa.
Proof.
  intros Hpa Ha Hp. unfold leaf_pte. rewrite <- Z.lor_assoc. apply PTE2PA_build; auto.
  apply (lor_bound perm PTE_V 10); [lia|auto|done].
Qed.

(** [s'] differs from [s] in the PTEs of the [n] pages from [va] on, which map
    consecutive pages from [pa] on. *)
Definition mapped_range (root : Z) (s s' : vmst) (va : Z) (n : Z) (pa perm : Z) : Prop :=
  forall va', 0 <= va' < SV39 ->
    pt s' root va' =
    if decide (va <= va' < va + n * 4096)
    then leaf_pte (pa + (va' - va) / 4096 * 4096) perm else pt s root va'.

Lemma mapped_range_0 root s s' va pa perm :
  (forall va', 0 <= va' < SV39 -> pt s' root va' = pt s root va') ->
  mapped_range root s s' va 0 pa perm.
Proof. intros H va' Hva'. case_decide; [lia|auto]. Qed.

Lemma mapped_range_S root s s1 s2 va n pa perm :
  0 <= n -> va mod 4096 = 0 ->
  (forall va', 0 <= va' < SV39 ->
     pt s1 root va' = if decide (va / 4096 = va' / 4096) then leaf_pte pa perm else pt s root va') ->
  mapped_range root s1 s2 (va + 4096) n (pa + 4096) perm ->
  mapped_range root s s2 va (n + 1) pa perm.
Proof.
  intros Hn Hal H1 H2 va' Hva'. rewrite H2 by auto.
  assert (Hpg : va / 4096 = va' / 4096 <-> va <= va' < va + 4096) by dlia.
  repeat case_decide; try lia.
  - f_equal. rewrite <- Z.add_assoc. f_equal.
    replace (va' - va) with (va' - (va + 4096) + 1 * 4096) by lia.
    rewrite Z.div_add by lia. lia.
  - rewrite H1 by auto. rewrite decide_True by lia.
    rewrite (Z.div_small (va' - va)) by lia. f_equal. lia.
  - rewrite H1 by auto. rewrite decide_False by lia. reflexivity.
Qed.

(** The body of the loop of [mappages]. *)
Definition map_body (pagetable last perm : Z) (x : Z * Z) : M vmst (Z * Z + Z) :=
  let '(a, pa) := x in
  let* pte := walk pagetable a true in
  if pte =? 0 then ret (inr (-1))
  else
    let* e := read64 pte in
    if pte_test e PTE_V then panic "mappages: remap"
    else
      write64 pte (Z.lor (Z.lor (PA2PTE pa) perm) PTE_V) ;;
      if a =? last then ret (inr 0)
      else ret (inl (u64 (a + PGSIZE), u64 (pa + PGSIZE))).

Lemma map_body_spec root a pa last perm ps l t s :
  0 <= a < MAXVA -> 0 <= pa < 2 ^ 56 -> 0 <= perm < 1024 ->
  vm_inv s root ps l -> LKmem ∉ held t -> pte_test (pt s root a) PTE_V = false ->
  exists s' ps' l', vm_step root ps l s ps' l' s' /\
    ((map_body root last perm (a, pa) t s = ORet (inr (-1)) t s' /\ l' = [] /\
      forall va', pt s' root va' = pt s root va') \/
     (map_body root last perm (a, pa) t s =
        ORet (if a =? last then inr 0 else inl (u64 (a + PGSIZE), u64 (pa + PGSIZE))) t s' /\
      forall va', 0 <= va' < SV39 ->
        pt s' root va' = if decide (a / 4096 = va' / 4096) then leaf_pte pa perm else pt s root va')).
Proof.
  intros Ha Hpa Hperm Hinv Hlk Hnv.
  destruct (walk_spec root a ps l t s) as (r & s1 & ps1 & l1 & E & Hst & Hpt & Hr0 & Hr); auto; [lia|].
  unfold map_body, bind. rewrite E. simpl.
  destruct (r =? 0) eqn:Er0.
  - exists s1, ps1, l1. split; [auto|]. left. split; [reflexivity|]. split; [apply Hr0; lia|auto].
  - specialize (Hr ltac:(lia)).
    assert (Hload : load64 r (phys s1) = pt s root a).
    { rewrite <- Hpt. unfold pt, pte_of. rewrite <- Hr, Er0. reflexivity. }
    rewrite Hload, Hnv. subst r.
    destruct (store_pte_spec root a (leaf_pte pa perm) ps1 l1 s1) as [Hst2 Hpt2];
      [apply Hst|lia|lia|apply leaf_pte_range; auto|].
    eexists _, ps1, l1. split; [eapply vm_step_trans; eauto|]. right. split.
    + destruct (a =? last); reflexivity.
    + intros va' Hva'. rewrite Hpt2 by auto. case_decide; [reflexivity|apply Hpt].
Qed.

Lemma map_loop n : forall root a pa last perm ps l t s,
  (0 < n)%nat -> a mod 4096 = 0 -> 0 <= a -> a + Z.of_nat n * 4096 <= MAXVA ->
  0 <= pa -> pa + Z.of_nat n * 4096 <= 2 ^ 56 -> 0 <= perm < 1024 ->
  last = a + Z.of_nat n * 4096 - 4096 ->
  vm_inv s root ps l -> LKmem ∉ held t ->
  (forall va', a <= va' < a + Z.of_nat n * 4096 -> pte_test (pt s root va') PTE_V = false) ->
  exists r k s' ps' l', loop n (map_body root last perm) (a, pa) t s = ORet r t s' /\
    vm_step root ps l s ps' l' s' /\ mapped_range root s s' a k pa perm /\
    ((r = 0 /\ k = Z.of_nat n) \/ (r = -1 /\ 0 <= k < Z.of_nat n /\ l' = [])).
Proof.
  induction n as [|n IH]; intros root a pa last perm ps l t s Hn Hal Ha Hhi Hpa Hpahi Hperm Hlast Hinv Hlk Hnv;
    [lia|].
  cbn [loop]. change (2 ^ 56) with 72057594037927936 in *.
  destruct (map_body_spec root a pa last perm ps l t s) as (s1 & ps1 & l1 & Hst & Hb); auto;
    try (change (2 ^ 56) with 72057594037927936); try klia; [apply Hnv; lia|].
  destruct Hb as [(E & -> & Hpt)|(E & Hpt)]; unfold bind; rewrite E; cbn [obind].
  - exists (-1), 0, s1, ps1, []. split; [reflexivity|]. split; [auto|].
    split; [apply mapped_range_0; auto|]. right. split; [reflexivity|]. split; [lia|reflexivity].
  - destruct (a =? last) eqn:El.
    + assert (n = 0%nat) as -> by lia. exists 0, 1, s1, ps1, l1.
      split; [reflexivity|]. split; [auto|]. split; [|left; lia].
      apply (mapped_range_S root s s1 s1 a 0); auto; [lia|]. apply mapped_range_0. auto.
    + rewrite !u64_small by klia.
      destruct (IH root (a + PGSIZE) (pa + PGSIZE) last perm ps1 l1 t s1)
        as (r & k & s2 & ps2 & l2 & E2 & Hst2 & Hm & Hr); auto;
        try (change (2 ^ 56) with 72057594037927936); try klia.
      { unfold PGSIZE. dlia. }
      { apply Hst. }
      { intros va' Hva'. rewrite Hpt by klia. rewrite decide_False by (kconsts; dlia). apply Hnv. klia. }
      exists r, (k + 1), s2, ps2, l2. split; [exact E2|]. split; [eapply vm_step_trans; eauto|].
      assert (0 <= k) by (destruct Hr as [[_ ?]|(_ & ? & _)]; lia).
      split; [apply (mapped_range_S root s s1 s2 a k pa perm); auto|].
      destruct Hr as [[-> ->]|(-> & Hk & ->)]; [left|right]; repeat split; lia || auto.
Qed.

Lemma mappages_loop root va n pa perm t s :
  va mod 4096 = 0 -> 0 < n -> 0 <= va -> va + n * 4096 <= MAXVA ->
  mappages root va (n * 4096) pa perm t s =
  loop (Z.to_nat n) (map_body root (va + n * 4096 - 4096) perm) (va, pa) t s.
Proof.
  intros Hal Hn Hva Hhi. unfold mappages. unfold PGSIZE at 1 2. rewrite Hal.
  rewrite Z.mod_mul by lia. cbn [Z.eqb negb].
  destruct (n * 4096 =? 0) eqn:E; [lia|].
  unfold PGSIZE at 1 2. rewrite Z.div_mul by lia. rewrite u64_small by klia. reflexivity.
Qed.

Lemma mappages_ok root va n pa perm ps l t s :
  0 < n -> va mod 4096 = 0 -> 0 <= va -> va + n * 4096 <= MAXVA ->
  0 <= pa -> pa + n * 4096 <= 2 ^ 56 -> 0 <= perm < 1024 ->
  vm_inv s root ps l -> LKmem ∉ held t ->
  (forall va', va <= va' < va + n * 4096 -> pte_test (pt s root va') PTE_V = false) ->
  exists r k s' ps' l', mappages root va (n * 4096) pa perm t s = ORet r t s' /\
    vm_step root ps l s ps' l' s' /\ mapped_range root s s' va k pa perm /\
    ((r = 0 /\ k = n) \/ (r = -1 /\ 0 <= k < n /\ l' = [])).
Proof.
  intros. rewrite mappages_loop by auto.
  destruct (map_loop (Z.to_nat n) root va pa (va + n * 4096 - 4096) perm ps l t s)
    as (r & k & s' & ps' & l' & Hx); auto; rewrite ?Z2Nat.id in * by lia; auto; try lia.
  exists r, k, s', ps', l'. exact Hx.
Qed.

(** ** [uvmunmap] *)

(** The pages that the [n] pages of virtual memory from [va] on map. *)
Fixpoint mapped_pages (s : vmst) (root va : Z) (n : nat) : list Z :=
  match n with
  | O => []
  | S n' =>
      let e := pt s root va in
      (if pte_test e PTE_V then [PTE2PA e] else []) ++ mapped_pages s root (va + 4096) n'
  end.

Definition unmap_body (pagetable stop : Z) (do_free : bool) (a : Z) : M vmst (Z + unit) :=
  if a <? stop then
    let* pte := walk pagetable a false in
    if pte =? 0 then ret (inl (u64 (a + PGSIZE)))
    else
      let* e := read64 pte in
      if negb (pte_test e PTE_V) then ret (inl (u64 (a + PGSIZE)))
      else
        when do_free (kfree (PTE2PA e)) ;;
        write64 pte 0 ;;
        ret (inl (u64 (a + PGSIZE)))
  else ret (inr tt).

(** Freeing a page outside the table. *)
Lemma kfree_vm root p ps l t s :
  vm_inv s root ps l -> valid_page p -> p ∉ ps ++ l -> LKmem ∉ held t ->
  exists s', kfree p t s = ORet tt t s' /\ vm_inv s' root ps (p :: l) /\
    same_off [p] (phys s) (phys s') /\
    (forall va, pure_walk (phys s') 2 root va = pure_walk (phys s) 2 root va) /\
    (forall va, pt s' root va = pt s root va).
Proof.
  intros (Ht & Hk & Hd & Hv) Hp Hn Hlk.
  pose proof (valid_page_pos p Hp) as (Hp0 & _).
  destruct (kfree_inv p t s l) as (s' & E & Hk' & Hout); auto; try lia.
  { destruct Hk as (Hfl & _ & Hvl). eapply flist_head_range; eauto. destruct HL. klia. }
  { intros H. apply Hn. apply elem_of_app. auto. }
  exists s'. split; [exact E|].
  assert (Hoff : same_off [p] (phys s) (phys s')).
  { intros x Hx. apply Hout. intros H. apply Hx. exists p. split; [by left|auto]. }
  assert (Hdp : NoDup ([p] ++ ps)).
  { apply NoDup_occ. intros x. rewrite elem_of_app in Hn. 
    pose proof (proj1 (NoDup_occ _) Hd x). autorewrite with occ in *.
    unfold one. destruct (Z.eq_dec p x) as [->|]; [|lia].
    assert (occ x ps = 0%nat) by (apply not_elem_occ; tauto). lia. }
  assert (Hon : same_on ps (phys s) (phys s')).
  { eapply same_off_on; eauto. }
  split; [|split; [auto|split]].
  - split; [eapply ptree_same; eauto|]. split; [auto|]. split; [|auto].
    apply not_elem_occ in Hn. apply NoDup_occ. intros x.
    pose proof (proj1 (NoDup_occ _) Hd x). autorewrite with occ in *.
    unfold one. destruct (Z.eq_dec p x) as [->|]; lia.
  - intros va. eapply pure_walk_same; eauto.
  - intros va. eapply pte_of_same; eauto.
Qed.

Lemma unmap_step root a stop do_free ps l t s :
  0 <= a < MAXVA -> a < stop -> vm_inv s root ps l -> LKmem ∉ held t ->
  let e := pt s root a in
  let fr := if pte_test e PTE_V && do_free then [PTE2PA e] else [] in
  Forall valid_page fr -> NoDup (fr ++ ps ++ l) ->
  exists s', unmap_body root stop do_free a t s = ORet (inl (u64 (a + PGSIZE))) t s' /\
    vm_inv s' root ps (fr ++ l) /\ same_off (fr ++ ps ++ l) (phys s) (phys s') /\
    forall va', 0 <= va' < SV39 ->
      pt s' root va' =
      if decide (a / 4096 = va' / 4096) then (if pte_test e PTE_V then 0 else e) else pt s root va'.
Proof.
  intros Ha Hstop Hinv Hlk e fr Hvf Hdf. unfold unmap_body.
  destruct (a <? stop) eqn:Es; [|lia].
  unfold bind. rewrite walk_pure by lia. simpl.
  assert (Hsame : forall va', a / 4096 = va' / 4096 -> pt s root va' = e).
  { intros va' E. unfold e, pt, pte_of. rewrite (pure_walk_idx 2 _ root a va'); [reflexivity|].
    by apply page_same_idx. }
  assert (Hstay : pte_test e PTE_V = false ->
    exists s', ORet (A := Z + unit) (inl (u64 (a + PGSIZE))) t s = ORet (inl (u64 (a + PGSIZE))) t s' /\
    vm_inv s' root ps (fr ++ l) /\ same_off (fr ++ ps ++ l) (phys s) (phys s') /\
    forall va', 0 <= va' < SV39 ->
      pt s' root va' =
      if decide (a / 4096 = va' / 4096) then (if pte_test e PTE_V then 0 else e) else pt s root va').
  { intros EV. exists s. split; [reflexivity|]. unfold fr. rewrite EV. simpl. split; [auto|].
    split; [intros x _; reflexivity|]. intros va' _. case_decide; auto. }
  assert (He : e = if pure_walk (phys s) 2 root a =? 0 then 0 else load64 (pure_walk (phys s) 2 root a) (phys s))
    by reflexivity.
  destruct (pure_walk (phys s) 2 root a =? 0) eqn:E0.
  - apply Hstay. rewrite He. reflexivity.
  - simpl. rewrite <- He. destruct (pte_test e PTE_V) eqn:EV; simpl; [|apply Hstay; reflexivity].
    assert (Hz : forall s1, vm_inv s1 root ps (fr ++ l) ->
       (forall va, pure_walk (phys s1) 2 root va = pure_walk (phys s) 2 root va) ->
       (forall va, pt s1 root va = pt s root va) -> same_off fr (phys s) (phys s1) ->
       exists s', ORet (A := Z + unit) (inl (u64 (a + PGSIZE))) t
           (on_phys (store64 (pure_walk (phys s) 2 root a) 0) s1) =
         ORet (inl (u64 (a + PGSIZE))) t s' /\ vm_inv s' root ps (fr ++ l) /\
         same_off (fr ++ ps ++ l) (phys s) (phys s') /\
         forall va', 0 <= va' < SV39 ->
           pt s' root va' = if decide (a / 4096 = va' / 4096) then 0 else pt s root va').
    { intros s1 Hi1 Hw1 Hp1 Ho1. eexists. split; [reflexivity|]. rewrite <- Hw1.
      destruct (store_pte_spec root a 0 ps (fr ++ l) s1) as [Hst Hpt]; auto; [rewrite Hw1; lia|lia|].
      split; [apply Hst|]. split.
      - intros x Hx. destruct Hst as (_ & _ & Hoff). rewrite Hoff; [apply Ho1|].
        + intros Hin. apply Hx. apply in_pages_app. auto.
        + intros Hin. apply Hx. eapply in_pages_perm; [|exact Hin]. msolve.
      - intros va' Hva'. rewrite Hpt by auto. case_decide; auto. }
    clear Hstay Hsame. destruct do_free; cbn [when].
    + unfold fr in *. cbn [andb app] in *.
      destruct (kfree_vm root (PTE2PA e) ps l t s) as (s1 & Ek & Hi1 & Ho1 & Hw1 & Hp1); auto.
      { by apply Forall_cons in Hvf as [? _]. }
      { apply NoDup_cons in Hdf as [? _]. auto. }
      unfold bind. rewrite Ek. apply Hz; auto.
    + apply Hz; auto. intros x _. reflexivity.
Qed.

Lemma unmap_loop n : forall root a do_free ps l t s,
  0 <= a -> a mod 4096 = 0 -> a + Z.of_nat n * 4096 <= MAXVA ->
  vm_inv s root ps l -> LKmem ∉ held t ->
  let fr := if do_free : bool then mapped_pages s root a n else [] in
  Forall valid_page fr -> NoDup (fr ++ ps ++ l) ->
  exists s', loop (n + 1) (unmap_body root (a + Z.of_nat n * 4096) do_free) a t s = ORet tt t s' /\
    vm_inv s' root ps (rev fr ++ l) /\ same_off (fr ++ ps ++ l) (phys s) (phys s') /\
    forall va', 0 <= va' < SV39 ->
      pt s' root va' =
      if decide (a <= va' < a + Z.of_nat n * 4096)
      then (if pte_test (pt s root va') PTE_V then 0 else pt s root va') else pt s root va'.
Proof.
  induction n as [|n IH]; intros root a do_free ps l t s Ha Hal Hhi Hinv Hlk fr Hvf Hdf.
  - exists s. cbn [Nat.add loop]. unfold bind, unmap_body.
    destruct (a <? a + Z.of_nat 0 * 4096) eqn:E; [lia|].
    split; [reflexivity|]. replace fr with (@nil Z) by (unfold fr; by destruct do_free).
    split; [auto|]. split; [intros x _; reflexivity|].
    intros va' Hva'. case_decide; [lia|reflexivity].
  - set (stop := a + Z.of_nat (S n) * 4096).
    set (e := pt s root a).
    set (fr1 := if pte_test e PTE_V && do_free then [PTE2PA e] else []).
    set (fr2 := if do_free then mapped_pages s root (a + 4096) n else []).
    assert (Hfr : fr = fr1 ++ fr2).
    { unfold fr, fr1, fr2, e. destruct do_free; simpl; rewrite ?andb_true_r, ?andb_false_r; reflexivity. }
    assert (Hvf12 : Forall valid_page fr1 /\ Forall valid_page fr2)
      by (apply Forall_app; rewrite <- Hfr; auto).
    destruct Hvf12 as [Hvf1 Hvf2]. rewrite Hfr in Hdf |- *. clear Hfr Hvf fr.
    destruct (unmap_step root a stop do_free ps l t s) as (s1 & E1 & Hi1 & Ho1 & Hp1); auto.
    { klia. } { unfold stop. lia. } { fold e. fold fr1. clearbody fr1 fr2. msolve. }
    fold e in Hp1, Hi1, Ho1. fold fr1 in Hi1, Ho1.
    assert (Hfr2 : fr2 = if do_free then mapped_pages s1 root (a + 4096) n else []).
    { unfold fr2. destruct do_free; [|reflexivity].
      assert (Hmp : forall k b, a + 4096 <= b -> b mod 4096 = 0 -> b + Z.of_nat k * 4096 <= MAXVA ->
        mapped_pages s root b k = mapped_pages s1 root b k).
      { clear -Hp1 Ha Hal. induction k as [|k IHk]; intros b Hb Hba Hbh; [reflexivity|]. simpl.
        rewrite (Hp1 b) by klia. rewrite decide_False by dlia. rewrite IHk by (dlia || klia). reflexivity. }
      apply Hmp; [lia|dlia|lia]. }
    destruct (IH root (a + 4096) do_free ps (fr1 ++ l) t s1) as (s2 & E2 & Hi2 & Ho2 & Hp2); auto.
    { lia. } { dlia. } { lia. }
    { rewrite <- Hfr2. auto. } { rewrite <- Hfr2. clearbody fr1 fr2. msolve. }
    exists s2. split; [|split; [|split]].
    + cbn [Nat.add loop]. unfold bind. rewrite E1. cbn [obind]. rewrite u64_small by klia.
      replace (a + 4096 + Z.of_nat n * 4096) with stop in E2 by (unfold stop; lia). exact E2.
    + rewrite <- Hfr2 in Hi2. rewrite rev_app_distr, <- app_assoc.
      replace (rev fr1) with fr1; [auto|]. unfold fr1. destruct (_ && _); reflexivity.
    + rewrite <- Hfr2 in Ho2. intros x Hx. rewrite Ho2, Ho1; [reflexivity| |].
      * intros Hin. apply Hx. eapply in_pages_sub; [|exact Hin]. intros q Hq.
        apply elem_occ in Hq. apply elem_occ. autorewrite with occ in *. lia.
      * intros Hin. apply Hx. eapply in_pages_sub; [|exact Hin]. intros q Hq.
        apply elem_occ in Hq. apply elem_occ. autorewrite with occ in *. lia.
    + intros va' Hva'. rewrite Hp2 by auto. rewrite !(Hp1 va') by auto.
      assert (Hpg : a / 4096 = va' / 4096 <-> a <= va' < a + 4096) by dlia.
      destruct (decide (a / 4096 = va' / 4096)) as [Ep|Ep].
      * rewrite decide_False by lia. rewrite decide_True by lia.
        assert (pt s root va' = e) as ->.
        { unfold e, pt, pte_of. rewrite (pure_walk_idx 2 _ root a va'); [reflexivity|]. by apply page_same_idx. }
        reflexivity.
      * repeat case_decide; try reflexivity; lia.
Qed.

End VmWalk.
