(* ===== verification/VmFree.v ===== *)
(** * Freeing page tables

    [freewalk] on a table without leaf PTEs gives every page of the table back
    to the allocator: it neither panics nor leaks nor frees a page twice.
    [uvmfree] and [proc_freepagetable] follow from it and from [uvmunmap]. *)

From S2P Require Import Prelude Kmonad Mem Riscv Kalloc Vm PageTable VmWalk.

Section VmFree.
Context {L : LinkMap} {HL : LinkMapOk}.

(** No leaf PTE of the tree is valid. *)
Definition noleaf (m : mem) (lvl : nat) (b : Z) : Prop :=
  forall va, pte_test (pte_of m lvl b va) PTE_V = false.

(** A virtual address that selects entry [i] at level [lvl], and agrees with
    [va] below. *)
Definition va_at (lvl : nat) (i va : Z) : Z :=
  va mod 2 ^ (12 + 9 * Z.of_nat lvl) + i * 2 ^ (12 + 9 * Z.of_nat lvl).

Lemma pow_pg k : 0 <= k -> 0 < 2 ^ (12 + 9 * k).
Proof. intros. apply Z.pow_pos_nonneg; lia. Qed.

Lemma PX_va_at lvl i va :
  0 <= i < 512 -> PX (Z.of_nat lvl) (va_at lvl i va) = i.
Proof.
  intros Hi. unfold va_at. rewrite PX_eq by lia.
  pose proof (pow_pg (Z.of_nat lvl) ltac:(lia)).
  rewrite Z.div_add, (Z.div_small (va mod _)) by (lia || apply Z.mod_pos_bound; lia).
  apply Z.mod_small. lia.
Qed.

Lemma PX_va_below lvl j i va :
  (j < lvl)%nat -> PX (Z.of_nat j) (va_at lvl i va) = PX (Z.of_nat j) va.
Proof.
  intros Hj. unfold va_at. rewrite !PX_eq by lia.
  pose proof (pow_pg (Z.of_nat j) ltac:(lia)) as Hp.
  set (a := 2 ^ (12 + 9 * Z.of_nat j)) in *.
  replace (2 ^ (12 + 9 * Z.of_nat lvl)) with (a * (512 * 2 ^ (9 * (Z.of_nat lvl - Z.of_nat j - 1)))).
  2: { unfold a. change 512 with (2 ^ 9). rewrite <- !Z.pow_add_r by lia. f_equal. lia. }
  set (c := 2 ^ (9 * (Z.of_nat lvl - Z.of_nat j - 1))).
  assert (Hc : 0 < c) by (apply Z.pow_pos_nonneg; lia).
  rewrite (Z.rem_mul_r va a (512 * c)) by lia.
  replace (va mod a + a * (va / a mod (512 * c)) + i * (a * (512 * c)))
    with (va mod a + (va / a mod (512 * c) + i * c * 512) * a) by ring.
  rewrite Z.div_add, (Z.div_small (va mod a)) by (lia || apply Z.mod_pos_bound; lia).
  rewrite Z.add_0_l, Z.mod_add by lia.
  rewrite (Z.rem_mul_r (va / a) 512 c) by lia.
  rewrite (Z.mul_comm 512 (_ mod c)), Z.mod_add, Z.mod_mod by lia. reflexivity.
Qed.

(** The child of a table without leaves has none. *)
Lemma noleaf_child m lvl b i :
  (i < 512)%nat -> noleaf m (S lvl) b ->
  let e := load64 (b + 8 * Z.of_nat i) m in
  pte_test e PTE_V = true -> noleaf m lvl (PTE2PA e).
Proof.
  intros Hi Hn e He va. specialize (Hn (va_at (S lvl) (Z.of_nat i) va)).
  rewrite pte_of_S in Hn. unfold slot in Hn. rewrite PX_va_at in Hn by lia.
  cbn zeta in Hn. fold e in Hn. rewrite He in Hn. rewrite <- Hn. f_equal.
  unfold pte_of. rewrite (pure_walk_idx lvl m (PTE2PA e) va (va_at (S lvl) (Z.of_nat i) va)); [reflexivity|].
  intros j Hj. symmetry. apply PX_va_below. lia.
Qed.

Lemma noleaf_0 m b i :
  valid_page b -> (i < 512)%nat -> noleaf m 0 b ->
  pte_test (load64 (b + 8 * Z.of_nat i) m) PTE_V = false.
Proof.
  intros Hb Hi Hn. specialize (Hn (va_at 0 (Z.of_nat i) 0)). unfold pte_of in Hn.
  rewrite pure_walk_0 in Hn. unfold slot in Hn. rewrite PX_va_at in Hn by lia.
  pose proof (valid_page_pos b Hb). destruct (_ =? 0) eqn:E; [lia|]. exact Hn.
Qed.

Lemma noleaf_same m m' lvl b ps :
  ptree m lvl b ps -> same_on ps m m' -> noleaf m lvl b -> noleaf m' lvl b.
Proof. intros Ht Hs Hn va. rewrite (pte_of_same lvl m m' b ps va Hs Ht). apply Hn. Qed.

(** The 39 bits of an address decide its PTE. *)
Lemma noleaf_sv39 m b :
  (forall va, 0 <= va < SV39 -> pte_test (pte_of m 2 b va) PTE_V = false) -> noleaf m 2 b.
Proof.
  intros H va. rewrite <- (H (va mod SV39)) by (apply Z.mod_pos_bound; klia). f_equal.
  unfold pte_of. rewrite (pure_walk_idx 2 m b va (va mod SV39)); [reflexivity|].
  intros j Hj. rewrite <- (PX_va_below 3 j 0 va) by lia. unfold va_at.
  rewrite Z.mul_0_l, Z.add_0_r. reflexivity.
Qed.

(** ** [freewalk] *)

Definition freewalk_ok (lvl : nat) : Prop := forall b ps l t s,
  ptree (phys s) lvl b ps -> noleaf (phys s) lvl b ->
  kmem_inv s l -> NoDup (ps ++ l) -> Forall valid_page ps -> LKmem ∉ held t ->
  exists s' l', freewalk (S lvl) b t s = ORet tt t s' /\
    kmem_inv s' l' /\ l' ≡ₚ ps ++ l /\ same_off ps (phys s) (phys s').

Lemma kids_at f i :
  (i < 512)%nat ->
  kids f = concat (map f (seq 0 i)) ++ f i ++ concat (map f (seq (S i) (511 - i))).
Proof.
  intros Hi. unfold kids. replace 512%nat with (i + S (511 - i))%nat at 1 by lia.
  rewrite seq_app, map_app, concat_app. reflexivity.
Qed.

Lemma kids_later (f : nat -> list Z) i j : (i < j < 512)%nat -> f j ⊆ concat (map f (seq (S i) (511 - i))).
Proof.
  intros Hij q Hq. apply list_elem_of_In, in_concat. exists (f j). split.
  - apply in_map, in_seq. lia.
  - by apply list_elem_of_In.
Qed.

Lemma concat_seq_S {A} (f : nat -> list A) i :
  concat (map f (seq 0 (S i))) = concat (map f (seq 0 i)) ++ f i.
Proof. rewrite seq_S, map_app, concat_app. simpl. by rewrite app_nil_r. Qed.

(** Freeing the root page of a tree whose subtrees are free. *)
Lemma kfree_page p t s l :
  kmem_inv s l -> valid_page p -> p ∉ l -> LKmem ∉ held t ->
  exists s', kfree p t s = ORet tt t s' /\ kmem_inv s' (p :: l) /\ same_off [p] (phys s) (phys s').
Proof.
  intros Hk Hp Hn Hlk. pose proof (valid_page_pos p Hp).
  destruct (kfree_inv p t s l) as (s' & E & Hk' & Hout); auto; try lia.
  { destruct Hk as (Hfl & _ & Hvl). eapply flist_head_range; eauto. destruct HL. klia. }
  exists s'. split; [exact E|]. split; [auto|].
  intros x Hx. apply Hout. intros H'. apply Hx. exists p. split; [by left|auto].
Qed.

(** The loop of [freewalk] after [i] entries: their subtrees are on the free
    list, the others are as they were. *)
Definition freed_upto (b : Z) (f : nat -> list Z) (l : list Z) (s : vmst) (i : nat) (s' : vmst) : Prop :=
  exists l', kmem_inv s' l' /\ l' ≡ₚ concat (map f (seq 0 i)) ++ l /\
    (forall j, (i <= j < 512)%nat ->
       load64 (b + 8 * Z.of_nat j) (phys s') = load64 (b + 8 * Z.of_nat j) (phys s) /\
       same_on (f j) (phys s) (phys s')) /\
    same_off (b :: kids f) (phys s) (phys s').

Definition freewalk_body (d : nat) (b : Z) (i : nat) : M vmst unit :=
  let slot := b + 8 * Z.of_nat i in
  let* pte := read64 slot in
  if pte_test pte PTE_V && (Z.land pte (Z.lor (Z.lor PTE_R PTE_W) PTE_X) =? 0) then
    freewalk d (PTE2PA pte) ;; write64 slot 0
  else if pte_test pte PTE_V then panic "freewalk: leaf"
  else ret tt.

Lemma freewalk_step lvl b f l s t i si :
  freewalk_ok lvl -> (i < 512)%nat -> entries (phys s) lvl b f -> noleaf (phys s) (S lvl) b ->
  NoDup ((b :: kids f) ++ l) -> valid_page b -> Forall valid_page (kids f) -> LKmem ∉ held t ->
  freed_upto b f l s i si ->
  exists s', freewalk_body (S lvl) b i t si = ORet tt t s' /\ freed_upto b f l s (S i) s'.
Proof.
  intros IH Hi Hf Hn Hd Hvb Hvk Hlk (l' & Hk & Hl' & Hlater & Hoff).
  pose proof (Hf i Hi) as Hfi. cbn zeta in Hfi. destruct (Hlater i) as [Hei Hsi]; [lia|].
  unfold freewalk_body, bind at 1, read64, gets. cbn [obind]. rewrite Hei.
  set (e := load64 (b + 8 * Z.of_nat i) (phys s)) in *.
  rewrite (kids_at f i Hi) in Hd. 
  destruct (pte_test e PTE_V) eqn:EV; cbn [andb].
  - destruct Hfi as [Hint Hc]. unfold interior in Hint. rewrite Hint, Z.eqb_refl.
    assert (Hvi : Forall valid_page (f i)) by (eapply Forall_valid_sub; [apply kids_sub; eauto|auto]).
    destruct (IH (PTE2PA e) (f i) l' t si) as (s1 & l1 & E1 & Hk1 & Hl1 & Ho1); auto.
    { eapply ptree_same; eauto. }
    { eapply noleaf_same; eauto. eapply noleaf_child; eauto. }
    { msolve. }
    unfold bind. rewrite E1. eexists. split; [reflexivity|].
    assert (Hvl1 : Forall valid_page l1) by apply Hk1.
    assert (Hstore : same_off [b] (phys s1) (mstore 8 (b + 8 * Z.of_nat i) 0 (phys s1))).
    { intros x Hx. apply mstore_out. intros H. apply Hx. exists b. split; [by left|klia]. }
    exists l1. split; [|split; [|split]].
    + eapply (kmem_inv_off s1); eauto. msolve.
    + rewrite concat_seq_S. msolve.
    + intros j Hj. destruct (Hlater j) as [Hej Hsj]; [lia|].
      pose proof (kids_later f i j ltac:(lia)) as Hsub.
      set (rs := concat (map f (seq (S i) (511 - i)))) in *.
      assert (Hvr : Forall valid_page rs).
      { eapply Forall_valid_sub; [|exact Hvk]. rewrite (kids_at f i Hi). fold rs.
        intros q Hq. rewrite !elem_of_app. auto. }
      simpl. split.
      * rewrite mload_mstore_other by lia. rewrite <- Hej. symmetry.
        apply (read_entry _ _ b j [b]); [lia|by left|]. eapply same_off_on; eauto. msolve.
      * intros x Hx. rewrite (Hsj x Hx). pose proof (in_pages_sub _ _ _ Hsub Hx) as Hx'.
        rewrite (same_off_on (f i) rs (phys si) (phys s1)); eauto; [|msolve].
        eapply (same_off_on [b] rs); eauto. msolve.
    + eapply same_off_trans; [exact Hoff|]. eapply same_off_trans;
        (eapply same_off_sub; [|eassumption]); intros q Hq.
      * right. eapply kids_sub; eauto.
      * apply list_elem_of_singleton in Hq as ->. by left.
  - exists si. split; [reflexivity|]. exists l'. split; [auto|]. split.
    { rewrite concat_seq_S, Hfi, app_nil_r. auto. }
    split; [|auto]. intros j Hj. apply Hlater. lia.
Qed.

Lemma freewalk_spec lvl : freewalk_ok lvl.
Proof.
  induction lvl as [|lvl IH]; intros b ps l t s Ht Hn Hk Hd Hv Hlk.
  - change (ps = [b]) in Ht. subst ps. apply Forall_cons in Hv as [Hvb _].
    destruct (for_each_seq (fun _ s' => s' = s) (freewalk_body 0 b) t 512 0 s) as (s1 & E1 & ->).
    { intros i s' Hi ->. exists s. split; [|reflexivity].
      unfold freewalk_body, bind at 1, read64, gets. cbn [obind].
      rewrite (noleaf_0 _ b i) by (auto; lia). reflexivity. }
    { reflexivity. }
    destruct (kfree_page b t s l) as (s' & E & Hk' & Ho); auto; [msolve|].
    exists s', (b :: l). split; [|auto].
    change (freewalk 1 b t s) with (bind (for_each (seq 0 512) (freewalk_body 0 b)) (fun _ => kfree b) t s).
    unfold bind. rewrite E1. exact E.
  - destruct Ht as (f & -> & Hf). apply Forall_cons in Hv as [Hvb Hvk].
    destruct (for_each_seq (freed_upto b f l s) (freewalk_body (S lvl) b) t 512 0 s)
      as (s1 & E1 & l1 & Hk1 & Hl1 & _ & Ho1).
    { intros i si Hi Hinv. eapply freewalk_step; eauto. lia. }
    { exists l. split; [auto|]. split; [reflexivity|]. split; [|intros x _; reflexivity].
      intros j Hj. split; [reflexivity|]. intros x _. reflexivity. }
    change (concat (map f (seq 0 (0 + 512)))) with (kids f) in Hl1.
    destruct (kfree_page b t s1 l1) as (s' & E & Hk' & Ho); auto; [msolve|].
    exists s', (b :: l1). split; [|split; [auto|split; [msolve|]]].
    + change (freewalk (S (S lvl)) b t s)
        with (bind (for_each (seq 0 512) (freewalk_body (S lvl) b)) (fun _ => kfree b) t s).
      unfold bind. rewrite E1. exact E.
    + eapply same_off_trans; [exact Ho1|]. eapply same_off_sub; [|exact Ho].
      intros q Hq. apply list_elem_of_singleton in Hq as ->. by left.
Qed.

(** ** [uvmunmap] and [uvmfree] *)

Lemma uvmunmap_ok root va n do_free ps l t s :
  va mod 4096 = 0 -> 0 <= va -> va + Z.of_nat n * 4096 <= MAXVA ->
  vm_inv s root ps l -> LKmem ∉ held t ->
  let fr := if do_free : bool then mapped_pages s root va n else [] in
  Forall valid_page fr -> NoDup (fr ++ ps ++ l) ->
  exists s', uvmunmap root va (Z.of_nat n) do_free t s = ORet tt t s' /\
    vm_inv s' root ps (rev fr ++ l) /\ same_off (fr ++ ps ++ l) (phys s) (phys s') /\
    forall va', 0 <= va' < SV39 ->
      pt s' root va' =
      if decide (va <= va' < va + Z.of_nat n * 4096)
      then (if pte_test (pt s root va') PTE_V then 0 else pt s root va') else pt s root va'.
Proof.
  intros Hal H0 Hhi Hinv Hlk fr Hvf Hdf.
  destruct (unmap_loop n root va do_free ps l t s) as (s' & E & Hs'); auto.
  exists s'. split; [|exact Hs'].
  unfold uvmunmap. change (va mod PGSIZE) with (va mod 4096). rewrite Hal, Z.eqb_refl. cbn [negb].
  rewrite Nat2Z.id, (u64_small (Z.of_nat n * PGSIZE)), u64_small by klia. exact E.
Qed.

Lemma pages_up sz : 0 <= sz <= MAXVA -> exists n, PGROUNDUP sz / PGSIZE = Z.of_nat n /\
  PGROUNDUP sz = Z.of_nat n * 4096 /\ sz <= PGROUNDUP sz < sz + 4096.
Proof.
  intros Hsz. rewrite PGROUNDUP_eq by klia. exists (Z.to_nat ((sz + 4095) / 4096)).
  unfold PGSIZE. rewrite Z2Nat.id by dlia. dlia.
Qed.

Lemma uvmfree_ok root sz n ps l t s :
  0 <= sz <= MAXVA -> PGROUNDUP sz = Z.of_nat n * 4096 -> PGROUNDUP sz <= MAXVA ->
  vm_inv s root ps l -> LKmem ∉ held t ->
  (forall va, 0 <= va < SV39 -> ~ va < PGROUNDUP sz -> pte_test (pt s root va) PTE_V = false) ->
  let fr := mapped_pages s root 0 n in
  Forall valid_page fr -> NoDup (fr ++ ps ++ l) ->
  exists s' l', uvmfree root sz t s = ORet tt t s' /\ kmem_inv s' l' /\ l' ≡ₚ fr ++ ps ++ l /\
    same_off (fr ++ ps ++ l) (phys s) (phys s').
Proof.
  intros Hsz Hn Hhi Hinv Hlk Hout fr Hvf Hdf.
  assert (Hun : exists s1, when (0 <? sz) (uvmunmap root 0 (PGROUNDUP sz / PGSIZE) true) t s = ORet tt t s1 /\
    vm_inv s1 root ps (rev fr ++ l) /\ same_off (fr ++ ps ++ l) (phys s) (phys s1) /\
    forall va, 0 <= va < SV39 -> pte_test (pt s1 root va) PTE_V = false).
  { replace (PGROUNDUP sz / PGSIZE) with (Z.of_nat n) by (rewrite Hn; unfold PGSIZE; dlia).
    destruct (0 <? sz) eqn:E0; cbn [when].
    - destruct (uvmunmap_ok root 0 n true ps l t s) as (s1 & E1 & Hi1 & Ho1 & Hp1); auto; [lia|lia|].
      exists s1. split; [exact E1|]. split; [auto|]. split; [auto|]. intros va Hva.
      rewrite Hp1 by auto. case_decide.
      + destruct (pte_test (pt s root va) PTE_V) eqn:EV; [reflexivity|exact EV].
      + apply Hout; lia.
    - assert (n = 0)%nat as -> by (rewrite PGROUNDUP_eq in Hn by klia; dlia).
      exists s. split; [reflexivity|]. split; [exact Hinv|]. split; [intros x _; reflexivity|].
      intros va Hva. apply Hout; lia. }
  destruct Hun as (s1 & E1 & (Ht1 & Hk1 & Hd1 & Hv1) & Ho1 & Hn1).
  destruct (freewalk_spec 2 root ps (rev fr ++ l) t s1) as (s2 & l2 & E2 & Hk2 & Hl2 & Ho2); auto.
  { by apply noleaf_sv39. }
  exists s2, l2. unfold uvmfree, bind. rewrite E1. split; [exact E2|]. split; [auto|].
  pose proof (Permutation_rev fr). split; [msolve|].
  eapply same_off_trans; [exact Ho1|]. eapply same_off_sub; [|exact Ho2].
  intros q Hq. rewrite !elem_of_app. auto.
Qed.

End VmFree.
