(* ===== verification/VmUser.v ===== *)
(** * User memory: [copyin], [copyout]

    [umem s root va] is the byte a user program sees at [va] under the page
    table [root].  [copyin] reads exactly this memory and [copyout] writes
    exactly the bytes of its range, through page boundaries, and touches
    neither the page tables nor the free list. *)

From S2P Require Import Prelude Kmonad Mem Riscv Kalloc Vm PageTable VmWalk VmFree.

Section VmUser.
Context {L : LinkMap} {HL : LinkMapOk}.

Definition user_ok (e : Z) : bool := pte_test e PTE_V && pte_test e PTE_U.

(** The physical address and the byte behind a user address. *)
Definition upa (s : vmst) (root va : Z) : Z := PTE2PA (pt s root va) + va mod 4096.
Definition umem (s : vmst) (root va : Z) : Z := byte_at (phys s) (upa s root va).
Definition urange (s : vmst) (root va : Z) (n : nat) : list Z :=
  map (fun i => umem s root (va + Z.of_nat i)) (seq 0 n).

(** The user pages of [root]: allocator pages, not part of the table and not
    free, and no two virtual pages share one. *)
Definition uspace (s : vmst) (root : Z) (ps l : list Z) : Prop :=
  (forall va, 0 <= va < MAXVA -> user_ok (pt s root va) = true ->
     valid_page (PTE2PA (pt s root va)) /\ PTE2PA (pt s root va) ∉ ps ++ l) /\
  (forall va va', 0 <= va < MAXVA -> 0 <= va' < MAXVA ->
     user_ok (pt s root va) = true -> user_ok (pt s root va') = true ->
     PTE2PA (pt s root va) = PTE2PA (pt s root va') -> va / 4096 = va' / 4096).

Lemma pt_same_page s root va va' : va / 4096 = va' / 4096 -> pt s root va = pt s root va'.
Proof.
  intros H. unfold pt, pte_of. rewrite (pure_walk_idx 2 _ root va va'); [reflexivity|].
  by apply page_same_idx.
Qed.

Lemma pt_rounddown s root va : pt s root (PGROUNDDOWN va) = pt s root va.
Proof. apply pt_same_page. rewrite PGROUNDDOWN_eq. dlia. Qed.

Lemma walkaddr_pure root va t s :
  va < MAXVA ->
  walkaddr root va t s =
  ORet (if user_ok (pt s root va) then PTE2PA (pt s root va) else 0) t s.
Proof.
  intros H. unfold walkaddr. destruct (MAXVA <=? va) eqn:E; [lia|].
  unfold bind at 1. rewrite walk_pure by auto. cbn [obind]. unfold pt, pte_of, user_ok.
  destruct (pure_walk (phys s) 2 root va =? 0); [reflexivity|].
  unfold bind, read64, gets. cbn [obind].
  destruct (pte_test _ PTE_V); [|reflexivity]. cbn [negb andb].
  destruct (pte_test _ PTE_U); reflexivity.
Qed.

(** Within one page, user memory is a stretch of physical memory. *)
Lemma urange_page s root va n :
  va mod 4096 + Z.of_nat n <= 4096 ->
  bytes_at (phys s) (PTE2PA (pt s root va) + va mod 4096) n = urange s root va n.
Proof.
  intros Hn. apply list_eq. intros i. unfold urange.
  destruct (decide (i < n)%nat) as [Hi|Hi].
  - rewrite lookup_bytes_at by auto. rewrite list_lookup_fmap, lookup_seq_lt by auto. simpl. f_equal.
    unfold umem, upa. rewrite (pt_same_page s root (va + Z.of_nat i) va) by dlia.
    f_equal. dlia.
  - rewrite !lookup_ge_None_2; auto; rewrite ?length_bytes_at, ?length_map, ?length_seq; lia.
Qed.

Lemma urange_app s root va n k :
  urange s root va (n + k) = urange s root va n ++ urange s root (va + Z.of_nat n) k.
Proof.
  unfold urange. rewrite seq_app, map_app. f_equal. rewrite <- (Nat.add_0_r (0 + n)).
  rewrite <- fmap_add_seq, Nat.add_0_l. rewrite <- list_fmap_compose. apply list_fmap_ext. intros i x _. simpl.
  f_equal. lia.
Qed.

(** ** [copyin] *)

Definition copyin_body (psz ppt pagetable : Z) (x : Z * nat * list Z)
  : M vmst (Z * nat * list Z + Z * list Z) :=
  let '(srcva, len, acc) := x in
  match len with
  | O => ret (inr (0, acc))
  | _ =>
      let va0 := PGROUNDDOWN srcva in
      let* pa0 := walkaddr pagetable va0 in
      let* pa0 := if pa0 =? 0 then vmfault psz ppt pagetable va0 else ret pa0 in
      if pa0 =? 0 then ret (inr (-1, acc))
      else
        let n := Nat.min (Z.to_nat (PGSIZE - (srcva - va0))) len in
        let* l := gets (fun s => bytes_at (phys s) (pa0 + (srcva - va0)) n) in
        ret (inl (u64 (va0 + PGSIZE), (len - n)%nat, acc ++ l))
  end.

Lemma copyin_loop fuel psz ppt root t s : forall len srcva acc,
  (len < fuel)%nat -> 0 <= srcva -> srcva + Z.of_nat len <= MAXVA ->
  (forall va, srcva <= va < srcva + Z.of_nat len ->
     user_ok (pt s root va) = true /\ PTE2PA (pt s root va) <> 0) ->
  loop fuel (copyin_body psz ppt root) (srcva, len, acc) t s =
  ORet (0, acc ++ urange s root srcva len) t s.
Proof.
  induction fuel as [|fuel IH]; intros len srcva acc Hf H0 Hhi Hok; [lia|].
  cbn [loop]. unfold bind at 1, copyin_body.
  destruct len as [|len]; [rewrite app_nil_r; reflexivity|].
  destruct (Hok srcva) as [Hu Hn0]; [lia|].
  pose proof (PGROUNDDOWN_bounds srcva) as Hb.
  unfold bind at 1. rewrite walkaddr_pure by lia. cbn [obind].
  rewrite pt_rounddown, Hu. destruct (_ =? 0) eqn:E0; [lia|].
  unfold bind at 1, ret at 1. cbn [obind]. rewrite E0.
  unfold bind at 1, gets, ret at 1. cbn [obind].
  rewrite PGROUNDDOWN_eq in *. replace (srcva - (srcva - srcva mod 4096)) with (srcva mod 4096) by lia.
  set (n := Nat.min (Z.to_nat (PGSIZE - srcva mod 4096)) (S len)).
  assert (Hn : (0 < n <= S len)%nat /\ srcva mod 4096 + Z.of_nat n <= 4096) by (unfold n; klia).
  rewrite urange_page by apply Hn.
  destruct (decide (n = S len)) as [->|Hne].
  - rewrite Nat.sub_diag. destruct fuel; [lia|]. reflexivity.
  - assert (Hva : u64 (srcva - srcva mod 4096 + PGSIZE) = srcva + Z.of_nat n)
      by (rewrite u64_small; unfold n in *; klia).
    rewrite Hva, IH by (lia || (intros va Hva'; apply Hok; lia)).
    rewrite <- app_assoc, <- urange_app.
    replace (n + (S len - n))%nat with (S len) by lia. reflexivity.
Qed.

Lemma copyin_ok psz ppt root srcva len t s :
  0 <= srcva -> srcva + Z.of_nat len <= MAXVA ->
  (forall va, srcva <= va < srcva + Z.of_nat len ->
     user_ok (pt s root va) = true /\ PTE2PA (pt s root va) <> 0) ->
  copyin psz ppt root srcva len t s = ORet (0, urange s root srcva len) t s.
Proof.
  intros H0 Hhi Hok.
  change (copyin psz ppt root srcva len t s)
    with (loop (S len) (copyin_body psz ppt root) (srcva, len, []) t s).
  rewrite copyin_loop by (auto; lia). reflexivity.
Qed.

(** ** [copyout] *)

(** A store inside the user page of [va]. *)
Lemma store_user root va off bs ps l s :
  vm_inv s root ps l -> uspace s root ps l -> 0 <= va < MAXVA ->
  user_ok (pt s root va) = true -> off = va mod 4096 -> off + Z.of_nat (length bs) <= 4096 ->
  Forall (fun b => 0 <= b < 256) bs ->
  let s' := on_phys (mwrite (PTE2PA (pt s root va) + off) bs) s in
  vm_inv s' root ps l /\ (forall va', pt s' root va' = pt s root va') /\
  forall va', 0 <= va' < MAXVA -> user_ok (pt s root va') = true ->
    umem s' root va' =
    if decide (va <= va' < va + Z.of_nat (length bs))
    then default 0 (bs !! Z.to_nat (va' - va)) else umem s root va'.
Proof.
  intros (Ht & Hk & Hd & Hv) [Hval Hinj] Hva Hu -> Hlen Hbs s'.
  destruct (Hval va Hva Hu) as [Hp Hpn]. set (p := PTE2PA (pt s root va)) in *.
  pose proof (Z.mod_pos_bound va 4096 ltac:(lia)).
  assert (Hoff : same_off [p] (phys s) (phys s')).
  { intros x Hx. unfold s'. simpl. apply mwrite_out. intros H'. apply Hx. exists p. split; [by left|klia]. }
  assert (Hvl : Forall valid_page l) by apply Hk.
  rewrite elem_of_app in Hpn.
  assert (Hon : same_on ps (phys s) (phys s')).
  { eapply (same_off_on [p] ps); eauto. constructor; [tauto|]. by apply NoDup_app in Hd as (? & _ & _). }
  assert (Hpt : forall va', pt s' root va' = pt s root va').
  { intros va'. eapply pte_of_same; eauto. }
  split; [|split; [exact Hpt|]].
  - split; [eapply ptree_same; eauto|]. split; [|auto].
    eapply (kmem_inv_off s s' l [p]); eauto. constructor; [tauto|]. by apply NoDup_app in Hd as (_ & _ & ?).
  - intros va' Hva' Hu'. unfold umem, upa. rewrite Hpt.
    destruct (Hval va' Hva' Hu') as [Hp' _]. set (p' := PTE2PA (pt s root va')) in *.
    pose proof (Z.mod_pos_bound va' 4096 ltac:(lia)).
    destruct (decide (va / 4096 = va' / 4096)) as [Epg|Epg].
    + assert (p' = p) as -> by (unfold p, p'; by rewrite (pt_same_page s root va' va)).
      unfold s', byte_at, mwrite. cbn [phys on_phys]. case_decide as Er.
      * destruct (_ && _) eqn:E; [|dlia]. replace (p + va' mod 4096 - (p + va mod 4096)) with (va' - va) by dlia.
        destruct (bs !! Z.to_nat (va' - va)) as [b|] eqn:Eb; [|reflexivity]. simpl.
        apply u8_small. rewrite Forall_lookup in Hbs. eauto.
      * destruct (_ && _) eqn:E; [dlia|]. reflexivity.
    + rewrite decide_False by dlia.
      assert (Hne : p' <> p) by (intros Ep; apply Epg; eapply Hinj; eauto).
      destruct (pages_disjoint p p') as [Hdj|Hdj]; [apply Hp|apply Hp'|auto| |];
        unfold byte_at; rewrite Hoff; try reflexivity; intros (q & Hq & Hx);
        apply list_elem_of_singleton in Hq as ->; klia.
Qed.

Lemma uspace_same s s' root ps l :
  (forall va, pt s' root va = pt s root va) -> uspace s root ps l -> uspace s' root ps l.
Proof.
  intros H [Hv Hi]. split.
  - intros va. rewrite H. apply Hv.
  - intros va va'. rewrite !H. apply Hi.
Qed.

Definition copyout_body (psz ppt pagetable : Z) (x : Z * list Z) : M vmst (Z * list Z + Z) :=
  let '(dstva, src) := x in
  match src with
  | [] => ret (inr 0)
  | _ =>
      let va0 := PGROUNDDOWN dstva in
      if MAXVA <=? va0 then ret (inr (-1))
      else
        let* pa0 := walkaddr pagetable va0 in
        let* pa0 := if pa0 =? 0 then vmfault psz ppt pagetable va0 else ret pa0 in
        if pa0 =? 0 then ret (inr (-1))
        else
          let* pte := walk pagetable va0 false in
          let* e := deref64 pte in
          if negb (pte_test e PTE_W) then ret (inr (-1))
          else
            let n := Z.to_nat (PGSIZE - (dstva - va0)) in
            modify (on_phys (mwrite (pa0 + (dstva - va0)) (take n src))) ;;
            ret (inl (u64 (va0 + PGSIZE), drop n src))
  end.

(** One page of [copyout] when the page is writable user memory. *)
Lemma copyout_step psz ppt root dstva b src t s :
  0 <= dstva < MAXVA -> user_ok (pt s root dstva) = true -> valid_page (PTE2PA (pt s root dstva)) ->
  pte_test (pt s root dstva) PTE_W = true ->
  let n := Z.to_nat (4096 - dstva mod 4096) in
  copyout_body psz ppt root (dstva, b :: src) t s =
  ORet (inl (dstva - dstva mod 4096 + 4096, drop n (b :: src))) t
    (on_phys (mwrite (PTE2PA (pt s root dstva) + dstva mod 4096) (take n (b :: src))) s).
Proof.
  intros Hd Hu Hp Hw n. pose proof (valid_page_pos _ Hp) as (Hp0 & _).
  pose proof (PGROUNDDOWN_bounds dstva) as Hb. unfold copyout_body.
  destruct (MAXVA <=? PGROUNDDOWN dstva) eqn:EM; [lia|].
  unfold bind at 1. rewrite walkaddr_pure by lia. cbn [obind]. rewrite pt_rounddown, Hu.
  destruct (_ =? 0) eqn:E0; [lia|]. unfold bind at 1, ret at 1. cbn [obind]. rewrite E0.
  unfold bind at 1. rewrite walk_pure by lia. cbn [obind].
  assert (He : (if pure_walk (phys s) 2 root (PGROUNDDOWN dstva) =? 0 then 0
     else load64 (pure_walk (phys s) 2 root (PGROUNDDOWN dstva)) (phys s)) = pt s root dstva)
    by (rewrite <- (pt_rounddown s root dstva); reflexivity).
  unfold deref64. destruct (pure_walk _ _ _ _ =? 0) eqn:Ew; [rewrite <- He in Hw; discriminate|].
  unfold bind at 1, read64, gets. cbn [obind]. rewrite He, Hw. cbn [negb].
  unfold bind, modify, ret. cbn [obind]. rewrite u64_small by klia.
  rewrite PGROUNDDOWN_eq. replace (dstva - (dstva - dstva mod 4096)) with (dstva mod 4096) by lia.
  reflexivity.
Qed.

(** [s'] is [s] with the bytes [src] at [dstva] in the user memory of [root]. *)
Definition written (root dstva : Z) (src : list Z) (s s' : vmst) : Prop :=
  forall va, 0 <= va < MAXVA -> user_ok (pt s root va) = true ->
    umem s' root va =
    if decide (dstva <= va < dstva + Z.of_nat (length src))
    then default 0 (src !! Z.to_nat (va - dstva)) else umem s root va.

Lemma written_app root dstva src n s s1 s2 :
  (n < length src)%nat ->
  (forall va, pt s1 root va = pt s root va) ->
  written root dstva (take n src) s s1 -> written root (dstva + Z.of_nat n) (drop n src) s1 s2 ->
  written root dstva src s s2.
Proof.
  intros Hn Hpt H1 H2 va Hva Hu. rewrite H2 by (auto; by rewrite Hpt).
  rewrite length_drop. case_decide as E2.
  - rewrite decide_True by lia. rewrite lookup_drop. do 3 f_equal. lia.
  - rewrite H1 by auto. rewrite length_take. repeat case_decide; try lia; try reflexivity.
    rewrite lookup_take_lt by lia. reflexivity.
Qed.

Lemma copyout_loop fuel psz ppt root ps l t : forall src dstva s,
  (length src < fuel)%nat -> 0 <= dstva -> dstva + Z.of_nat (length src) <= MAXVA ->
  vm_inv s root ps l -> uspace s root ps l -> Forall (fun b => 0 <= b < 256) src ->
  (forall va, dstva <= va < dstva + Z.of_nat (length src) ->
     user_ok (pt s root va) = true /\ pte_test (pt s root va) PTE_W = true) ->
  exists s', loop fuel (copyout_body psz ppt root) (dstva, src) t s = ORet 0 t s' /\
    vm_inv s' root ps l /\ (forall va, pt s' root va = pt s root va) /\ written root dstva src s s'.
Proof.
  induction fuel as [|fuel IH]; intros src dstva s Hf H0 Hhi Hinv Hsp Hsrc Hok; [lia|].
  cbn [loop]. unfold bind at 1. destruct src as [|b src].
  { exists s. split; [reflexivity|]. split; [auto|]. split; [auto|].
    intros va _ _. case_decide; simpl in *; [lia|reflexivity]. }
  destruct (Hok dstva) as [Hu Hw]; [simpl; lia|]. simpl in Hhi.
  destruct (proj1 Hsp dstva) as [Hp _]; [lia|auto|].
  rewrite copyout_step by (auto; lia). cbn [obind].
  set (n := Z.to_nat (4096 - dstva mod 4096)). set (all := b :: src) in *.
  pose proof (Z.mod_pos_bound dstva 4096 ltac:(lia)) as Hm.
  assert (Hlt : length (take n all) = Nat.min n (length all)) by apply length_take.
  destruct (store_user root dstva (dstva mod 4096) (take n all) ps l s) as (Hi1 & Hp1 & Hw1); auto.
  { lia. } { lia. } { by apply Forall_take. }
  set (s1 := on_phys _ s) in *.
  destruct (decide (n < length all)%nat) as [Hn|Hn].
  - destruct (IH (drop n all) (dstva + Z.of_nat n) s1) as (s2 & E2 & Hi2 & Hp2 & Hw2); auto.
    { rewrite length_drop. lia. } { lia. } { rewrite length_drop. simpl in *. lia. }
    { eapply uspace_same; eauto. } { by apply Forall_drop. }
    { intros va Hva. rewrite Hp1. apply Hok. rewrite length_drop in Hva. lia. }
    exists s2. replace (dstva - dstva mod 4096 + 4096) with (dstva + Z.of_nat n) by lia.
    split; [exact E2|]. split; [auto|]. split; [intros va; by rewrite Hp2|].
    eapply written_app; eauto.
  - rewrite drop_ge by lia. rewrite take_ge in Hw1 by lia.
    destruct fuel as [|fuel]; [simpl in *; lia|]. exists s1. split; [reflexivity|].
    split; [auto|]. split; [auto|]. exact Hw1.
Qed.

Lemma copyout_ok psz ppt root dstva src ps l t s :
  0 <= dstva -> dstva + Z.of_nat (length src) <= MAXVA ->
  vm_inv s root ps l -> uspace s root ps l -> Forall (fun b => 0 <= b < 256) src ->
  (forall va, dstva <= va < dstva + Z.of_nat (length src) ->
     user_ok (pt s root va) = true /\ pte_test (pt s root va) PTE_W = true) ->
  exists s', copyout psz ppt root dstva src t s = ORet 0 t s' /\
    vm_inv s' root ps l /\ (forall va, pt s' root va = pt s root va) /\ written root dstva src s s'.
Proof. intros. apply (copyout_loop (S (length src)) psz ppt root ps l t); auto. Qed.

End VmUser.
