(* ===== verification/VmProc.v ===== *)
(** * Page tables of processes

    [uvmcreate], [proc_pagetable] and [proc_freepagetable]: a new table maps
    the trampoline and the trapframe and nothing else, a failed creation gives
    every page back, and tearing a table down frees its pages and the pages of
    the user memory, each once. *)

From S2P Require Import Prelude Kmonad Mem Riscv Kalloc Vm PageTable VmWalk VmFree VmUser.

Section VmProc.
Context {L : LinkMap} {HL : LinkMapOk}.

Lemma uvmcreate_ok t s l :
  kmem_inv s l -> LKmem ∉ held t ->
  match l with
  | [] => uvmcreate t s = ORet 0 t s
  | p :: l0 => exists s', uvmcreate t s = ORet p t s' /\ p <> 0 /\ vm_inv s' p [p] l0 /\
      forall va, pt s' p va = 0
  end.
Proof.
  intros Hk Hlk. pose proof (kalloc_inv t s l Hk Hlk) as Hka. unfold uvmcreate.
  destruct l as [|p l0]; [unfold bind; rewrite Hka; reflexivity|].
  destruct Hka as (s1 & E1 & Hk1 & Hpn & Hvp & Hp0 & Hin1 & Hout1).
  unfold bind at 1. rewrite E1. cbn [obind]. destruct (p =? 0) eqn:E0; [lia|].
  eexists. split; [reflexivity|]. split; [auto|].
  set (s2 := on_phys (mset p 0 PGSIZE) s1).
  assert (Hz : forall x, p <= x < p + PGSIZE -> phys s2 x = 0).
  { intros x Hx. unfold s2. simpl. by rewrite mset_in. }
  destruct (ptree_zero (phys s2) 2 p Hz) as [Ht Hp]. split; [|exact Hp].
  destruct Hk as (_ & Hd & _).
  split; [exact Ht|]. split; [|split; [auto|by constructor]].
  eapply (kmem_inv_off s1 s2 l0 [p]); auto.
  intros x Hx. unfold s2. simpl. apply mset_out. intros H. apply Hx. exists p. split; [by left|auto].
Qed.

(** Mapping one page. *)
Lemma map_one root va pa perm ps l t s :
  va mod 4096 = 0 -> 0 <= va < MAXVA -> 0 <= pa < 2 ^ 56 - 4096 -> 0 <= perm < 1024 ->
  vm_inv s root ps l -> LKmem ∉ held t -> pte_test (pt s root va) PTE_V = false ->
  exists r s' ps' l', mappages root va PGSIZE pa perm t s = ORet r t s' /\
    vm_step root ps l s ps' l' s' /\
    ((r = 0 /\ forall va', 0 <= va' < SV39 ->
        pt s' root va' = if decide (va / 4096 = va' / 4096) then leaf_pte pa perm else pt s root va') \/
     (r = -1 /\ l' = [] /\ forall va', 0 <= va' < SV39 -> pt s' root va' = pt s root va')).
Proof.
  intros Hal Hva Hpa Hperm Hinv Hlk Hnv.
  destruct (mappages_ok root va 1 pa perm ps l t s) as (r & k & s' & ps' & l' & E & Hst & Hm & Hr);
    auto; try lia.
  { kconsts. dlia. }
  { intros va' Hva'. rewrite (pt_same_page s root va' va) by dlia. auto. }
  exists r, s', ps', l'. split; [exact E|]. split; [exact Hst|].
  destruct Hr as [[-> ->]|(-> & Hk & ->)]; [left|right]; (split; [reflexivity|]).
  - intros va' Hva'. rewrite Hm by auto.
    assert (Hpg : va / 4096 = va' / 4096 <-> va <= va' < va + 1 * 4096) by dlia.
    repeat case_decide; try tauto. rewrite Z.div_small by lia. f_equal. lia.
  - split; [reflexivity|]. assert (k = 0) as -> by lia. intros va' Hva'.
    rewrite Hm by auto. case_decide; [lia|reflexivity].
Qed.

(** Freeing a table that maps nothing. *)
Lemma uvmfree_empty root ps l t s :
  vm_inv s root ps l -> LKmem ∉ held t ->
  (forall va, 0 <= va < SV39 -> pte_test (pt s root va) PTE_V = false) ->
  exists s' l', uvmfree root 0 t s = ORet tt t s' /\ kmem_inv s' l' /\ l' ≡ₚ ps ++ l /\
    same_off (ps ++ l) (phys s) (phys s').
Proof.
  intros Hinv Hlk Hn.
  destruct (uvmfree_ok root 0 0 ps l t s) as (s' & l' & E & Hk & Hp & Ho); auto;
    [klia|discriminate|apply Hinv|].
  exists s', l'. auto.
Qed.

Lemma trampoline_range : 0 <= sym_trampoline < 2 ^ 56 - 4096.
Proof. destruct HL. change (2 ^ 56 - 4096) with 72057594037923840. klia. Qed.

(** The page table of a process without user memory. *)
Definition bare_pt (tf va : Z) : Z :=
  if decide (TRAPFRAME / 4096 = va / 4096) then leaf_pte tf (Z.lor PTE_R PTE_W)
  else if decide (TRAMPOLINE / 4096 = va / 4096) then leaf_pte sym_trampoline (Z.lor PTE_R PTE_X)
  else 0.

(** The failure path of the second [mappages] of [proc_pagetable]. *)
Lemma undo_trampoline root ps l t s :
  vm_inv s root ps l -> LKmem ∉ held t ->
  (forall va, 0 <= va < SV39 ->
     pt s root va = if decide (TRAMPOLINE / 4096 = va / 4096)
                    then leaf_pte sym_trampoline (Z.lor PTE_R PTE_X) else 0) ->
  exists s' l', (uvmunmap root TRAMPOLINE 1 false ;; uvmfree root 0 ;; ret 0) t s = ORet 0 t s' /\
    kmem_inv s' l' /\ l' ≡ₚ ps ++ l.
Proof.
  intros Hinv Hlk Hpt.
  destruct (uvmunmap_ok root TRAMPOLINE 1 false ps l t s) as (s1 & E1 & Hi1 & _ & Hp1);
    [reflexivity|klia|klia|auto|auto|constructor|apply Hinv|].
  destruct (uvmfree_empty root ps l t s1) as (s2 & l2 & E2 & Hk2 & Hl2 & _); auto.
  { intros va Hva. rewrite Hp1, Hpt by auto.
    assert (Hpg : TRAMPOLINE / 4096 = va / 4096 <-> TRAMPOLINE <= va < TRAMPOLINE + Z.of_nat 1 * 4096)
      by (kconsts; dlia).
    repeat case_decide; try tauto; try reflexivity.
    destruct (pte_test (leaf_pte _ _) PTE_V) eqn:E; [reflexivity|exact E]. }
  exists s2, l2. change 1 with (Z.of_nat 1). kstep E1. kstep E2. auto.
Qed.

Lemma proc_pagetable_ok tf t s l :
  kmem_inv s l -> LKmem ∉ held t -> 0 <= tf < 2 ^ 56 - 4096 ->
  exists r s' ps l', proc_pagetable tf t s = ORet r t s' /\ ps ++ l' ≡ₚ l /\
    ((r = 0 /\ ps = [] /\ kmem_inv s' l') \/
     (r <> 0 /\ vm_inv s' r ps l' /\ forall va, 0 <= va < SV39 -> pt s' r va = bare_pt tf va)).
Proof.
  intros Hk Hlk Htf. pose proof (uvmcreate_ok t s l Hk Hlk) as Hc.
  unfold proc_pagetable, bind at 1. destruct l as [|p l0].
  { rewrite Hc. exists 0, s, [], []. split; [reflexivity|]. split; [reflexivity|]. auto. }
  destruct Hc as (s1 & E1 & Hp0 & Hi1 & Hpt1). rewrite E1. cbn [obind].
  destruct (p =? 0) eqn:E0; [lia|]. clear E0 E1. unfold bind at 1.
  destruct (map_one p TRAMPOLINE sym_trampoline (Z.lor PTE_R PTE_X) [p] l0 t s1)
    as (r2 & s2 & ps2 & l2 & E2 & (Hi2 & Hperm2 & _) & Hr2);
    [reflexivity|klia|apply trampoline_range|done|auto|auto|rewrite Hpt1; reflexivity|].
  rewrite E2. cbn [obind]. clear E2.
  destruct Hr2 as [[-> Hpt2]|(-> & -> & Hpt2)]; cbn [Z.ltb Z.compare].
  2: { destruct (uvmfree_empty p ps2 [] t s2) as (s3 & l3 & E3 & Hk3 & Hl3 & _); auto.
       { intros va Hva. rewrite Hpt2, Hpt1 by auto. reflexivity. }
       kstep E3. exists 0, s3, [], l3. split; [reflexivity|].
       split; [simpl; by rewrite Hl3, Hperm2|]. auto. }
  unfold bind at 1.
  destruct (map_one p TRAPFRAME tf (Z.lor PTE_R PTE_W) ps2 l2 t s2)
    as (r3 & s3 & ps3 & l3 & E3 & (Hi3 & Hperm3 & _) & Hr3);
    [reflexivity|klia|auto|done|auto|auto|rewrite Hpt2, Hpt1 by klia; reflexivity|].
  rewrite E3. cbn [obind]. clear E3.
  destruct Hr3 as [[-> Hpt3]|(-> & -> & Hpt3)]; cbn [Z.ltb Z.compare].
  - exists p, s3, ps3, l3. split; [reflexivity|]. split; [by rewrite Hperm3, Hperm2|].
    right. split; [auto|]. split; [auto|]. intros va Hva. rewrite Hpt3, Hpt2, Hpt1 by auto.
    reflexivity.
  - destruct (undo_trampoline p ps3 [] t s3) as (s4 & l4 & E4 & Hk4 & Hl4); auto.
    { intros va Hva. rewrite Hpt3, Hpt2, Hpt1 by auto. reflexivity. }
    rewrite E4. exists 0, s4, [], l4. split; [reflexivity|].
    split; [simpl; by rewrite Hl4, Hperm3, Hperm2|]. auto.
Qed.

(** Tearing a process's page table down. *)
Lemma proc_freepagetable_ok root sz n ps l t s :
  0 <= sz <= TRAPFRAME -> PGROUNDUP sz = Z.of_nat n * 4096 ->
  vm_inv s root ps l -> LKmem ∉ held t ->
  (forall va, 0 <= va < SV39 -> pte_test (pt s root va) PTE_V = true ->
     va < PGROUNDUP sz \/ TRAPFRAME <= va < MAXVA) ->
  let fr := mapped_pages s root 0 n in
  Forall valid_page fr -> NoDup (fr ++ ps ++ l) ->
  exists s' l', proc_freepagetable root sz t s = ORet tt t s' /\ kmem_inv s' l' /\
    l' ≡ₚ fr ++ ps ++ l.
Proof.
  intros Hsz Hn Hinv Hlk Hout fr Hvf Hdf.
  assert (Hup : PGROUNDUP sz <= TRAPFRAME).
  { rewrite PGROUNDUP_eq in * by klia.
    kconsts. dlia. }
  destruct (uvmunmap_ok root TRAMPOLINE 1 false ps l t s) as (s1 & E1 & Hi1 & _ & Hp1);
    [reflexivity|klia|klia|auto|auto|constructor|apply Hinv|].
  destruct (uvmunmap_ok root TRAPFRAME 1 false ps l t s1) as (s2 & E2 & Hi2 & _ & Hp2);
    [reflexivity|klia|klia|auto|auto|constructor|apply Hi1|].
  assert (Hlow : forall va, 0 <= va < TRAPFRAME -> pt s2 root va = pt s root va).
  { intros va Hva. rewrite Hp2, Hp1 by klia.
    rewrite !decide_False by klia. reflexivity. }
  assert (Hmp : mapped_pages s2 root 0 n = fr).
  { assert (forall k b, 0 <= b -> b + Z.of_nat k * 4096 <= TRAPFRAME ->
      mapped_pages s2 root b k = mapped_pages s root b k) as Hgen.
    { induction k as [|k IH]; intros b Hb Hbh; [reflexivity|]. cbn [mapped_pages].
      rewrite Hlow, IH by lia. reflexivity. }
    apply Hgen; lia. }
  destruct (uvmfree_ok root sz n ps l t s2) as (s3 & l3 & E3 & Hk3 & Hl3 & _); auto.
  { klia. } { klia. }
  { intros va Hva Hnot. destruct (pte_test (pt s2 root va) PTE_V) eqn:EV; [|reflexivity]. exfalso.
    rewrite Hp2 in EV by auto. rewrite Hp1 in EV by auto.
    destruct (pte_test (pt s root va) PTE_V) eqn:EV0.
    - destruct (Hout va Hva EV0) as [|Hr]; [lia|]. repeat case_decide; rewrite ?EV0 in EV; try discriminate. klia.
    - repeat case_decide; repeat rewrite EV0 in EV; discriminate. }
  { by rewrite Hmp. } { by rewrite Hmp. }
  exists s3, l3. unfold proc_freepagetable. change 1 with (Z.of_nat 1).
  kstep E1. kstep E2. rewrite E3, <- Hmp. auto.
Qed.

End VmProc.
