(* ===== verification/VmGrow.v ===== *)
(** * Growing, shrinking and copying user memory

    [uvmalloc], [uvmdealloc], [uvmcopy] and [vmfault] of kernel/vm.c: new pages
    come from the free list with the right contents and permissions, or the
    operation undoes what it did and every page is back where it was. *)

From S2P Require Import Prelude Kmonad Mem Riscv Kalloc Vm PageTable VmWalk VmFree VmUser VmProc.

Section VmGrow.
Context {L : LinkMap} (HL : LinkMapOk).

(** ** One new page *)

(** Allocate a page, fill it with [g] and map it at [va]: the page, or 0 and
    nothing changed. *)
Definition new_page (root va perm : Z) (g : Z -> mem -> mem) : M vmst Z :=
  let* m := kalloc in
  if m =? 0 then ret 0
  else
    modify (on_phys (g m)) ;;
    let* r := mappages root va PGSIZE m perm in
    if negb (r =? 0) then kfree m ;; ret 0 else ret m.

(** The way [uvmalloc] and [uvmcopy] use it. *)
Lemma new_page_meq {A} root va perm g (err k : M vmst A) :
  (let* m := kalloc in
   if m =? 0 then err
   else
     modify (on_phys (g m)) ;;
     let* r := mappages root va PGSIZE m perm in
     if negb (r =? 0) then kfree m ;; err else k) ≈
  (let* m := new_page root va perm g in if m =? 0 then err else k).
Proof.
  unfold new_page. rewrite bind_assoc. apply bind_cong. intros m. destruct (m =? 0) eqn:E.
  - rewrite bind_ret_l. reflexivity.
  - rewrite bind_assoc. apply bind_cong. intros _. rewrite bind_assoc. apply bind_cong. intros r.
    destruct (negb (r =? 0)).
    + rewrite bind_assoc. apply bind_cong. intros _. by rewrite bind_ret_l.
    + rewrite bind_ret_l, E. reflexivity.
Qed.

(** A page outside the pages that changed. *)
Lemma page_off p qs m m' o :
  same_off qs m m' -> valid_page p -> Forall valid_page qs -> NoDup qs -> p ∉ qs -> 0 <= o < 4096 -> m' (p + o) = m (p + o).
Proof.
  intros Ho Hp Hq Hd Hn Hr. apply Ho. intros Hin.
  eapply (pages_apart [p] qs (p + o)); [by constructor|exact Hq|by constructor| |exact Hin].
  exists p. split; [by left|]. klia.
Qed.

(** A change of one page outside the table and the free list. *)
Lemma vm_inv_off s s' root ps l p :
  ptree (phys s) 2 root ps -> Forall valid_page ps -> kmem_inv s' l -> valid_page p -> NoDup (p :: ps ++ l) ->
  same_off [p] (phys s) (phys s') -> vm_inv s' root ps l /\ forall va, pt s' root va = pt s root va.
Proof.
  intros Ht Hv Hk Hp Hd Ho.
  assert (Hon : same_on ps (phys s) (phys s')).
  { apply (same_off_on [p] ps); [exact Ho|by constructor|exact Hv|]. simpl. msolve. }
  split; [|intros va; by eapply pte_of_same].
  split; [by eapply ptree_same|]. split; [exact Hk|]. split; [msolve|exact Hv].
Qed.

Lemma new_page_ok root va perm g ps l t s :
  vm_inv s root ps l -> LKmem ∉ held t -> va mod 4096 = 0 -> 0 <= va < MAXVA -> 0 <= perm < 1024 ->
  pte_test (pt s root va) PTE_V = false -> (forall m mm, same_off [m] mm (g m mm)) ->
  exists r s' ps' l', new_page root va perm g t s = ORet r t s' /\ vm_inv s' root ps' l' /\
    same_off (ps ++ l) (phys s) (phys s') /\
    (r = 0 /\ ps' ++ l' ≡ₚ ps ++ l /\ (forall va', 0 <= va' < SV39 -> pt s' root va' = pt s root va') \/
     r <> 0 /\ valid_page r /\ r :: ps' ++ l' ≡ₚ ps ++ l /\
     (forall va', 0 <= va' < SV39 ->
        pt s' root va' = if decide (va / 4096 = va' / 4096) then leaf_pte r perm else pt s root va') /\
     exists mm, same_off [r] (phys s) mm /\ forall x, r <= x < r + 4096 -> phys s' x = g r mm x).
Proof.
  intros Hinv Hlk Hal Hva Hperm Hnv Hg. destruct Hinv as (Ht & Hk & Hd & Hv).
  pose proof (kalloc_inv t s l Hk Hlk) as Hka. unfold new_page. destruct l as [|p l0].
  - exists 0, s, ps, []. kstep Hka. split; [reflexivity|]. split; [done|]. split; [intros x _; reflexivity|]. left. done.
  - destruct Hka as (s1 & E1 & Hk1 & Hpn & Hvp & Hp0 & _ & Hout1). kstep E1.
    rewrite (proj2 (Z.eqb_neq p 0)) by lia. unfold bind at 1, modify. cbn [obind].
    set (s2 := on_phys (g p) s1).
    assert (Ho1 : same_off [p] (phys s) (phys s1)).
    { intros x Hx. apply Hout1. intros Hin. apply Hx. exists p. split; [by left|exact Hin]. }
    assert (Ho2 : same_off [p] (phys s1) (phys s2)) by apply Hg.
    assert (Hd' : NoDup (p :: ps ++ l0)) by msolve.
    destruct (vm_inv_off s s2 root ps l0 p) as [Hi2 Hpt2]; auto.
    { eapply (kmem_inv_off s1 s2 l0 [p]); [reflexivity|exact Hk1|exact Ho2|by constructor|]. msolve. }
    { eapply same_off_trans; eauto. }
    destruct (map_one root va p perm ps l0 t s2) as (r & s3 & ps' & l' & E3 & (Hi3 & Hp3 & Ho3) & Hr); auto.
    { destruct (valid_page_pos p Hvp) as (? & _ & ?). destruct Hvp as [_ Hvp]. change (2 ^ 56 - 4096) with 72057594037923840. klia. }
    { by rewrite Hpt2. }
    kstep E3.
    assert (Hoff : same_off (ps ++ p :: l0) (phys s) (phys s3)).
    { eapply same_off_trans; [|eapply same_off_sub; [|exact Ho3]; set_solver].
      eapply same_off_sub; [|eapply same_off_trans; eauto]. set_solver. }
    destruct Hr as [[-> Hpt]|(-> & -> & Hpt)]; cbn [Z.eqb negb].
    + exists p, s3, ps', l'. split; [reflexivity|]. split; [exact Hi3|]. split; [exact Hoff|]. right.
      split; [exact Hp0|]. split; [exact Hvp|]. split; [msolve|]. split.
      * intros va' Hva'. rewrite Hpt by auto. by rewrite Hpt2.
      * exists (phys s1). split; [exact Ho1|]. intros x Hx. change (g p (phys s1) x) with (phys s2 x). apply Ho3.
        intros (q & Hq & Hx'). destruct (decide (q = p)) as [->|Hne]; [apply (NoDup_cons_1_1 _ _ Hd' Hq)|].
        destruct Hvp as [Hvp _].
        assert (Hq' : valid_page q) by (eapply Forall_elem; [|exact Hq]; apply Forall_app; split; [exact Hv|apply Hk1]).
        destruct Hq' as [Hq' _]. destruct (pages_disjoint p q Hvp Hq'); [congruence|klia..].
    + destruct (kfree_vm root p ps' [] t s3) as (s4 & E4 & Hi4 & Ho4 & _ & Hpt4); auto; [msolve|].
      exists 0, s4, ps', [p]. kstep E4. split; [reflexivity|]. split; [exact Hi4|]. split.
      { eapply same_off_trans; [exact Hoff|]. eapply same_off_sub; [|exact Ho4]. set_solver. }
      left. split; [reflexivity|]. split; [msolve|]. intros va' Hva'. by rewrite Hpt4, Hpt, Hpt2.
Qed.

(** ** Several new pages *)

Lemma mapped_pages_snoc s root va n :
  mapped_pages s root va (S n) =
  mapped_pages s root va n ++
    (if pte_test (pt s root (va + Z.of_nat n * 4096)) PTE_V then [PTE2PA (pt s root (va + Z.of_nat n * 4096))] else []).
Proof.
  revert va. induction n as [|n IH]; intros va.
  - simpl. rewrite Z.add_0_r, app_nil_r. reflexivity.
  - change (mapped_pages s root va (S (S n))) with
      ((if pte_test (pt s root va) PTE_V then [PTE2PA (pt s root va)] else []) ++ mapped_pages s root (va + 4096) (S n)).
    rewrite IH, app_assoc. cbn [mapped_pages]. replace (va + 4096 + Z.of_nat n * 4096) with (va + Z.of_nat (S n) * 4096) by lia. reflexivity.
Qed.

Lemma mapped_pages_ext s s' root va n :
  (forall k, (k < n)%nat -> pt s' root (va + Z.of_nat k * 4096) = pt s root (va + Z.of_nat k * 4096)) ->
  mapped_pages s' root va n = mapped_pages s root va n.
Proof.
  intros H. induction n as [|n IH]; [reflexivity|]. rewrite !mapped_pages_snoc, IH by (intros k Hk; apply H; lia).
  by rewrite H by lia.
Qed.

(** What page [k] of the range should become: [None] if it stays unmapped,
    else its permissions and contents. *)
Definition wish := nat -> option (Z * (Z -> Z)).

(** The first [j] pages from [start] on are as wished, on the pages [W]. *)
Record grown (root start : Z) (want : wish) (s0 : vmst) (ps0 l0 : list Z) (j : nat) (s : vmst) (ps l W : list Z) : Prop := {
  gr_inv : vm_inv s root ps l;
  gr_perm : W ++ ps ++ l ≡ₚ ps0 ++ l0;
  gr_off : same_off (ps0 ++ l0) (phys s0) (phys s);
  gr_pages : mapped_pages s root start j = W;
  gr_new : forall k, (k < j)%nat ->
    match want k with
    | Some (perm, f) => exists m, m ∈ W /\ pt s root (start + Z.of_nat k * 4096) = leaf_pte m perm /\
        forall o, 0 <= o < 4096 -> phys s (m + o) = f o
    | None => pt s root (start + Z.of_nat k * 4096) = pt s0 root (start + Z.of_nat k * 4096)
    end;
  gr_old : forall va, 0 <= va < SV39 -> ~ (start <= va < start + Z.of_nat j * 4096) -> pt s root va = pt s0 root va;
}.

Section Grown.
Context (root start : Z) (want : wish) (s0 : vmst) (ps0 l0 : list Z) (n : nat).
Context (Hal : start mod 4096 = 0) (H0 : 0 <= start) (Hhi : start + Z.of_nat n * 4096 <= MAXVA).
Context (Hinv0 : vm_inv s0 root ps0 l0).
Context (Hinvalid : forall k, (k < n)%nat -> pte_test (pt s0 root (start + Z.of_nat k * 4096)) PTE_V = false).
Abbreviation page k := (start + Z.of_nat k * 4096).
Abbreviation grown j s ps l W := (grown root start want s0 ps0 l0 j s ps l W).

Lemma grown_0 : grown 0 s0 ps0 l0 [].
Proof. split; auto; [by intros x _|intros k Hk; lia]. Qed.

Lemma page_range k : (k < n)%nat -> page k mod 4096 = 0 /\ 0 <= page k < MAXVA /\ 0 <= page k < SV39.
Proof. intros Hk. assert (MAXVA <= SV39) by done. split; [dlia|]. split; lia. Qed.

Lemma grown_valid j s ps l W : grown j s ps l W -> Forall valid_page (W ++ ps ++ l) /\ NoDup (W ++ ps ++ l).
Proof.
  intros G. rewrite (gr_perm _ _ _ _ _ _ _ _ _ _ _ G). split; [by eapply vm_inv_valid|]. apply Hinv0.
Qed.

(** A change of the table and of free pages leaves the new pages alone. *)
Lemma grown_content j s ps l W s' : grown j s ps l W -> same_off (ps ++ l) (phys s) (phys s') ->
  forall m o, m ∈ W -> 0 <= o < 4096 -> phys s' (m + o) = phys s (m + o).
Proof.
  intros G Ho m o Hm Hrange. destruct (grown_valid _ _ _ _ _ G) as [Hv Hd].
  apply NoDup_app in Hd as (_ & Hx & Hd). apply Forall_app in Hv as [Hv1 Hv2].
  apply (page_off m (ps ++ l)); auto. exact (Forall_elem _ _ _ Hv1 Hm).
Qed.

Lemma grown_same j s ps l W s' ps' l' :
  (j <= n)%nat -> grown j s ps l W -> vm_inv s' root ps' l' -> same_off (ps ++ l) (phys s) (phys s') ->
  ps' ++ l' ≡ₚ ps ++ l -> (forall va, 0 <= va < SV39 -> pt s' root va = pt s root va) -> grown j s' ps' l' W.
Proof.
  intros Hj G Hi' Ho' Hp Hpt. pose proof (grown_content _ _ _ _ _ _ G Ho') as Hkeep. destruct G as [G1 G2 G3 G4 G5 G6].
  assert (Hs : forall k, (k < j)%nat -> pt s' root (page k) = pt s root (page k)).
  { intros k Hk. apply Hpt. by apply page_range; lia. }
  split; auto.
  - by rewrite Hp.
  - eapply same_off_trans; [exact G3|]. eapply same_off_sub; [|exact Ho']. intros x Hx. rewrite <- G2. set_solver.
  - rewrite <- G4. by apply mapped_pages_ext.
  - intros k Hk. specialize (G5 k Hk). rewrite Hs by auto. destruct (want k) as [[perm' f']|]; [|exact G5].
    destruct G5 as (m & Hm & Hpm & Hfm). exists m. split; [exact Hm|]. split; [exact Hpm|].
    intros o Ho. rewrite (Hkeep m o Hm Ho). by apply Hfm.
  - intros va Hva Hn. rewrite Hpt by auto. by apply G6.
Qed.

Lemma grown_page j s ps l W m : grown j s ps l W -> m ∈ W -> valid_page m.
Proof. intros G Hm. eapply Forall_elem; [apply (grown_valid _ _ _ _ _ G)|]. apply elem_of_app. by left. Qed.

Lemma grown_skip j s ps l W : (j < n)%nat -> want j = None -> grown j s ps l W -> grown (S j) s ps l W.
Proof.
  intros Hj Hw G. destruct (page_range j Hj) as (_ & _ & Hr).
  assert (Hpt : pt s root (page j) = pt s0 root (page j)) by (apply (gr_old _ _ _ _ _ _ _ _ _ _ _ G); [exact Hr|lia]).
  destruct G as [G1 G2 G3 G4 G5 G6]. split; auto.
  - rewrite mapped_pages_snoc, G4, Hpt, Hinvalid by auto. apply app_nil_r.
  - intros k Hk. destruct (decide (k = j)) as [->|]; [by rewrite Hw|]. apply G5. lia.
  - intros va Hva Hn. apply G6; [auto|lia].
Qed.

Lemma grown_add j s ps l W r s' ps' l' perm f :
  (j < n)%nat -> want j = Some (perm, f) -> 0 <= perm < 1024 -> grown j s ps l W ->
  vm_inv s' root ps' l' -> same_off (ps ++ l) (phys s) (phys s') -> valid_page r -> r :: ps' ++ l' ≡ₚ ps ++ l ->
  (forall va, 0 <= va < SV39 ->
     pt s' root va = if decide (page j / 4096 = va / 4096) then leaf_pte r perm else pt s root va) ->
  (forall o, 0 <= o < 4096 -> phys s' (r + o) = f o) ->
  grown (S j) s' ps' l' (W ++ [r]).
Proof.
  intros Hj Hw Hperm G Hi' Ho' Hr Hp' Hpt Hf. pose proof (grown_content _ _ _ _ _ _ G Ho') as Hkeep.
  destruct (page_range j Hj) as (Ha & _ & Hrj). destruct G as [G1 G2 G3 G4 G5 G6].
  assert (Hsame : forall k, (k < j)%nat -> pt s' root (page k) = pt s root (page k)).
  { intros k Hk. destruct (page_range k ltac:(lia)) as (_ & _ & ?). rewrite Hpt by auto. rewrite decide_False; [done|]. dlia. }
  assert (Hj' : pt s' root (page j) = leaf_pte r perm) by (rewrite Hpt by auto; by rewrite decide_True).
  split; auto.
  - msolve.
  - eapply same_off_trans; [exact G3|]. eapply same_off_sub; [|exact Ho']. intros x Hx. rewrite <- G2. set_solver.
  - rewrite mapped_pages_snoc, (mapped_pages_ext s s') by exact Hsame. rewrite G4, Hj'.
    destruct (valid_page_pos r Hr) as (? & ? & ?). rewrite leaf_pte_valid, leaf_pte_pa by (auto; lia). reflexivity.
  - intros k Hk. destruct (decide (k = j)) as [->|Hne].
    + rewrite Hw. exists r. split; [set_solver|]. auto.
    + specialize (G5 k ltac:(lia)). rewrite Hsame by lia. destruct (want k) as [[perm' f']|]; [|exact G5].
      destruct G5 as (m & Hm & Hpm & Hfm). exists m. split; [set_solver|]. split; [exact Hpm|].
      intros o Ho. rewrite (Hkeep m o Hm Ho). by apply Hfm.
  - intros va Hva Hn. rewrite Hpt by auto. rewrite decide_False by dlia. apply G6; [auto|lia].
Qed.

(** The range by address. *)
Lemma grown_va j s ps l W va : grown j s ps l W -> (j <= n)%nat -> start <= va < start + Z.of_nat j * 4096 ->
  match want (Z.to_nat ((va - start) / 4096)) with
  | Some (perm, f) => exists m, m ∈ W /\ pt s root va = leaf_pte m perm /\ phys s (m + va mod 4096) = f (va mod 4096)
  | None => pt s root va = pt s0 root va
  end.
Proof.
  intros G Hj Hva. set (k := Z.to_nat ((va - start) / 4096)).
  assert (Hk : (k < j)%nat /\ page k / 4096 = va / 4096) by (unfold k; dlia). destruct Hk as [Hk Hpg].
  pose proof (gr_new _ _ _ _ _ _ _ _ _ _ _ G k Hk) as Hn. rewrite (pt_same_page s root va (page k)) by lia.
  destruct (want k) as [[perm f]|].
  - destruct Hn as (m & Hm & Hpt & Hf). exists m. split; [exact Hm|]. split; [exact Hpt|]. apply Hf. apply Z.mod_pos_bound. lia.
  - by rewrite (pt_same_page s0 root va (page k)) by lia.
Qed.

(** Undo: the new pages are back on the free list. *)
Lemma grown_undo j s ps l W t :
  (j <= n)%nat -> grown j s ps l W -> LKmem ∉ held t ->
  exists s', uvmunmap root start (Z.of_nat j) true t s = ORet tt t s' /\
    vm_inv s' root ps (rev W ++ l) /\ ps ++ rev W ++ l ≡ₚ ps0 ++ l0 /\ same_off (ps0 ++ l0) (phys s0) (phys s') /\
    (forall k, (k < j)%nat -> pte_test (pt s' root (page k)) PTE_V = false) /\
    (forall va, 0 <= va < SV39 -> ~ (start <= va < start + Z.of_nat j * 4096) -> pt s' root va = pt s0 root va).
Proof.
  intros Hj G Hlk. destruct (grown_valid _ _ _ _ _ G) as [Hv Hd]. destruct G as [G1 G2 G3 G4 G5 G6].
  destruct (uvmunmap_ok root start j true ps l t s) as (s' & E & Hi & Ho & Hpt); auto; [lia| |by rewrite G4|].
  { rewrite G4. by apply Forall_app in Hv as [? _]. }
  rewrite G4 in *. exists s'. split; [exact E|]. split; [exact Hi|]. split; [|split; [|split]].
  - rewrite <- G2. pose proof (Permutation_rev W). msolve.
  - eapply same_off_trans; [exact G3|]. eapply same_off_sub; [|exact Ho]. intros x Hx. by rewrite <- G2.
  - intros k Hk. destruct (page_range k ltac:(lia)) as (_ & _ & Hr). rewrite Hpt by auto. rewrite decide_True by lia.
    destruct (pte_test (pt s root (page k)) PTE_V) eqn:E'; [done|exact E'].
  - intros va Hva Hn. rewrite Hpt by auto. rewrite decide_False by lia. by apply G6.
Qed.

(** The range is unmapped again and all pages are where they came from. *)
Definition undone (s : vmst) : Prop := exists ps l,
  vm_inv s root ps l /\ ps ++ l ≡ₚ ps0 ++ l0 /\ same_off (ps0 ++ l0) (phys s0) (phys s) /\
  (forall k, (k < n)%nat -> pte_test (pt s root (page k)) PTE_V = false) /\
  (forall va, 0 <= va < SV39 -> ~ (start <= va < start + Z.of_nat n * 4096) -> pt s root va = pt s0 root va).

(** A page more, or failure and everything undone. *)
Lemma grow_step {A} j s ps l W perm f g (err : M vmst (Z + A)) (fail : A) t :
  (j < n)%nat -> want j = Some (perm, f) -> 0 <= perm < 1024 -> grown j s ps l W -> LKmem ∉ held t ->
  (forall m mm, same_off [m] mm (g m mm)) ->
  (forall r mm o, r ∈ ps0 ++ l0 -> same_off [r] (phys s) mm -> 0 <= o < 4096 -> g r mm (r + o) = f o) ->
  (forall s1 s2, uvmunmap root start (Z.of_nat j) true t s1 = ORet tt t s2 -> err t s1 = ORet (inr fail) t s2) ->
  let body := let* m := new_page root (page j) perm g in
              if m =? 0 then err else ret (inl (u64 (page j + PGSIZE))) in
  (exists s' ps' l' W', body t s = ORet (inl (page (S j))) t s' /\ grown (S j) s' ps' l' W') \/
  (exists s', body t s = ORet (inr fail) t s' /\ undone s').
Proof.
  intros Hj Hw Hperm G Hlk Hg Hf Herr body. destruct (page_range j Hj) as (Ha & Hr & Hr').
  pose proof (gr_old _ _ _ _ _ _ _ _ _ _ _ G (page j) Hr' ltac:(lia)) as Hold.
  destruct (new_page_ok root (page j) perm g ps l t s) as (r & s1 & ps1 & l1 & E & Hi1 & Ho1 & Hres); auto.
  { apply G. }
  { by rewrite Hold, Hinvalid. }
  unfold body. kstep E. destruct Hres as [(-> & Hp & Hpt)|(Hr0 & Hrv & Hp & Hpt & mm & Hmm & Hc)].
  - right. cbn [Z.eqb].
    pose proof (grown_same _ _ _ _ _ _ _ _ (Nat.lt_le_incl _ _ Hj) G Hi1 Ho1 Hp Hpt) as G1.
    destruct (grown_undo j s1 ps1 l1 W t) as (s2 & E2 & Hi2 & Hp2 & Ho2 & Hinv2 & Hold2); auto; [lia|].
    exists s2. split; [by apply Herr|]. exists ps1, (rev W ++ l1). split; [exact Hi2|]. split; [exact Hp2|].
    split; [exact Ho2|]. split.
    + intros k Hk. destruct (decide (k < j)%nat); [by apply Hinv2|]. rewrite Hold2; [by apply Hinvalid|by apply page_range|lia].
    + intros va Hva Hn. apply Hold2; [auto|lia].
  - left. rewrite (proj2 (Z.eqb_neq r 0)) by auto. exists s1, ps1, l1, (W ++ [r]). split.
    { unfold ret. do 2 f_equal. rewrite u64_small by klia. unfold PGSIZE. lia. }
    eapply grown_add; eauto. intros o Ho. rewrite Hc by lia. apply Hf; auto.
    rewrite <- (gr_perm _ _ _ _ _ _ _ _ _ _ _ G), <- Hp. set_solver.
Qed.

(** The loop over the range. *)
Lemma grow_loop {A} (body : Z -> M vmst (Z + A)) (fin fail : A) t :
  (forall j s ps l W, (j < n)%nat -> grown j s ps l W ->
     (exists s' ps' l' W', body (page j) t s = ORet (inl (page (S j))) t s' /\ grown (S j) s' ps' l' W') \/
     (exists s', body (page j) t s = ORet (inr fail) t s' /\ undone s')) ->
  (forall s, body (page n) t s = ORet (inr fin) t s) ->
  forall fuel, (n < fuel)%nat ->
  (exists s' ps' l' W', loop fuel body start t s0 = ORet fin t s' /\ grown n s' ps' l' W') \/
  (exists s', loop fuel body start t s0 = ORet fail t s' /\ undone s').
Proof.
  intros Hb Hend fuel Hfuel.
  assert (H : forall k j s ps l W fuel, (j + k = n)%nat -> (k < fuel)%nat -> grown j s ps l W ->
    (exists s' ps' l' W', loop fuel body (page j) t s = ORet fin t s' /\ grown n s' ps' l' W') \/
    (exists s', loop fuel body (page j) t s = ORet fail t s' /\ undone s')).
  { clear fuel Hfuel. intros k. induction k as [|k IH]; intros j s ps l W fuel Hjk Hf G; (destruct fuel as [|fuel]; [lia|]); cbn [loop].
    - replace j with n in * by lia. left. exists s, ps, l, W. kstep (Hend s). split; [reflexivity|exact G].
    - destruct (Hb j s ps l W) as [(s' & ps' & l' & W' & E & G')|(s' & E & Hu)]; [lia|exact G| |].
      + kstep E. apply (IH (S j) s' ps' l' W'); [lia|lia|exact G'].
      + right. exists s'. kstep E. by split. }
  pose proof (H n 0%nat s0 ps0 l0 [] fuel eq_refl Hfuel grown_0) as H'. by replace (page 0) with start in H' by lia.
Qed.
End Grown.

(** ** [uvmdealloc] and [uvmalloc] *)

Lemma uvmunmap_none root start t s :
  start mod 4096 = 0 -> 0 <= start <= MAXVA -> uvmunmap root start (Z.of_nat 0) true t s = ORet tt t s.
Proof.
  intros Hal Hr. unfold uvmunmap. change (start mod PGSIZE) with (start mod 4096). rewrite Hal. cbn [Z.eqb negb].
  change (u64 (Z.of_nat 0 * PGSIZE)) with 0. rewrite Z.add_0_r, u64_small by klia.
  change (Z.to_nat (Z.of_nat 0) + 1)%nat with 1%nat. cbn [loop]. unfold bind at 1. by rewrite Z.ltb_irrefl.
Qed.

Lemma uvmdealloc_pages root start j t s1 s2 :
  start mod 4096 = 0 -> 0 <= start -> start + Z.of_nat j * 4096 <= MAXVA ->
  uvmunmap root start (Z.of_nat j) true t s1 = ORet tt t s2 ->
  exists r, uvmdealloc root (start + Z.of_nat j * 4096) start t s1 = ORet r t s2.
Proof.
  intros Hal H0 Hhi E. unfold uvmdealloc. destruct (Z.leb_spec (start + Z.of_nat j * 4096) start) as [Hle|Hlt].
  - assert (j = 0)%nat as -> by lia. rewrite uvmunmap_none in E by (auto; lia). injection E as <-. by eexists.
  - exists start. rewrite !PGROUNDUP_eq by klia.
    replace (4096 * ((start + 4095) / 4096)) with start by dlia.
    replace (4096 * ((start + Z.of_nat j * 4096 + 4095) / 4096)) with (start + Z.of_nat j * 4096) by dlia.
    rewrite (proj2 (Z.ltb_lt _ _)) by lia. cbn [when].
    assert (Hj : (start + Z.of_nat j * 4096 - start) / PGSIZE = Z.of_nat j) by (unfold PGSIZE; dlia).
    rewrite Hj, i32_small, u64_small by klia. kstep E. reflexivity.
Qed.

(** Pages of zeroes with the permissions of [uvmalloc]. *)
Definition zero_pages (xperm : Z) : wish := fun _ => Some (Z.lor (Z.lor PTE_R PTE_U) xperm, fun _ => 0).

Lemma grow_bounds oldsz newsz (start := PGROUNDUP oldsz) (n := Z.to_nat ((PGROUNDUP newsz - PGROUNDUP oldsz) / 4096)) :
  0 <= oldsz <= newsz -> newsz <= MAXVA ->
  start mod 4096 = 0 /\ 0 <= start /\ start + Z.of_nat n * 4096 <= MAXVA /\ PGROUNDUP newsz = start + Z.of_nat n * 4096.
Proof.
  intros Hsz Hmax. assert (Hs : start = 4096 * ((oldsz + 4095) / 4096)) by (apply PGROUNDUP_eq; klia).
  assert (Hup : PGROUNDUP newsz = 4096 * ((newsz + 4095) / 4096)) by (apply PGROUNDUP_eq; klia).
  assert (Hnz : Z.of_nat n = (4096 * ((newsz + 4095) / 4096) - start) / 4096).
  { unfold n. fold start. rewrite Hup. rewrite Z2Nat.id; [reflexivity|]. dlia. }
  rewrite Hup. change MAXVA with (67108864 * 4096) in *. repeat split; dlia.
Qed.

Lemma uvmalloc_ok root oldsz newsz xperm ps l t s
    (start := PGROUNDUP oldsz) (n := Z.to_nat ((PGROUNDUP newsz - PGROUNDUP oldsz) / 4096)) :
  0 <= oldsz <= newsz -> newsz <= MAXVA -> 0 <= xperm < 1024 -> vm_inv s root ps l -> LKmem ∉ held t ->
  (forall k, (k < n)%nat -> pte_test (pt s root (start + Z.of_nat k * 4096)) PTE_V = false) ->
  (exists s' ps' l' W, uvmalloc root oldsz newsz xperm t s = ORet newsz t s' /\
     grown root start (zero_pages xperm) s ps l n s' ps' l' W) \/
  (exists s', uvmalloc root oldsz newsz xperm t s = ORet 0 t s' /\ undone root start s ps l n s').
Proof.
  intros Hsz Hmax Hx Hinv Hlk Hnv.
  destruct (grow_bounds oldsz newsz Hsz Hmax) as (Hal & H0 & Hhi & Hend). fold n in Hhi, Hend. fold start in Hal, H0, Hhi, Hend.
  assert (Hup : newsz <= PGROUNDUP newsz < newsz + 4096) by (rewrite PGROUNDUP_eq by klia; dlia).
  assert (Hperm : 0 <= Z.lor (Z.lor PTE_R PTE_U) xperm < 1024) by (apply (lor_bound _ _ 10); [lia|done|exact Hx]).
  unfold uvmalloc. rewrite (proj2 (Z.ltb_ge _ _)) by lia. fold start.
  set (body' := fun a : Z => if a <? newsz then
      (let* m := new_page root a (Z.lor (Z.lor PTE_R PTE_U) xperm) (fun m => mset m 0 PGSIZE) in
       if m =? 0 then uvmdealloc root a start ;; ret (inr 0) else ret (inl (u64 (a + PGSIZE)))) else ret (inr newsz)).
  assert (Hmeq : forall fuel, loop fuel (fun a => if a <? newsz then
      (let* m := kalloc in
       if m =? 0 then uvmdealloc root a start ;; ret (inr 0)
       else
         modify (on_phys (mset m 0 PGSIZE)) ;;
         let* r := mappages root a PGSIZE m (Z.lor (Z.lor PTE_R PTE_U) xperm) in
         if negb (r =? 0) then kfree m ;; uvmdealloc root a start ;; ret (inr 0) else ret (inl (u64 (a + PGSIZE))))
      else ret (inr newsz)) start ≈ loop fuel body' start).
  { intros fuel. apply loop_meq. intros a. unfold body'. destruct (a <? newsz); [|reflexivity].
    apply (new_page_meq root a _ (fun m => mset m 0 PGSIZE) (uvmdealloc root a start ;; ret (inr 0))). }
  destruct (grow_loop root start (zero_pages xperm) s ps l n Hinv body' newsz 0 t) with (fuel := Z.to_nat ((newsz - start) / PGSIZE + 2))
    as [(s' & ps' & l' & W & E & G)|(s' & E & Hu)].
  - intros j s1 ps1 l1 W Hj G. unfold body'. rewrite (proj2 (Z.ltb_lt _ _)) by lia.
    eapply (grow_step root start (zero_pages xperm) s ps l n) with (f := fun _ => 0); eauto.
    + intros m mm x Hx'. apply mset_out. intros Hin. apply Hx'. exists m. split; [by left|exact Hin].
    + intros r mm o _ _ Ho. apply mset_in. unfold PGSIZE. lia.
    + intros s2 s3 E. destruct (uvmdealloc_pages root start j t s2 s3) as [r Er]; auto; [lia|]. kstep Er. reflexivity.
  - intros s1. unfold body'. rewrite (proj2 (Z.ltb_ge _ _)) by lia. reflexivity.
  - unfold PGSIZE. dlia.
  - left. exists s', ps', l', W. split; [|exact G]. eapply meq_ret; [apply Hmeq|exact E].
  - right. exists s'. split; [|exact Hu]. eapply meq_ret; [apply Hmeq|exact E].
Qed.

(** ** [uvmcopy] *)

(** The pages of [old], with their permissions and contents. *)
Definition copy_pages (s : vmst) (old : Z) : wish := fun k =>
  let e := pt s old (Z.of_nat k * 4096) in
  if pte_test e PTE_V then Some (PTE_FLAGS e, fun o => phys s (PTE2PA e + o)) else None.

(** The copy has the flags of the original. *)
Lemma leaf_pte_flags m e : valid_page m -> pte_test e PTE_V = true -> PTE_FLAGS (leaf_pte m (PTE_FLAGS e)) = PTE_FLAGS e.
Proof.
  intros Hm Hv. destruct (valid_page_pos m Hm) as (? & ? & _).
  assert (Hf : 0 <= PTE_FLAGS e < 1024).
  { unfold PTE_FLAGS. change 1023 with (Z.ones 10). rewrite Z.land_ones by lia. apply Z.mod_pos_bound. lia. }
  unfold leaf_pte. rewrite <- Z.lor_assoc, PTE_FLAGS_build; [|lia|apply (lor_bound _ _ 10); [lia|exact Hf|done]].
  apply Z.bits_inj. intros i. rewrite Z.lor_spec. unfold PTE_FLAGS. rewrite Z.land_spec.
  destruct (decide (i = 0)) as [->|Hi].
  - unfold pte_test in Hv. change PTE_V with (Z.ones 1) in Hv. rewrite Z.land_ones in Hv by lia. change (2 ^ 1) with 2 in Hv.
    rewrite Z.bit0_odd, Zodd_mod. change (Z.testbit PTE_V 0) with true. change (Z.testbit 1023 0) with true.
    rewrite orb_true_r, andb_true_r. symmetry. apply Z.eqb_eq. pose proof (Z.mod_pos_bound e 2). lia.
  - replace (Z.testbit PTE_V i) with false; [apply orb_false_r|]. symmetry. change PTE_V with (2 ^ 0). destruct (decide (0 <= i)).
    + by apply Z.pow2_bits_false.
    + apply Z.testbit_neg_r. lia.
Qed.

(** Looking up a PTE, as [uvmcopy] does. *)
Lemma read_pte {A} root va (absent : M vmst A) (present : Z -> M vmst A) t s :
  va < MAXVA ->
  (let* pte := walk root va false in
   if pte =? 0 then absent
   else let* e := read64 pte in if negb (pte_test e PTE_V) then absent else present e) t s =
  (if pte_test (pt s root va) PTE_V then present (pt s root va) else absent) t s.
Proof.
  intros Hva. kstep (walk_pure root va t s Hva). unfold pt, pte_of.
  destruct (pure_walk (phys s) 2 root va =? 0); [reflexivity|].
  unfold bind at 1, read64, gets. cbn [obind]. by destruct (pte_test (load64 _ _) PTE_V).
Qed.

(** What happens to [new] and the free list does not touch [old]. *)
Lemma parent_kept s s' old new top po pn l :
  same_off (pn ++ l) (phys s) (phys s') -> vm_inv s new pn l ->
  ptree (phys s) 2 old po -> Forall valid_page po -> NoDup (po ++ pn ++ l) ->
  (forall va, 0 <= va < top -> pte_test (pt s old va) PTE_V = true ->
     valid_page (PTE2PA (pt s old va)) /\ PTE2PA (pt s old va) ∉ pn ++ l) ->
  (forall va, pt s' old va = pt s old va) /\
  forall va, 0 <= va < top -> pte_test (pt s old va) PTE_V = true -> umem s' old va = umem s old va.
Proof.
  intros Ho Hinv Htree Hpo Hdis Huser. assert (Hpt : forall va, pt s' old va = pt s old va).
  { intros va. eapply pte_of_same; [|exact Htree]. apply (same_off_on (pn ++ l) po); [exact Ho|by eapply vm_inv_valid|exact Hpo|].
    rewrite (Permutation_app_comm (pn ++ l)). exact Hdis. }
  split; [exact Hpt|]. intros va Hva Hv. destruct (Huser va Hva Hv) as [Hp1 Hp2]. unfold umem, upa, byte_at. rewrite Hpt. f_equal.
  apply (page_off _ (pn ++ l)); auto; [by eapply vm_inv_valid|apply Hinv|]. apply Z.mod_pos_bound. lia.
Qed.

Lemma uvmcopy_ok old new sz po pn l t s (n := Z.to_nat ((sz + 4095) / 4096)) :
  0 <= sz <= MAXVA -> LKmem ∉ held t -> vm_inv s new pn l ->
  ptree (phys s) 2 old po -> Forall valid_page po -> NoDup (po ++ pn ++ l) ->
  (forall k, (k < n)%nat -> pte_test (pt s old (Z.of_nat k * 4096)) PTE_V = true ->
     valid_page (PTE2PA (pt s old (Z.of_nat k * 4096))) /\ PTE2PA (pt s old (Z.of_nat k * 4096)) ∉ pn ++ l) ->
  (forall k, (k < n)%nat -> pte_test (pt s new (Z.of_nat k * 4096)) PTE_V = false) ->
  (exists s' pn' l' W, uvmcopy old new sz t s = ORet 0 t s' /\ grown new 0 (copy_pages s old) s pn l n s' pn' l' W) \/
  (exists s', uvmcopy old new sz t s = ORet (-1) t s' /\ undone new 0 s pn l n s').
Proof.
  intros Hsz Hlk Hinv Hto Hvo Hdis Huser Hnv.
  assert (Hn : Z.of_nat n = (sz + 4095) / 4096) by (unfold n; rewrite Z2Nat.id; dlia).
  assert (Hhi : 0 + Z.of_nat n * 4096 <= MAXVA) by (change MAXVA with (67108864 * 4096) in *; dlia).
  unfold uvmcopy. apply (grow_loop new 0 (copy_pages s old) s pn l n Hinv); [| |unfold PGSIZE; dlia].
  - intros j s1 ps1 l1 W Hj G. rewrite (proj2 (Z.ltb_lt _ _)) by dlia. rewrite read_pte by lia.
    assert (Hold : forall va, pt s1 old va = pt s old va).
    { apply (parent_kept s s1 old new 0 po pn l); auto; [apply G|]. intros; lia. }
    rewrite Hold, Z.add_0_l. set (e := pt s old (Z.of_nat j * 4096)).
    destruct (pte_test e PTE_V) eqn:Ev.
    + destruct (Huser j Hj Ev) as [Hpv Hpn]. fold e in Hpv, Hpn.
      destruct (grow_step new 0 (copy_pages s old) s pn l n ltac:(done) ltac:(lia) Hhi Hinv Hnv
        j s1 ps1 l1 W (PTE_FLAGS e) (fun o => phys s (PTE2PA e + o)) (fun m => mmove m (PTE2PA e) PGSIZE)
        (uvmunmap new 0 (Z.of_nat j * 4096 / PGSIZE) true ;; ret (inr (-1))) (-1) t)
        as [(s' & ps' & l' & W' & E & G')|(s' & E & Hu)]; auto.
      * unfold copy_pages. fold e. by rewrite Ev.
      * unfold PTE_FLAGS. change 1023 with (Z.ones 10). rewrite Z.land_ones by lia. apply Z.mod_pos_bound. lia.
      * intros m mm x Hx. apply mmove_out. intros Hin. apply Hx. exists m. split; [by left|exact Hin].
      * intros r mm o Hr Hmm Ho. rewrite mmove_in by klia. replace (r + o - r + PTE2PA e) with (PTE2PA e + o) by lia.
        assert (Hrv : valid_page r) by (eapply Forall_elem; [by eapply vm_inv_valid|exact Hr]).
        rewrite (page_off (PTE2PA e) [r] (phys s1) mm), (page_off (PTE2PA e) (pn ++ l) (phys s) (phys s1)); auto;
          [apply G|by eapply vm_inv_valid|apply Hinv|repeat constructor; set_solver|].
        intros Hin. apply list_elem_of_singleton in Hin. congruence.
      * intros s2 s3 E. replace (Z.of_nat j * 4096 / PGSIZE) with (Z.of_nat j) by (unfold PGSIZE; dlia). kstep E. reflexivity.
      * left. exists s', ps', l', W'. split; [|exact G']. rewrite ?Z.add_0_l; rewrite !Z.add_0_l in E. eapply meq_ret; [|exact E].
        apply (new_page_meq new _ _ (fun m => mmove m (PTE2PA e) PGSIZE)).
      * right. exists s'. split; [|exact Hu]. rewrite ?Z.add_0_l; rewrite !Z.add_0_l in E. eapply meq_ret; [|exact E].
        apply (new_page_meq new _ _ (fun m => mmove m (PTE2PA e) PGSIZE)).
    + left. exists s1, ps1, l1, W. split.
      * unfold ret. do 2 f_equal. rewrite u64_small by klia. unfold PGSIZE. lia.
      * apply (grown_skip new 0 (copy_pages s old) s pn l n); [done|lia|exact Hhi|exact Hnv|exact Hj| |exact G].
        unfold copy_pages. fold e. by rewrite Ev.
  - intros s1. rewrite (proj2 (Z.ltb_ge _ _)) by dlia. reflexivity.
Qed.
End VmGrow.
