(* ===== verification/VmSpec.v ===== *)
(** * What the virtual memory system promises

    The theorems about kernel/vm.c and the page-table part of kernel/proc.c
    that the rest of the kernel relies on, each with an instance on a small
    machine. *)

From S2P Require Import Prelude Kmonad Mem Riscv Kalloc Vm PageTable VmWalk VmFree VmUser VmProc VmGrow.

Section VmSpec.
Context {L : LinkMap} (HL : LinkMapOk).

(** C26: [mappages] installs exactly the mapping it was asked for.  On a range
    of [n] unmapped pages it never panics; it returns 0 with the PTEs of the
    range pointing to consecutive physical pages with the given permissions,
    or -1 when memory ran out, having mapped a prefix [k < n] of the range.
    All other PTEs stay as they were, and pages move only between the free
    list and the table, so none is lost. *)
Theorem mappages_spec root va n pa perm ps l t s
    (Hn : 0 < n) (Hal : va mod 4096 = 0) (H0 : 0 <= va) (Hhi : va + n * 4096 <= MAXVA)
    (Hpa : 0 <= pa /\ pa + n * 4096 <= 2 ^ 56) (Hperm : 0 <= perm < 1024)
    (Hinv : vm_inv s root ps l) (Hlk : LKmem ∉ held t)
    (Hfree : forall va', va <= va' < va + n * 4096 -> pte_test (pt s root va') PTE_V = false) :
  exists r k s' ps' l', mappages root va (n * 4096) pa perm t s = ORet r t s' /\
    vm_inv s' root ps' l' /\ ps' ++ l' ≡ₚ ps ++ l /\
    (forall va', 0 <= va' < SV39 ->
       pt s' root va' =
       if decide (va <= va' < va + k * 4096)
       then Z.lor (Z.lor (PA2PTE (pa + (va' - va) / 4096 * 4096)) perm) PTE_V
       else pt s root va') /\
    ((r = 0 /\ k = n) \/ (r = -1 /\ 0 <= k < n /\ l' = [])).
Proof.
  destruct (mappages_ok root va n pa perm ps l t s) as (r & k & s' & ps' & l' & E & (Hi & Hp & _) & Hm & Hr);
    try tauto; try lia.
  exists r, k, s', ps', l'. auto.
Qed.

(** [uvmunmap] clears the valid PTEs of its range and no other PTE, and
    with [do_free] puts the pages they mapped on the free list, each once.
    Pages of the range that are not mapped are skipped. *)
Theorem uvmunmap_spec root va n do_free ps l t s
    (Hal : va mod 4096 = 0) (H0 : 0 <= va) (Hhi : va + Z.of_nat n * 4096 <= MAXVA)
    (Hinv : vm_inv s root ps l) (Hlk : LKmem ∉ held t)
    (Hval : Forall valid_page (if do_free : bool then mapped_pages s root va n else []))
    (Hdis : NoDup ((if do_free then mapped_pages s root va n else []) ++ ps ++ l)) :
  exists s', uvmunmap root va (Z.of_nat n) do_free t s = ORet tt t s' /\
    vm_inv s' root ps (rev (if do_free then mapped_pages s root va n else []) ++ l) /\
    forall va', 0 <= va' < SV39 ->
      pt s' root va' =
      if decide (va <= va' < va + Z.of_nat n * 4096)
      then (if pte_test (pt s root va') PTE_V then 0 else pt s root va') else pt s root va'.
Proof.
  destruct (uvmunmap_ok root va n do_free ps l t s) as (s' & E & Hi & _ & Hp); auto.
  exists s'. auto.
Qed.

(** creating a process page table either yields a table that maps the
    trampoline (readable, executable) and the trapframe (readable, writable)
    and nothing else, or returns 0 with every page it had taken back on the
    free list.  Freeing the new table restores the free pages exactly: neither
    path leaks a page or frees one twice. *)
Theorem proc_pagetable_spec tf t s l
    (Hk : kmem_inv s l) (Hlk : LKmem ∉ held t) (Htf : valid_page tf) :
  exists r s' ps l', proc_pagetable tf t s = ORet r t s' /\ ps ++ l' ≡ₚ l /\
    ((r = 0 /\ ps = [] /\ kmem_inv s' l') \/
     (r <> 0 /\ vm_inv s' r ps l' /\
      (forall va, 0 <= va < SV39 -> pt s' r va = bare_pt tf va) /\
      exists s2 l2, proc_freepagetable r 0 t s' = ORet tt t s2 /\ kmem_inv s2 l2 /\ l2 ≡ₚ l)).
Proof.
  pose proof (valid_page_pos tf Htf) as Hp. destruct Htf as [_ Htf].
  destruct (proc_pagetable_ok tf t s l) as (r & s' & ps & l' & E & Hperm & Hr); auto.
  { destruct HL. change (2 ^ 56 - 4096) with 72057594037923840. klia. }
  exists r, s', ps, l'. split; [exact E|]. split; [exact Hperm|].
  destruct Hr as [?|(Hr & Hi & Hpt)]; [by left|right]. split; [auto|]. split; [auto|]. split; [auto|].
  destruct (proc_freepagetable_ok r 0 0 ps l' t s') as (s2 & l2 & E2 & Hk2 & Hl2);
    [klia|reflexivity|auto|auto| |constructor|apply Hi|].
  { intros va Hva. rewrite Hpt by auto. unfold bare_pt. repeat case_decide; try discriminate;
      right; kconsts; dlia. }
  exists s2, l2. split; [exact E2|]. split; [auto|]. by rewrite Hl2, <- Hperm.
Qed.

(** C29: [proc_freepagetable] on a table whose valid PTEs are user memory below
    [sz], the trampoline and the trapframe returns all pages of the table and
    all pages of user memory to the free list, each exactly once, and never
    reaches the panic of [freewalk] on a leaf. *)
Theorem proc_freepagetable_spec root sz n ps l t s
    (Hsz : 0 <= sz <= TRAPFRAME) (Hn : PGROUNDUP sz = Z.of_nat n * 4096)
    (Hinv : vm_inv s root ps l) (Hlk : LKmem ∉ held t)
    (Honly : forall va, 0 <= va < SV39 -> pte_test (pt s root va) PTE_V = true ->
       va < PGROUNDUP sz \/ TRAPFRAME <= va < MAXVA)
    (Hval : Forall valid_page (mapped_pages s root 0 n))
    (Hdis : NoDup (mapped_pages s root 0 n ++ ps ++ l)) :
  exists s' l', proc_freepagetable root sz t s = ORet tt t s' /\ kmem_inv s' l' /\
    l' ≡ₚ mapped_pages s root 0 n ++ ps ++ l.
Proof. apply proc_freepagetable_ok; auto. Qed.

(** C6: [copyout] into writable user memory stores exactly the given bytes at
    the user addresses of its range, across page boundaries: every other user
    byte, every PTE and the free list are unchanged, and the call returns 0
    after at most one step per byte. *)
Theorem copyout_spec psz ppt root dstva src ps l t s
    (H0 : 0 <= dstva) (Hhi : dstva + Z.of_nat (length src) <= MAXVA)
    (Hinv : vm_inv s root ps l) (Hsp : uspace s root ps l)
    (Hbytes : Forall (fun b => 0 <= b < 256) src)
    (Hok : forall va, dstva <= va < dstva + Z.of_nat (length src) ->
       user_ok (pt s root va) = true /\ pte_test (pt s root va) PTE_W = true) :
  exists s', copyout psz ppt root dstva src t s = ORet 0 t s' /\
    vm_inv s' root ps l /\ (forall va, pt s' root va = pt s root va) /\
    (forall va, 0 <= va < MAXVA -> user_ok (pt s root va) = true ->
       umem s' root va =
       if decide (dstva <= va < dstva + Z.of_nat (length src))
       then default 0 (src !! Z.to_nat (va - dstva)) else umem s root va) /\
    copyin psz ppt root dstva (length src) t s' = ORet (0, src) t s'.
Proof.
  destruct (copyout_ok psz ppt root dstva src ps l t s) as (s' & E & Hi & Hpt & Hw); auto.
  exists s'. split; [exact E|]. split; [auto|]. split; [auto|]. split; [exact Hw|].
  rewrite copyin_ok; auto.
  - do 2 f_equal. apply list_eq. intros i. unfold urange.
    destruct (decide (i < length src)%nat) as [Hl|Hl].
    + rewrite list_lookup_fmap, lookup_seq_lt by auto. simpl. rewrite Hw by (lia || apply Hok; lia).
      rewrite decide_True by lia. replace (Z.to_nat _) with i by lia.
      destruct (lookup_lt_is_Some_2 src i Hl) as [b ->]. reflexivity.
    + rewrite !lookup_ge_None_2; rewrite ?length_map, ?length_seq; lia || auto.
  - intros va Hva. rewrite Hpt. destruct (Hok va) as [Hu _]; [lia|]. split; [auto|].
    destruct (proj1 Hsp va) as [Hv _]; [lia|auto|]. pose proof (valid_page_pos _ Hv). lia.
Qed.

(** [copyin] from readable user memory returns 0 and exactly the bytes a
    user program sees at the addresses of the range, and changes nothing. *)
Theorem copyin_spec psz ppt root srcva len t s
    (H0 : 0 <= srcva) (Hhi : srcva + Z.of_nat len <= MAXVA)
    (Hok : forall va, srcva <= va < srcva + Z.of_nat len ->
       user_ok (pt s root va) = true /\ PTE2PA (pt s root va) <> 0) :
  copyin psz ppt root srcva len t s =
  ORet (0, map (fun i => umem s root (srcva + Z.of_nat i)) (seq 0 len)) t s.
Proof. apply copyin_ok; auto. Qed.

(** C28: [uvmalloc] grows user memory.  From [oldsz] to [newsz], with nothing
    mapped in between, it returns [newsz] and every new page is mapped with
    the given permissions to a page of its own that holds zeroes; or it
    returns 0, the pages in between are unmapped again and no page is lost.
    Other PTEs and other memory stay as they were. *)
Theorem uvmalloc_spec root oldsz newsz xperm ps l t s
    (Hsz : 0 <= oldsz <= newsz) (Hmax : newsz <= MAXVA) (Hx : 0 <= xperm < 1024)
    (Hinv : vm_inv s root ps l) (Hlk : LKmem ∉ held t)
    (Hfree : forall va, PGROUNDUP oldsz <= va < PGROUNDUP newsz -> pte_test (pt s root va) PTE_V = false) :
  exists r s' ps' l' W, uvmalloc root oldsz newsz xperm t s = ORet r t s' /\
    vm_inv s' root ps' l' /\ W ++ ps' ++ l' ≡ₚ ps ++ l /\ same_off (ps ++ l) (phys s) (phys s') /\
    (forall va, 0 <= va < SV39 -> ~ (PGROUNDUP oldsz <= va < PGROUNDUP newsz) -> pt s' root va = pt s root va) /\
    ((r = newsz /\
      mapped_pages s' root (PGROUNDUP oldsz) (Z.to_nat ((PGROUNDUP newsz - PGROUNDUP oldsz) / 4096)) = W /\
      forall va, PGROUNDUP oldsz <= va < PGROUNDUP newsz -> exists m, m ∈ W /\
        pt s' root va = leaf_pte m (Z.lor (Z.lor PTE_R PTE_U) xperm) /\ umem s' root va = 0) \/
     (r = 0 /\ W = [] /\
      forall va, PGROUNDUP oldsz <= va < PGROUNDUP newsz -> pte_test (pt s' root va) PTE_V = false)).
Proof.
  set (start := PGROUNDUP oldsz) in *. set (n := Z.to_nat ((PGROUNDUP newsz - start) / 4096)).
  assert (Hperm : 0 <= Z.lor (Z.lor PTE_R PTE_U) xperm < 1024) by (apply (lor_bound _ _ 10); [lia|done|exact Hx]).
  destruct (grow_bounds oldsz newsz Hsz Hmax) as (Hal & H0 & Hhi & Hend). fold start n in Hal, H0, Hhi, Hend.
  destruct (uvmalloc_ok HL root oldsz newsz xperm ps l t s) as [(s' & ps' & l' & W & E & G)|(s' & E & Hu)]; auto.
  { fold start n. intros k Hk. apply Hfree. lia. }
  - exists newsz, s', ps', l', W. fold start n in G. rewrite Hend. pose proof (gr_inv _ _ _ _ _ _ _ _ _ _ _ G) as Hi'.
    split; [exact E|]. split; [exact Hi'|]. split; [apply G|]. split; [apply G|]. split; [apply G|]. left.
    split; [reflexivity|]. split; [apply G|]. intros va Hva.
    assert (Hg : exists m, m ∈ W /\ pt s' root va = leaf_pte m (Z.lor (Z.lor PTE_R PTE_U) xperm) /\ phys s' (m + va mod 4096) = 0)
      by (eapply (grown_va root start (zero_pages xperm)); eauto).
    destruct Hg as (m & Hm & Hpt & Hf).
    exists m. split; [exact Hm|]. split; [exact Hpt|]. unfold umem, upa. rewrite Hpt.
    assert (Hmv : valid_page m) by (eapply (grown_page _ _ _ _ _ _ Hinv); eauto).
    destruct (valid_page_pos m Hmv) as (? & ? & ?). rewrite leaf_pte_pa by (auto; lia). unfold byte_at. by rewrite Hf.
  - destruct Hu as (ps' & l' & Hi' & Hp & Ho & Hnv & Hold). fold start n in Hnv, Hold. exists 0, s', ps', l', []. rewrite Hend.
    split; [exact E|]. split; [exact Hi'|]. split; [exact Hp|]. split; [exact Ho|]. split; [exact Hold|]. right.
    split; [reflexivity|]. split; [reflexivity|]. intros va Hva.
    rewrite (pt_same_page s' root va (start + Z.of_nat (Z.to_nat ((va - start) / 4096)) * 4096)) by dlia. apply Hnv. dlia.
Qed.

(** C27: [uvmcopy] copies the memory of a process.  The parent's table [old]
    and its pages are not part of the child's table [new] or of the free list.
    [uvmcopy] returns 0 and every mapped page of the parent is mapped in the
    child at the same address with the same flags, to a page of its own with
    the same bytes, and the other pages of the child stay unmapped; or it
    returns -1, the child maps nothing and no page is lost.  The parent's
    table and memory do not change. *)
Theorem uvmcopy_spec old new sz po pn l t s
    (Hsz : 0 <= sz <= MAXVA) (Hlk : LKmem ∉ held t) (Hinv : vm_inv s new pn l)
    (Htree : ptree (phys s) 2 old po) (Hpo : Forall valid_page po) (Hdis : NoDup (po ++ pn ++ l))
    (Huser : forall va, 0 <= va < PGROUNDUP sz -> pte_test (pt s old va) PTE_V = true ->
       valid_page (PTE2PA (pt s old va)) /\ PTE2PA (pt s old va) ∉ pn ++ l)
    (Hnew : forall va, 0 <= va < PGROUNDUP sz -> pte_test (pt s new va) PTE_V = false) :
  exists r s' pn' l' W, uvmcopy old new sz t s = ORet r t s' /\
    vm_inv s' new pn' l' /\ W ++ pn' ++ l' ≡ₚ pn ++ l /\
    (forall va, pt s' old va = pt s old va) /\
    (forall va, 0 <= va < PGROUNDUP sz -> pte_test (pt s old va) PTE_V = true -> umem s' old va = umem s old va) /\
    (forall va, PGROUNDUP sz <= va < SV39 -> pt s' new va = pt s new va) /\
    ((r = 0 /\ forall va, 0 <= va < PGROUNDUP sz ->
        if pte_test (pt s old va) PTE_V
        then PTE_FLAGS (pt s' new va) = PTE_FLAGS (pt s old va) /\ PTE2PA (pt s' new va) ∈ W /\
             umem s' new va = umem s old va
        else pte_test (pt s' new va) PTE_V = false) \/
     (r = -1 /\ W = [] /\ forall va, 0 <= va < PGROUNDUP sz -> pte_test (pt s' new va) PTE_V = false)).
Proof.
  set (n := Z.to_nat ((sz + 4095) / 4096)).
  assert (Hup : PGROUNDUP sz = Z.of_nat n * 4096) by (rewrite PGROUNDUP_eq by klia; unfold n; dlia). rewrite Hup in *.
  assert (Hhi : 0 + Z.of_nat n * 4096 <= MAXVA) by (change MAXVA with (67108864 * 4096) in *; unfold n; dlia).
  assert (Hkeep := fun s' Ho => parent_kept s s' old new (Z.of_nat n * 4096) po pn l Ho Hinv Htree Hpo Hdis Huser).
  destruct (uvmcopy_ok HL old new sz po pn l t s) as [(s' & pn' & l' & W & E & G)|(s' & E & Hu)]; auto.
  { fold n. intros k Hk Hv. apply Huser; [lia|exact Hv]. }
  { fold n. intros k Hk. apply Hnew. lia. }
  - fold n in G. destruct (Hkeep s' (gr_off _ _ _ _ _ _ _ _ _ _ _ G)) as [K1 K2]. exists 0, s', pn', l', W.
    split; [exact E|]. split; [apply G|]. split; [apply G|]. split; [exact K1|]. split; [exact K2|].
    split; [intros va Hva; apply G; [klia|lia]|]. left. split; [reflexivity|]. intros va Hva.
    assert (Hg := grown_va new 0 (copy_pages s old) s pn l n eq_refl n s' pn' l' W va G (le_n n) Hva).
    unfold copy_pages in Hg. rewrite Z.sub_0_r, (pt_same_page s old _ va) in Hg by dlia.
    destruct (pte_test (pt s old va) PTE_V) eqn:Ev; [|rewrite Hg; by apply Hnew].
    destruct Hg as (m & Hm & Hpt & Hf). assert (Hmv : valid_page m) by (eapply (grown_page _ _ _ _ _ _ Hinv); eauto).
    assert (Hpa : PTE2PA (pt s' new va) = m).
    { rewrite Hpt. destruct (valid_page_pos m Hmv) as (? & ? & ?). apply leaf_pte_pa; [lia|auto|].
      unfold PTE_FLAGS. change 1023 with (Z.ones 10). rewrite Z.land_ones by lia. apply Z.mod_pos_bound. lia. }
    unfold umem, upa. rewrite Hpa. split; [rewrite Hpt; by apply leaf_pte_flags|]. split; [exact Hm|]. unfold byte_at. by rewrite Hf.
  - destruct Hu as (ps' & l' & Hi' & Hp & Ho & Hnv & Hold). fold n in Hnv, Hold. destruct (Hkeep s' Ho) as [K1 K2].
    exists (-1), s', ps', l', []. split; [exact E|]. split; [exact Hi'|]. split; [exact Hp|]. split; [exact K1|]. split; [exact K2|].
    split; [intros va Hva; apply Hold; [klia|lia]|]. right. split; [reflexivity|]. split; [reflexivity|]. intros va Hva.
    rewrite (pt_same_page s' new va (0 + Z.of_nat (Z.to_nat (va / 4096)) * 4096)) by dlia. apply Hnv. dlia.
Qed.

End VmSpec.

(** ** A small machine

    Sixteen pages of memory are left to the allocator ([demo_link]).  [PA 3]
    is an empty page table, [PA 1] and [PA 2] are free, [PA 4] is some other
    allocated page. *)
Definition PA (i : Z) : Z := PHYSTOP - 16 * PGSIZE + i * PGSIZE.

Definition demo_state : vmst := Vmst (store64 (PA 1) (PA 2) (fun _ => 0)) (PA 1).

(** [NoDup] and non-membership of concrete pages. *)
Ltac distinct_pages :=
  (apply NoDup_occ; intros ?) || apply not_elem_occ;
  autorewrite with occ; unfold one, PA; repeat destruct (Z.eq_dec _ _); klia.

#[local] Existing Instance demo_link.
#[local] Existing Instance demo_link_ok.

Lemma PA_valid i : 0 <= i < 16 -> valid_page (PA i).
Proof. intros Hi. unfold valid_page, PA. unfold sym_end. simpl. kconsts. dlia. Qed.

Lemma demo_inv : vm_inv demo_state (PA 3) [PA 3] [PA 1; PA 2] /\
  forall va, pt demo_state (PA 3) va = 0.
Proof.
  destruct (ptree_zero (phys demo_state) 2 (PA 3)) as [Ht Hp].
  { intros x Hx. unfold demo_state. simpl. apply mstore_out. unfold PA in *. klia. }
  split; [|exact Hp]. split; [exact Ht|]. split; [|split].
  - split; [|split].
    + split; [reflexivity|]. split; [discriminate|]. split; [reflexivity|].
      split; [discriminate|]. reflexivity.
    + distinct_pages.
    + repeat constructor; apply PA_valid; lia.
  - distinct_pages.
  - repeat constructor; apply PA_valid; lia.
Qed.

(** The machine with [PA 4] mapped at address 0, as [mappages] leaves it. *)
Definition demo_map : out vmst Z :=
  mappages (PA 3) 0 PGSIZE (PA 4) (Z.lor (Z.lor PTE_W PTE_U) PTE_R) thread0 demo_state.
Definition demo_mapped : vmst :=
  match demo_map with ORet _ _ s => s | _ => demo_state end.

Lemma demo_mapped_inv : exists ps l,
  vm_inv demo_mapped (PA 3) ps l /\ ps ++ l ≡ₚ [PA 3; PA 1; PA 2] /\
  (forall va, 0 <= va < SV39 ->
    pt demo_mapped (PA 3) va =
    if decide (0 = va / 4096) then leaf_pte (PA 4) (Z.lor (Z.lor PTE_W PTE_U) PTE_R) else 0) /\
  same_off [PA 3; PA 1; PA 2] (phys demo_state) (phys demo_mapped).
Proof.
  destruct demo_inv as [Hi Hp].
  destruct (map_one (PA 3) 0 (PA 4) (Z.lor (Z.lor PTE_W PTE_U) PTE_R) [PA 3] [PA 1; PA 2]
    thread0 demo_state) as (r & s' & ps & l & E & (Hi' & Hperm & Ho) & Hr);
    [reflexivity|klia|done|done|auto|apply not_elem_of_nil|rewrite Hp; reflexivity|].
  assert (Er : match demo_map with ORet a _ _ => a | _ => 7 end = 0) by (vm_compute; reflexivity).
  unfold demo_map in Er. rewrite E in Er. subst r.
  unfold demo_mapped, demo_map. rewrite E. exists ps, l. split; [auto|]. split; [exact Hperm|].
  destruct Hr as [[_ Hpt]|[Hr _]]; [|discriminate]. split; [|exact Ho].
  intros va Hva. rewrite Hpt, Hp by auto. reflexivity.
Qed.

Lemma demo_leaf : user_ok (leaf_pte (PA 4) (Z.lor (Z.lor PTE_W PTE_U) PTE_R)) = true /\
  PTE2PA (leaf_pte (PA 4) (Z.lor (Z.lor PTE_W PTE_U) PTE_R)) = PA 4.
Proof. vm_compute. auto. Qed.

Lemma demo_uspace ps l : ps ++ l ≡ₚ [PA 3; PA 1; PA 2] ->
  (forall va, 0 <= va < SV39 ->
    pt demo_mapped (PA 3) va =
    if decide (0 = va / 4096) then leaf_pte (PA 4) (Z.lor (Z.lor PTE_W PTE_U) PTE_R) else 0) ->
  uspace demo_mapped (PA 3) ps l.
Proof.
  intros Hperm Hpt. destruct demo_leaf as [Hu Hpa]. split.
  - intros va Hva. rewrite Hpt by klia. case_decide; [|discriminate]. intros _. rewrite Hpa.
    split; [apply PA_valid; lia|]. rewrite Hperm. distinct_pages.
  - intros va va' Hva Hva'. rewrite !Hpt by klia. repeat case_decide; try discriminate. intros. lia.
Qed.

Lemma demo_user va : 0 <= va < 4096 ->
  (forall va, 0 <= va < SV39 ->
    pt demo_mapped (PA 3) va =
    if decide (0 = va / 4096) then leaf_pte (PA 4) (Z.lor (Z.lor PTE_W PTE_U) PTE_R) else 0) ->
  pt demo_mapped (PA 3) va = leaf_pte (PA 4) (Z.lor (Z.lor PTE_W PTE_U) PTE_R).
Proof. intros Hva Hpt. rewrite Hpt by klia. rewrite decide_True by dlia. reflexivity. Qed.

Lemma mappages_spec_witness : exists r k s' ps' l',
  mappages (PA 3) 8192 (1 * 4096) (PA 4) 22 thread0 demo_state = ORet r thread0 s' /\
  vm_inv s' (PA 3) ps' l' /\ ps' ++ l' ≡ₚ [PA 3; PA 1; PA 2] /\
  (forall va', 0 <= va' < SV39 ->
     pt s' (PA 3) va' =
     if decide (8192 <= va' < 8192 + k * 4096)
     then Z.lor (Z.lor (PA2PTE (PA 4 + (va' - 8192) / 4096 * 4096)) 22) PTE_V
     else pt demo_state (PA 3) va') /\
  ((r = 0 /\ k = 1) \/ (r = -1 /\ 0 <= k < 1 /\ l' = [])).
Proof.
  apply (mappages_spec demo_link_ok (PA 3) 8192 1 (PA 4) 22 [PA 3] [PA 1; PA 2]);
    [lia|reflexivity|lia|klia|done|lia|apply demo_inv|apply not_elem_of_nil|].
  intros va' _. rewrite (proj2 demo_inv). reflexivity.
Defined.

Lemma proc_freepagetable_spec_witness : exists s' l',
  proc_freepagetable (PA 3) 4000 thread0 demo_mapped = ORet tt thread0 s' /\ kmem_inv s' l' /\
  l' ≡ₚ [PA 4; PA 3; PA 1; PA 2].
Proof.
  destruct demo_mapped_inv as (ps & l & Hi & Hperm & Hpt & _).
  assert (Hm : mapped_pages demo_mapped (PA 3) 0 1 = [PA 4]).
  { cbn [mapped_pages]. rewrite demo_user by (auto; lia). reflexivity. }
  destruct (proc_freepagetable_spec demo_link_ok (PA 3) 4000 1 ps l thread0 demo_mapped)
    as (s' & l' & E & Hk & Hl'); [klia|reflexivity|auto|apply not_elem_of_nil| | | |].
  - intros va Hva. rewrite Hpt by auto. case_decide; [|discriminate]. left.
    change (PGROUNDUP 4000) with 4096. dlia.
  - rewrite Hm. repeat constructor; apply PA_valid; lia.
  - rewrite Hm, Hperm. distinct_pages.
  - exists s', l'. rewrite Hm in Hl'. split; [auto|]. split; [auto|]. by rewrite Hl', Hperm.
Defined.

Lemma copyout_spec_witness : exists s',
  copyout 4096 (PA 3) (PA 3) 100 [104; 105] thread0 demo_mapped = ORet 0 thread0 s' /\
  copyin 4096 (PA 3) (PA 3) 100 2 thread0 s' = ORet (0, [104; 105]) thread0 s'.
Proof.
  destruct demo_mapped_inv as (ps & l & Hi & Hperm & Hpt & _).
  destruct (copyout_spec demo_link_ok 4096 (PA 3) (PA 3) 100 [104; 105] ps l thread0 demo_mapped)
    as (s' & E & _ & _ & _ & E2);
    [lia|simpl; klia|auto|by apply demo_uspace|repeat constructor; lia| |exists s'; auto].
  intros va Hva. simpl in Hva. rewrite demo_user by (auto; lia). vm_compute. auto.
Defined.

Lemma uvmalloc_spec_witness : exists r s' ps' l' W,
  uvmalloc (PA 3) 0 4096 PTE_W thread0 demo_state = ORet r thread0 s' /\
  vm_inv s' (PA 3) ps' l' /\ W ++ ps' ++ l' ≡ₚ [PA 3; PA 1; PA 2].
Proof.
  destruct (uvmalloc_spec demo_link_ok (PA 3) 0 4096 PTE_W [PA 3] [PA 1; PA 2] thread0 demo_state)
    as (r & s' & ps' & l' & W & E & Hi & Hp & _);
    [lia|klia|done|apply demo_inv|apply not_elem_of_nil| |exists r, s', ps', l', W; auto].
  intros va _. rewrite (proj2 demo_inv). reflexivity.
Defined.

(** [PA 5] is an empty page table there. *)
Lemma uvmcopy_spec_witness : exists r s' pn' l' l W,
  uvmcopy (PA 3) (PA 5) 4096 thread0 demo_mapped = ORet r thread0 s' /\ vm_inv s' (PA 5) pn' l' /\
  W ++ pn' ++ l' ≡ₚ PA 5 :: l /\ forall va, pt s' (PA 3) va = pt demo_mapped (PA 3) va.
Proof.
  destruct demo_mapped_inv as (ps & l & (Ht & Hk & Hd & Hv) & Hperm & Hpt & Ho).
  assert (H5 : PA 5 ∉ ps ++ l) by (rewrite Hperm; distinct_pages).
  destruct (ptree_zero (phys demo_mapped) 2 (PA 5)) as [Ht5 Hp5].
  { intros x Hx. replace x with (PA 5 + (x - PA 5)) by lia.
    rewrite (page_off (PA 5) [PA 3; PA 1; PA 2] (phys demo_state)); [|exact Ho|apply PA_valid; lia| | | |klia].
    - unfold demo_state. simpl. apply mstore_out. unfold PA in *. klia.
    - repeat constructor; apply PA_valid; lia.
    - distinct_pages.
    - distinct_pages. }
  destruct (uvmcopy_spec demo_link_ok (PA 3) (PA 5) 4096 ps [PA 5] l thread0 demo_mapped)
    as (r & s' & pn' & l' & W & E & Hi & Hp & Hold & _);
    [klia|apply not_elem_of_nil| |exact Ht|exact Hv| | | |exists r, s', pn', l', l, W; auto].
  - split; [exact Ht5|]. split; [exact Hk|]. split; [|constructor; [apply PA_valid; lia|constructor]].
    rewrite elem_of_app in H5. constructor; [tauto|]. by apply NoDup_app in Hd as (_ & _ & ?).
  - rewrite <- (Permutation_middle ps l (PA 5) : PA 5 :: ps ++ l ≡ₚ ps ++ [PA 5] ++ l). by constructor.
  - intros va Hva Hval. change (PGROUNDUP 4096) with 4096 in Hva. rewrite Hpt in Hval by klia. rewrite Hpt by klia. case_decide; [|discriminate]. rewrite (proj2 demo_leaf).
    split; [apply PA_valid; lia|]. simpl.
    assert (H4 : PA 4 ∉ PA 5 :: ps ++ l) by (rewrite Hperm; distinct_pages).
    rewrite elem_of_cons, elem_of_app in H4. rewrite elem_of_cons. tauto.
  - intros va Hva. unfold pt. by rewrite Hp5.
Defined.
