(* ===== verification/Proc.v ===== *)
(** * Processes (kernel/proc.c)

    The process table and the operations of kernel/proc.c that need no file
    system: allocation and release of table entries, [sched], [sleep] and
    [wakeup], [kkill], [kwait], and the copies between user and kernel memory.
    Exec.v adds the operations that also handle open files.

    A process is its index in [proc[]].  The kernel thread of a process gives
    up the CPU only in [sched]; what the other threads do until it runs again
    is left open there. *)

From S2P Require Import Prelude Kmonad Mem Riscv Kalloc Vm.

Inductive procstate := UNUSED | USED | SLEEPING | RUNNABLE | RUNNING | ZOMBIE.
#[global] Instance procstate_eq_dec : EqDecision procstate.
Proof. solve_decision. Defined.

(** [struct context]: [ra], [sp] and the twelve callee-saved registers. *)
Record context := Context { ctx_ra : Z; ctx_sp : Z; ctx_s : list Z }.
Definition zero_context : context := Context 0 0 (replicate 12 0).

(** [struct proc] of kernel/proc.h; its lock is [LProc i]. *)
Record proc := Proc {
  pr_state : procstate;
  pr_chan : chan;
  pr_killed : Z;
  pr_xstate : Z;
  pr_pid : Z;
  pr_parent : option nat;          (* index in proc[], None for 0 *)
  pr_kstack : Z;
  pr_sz : Z;
  pr_pagetable : Z;
  pr_trapframe : Z;
  pr_context : context;
  pr_ofile : list (option nat);    (* indices in ftable.file[] *)
  pr_cwd : option nat;             (* index in itable.inode[] *)
  pr_name : list Z;                (* 16 bytes *)
}.
#[global] Instance eta_proc : Eta proc := fun r =>
  Proc (pr_state r) (pr_chan r) (pr_killed r) (pr_xstate r) (pr_pid r) (pr_parent r) (pr_kstack r)
    (pr_sz r) (pr_pagetable r) (pr_trapframe r) (pr_context r) (pr_ofile r) (pr_cwd r) (pr_name r).

(** An entry of [proc[]] at boot: static storage is zero. *)
Definition zero_proc : proc :=
  Proc UNUSED CNull 0 0 0 None 0 0 0 0 zero_context (replicate NOFILE None) None (replicate 16 0).
#[global] Instance proc_inhabited : Inhabited proc := populate zero_proc.

(** The variables of kernel/proc.c, and the memory below them. *)
Record pst := Pst {
  p_vm : vmst;
  procs : list proc;               (* proc[NPROC] *)
  nextpid : Z;
  initproc : option nat;
}.
#[global] Instance eta_pst : Eta pst := fun r => Pst (p_vm r) (procs r) (nextpid r) (initproc r).

Definition vmL : lens pst vmst := Lens p_vm (fun v s => s <| p_vm := v |>).
Definition invm {A} (m : M vmst A) : M pst A := zoom vmL m.

(** [proc[i]], and a store to one of its fields. *)
Definition getp (i : nat) : M pst proc := gets (fun s => procs s !!! i).
Definition modp (i : nat) (f : proc -> proc) : M pst unit :=
  modify (fun s => s <| procs := <[i := f (procs s !!! i)]> (procs s) |>).

Section Proc.
Context {L : LinkMap}.

Definition procinit : M pst unit :=
  for_each (seq 0 NPROC)
    (fun i => modp i (fun p => p <| pr_state := UNUSED |> <| pr_kstack := KSTACK (Z.of_nat i) |>)).

(** [nextpid] is an [int]. *)
Definition allocpid : M pst Z :=
  acquire LPid ;;
  let* pid := gets nextpid in
  modify (fun s => s <| nextpid := i32 (pid + 1) |>) ;;
  release LPid ;;
  ret pid.

(** [freeproc(p)], [p->lock] held. *)
Definition freeproc (i : nat) : M pst unit :=
  let* p := getp i in
  when (negb (pr_trapframe p =? 0)) (invm (kfree (pr_trapframe p))) ;;
  modp i (fun p => p <| pr_trapframe := 0 |>) ;;
  when (negb (pr_pagetable p =? 0)) (invm (proc_freepagetable (pr_pagetable p) (pr_sz p))) ;;
  modp i (fun p => p <| pr_pagetable := 0 |> <| pr_sz := 0 |> <| pr_pid := 0 |> <| pr_parent := None |>
                     <| pr_name ::= <[0%nat := 0]> |> <| pr_chan := CNull |> <| pr_killed := 0 |>
                     <| pr_xstate := 0 |> <| pr_state := UNUSED |>).

(** The scan of [allocproc]: the first UNUSED entry, with its lock held. *)
Definition find_unused : M pst (option nat) :=
  for_find (seq 0 NPROC)
    (fun i =>
       acquire (LProc i) ;;
       let* p := getp i in
       if decide (pr_state p = UNUSED) then ret (Some i)
       else release (LProc i) ;; ret None).

(** [allocproc()]: a new entry in state USED with [p->lock] held, or 0. *)
Definition allocproc : M pst (option nat) :=
  let* found := find_unused in
  match found with
  | None => ret None
  | Some i =>
      let* pid := allocpid in
      modp i (fun p => p <| pr_pid := pid |> <| pr_state := USED |>) ;;
      let* tf := invm kalloc in
      modp i (fun p => p <| pr_trapframe := tf |>) ;;
      if tf =? 0 then freeproc i ;; release (LProc i) ;; ret None
      else
        let* pt := invm (proc_pagetable tf) in
        modp i (fun p => p <| pr_pagetable := pt |>) ;;
        if pt =? 0 then freeproc i ;; release (LProc i) ;; ret None
        else
          modp i (fun p => p <| pr_context := Context sym_forkret (pr_kstack p + PGSIZE) (replicate 12 0) |>) ;;
          ret (Some i)
  end.

Definition growproc (n : Z) : M pst Z :=
  let* i := myproc in
  let* p := getp i in
  if 0 <? n then
    let* sz := invm (uvmalloc (pr_pagetable p) (pr_sz p) (u64 (pr_sz p + n)) PTE_W) in
    if sz =? 0 then ret (-1) else modp i (fun p => p <| pr_sz := sz |>) ;; ret 0
  else if n <? 0 then
    let* sz := invm (uvmdealloc (pr_pagetable p) (pr_sz p) (u64 (pr_sz p + n))) in
    modp i (fun p => p <| pr_sz := sz |>) ;; ret 0
  else modp i (fun q => q <| pr_sz := pr_sz p |>) ;; ret 0.

(** ** Giving up the CPU *)

(** [sched()].  The depth of [push_off] nesting is the number of locks held:
    [myproc] pops what it pushes.  Interrupts are off while a lock is held
    (Spinlock.v), so the last test cannot fire. *)
Definition sched : M pst unit :=
  let* i := myproc in
  let* h := my_held in
  let* p := getp i in
  if negb (bool_decide (LProc i ∈ h)) then panic "sched p->lock"
  else if negb (length h =? 1)%nat then panic "sched locks"
  else if decide (pr_state p = RUNNING) then panic "sched RUNNING"
  else swtch.

Definition yield : M pst unit :=
  let* i := myproc in
  acquire (LProc i) ;;
  modp i (fun p => p <| pr_state := RUNNABLE |>) ;;
  sched ;;
  release (LProc i).

Definition sleep (c : chan) (lk : lockid) : M pst unit :=
  let* i := myproc in
  acquire (LProc i) ;;
  release lk ;;
  modp i (fun p => p <| pr_chan := c |> <| pr_state := SLEEPING |>) ;;
  sched ;;
  modp i (fun p => p <| pr_chan := CNull |>) ;;
  release (LProc i) ;;
  acquire lk.

Definition wakeup (c : chan) : M pst unit :=
  for_each (seq 0 NPROC)
    (fun i =>
       let* self := curproc in
       when (negb (bool_decide (self = Some i)))
         (acquire (LProc i) ;;
          let* p := getp i in
          when (bool_decide (pr_state p = SLEEPING) && bool_decide (pr_chan p = c))
            (modp i (fun p => p <| pr_state := RUNNABLE |>)) ;;
          release (LProc i))).

(** One pass of the loop of [scheduler()] over the table; whether a process
    was run.  The scheduler thread is suspended in [swtch] while the process
    runs, which comes back holding its lock. *)
Definition scheduler_pass : M pst bool :=
  let step i :=
    acquire (LProc i) ;;
    let* p := getp i in
    let* ran :=
      (if decide (pr_state p = RUNNABLE) then
         modp i (fun p => p <| pr_state := RUNNING |>) ;;
         set_curproc (Some i) ;;
         swtch ;;
         set_curproc None ;;
         ret true
       else ret false) in
    release (LProc i) ;;
    ret ran in
  loop (S NPROC)
    (fun x => let '(i, found) := x in
       if (i <? NPROC)%nat then let* ran := step i in ret (inl (S i, found || ran)) else ret (inr found))
    (O, false).

(** ** Killing and waiting *)

Definition kkill (pid : Z) : M pst Z :=
  let* r := for_find (seq 0 NPROC)
    (fun i =>
       acquire (LProc i) ;;
       let* p := getp i in
       if pr_pid p =? pid then
         modp i (fun p => p <| pr_killed := 1 |>) ;;
         when (bool_decide (pr_state p = SLEEPING)) (modp i (fun p => p <| pr_state := RUNNABLE |>)) ;;
         release (LProc i) ;;
         ret (Some 0)
       else release (LProc i) ;; ret None) in
  ret (default (-1) r).

Definition setkilled (i : nat) : M pst unit :=
  acquire (LProc i) ;;
  modp i (fun p => p <| pr_killed := 1 |>) ;;
  release (LProc i).

Definition killed (i : nat) : M pst Z :=
  acquire (LProc i) ;;
  let* p := getp i in
  release (LProc i) ;;
  ret (pr_killed p).

(** [reparent(p)], [wait_lock] held. *)
Definition reparent (i : nat) : M pst unit :=
  for_each (seq 0 NPROC)
    (fun j =>
       let* pp := getp j in
       when (bool_decide (pr_parent pp = Some i))
         (let* ini := gets initproc in
          modp j (fun p => p <| pr_parent := ini |>) ;;
          wakeup (match ini with Some k => CProc k | None => CNull end))).

(** [copyout] and [copyin] on behalf of the current process. *)
Definition pcopyout (pagetable dstva : Z) (src : list Z) : M pst Z :=
  let* i := myproc in
  let* p := getp i in
  invm (copyout (pr_sz p) (pr_pagetable p) pagetable dstva src).
Definition pcopyin (pagetable srcva : Z) (len : nat) : M pst (Z * list Z) :=
  let* i := myproc in
  let* p := getp i in
  invm (copyin (pr_sz p) (pr_pagetable p) pagetable srcva len).

(** The scan of [kwait] for an exited child: [inl havekids] or the return
    value, with all locks but [wait_lock] released. *)
Definition wait_scan (addr : Z) (i : nat) : M pst (bool + Z) :=
  loop (S NPROC)
    (fun x => let '(j, havekids) := x in
       if (j <? NPROC)%nat then
         let* pp := getp j in
         if decide (pr_parent pp = Some i) then
           acquire (LProc j) ;;
           let* pp := getp j in
           if decide (pr_state pp = ZOMBIE) then
             let* p := getp i in
             let* r := (if negb (addr =? 0)
                        then pcopyout (pr_pagetable p) addr (bytes_at (mstore 4 0 (pr_xstate pp) (fun _ => 0)) 0 4)
                        else ret 0) in
             if r <? 0 then release (LProc j) ;; ret (inr (inr (-1)))
             else freeproc j ;; release (LProc j) ;; ret (inr (inr (pr_pid pp)))
           else release (LProc j) ;; ret (inl (S j, true))
         else ret (inl (S j, havekids))
       else ret (inr (inl havekids)))
    (O, false).

(** [kwait(addr)].  Each turn of the loop sleeps once; [fuel] bounds the
    number of turns. *)
Definition kwait (fuel : nat) (addr : Z) : M pst Z :=
  let* i := myproc in
  acquire LWait ;;
  loop fuel
    (fun _ : unit =>
       let* r := wait_scan addr i in
       match r with
       | inr v => release LWait ;; ret (inr v)
       | inl havekids =>
           let* k := (if havekids then killed i else ret 1) in
           if negb havekids || negb (k =? 0) then release LWait ;; ret (inr (-1))
           else sleep (CProc i) LWait ;; ret (inl tt)
       end)
    tt.

(** ** Copies to and from user or kernel memory *)

(** Where [either_copyout] stores: a user address, a kernel address, or a
    kernel variable of the caller, which gets the bytes as a value. *)
Inductive kdst := DUser (va : Z) | DKern (a : Z) | DVar.

Definition either_copyout (dst : kdst) (src : list Z) : M pst Z :=
  match dst with
  | DUser va =>
      let* i := myproc in
      let* p := getp i in
      invm (copyout (pr_sz p) (pr_pagetable p) (pr_pagetable p) va src)
  | DKern a => invm (modify (on_phys (mwrite a src))) ;; ret 0
  | DVar => ret 0
  end.

(** The source of [either_copyin], likewise. *)
Inductive ksrc := SUser (va : Z) | SKern (a : Z) | SVar (bytes : list Z).

Definition ksrc_shift (src : ksrc) (n : Z) : ksrc :=
  match src with
  | SUser va => SUser (u64 (va + n))
  | SKern a => SKern (u64 (a + n))
  | SVar l => SVar (drop (Z.to_nat n) l)
  end.
Definition kdst_shift (dst : kdst) (n : Z) : kdst :=
  match dst with
  | DUser va => DUser (u64 (va + n))
  | DKern a => DKern (u64 (a + n))
  | DVar => DVar
  end.

Definition either_copyin (src : ksrc) (len : nat) : M pst (Z * list Z) :=
  match src with
  | SUser va =>
      let* i := myproc in
      let* p := getp i in
      invm (copyin (pr_sz p) (pr_pagetable p) (pr_pagetable p) va len)
  | SKern a => invm (gets (fun s => (0, bytes_at (phys s) a len)))
  | SVar l => ret (0, take len l)
  end.

(** [procdump] prints one line per entry in use; its lines, without the
    printing. *)
Definition procdump_line (p : proc) : option (Z * string * list Z) :=
  if decide (pr_state p = UNUSED) then None
  else
    let state := match pr_state p with
      | UNUSED => "unused" | USED => "used" | SLEEPING => "sleep " | RUNNABLE => "runble"
      | RUNNING => "run   " | ZOMBIE => "zombie" end%string in
    Some (pr_pid p, state, pr_name p).

End Proc.
