(* ===== verification/ProcSpec.v ===== *)
(** * What the process table promises

    [wakeup] and [kkill] change exactly the entries they should; [allocproc]
    hands out an unused entry under a fresh pid or leaves nothing behind;
    [sleep] gives the condition lock back and takes it again around the
    switch. *)

From S2P Require Import Prelude Kmonad Mem Riscv Kalloc Vm PageTable VmWalk VmFree VmUser VmProc VmSpec Proc.

(** ** Loops over the table *)

Definition tbl_ok (s : pst) : Prop := length (procs s) = NPROC.

(** The thread holds no lock of a process other than its own. *)
Definition others_free (t : tls) : Prop :=
  forall i, me t <> Some i -> LProc i ∉ held t.

Definition map_procs (f : nat -> proc -> proc) (s : pst) : pst :=
  s <| procs := imap f (procs s) |>.

Lemma insert_imap_step (f : nat -> proc -> proc) (l : list proc) k p :
  l !! k = Some p ->
  <[k := f k p]> (imap (fun i q => if (i <? k)%nat then f i q else q) l) =
  imap (fun i q => if (i <? S k)%nat then f i q else q) l.
Proof.
  intros Hk. apply list_eq. intros i. destruct (decide (i = k)) as [->|Hne].
  - rewrite list_lookup_insert_eq, list_lookup_imap, Hk; simpl.
    + rewrite (proj2 (Nat.ltb_lt k (S k))) by lia. reflexivity.
    + rewrite length_imap. by eapply lookup_lt_Some.
  - rewrite list_lookup_insert_ne, !list_lookup_imap by auto.
    destruct (l !! i); simpl; [|reflexivity]. do 2 f_equal.
    destruct (i <? k)%nat eqn:E1, (i <? S k)%nat eqn:E2; try reflexivity; lia.
Qed.

(** A loop over [proc[]] whose body updates the entry it looks at. *)
Lemma for_each_procs (f : nat -> proc -> proc) body t s :
  tbl_ok s ->
  (forall i s', (i < NPROC)%nat -> tbl_ok s' ->
     body i t s' = ORet tt t (s' <| procs := <[i := f i (procs s' !!! i)]> (procs s') |>)) ->
  for_each (seq 0 NPROC) body t s = ORet tt t (map_procs f s).
Proof.
  intros Hs Hb.
  destruct (for_each_seq (fun k s' => s' = map_procs (fun i q => if (i <? k)%nat then f i q else q) s)
    body t NPROC 0 s) as (s' & E & ->).
  - intros k s' Hk ->. eexists. split; [apply Hb; [lia|unfold tbl_ok; simpl; by rewrite length_imap]|].
    unfold map_procs. simpl. f_equal.
    destruct (lookup_lt_is_Some_2 (procs s) k) as [p Hp]; [rewrite Hs; lia|].
    assert (imap (fun i q => if (i <? k)%nat then f i q else q) (procs s) !!! k = p) as ->.
    { rewrite list_lookup_total_alt, list_lookup_imap, Hp. simpl. by rewrite Nat.ltb_irrefl. }
    by apply insert_imap_step.
  - destruct s as [v l n ini]. unfold map_procs. simpl. f_equal. 
    apply list_eq. intros i. rewrite list_lookup_imap. by destruct (l !! i).
  - rewrite E. unfold map_procs. f_equal. simpl. f_equal. apply list_eq. intros i.
    rewrite !list_lookup_imap. destruct (procs s !! i) eqn:Ei; [|reflexivity]. simpl.
    apply lookup_lt_Some in Ei. rewrite Hs in Ei. by rewrite (proj2 (Nat.ltb_lt i _)).
Qed.

Lemma insert_id_total (l : list proc) i : (i < length l)%nat -> <[i := l !!! i]> l = l.
Proof. intros H. apply list_insert_id. by apply list_lookup_lookup_total_lt. Qed.

(** ** [wakeup] *)

(** What [wakeup(c)] does to an entry. *)
Definition woken (c : chan) (p : proc) : proc :=
  if bool_decide (pr_state p = SLEEPING) && bool_decide (pr_chan p = c)
  then p <| pr_state := RUNNABLE |> else p.

Lemma wakeup_ok c t s :
  tbl_ok s -> others_free t ->
  wakeup c t s = ORet tt t (map_procs (fun i p => if decide (me t = Some i) then p else woken c p) s).
Proof.
  intros Hs Hf. unfold wakeup. apply for_each_procs; [auto|].
  intros i s' Hi Hs'. unfold bind at 1, curproc. cbn [obind].
  case_decide as Hme.
  - rewrite bool_decide_eq_true_2 by auto. cbn [negb when].
    rewrite insert_id_total by (rewrite Hs'; auto). unfold ret. by destruct s'.
  - rewrite bool_decide_eq_false_2 by auto. cbn [negb when].
    erewrite bind_ret by (apply acquire_free; auto).
    unfold bind at 1, getp, gets. cbn [obind]. unfold woken.
    destruct (bool_decide (pr_state _ = SLEEPING) && bool_decide (pr_chan _ = c)); cbn [when];
      unfold bind at 1; unfold modp, modify, ret; cbn [obind]; rewrite release_top, tls_eta; [reflexivity|].
    rewrite insert_id_total by (rewrite Hs'; auto). by destruct s'.
Qed.

(** ** Searches in the table *)

(** A loop over [proc[]] that stops at the first entry satisfying [P]. *)
Lemma for_find_procs {A} (P : proc -> Prop) `{!forall p, Decision (P p)}
    (body : nat -> M pst (option A)) (o : nat -> proc -> out pst (option A)) t s :
  tbl_ok s ->
  (forall i p, procs s !! i = Some p ->
     body i t s = if decide (P p) then o i p else ORet None t s) ->
  (forall i p, procs s !! i = Some p -> P p -> exists a t' s', o i p = ORet (Some a) t' s') ->
  for_find (seq 0 NPROC) body t s =
  match list_find P (procs s) with Some (i, p) => o i p | None => ORet None t s end.
Proof.
  unfold tbl_ok. intros Hs Hb Ho. rewrite <- Hs. clear Hs.
  assert (Hgen : forall l k, (forall i p, l !! i = Some p -> procs s !! (k + i)%nat = Some p) ->
    for_find (seq k (length l)) body t s =
    match list_find P l with Some (i, p) => o (k + i)%nat p | None => ORet None t s end).
  { induction l as [|p l IH]; intros k Hl; simpl; [reflexivity|].
    pose proof (Hl O p eq_refl) as Hp. rewrite Nat.add_0_r in Hp. unfold bind. rewrite (Hb k p Hp).
    case_decide as HP.
    - destruct (Ho k p Hp HP) as (a & t' & s' & E). rewrite E. simpl. rewrite Nat.add_0_r, E. reflexivity.
    - simpl. rewrite IH.
      + destruct (list_find P l) as [[i q]|]; simpl; [|reflexivity]. by rewrite Nat.add_succ_r.
      + intros i q Hi. replace (S k + i)%nat with (k + S i)%nat by lia. by apply Hl. }
  rewrite (Hgen (procs s) O) by auto. destruct (list_find P (procs s)) as [[i p]|]; reflexivity.
Qed.

Lemma lookup_total_eq (l : list proc) i p : l !! i = Some p -> l !!! i = p.
Proof. intros H. by rewrite list_lookup_total_alt, H. Qed.

(** ** [kkill] *)

Definition kill_entry (p : proc) : proc :=
  let p := p <| pr_killed := 1 |> in
  if bool_decide (pr_state p = SLEEPING) then p <| pr_state := RUNNABLE |> else p.

Lemma kkill_ok pid t s :
  tbl_ok s -> (forall i, LProc i ∉ held t) ->
  kkill pid t s =
  match list_find (fun p => pr_pid p = pid) (procs s) with
  | Some (i, p) => ORet 0 t (s <| procs := <[i := kill_entry p]> (procs s) |>)
  | None => ORet (-1) t s
  end.
Proof.
  intros Hs Hf. unfold kkill, bind at 1.
  rewrite (for_find_procs (fun p => pr_pid p = pid) _
    (fun i p => ORet (Some 0) t (s <| procs := <[i := kill_entry p]> (procs s) |>))); [|auto| |eauto].
  - by destruct (list_find _ _) as [[i p]|].
  - intros i p Hp. erewrite bind_ret by (apply acquire_free; auto).
    unfold bind at 1, getp, gets. cbn [obind]. rewrite (lookup_total_eq _ _ _ Hp).
    case_decide as E; [rewrite (proj2 (Z.eqb_eq _ _) E)|rewrite (proj2 (Z.eqb_neq _ _) E)].
    + unfold bind at 1, modp at 1, modify. cbn [obind]. rewrite (lookup_total_eq _ _ _ Hp).
      unfold kill_entry. simpl.
      destruct (bool_decide (pr_state p = SLEEPING)); cbn [when];
        unfold bind at 1, modp, modify, ret at 1; cbn [obind];
        erewrite bind_ret by apply release_top; unfold ret; rewrite tls_eta; [|reflexivity].
      simpl. do 2 f_equal. rewrite list_lookup_total_insert_eq by (by eapply lookup_lt_Some).
      by rewrite list_insert_insert_eq.
    + erewrite bind_ret by apply release_top. unfold ret. by rewrite tls_eta.
Qed.

(** ** [allocproc] *)

Lemma find_unused_ok t s :
  tbl_ok s -> (forall i, LProc i ∉ held t) ->
  find_unused t s =
  match list_find (fun p => pr_state p = UNUSED) (procs s) with
  | Some (i, p) => ORet (Some i) (Tls (LProc i :: held t) (me t)) s
  | None => ORet None t s
  end.
Proof.
  intros Hs Hf. unfold find_unused.
  rewrite (for_find_procs (fun p => pr_state p = UNUSED) _
    (fun i p => ORet (Some i) (Tls (LProc i :: held t) (me t)) s)); [|auto| |eauto].
  - by destruct (list_find _ _) as [[i p]|].
  - intros i p Hp. erewrite bind_ret by (apply acquire_free; auto).
    unfold bind at 1, getp, gets. cbn [obind]. rewrite (lookup_total_eq _ _ _ Hp).
    case_decide; [reflexivity|]. erewrite bind_ret by apply release_top. unfold ret. by rewrite tls_eta.
Qed.

(** [s] with entry [i] replaced, and other values of [nextpid] and memory. *)
Definition with_entry (s : pst) (n : Z) (i : nat) (q : proc) (v : vmst) : pst :=
  Pst v (<[i := q]> (procs s)) n (initproc s).

Lemma modp_entry s n i q v f t :
  (i < length (procs s))%nat ->
  modp i f t (with_entry s n i q v) = ORet tt t (with_entry s n i (f q) v).
Proof.
  intros Hi. unfold modp, modify, with_entry. simpl. f_equal. f_equal.
  rewrite list_lookup_total_insert_eq by auto. by rewrite list_insert_insert_eq.
Qed.

Lemma getp_entry s n i q v t :
  (i < length (procs s))%nat -> getp i t (with_entry s n i q v) = ORet q t (with_entry s n i q v).
Proof.
  intros Hi. unfold getp, gets, with_entry. simpl.
  by rewrite list_lookup_total_insert_eq by auto.
Qed.

Lemma invm_entry {A} (m : M vmst A) s n i q v t a t' v' :
  m t v = ORet a t' v' -> invm m t (with_entry s n i q v) = ORet a t' (with_entry s n i q v').
Proof. intros H. unfold invm. by erewrite zoom_ret by exact H. Qed.

Lemma allocpid_ok t s :
  LPid ∉ held t ->
  allocpid t s = ORet (nextpid s) t (s <| nextpid := i32 (nextpid s + 1) |>).
Proof.
  intros Hf. unfold allocpid. erewrite bind_ret by (apply acquire_free; auto).
  unfold bind at 1, gets. cbn [obind]. unfold bind at 1, modify. cbn [obind].
  erewrite bind_ret by apply release_top. unfold ret. by rewrite tls_eta.
Qed.

(** The entry that [freeproc] leaves. *)
Definition freed_entry (p : proc) : proc :=
  p <| pr_trapframe := 0 |> <| pr_pagetable := 0 |> <| pr_sz := 0 |> <| pr_pid := 0 |>
    <| pr_parent := None |> <| pr_name ::= <[0%nat := 0]> |> <| pr_chan := CNull |> <| pr_killed := 0 |>
    <| pr_xstate := 0 |> <| pr_state := UNUSED |>.

Section Allocproc.
Context {L : LinkMap} {HL : LinkMapOk}.

(** [freeproc] on an entry without page table gives its trapframe back. *)
Lemma freeproc_bare s n i q v l t :
  (i < length (procs s))%nat -> pr_pagetable q = 0 -> kmem_inv v l -> LKmem ∉ held t ->
  pr_trapframe q = 0 \/ valid_page (pr_trapframe q) /\ (pr_trapframe q ∉ l) ->
  exists v' l', freeproc i t (with_entry s n i q v) = ORet tt t (with_entry s n i (freed_entry q) v') /\
    kmem_inv v' l' /\ l' ≡ₚ (if pr_trapframe q =? 0 then [] else [pr_trapframe q]) ++ l.
Proof.
  intros Hi Hpt Hk Hlk Htf.
  assert (Hfree : exists v' l', when (negb (pr_trapframe q =? 0)) (invm (kfree (pr_trapframe q))) t
      (with_entry s n i q v) = ORet tt t (with_entry s n i q v') /\ kmem_inv v' l' /\
      l' ≡ₚ (if pr_trapframe q =? 0 then [] else [pr_trapframe q]) ++ l).
  { destruct (pr_trapframe q =? 0) eqn:E; cbn [negb when]; [exists v, l; auto|].
    destruct Htf as [|[Hv Hn]]; [lia|].
    destruct (kfree_page (pr_trapframe q) t v l) as (v' & Ev & Hk' & _); auto.
    exists v', (pr_trapframe q :: l). split; [by apply invm_entry|]. auto. }
  destruct Hfree as (v' & l' & E & Hk' & Hl'). exists v', l'. split; [|auto].
  unfold freeproc. erewrite bind_ret by (by apply getp_entry). kstep E.
  erewrite bind_ret by (by apply modp_entry). rewrite Hpt, Z.eqb_refl. cbn [negb when].
  unfold bind at 1, ret at 1. cbn [obind]. by rewrite modp_entry.
Qed.

(** The entry of a new process. *)
Definition new_entry (p : proc) (pid tf pt : Z) : proc :=
  p <| pr_pid := pid |> <| pr_state := USED |> <| pr_trapframe := tf |> <| pr_pagetable := pt |>
    <| pr_context := Context sym_forkret (pr_kstack p + PGSIZE) (replicate 12 0) |>.

(** The result of [allocproc] once entry [i], holding [p], was found. *)
Definition alloc_post (s : pst) (t : tls) (l : list Z) (i : nat) (p : proc) (o : out pst (option nat)) : Prop :=
  let n := i32 (nextpid s + 1) in
  (exists v' l', o = ORet None t (with_entry s n i (freed_entry p) v') /\ kmem_inv v' l' /\ l' ≡ₚ l) \/
  (exists tf pt ps v' l',
     o = ORet (Some i) (Tls (LProc i :: held t) (me t)) (with_entry s n i (new_entry p (nextpid s) tf pt) v') /\
     valid_page tf /\ pt <> 0 /\ vm_inv v' pt ps l' /\ tf :: ps ++ l' ≡ₚ l /\
     forall va, 0 <= va < SV39 -> VmWalk.pt v' pt va = bare_pt tf va).

Definition locks_free (t : tls) : Prop :=
  (forall i, LProc i ∉ held t) /\ (LPid ∉ held t) /\ (LKmem ∉ held t).

(** A failed allocation undoes what it did to the entry. *)
Lemma alloc_undo s n i q p v l l0 t :
  (i < length (procs s))%nat -> pr_pagetable q = 0 -> kmem_inv v l -> LKmem ∉ held t ->
  pr_trapframe q = 0 \/ valid_page (pr_trapframe q) /\ (pr_trapframe q ∉ l) ->
  (if pr_trapframe q =? 0 then [] else [pr_trapframe q]) ++ l ≡ₚ l0 ->
  freed_entry q = freed_entry p -> n = i32 (nextpid s + 1) ->
  let t1 := Tls (LProc i :: held t) (me t) in
  alloc_post s t l0 i p ((freeproc i ;; release (LProc i) ;; ret None) t1 (with_entry s n i q v)).
Proof.
  intros Hi Hpt Hk Hlk Htf Hl0 Hq -> t1. left.
  destruct (freeproc_bare s (i32 (nextpid s + 1)) i q v l t1) as (v' & l' & E & Hk' & Hl'); auto.
  { simpl. rewrite elem_of_cons. intros [|]; [discriminate|contradiction]. }
  exists v', l'. kstep E. erewrite bind_ret by apply release_top. unfold ret. rewrite tls_eta, Hq.
  split; [reflexivity|]. split; [auto|]. by rewrite Hl'.
Qed.

Lemma allocproc_ok t s l :
  tbl_ok s -> locks_free t -> kmem_inv (p_vm s) l ->
  match list_find (fun p => pr_state p = UNUSED) (procs s) with
  | None => allocproc t s = ORet None t s
  | Some (i, p) => pr_pagetable p = 0 -> alloc_post s t l i p (allocproc t s)
  end.
Proof.
  intros Hs (Hf & Hpid & Hkm) Hk. pose proof (find_unused_ok t s Hs Hf) as Hfu. unfold allocproc.
  destruct (list_find _ _) as [[i p]|] eqn:Ef; [|by kstep Hfu]. intros Hpt. kstep Hfu.
  apply list_find_Some in Ef as (Hip & _ & _). pose proof (lookup_lt_Some _ _ _ Hip) as Hi.
  set (t1 := Tls (LProc i :: held t) (me t)).
  assert (Ht1 : (LPid ∉ held t1) /\ (LKmem ∉ held t1)).
  { unfold t1. simpl. rewrite !elem_of_cons. split; intros [|]; try discriminate; contradiction. }
  destruct Ht1 as [Hpid1 Hkm1].
  erewrite bind_ret by (apply allocpid_ok; exact Hpid1). cbv beta.
  set (n := i32 (nextpid s + 1)).
  assert (Es : s <| nextpid := n |> = with_entry s n i p (p_vm s)).
  { unfold with_entry. rewrite list_insert_id by auto. by destruct s. }
  rewrite Es. erewrite bind_ret by (by apply modp_entry). cbv beta.
  pose proof (kalloc_inv t1 (p_vm s) l Hk Hkm1) as Hka. destruct l as [|tf l].
  { erewrite bind_ret by (apply invm_entry; exact Hka). cbv beta.
    erewrite bind_ret by (by apply modp_entry). cbv beta. rewrite Z.eqb_refl.
    by apply (alloc_undo s n i _ p _ [] []); auto. }
  destruct Hka as (v1 & Ev1 & Hk1 & Hntf & Hvtf & Htf0 & _).
  erewrite bind_ret by (apply invm_entry; exact Ev1). cbv beta.
  erewrite bind_ret by (by apply modp_entry). cbv beta.
  pose proof (valid_page_pos tf Hvtf) as Hpos.
  destruct (tf =? 0) eqn:E0; [lia|].
  destruct (proc_pagetable_ok tf t1 v1 l) as (r & v2 & ps & l2 & E2 & Hperm & Hr); auto.
  { destruct HL, Hvtf as [_ Hvtf]. change (2 ^ 56 - 4096) with 72057594037923840. klia. }
  erewrite bind_ret by (apply invm_entry; exact E2). cbv beta.
  erewrite bind_ret by (by apply modp_entry). cbv beta.
  destruct Hr as [(-> & -> & Hk2)|(Hr0 & Hi2 & Hpt2)].
  - rewrite Z.eqb_refl. apply (alloc_undo s n i _ p _ l2 (tf :: l)); auto; simpl.
    + right. split; [auto|]. by rewrite <- Hperm in Hntf.
    + rewrite E0. simpl. by rewrite <- Hperm.
  - destruct (r =? 0) eqn:Er; [lia|]. right. exists tf, r, ps, v2, l2.
    erewrite bind_ret by (by apply modp_entry). split; [reflexivity|]. split; [auto|]. split; [auto|].
    split; [auto|]. split; [by rewrite Hperm|exact Hpt2].
Qed.

(** ** The invariant of the table *)

(** Unused entries own nothing; pids in use are below [nextpid] and belong to
    one entry each. *)
Record proc_inv (s : pst) : Prop := ProcInv {
  pi_len : tbl_ok s;
  pi_next : 0 < nextpid s;
  pi_unused : forall i p, procs s !! i = Some p -> pr_state p = UNUSED ->
    pr_pid p = 0 /\ pr_pagetable p = 0 /\ pr_trapframe p = 0 /\ pr_sz p = 0;
  pi_pid : forall i p, procs s !! i = Some p -> pr_state p <> UNUSED -> 0 < pr_pid p < nextpid s;
  pi_unique : forall i j p q, procs s !! i = Some p -> procs s !! j = Some q ->
    pr_state p <> UNUSED -> pr_pid p = pr_pid q -> i = j;
}.

Lemma lookup_entry s n i q v j p :
  (i < length (procs s))%nat -> procs (with_entry s n i q v) !! j = Some p ->
  (j = i /\ p = q) \/ (j <> i /\ procs s !! j = Some p).
Proof.
  intros Hi. simpl. destruct (decide (j = i)) as [->|Hne].
  - rewrite list_lookup_insert_eq by auto. intros [= <-]. auto.
  - rewrite list_lookup_insert_ne by auto. auto.
Qed.

(** Replacing an unused entry by an unused one, or by one with a fresh pid. *)
Lemma proc_inv_entry s i p q v :
  proc_inv s -> procs s !! i = Some p -> pr_state p = UNUSED -> nextpid s < 2147483647 ->
  (if decide (pr_state q = UNUSED)
   then pr_pid q = 0 /\ pr_pagetable q = 0 /\ pr_trapframe q = 0 /\ pr_sz q = 0
   else pr_pid q = nextpid s) ->
  proc_inv (with_entry s (i32 (nextpid s + 1)) i q v).
Proof.
  intros [Hl Hn Hu Hp Hq] Hi Hst Hmax Hnew. pose proof (lookup_lt_Some _ _ _ Hi) as Hlt.
  assert (Hn' : i32 (nextpid s + 1) = nextpid s + 1) by (apply i32_small; lia).
  constructor.
  - unfold tbl_ok. simpl. rewrite length_insert. exact Hl.
  - simpl. lia.
  - intros j r Hr. apply lookup_entry in Hr as [[-> ->]|[Hne Hr]]; [|eauto|auto].
    intros E. by rewrite decide_True in Hnew.
  - intros j r Hr Hs. apply lookup_entry in Hr as [[-> ->]|[Hne Hr]]; simpl; [| |auto].
    + rewrite decide_False in Hnew by auto. lia.
    + specialize (Hp _ _ Hr Hs). lia.
  - intros j k r r' Hr Hr' Hs E.
    apply lookup_entry in Hr as [[-> ->]|[Hne Hr]]; [| |auto];
      apply lookup_entry in Hr' as [[-> ->]|[Hne' Hr']]; auto.
    + rewrite decide_False in Hnew by auto. exfalso.
      destruct (decide (pr_state r' = UNUSED)) as [E'|E'].
      * destruct (Hu _ _ Hr' E'). lia.
      * specialize (Hp _ _ Hr' E'). lia.
    + exfalso. specialize (Hp _ _ Hr Hs). case_decide; lia.
    + eapply Hq; eauto.
Qed.

(** C37: [allocproc] keeps the invariant of the process table.  When it
    succeeds, the entry was unused, is now USED under a pid no other process
    has, its lock is held, and it owns a fresh trapframe page and a page table
    that maps only trampoline and trapframe; all other entries are unchanged.
    When it fails, the lock is released and every page is back on the free
    list. *)
Theorem allocproc_spec t s l
    (Hinv : proc_inv s) (Hmax : nextpid s < 2147483647) (Hlk : locks_free t)
    (Hk : kmem_inv (p_vm s) l) :
  exists r t' s', allocproc t s = ORet r t' s' /\ proc_inv s' /\
    match r with
    | None => t' = t /\ exists l', kmem_inv (p_vm s') l' /\ l' ≡ₚ l
    | Some i => held t' = LProc i :: held t /\
        (forall j, j <> i -> procs s' !! j = procs s !! j) /\
        exists p q ps l', procs s !! i = Some p /\ pr_state p = UNUSED /\
          procs s' !! i = Some q /\ pr_state q = USED /\ pr_pid q = nextpid s /\
          vm_inv (p_vm s') (pr_pagetable q) ps l' /\ pr_trapframe q :: ps ++ l' ≡ₚ l /\
          (forall va, 0 <= va < SV39 ->
             pt (p_vm s') (pr_pagetable q) va = bare_pt (pr_trapframe q) va)
    end.
Proof.
  pose proof (allocproc_ok t s l (pi_len s Hinv) Hlk Hk) as Ha.
  destruct (list_find _ _) as [[i p]|] eqn:Ef.
  2: { exists None, t, s. split; [exact Ha|]. eauto. }
  apply list_find_Some in Ef as (Hip & Hst & _). pose proof (lookup_lt_Some _ _ _ Hip) as Hi.
  destruct (pi_unused s Hinv i p Hip Hst) as (Hpid & Hpt & Htf & Hsz).
  destruct (Ha Hpt) as [(v' & l' & E & Hk' & Hl')|(tf & pt & ps & v' & l' & E & Hv & Hp0 & Hi' & Hl' & Hm)].
  - exists None, t, (with_entry s (i32 (nextpid s + 1)) i (freed_entry p) v').
    split; [exact E|]. split; [|eauto]. eapply proc_inv_entry; eauto. rewrite decide_True by reflexivity. auto.
  - exists (Some i), (Tls (LProc i :: held t) (me t)),
      (with_entry s (i32 (nextpid s + 1)) i (new_entry p (nextpid s) tf pt) v').
    split; [exact E|]. split; [eapply proc_inv_entry; eauto; by rewrite decide_False|].
    split; [reflexivity|]. split; [intros j Hj; simpl; by rewrite list_lookup_insert_ne|].
    exists p, (new_entry p (nextpid s) tf pt), ps, l'. simpl. rewrite list_lookup_insert_eq by auto. auto 10.
Qed.

(** C38: sending a kill to pid 0 reports success and marks an unused entry of
    the process table as killed; the next process that [allocproc] creates in
    that entry is born killed.  ([kkill] compares pids without looking at the
    state, unused entries have pid 0, and [allocproc] does not clear
    [p->killed].) *)
Theorem kkill_zero t s l i p
    (Hinv : proc_inv s) (Hlk : locks_free t) (Hk : kmem_inv (p_vm s) l)
    (Hunused : list_find (fun p => pr_state p = UNUSED) (procs s) = Some (i, p)) :
  exists s1, kkill 0 t s = ORet 0 t s1 /\
    forall j t' s2, allocproc t s1 = ORet (Some j) t' s2 ->
      j = i /\ pr_state (procs s2 !!! i) = USED /\ pr_killed (procs s2 !!! i) = 1.
Proof.
  pose proof Hunused as Hu. apply list_find_Some in Hu as (Hip & Hst & Hbefore).
  pose proof (lookup_lt_Some _ _ _ Hip) as Hi.
  destruct (pi_unused s Hinv i p Hip Hst) as (Hpid & Hpt & _).
  assert (Hf0 : list_find (fun p => pr_pid p = 0) (procs s) = Some (i, p)).
  { apply list_find_Some. split; [auto|]. split; [auto|]. intros j q Hj Hlt Hq.
    pose proof (pi_pid s Hinv j q Hj (Hbefore j q Hj Hlt)). lia. }
  rewrite (kkill_ok 0 t s (pi_len s Hinv)), Hf0 by apply Hlk.
  set (s1 := s <| procs := _ |>). exists s1. split; [reflexivity|].
  assert (Hke : pr_state (kill_entry p) = UNUSED /\ pr_pagetable (kill_entry p) = 0 /\ pr_killed (kill_entry p) = 1).
  { unfold kill_entry. simpl. rewrite bool_decide_eq_false_2 by congruence. auto. }
  destruct Hke as (Hks & Hkp & Hkk).
  assert (Hf1 : list_find (fun p => pr_state p = UNUSED) (procs s1) = Some (i, kill_entry p)).
  { apply list_find_Some. unfold s1. simpl. rewrite list_lookup_insert_eq by auto.
    split; [auto|]. split; [auto|]. intros j q Hj Hlt.
    rewrite list_lookup_insert_ne in Hj by lia. by apply (Hbefore j q). }
  pose proof (allocproc_ok t s1 l) as Ha. rewrite Hf1 in Ha.
  intros j t' s2 E. rewrite E in Ha.
  destruct Ha as [(v' & l' & E' & _)|(tf & pt & ps & v' & l' & E' & _)]; auto;
    [unfold tbl_ok, s1; simpl; rewrite length_insert; apply Hinv|discriminate|].
  injection E' as -> -> ->. simpl. rewrite list_lookup_total_insert_eq; [auto|].
  by rewrite length_insert.
Qed.

End Allocproc.

(** [wakeup(c)] makes runnable exactly the processes that sleep on [c],
    other than the caller, and changes nothing else; it never panics and
    leaves the caller's locks as they were. *)
Theorem wakeup_spec c t s (Hs : tbl_ok s) (Hf : others_free t) :
  exists s', wakeup c t s = ORet tt t s' /\
    p_vm s' = p_vm s /\ nextpid s' = nextpid s /\ initproc s' = initproc s /\
    forall i p, procs s !! i = Some p ->
      procs s' !! i =
      Some (if decide (me t <> Some i /\ pr_state p = SLEEPING /\ pr_chan p = c)
            then p <| pr_state := RUNNABLE |> else p).
Proof.
  rewrite wakeup_ok by auto. eexists. split; [reflexivity|]. repeat (split; [reflexivity|]).
  intros i p Hp. unfold map_procs. simpl. rewrite list_lookup_imap, Hp. simpl. f_equal.
  unfold woken. destruct (decide (me t = Some i)); [rewrite decide_False by tauto; reflexivity|].
  destruct (decide (pr_state p = SLEEPING)), (decide (pr_chan p = c));
    rewrite ?bool_decide_eq_true_2, ?bool_decide_eq_false_2 by auto; simpl;
    repeat case_decide; tauto.
Qed.

(** [kkill(pid)] marks the process with that pid as killed, wakes it if it
    sleeps, and returns 0; when no entry has the pid it returns -1 and changes
    nothing. *)
Theorem kkill_spec pid t s (Hs : tbl_ok s) (Hf : forall i, LProc i ∉ held t) :
  (exists i p, procs s !! i = Some p /\ pr_pid p = pid /\
     kkill pid t s = ORet 0 t (s <| procs := <[i := kill_entry p]> (procs s) |>)) \/
  ((forall i p, procs s !! i = Some p -> pr_pid p <> pid) /\ kkill pid t s = ORet (-1) t s).
Proof.
  rewrite kkill_ok by auto. destruct (list_find _ _) as [[i p]|] eqn:Ef.
  - apply list_find_Some in Ef as (Hi & Hp & _). left. eauto.
  - right. split; [|reflexivity]. intros i p Hi Hp. apply list_find_None in Ef.
    rewrite Forall_lookup in Ef. by apply (Ef i p Hi).
Qed.

Lemma sleep_ok c lk i p t s
    (Hs : tbl_ok s) (Hp : procs s !! i = Some p) (Hme : me t = Some i) (Hheld : held t = [lk])
    (Hlk : lk <> LProc i) :
  exists k, sleep c lk t s =
    OSwtch (s <| procs := <[i := p <| pr_chan := c |> <| pr_state := SLEEPING |>]> (procs s) |>) k /\
    forall s2 q, procs s2 !! i = Some q ->
      k s2 = ORet tt t (s2 <| procs := <[i := q <| pr_chan := CNull |>]> (procs s2) |>).
Proof.
  destruct t as [h m]. simpl in Hme, Hheld. subst h m.
  assert (Hn : LProc i ∉ [lk]) by (rewrite list_elem_of_singleton; congruence).
  unfold sleep, bind at 1, myproc. cbn [me obind].
  erewrite bind_ret by (apply acquire_free; exact Hn). cbv beta. cbn [held me].
  assert (Hrel : forall s0 : pst, release lk (Tls [LProc i; lk] (Some i)) s0 = ORet tt (Tls [LProc i] (Some i)) s0).
  { intros s0. unfold release, holding. cbn [held me remove_lock].
    rewrite bool_decide_eq_true_2 by (right; by left). rewrite decide_False by congruence.
    by rewrite decide_True. }
  erewrite bind_ret by apply Hrel. cbv beta.
  unfold bind at 1, modp at 1, modify. cbn [obind]. rewrite (lookup_total_eq _ _ _ Hp).
  set (s1 := s <| procs := _ |>).
  assert (Hs1 : procs s1 !!! i = p <| pr_chan := c |> <| pr_state := SLEEPING |>).
  { unfold s1. simpl. by rewrite list_lookup_total_insert_eq by (by eapply lookup_lt_Some). }
  unfold bind at 1, sched, bind at 1, myproc. cbn [me obind].
  unfold bind at 1, my_held. cbn [obind held]. unfold bind at 1, getp at 1, gets. cbn [obind].
  rewrite Hs1, bool_decide_eq_true_2 by (by left). cbn [negb length Nat.eqb].
  rewrite decide_False by discriminate. unfold swtch. cbn [obind].
  eexists. split; [reflexivity|]. intros s2 q Hq. cbn [obind].
  unfold bind at 1, modp, modify. cbn [obind]. rewrite (lookup_total_eq _ _ _ Hq).
  erewrite bind_ret by apply release_top. rewrite acquire_free by apply not_elem_of_nil. reflexivity.
Qed.

(** [sleep(c, lk)], called with just the condition lock held, switches away
    with the process marked SLEEPING on [c] (so that a [wakeup] finds it), and
    when it runs again clears the channel and returns holding just [lk],
    whatever the rest of the kernel did in between. *)
Theorem sleep_spec c lk i p t s
    (Hs : tbl_ok s) (Hp : procs s !! i = Some p) (Hme : me t = Some i) (Hheld : held t = [lk])
    (Hlk : lk <> LProc i) :
  exists k, sleep c lk t s =
    OSwtch (s <| procs := <[i := p <| pr_chan := c |> <| pr_state := SLEEPING |>]> (procs s) |>) k /\
    forall s2 q, procs s2 !! i = Some q ->
      k s2 = ORet tt t (s2 <| procs := <[i := q <| pr_chan := CNull |>]> (procs s2) |>).
Proof. by apply sleep_ok. Qed.

(** ** A small process table *)

(** Process 0 runs, process 1 sleeps on the log, the others are unused. *)
Definition demo_procs : list proc :=
  (zero_proc <| pr_state := RUNNING |> <| pr_pid := 1 |>) ::
  (zero_proc <| pr_state := SLEEPING |> <| pr_pid := 2 |> <| pr_chan := CLog |>) ::
  replicate 62 zero_proc.

Definition demo_pst : pst := Pst demo_state demo_procs 3 (Some 0%nat).

Lemma demo_entry i p : demo_procs !! i = Some p ->
  (i = 0%nat /\ pr_state p = RUNNING /\ pr_pid p = 1) \/
  (i = 1%nat /\ pr_state p = SLEEPING /\ pr_pid p = 2) \/ ((2 <= i)%nat /\ p = zero_proc).
Proof.
  destruct i as [|[|i]]; unfold demo_procs; cbn [lookup list_lookup].
  - intros [= <-]. auto.
  - intros [= <-]. auto.
  - intros H. apply lookup_replicate in H as [-> _]. right. right. split; [lia|reflexivity].
Qed.

Lemma demo_proc_inv : proc_inv demo_pst.
Proof.
  constructor; [reflexivity|reflexivity| | |]; unfold demo_pst; cbn [procs nextpid].
  - intros i p Hp. destruct (demo_entry i p Hp) as [(_ & -> & _)|[(_ & -> & _)|[_ ->]]];
      try discriminate. intros _. repeat split.
  - intros i p Hp. destruct (demo_entry i p Hp) as [(_ & _ & ->)|[(_ & _ & ->)|[_ ->]]]; try lia.
    intros H. by contradict H.
  - intros i j p q Hp Hq.
    destruct (demo_entry i p Hp) as [(-> & _ & ->)|[(-> & _ & ->)|[_ ->]]];
      destruct (demo_entry j q Hq) as [(-> & _ & ->)|[(-> & _ & ->)|[_ ->]]];
      simpl; intros; try lia; by contradict H.
Qed.

Lemma demo_locks : locks_free thread0.
Proof. split; [intros i|split]; apply not_elem_of_nil. Qed.

Lemma allocproc_spec_witness : exists r t' s',
  allocproc (L := demo_link) thread0 demo_pst = ORet r t' s' /\ proc_inv s'.
Proof.
  destruct (allocproc_spec (L := demo_link) (HL := demo_link_ok) thread0 demo_pst [PA 1; PA 2])
    as (r & t' & s' & E & Hi & _); [apply demo_proc_inv|reflexivity|apply demo_locks|apply demo_inv|eauto].
Defined.

(** The same table on a machine with sixteen free pages. *)
Definition demo_roomy : pst :=
  Pst (match kinit (L := demo_link) thread0 (Vmst (fun _ => 0) 0) with ORet _ _ v => v | _ => demo_state end)
    demo_procs 3 (Some 0%nat).

Lemma demo_roomy_inv : proc_inv demo_roomy /\ exists l, kmem_inv (L := demo_link) (p_vm demo_roomy) l.
Proof.
  split; [by destruct demo_proc_inv|].
  destruct (kinit_spec (L := demo_link) demo_link_ok thread0 (Vmst (fun _ => 0) 0)) as (v & l & E & Hk & _);
    [reflexivity|apply not_elem_of_nil|]. exists l. unfold demo_roomy. by rewrite E.
Qed.

Lemma kkill_zero_witness : exists s1 t' s2, kkill 0 thread0 demo_roomy = ORet 0 thread0 s1 /\
  allocproc (L := demo_link) thread0 s1 = ORet (Some 2%nat) t' s2 /\
  pr_state (procs s2 !!! 2%nat) = USED /\ pr_killed (procs s2 !!! 2%nat) = 1.
Proof.
  destruct demo_roomy_inv as (Hi & l & Hk).
  destruct (kkill_zero (L := demo_link) (HL := demo_link_ok) thread0 demo_roomy l 2 zero_proc Hi demo_locks Hk eq_refl)
    as (s1 & E & H).
  assert (Ha : match kkill 0 thread0 demo_roomy with
    | ORet _ _ s1 => match allocproc (L := demo_link) thread0 s1 with ORet (Some j) _ _ => j = 2%nat | _ => False end
    | _ => False end) by (vm_compute; reflexivity).
  rewrite E in Ha. destruct (allocproc thread0 s1) as [[j|] t' s2| | |] eqn:E2; try contradiction. subst j.
  exists s1, t', s2. destruct (H 2%nat t' s2 eq_refl) as (_ & H1 & H2). by split_and!.
Defined.

