(* ===== verification/SleepWakeup.v ===== *)
(** * No wakeup is lost (kernel/proc.c: [sleep], [wakeup], [kkill])

    [sleep], [wakeup] and [kkill] run on several CPUs at once.  Here their
    statements are single steps, and any number of processes and interrupt
    handlers take them in any order.  There are as many channels and condition
    locks as one likes; [lkof c] is the lock that the callers use for channel
    [c], and [cond m c] the condition that a process asleep on [c] waits for.
    What the callers do under a condition lock is left open within the
    discipline of the kernel:

    - a process calls [sleep(c, lkof c)] only when it has found the condition
      of [c] false under the lock, as in [while(!cond) sleep(chan, lk);]
    - whoever makes the condition of [c] true holds [lkof c], and calls
      [wakeup(c)] in the same critical section, before the store ([kexit]) or
      after it (all other callers);
    - interrupt handlers do not sleep, and no condition lock is taken while
      another one is held.

    The theorem is the reason for the order of [acquire(&p->lock)] and
    [release(lk)] in [sleep]. *)

From S2P Require Import Prelude Riscv.

(** Who runs kernel code: the kernel thread of process [i]; an interrupt
    handler that interrupted process [i], for which [myproc()] is [i]; a
    handler on CPU [k] while its scheduler runs, for which [myproc()] is 0. *)
Inductive agent := Proc (i : nat) | Intr (i : nat) | Cpu (k : nat).

#[global] Instance agent_eq_dec : EqDecision agent.
Proof. solve_decision. Defined.

(** [myproc()]. *)
Definition me (a : agent) : option nat :=
  match a with Proc i | Intr i => Some i | Cpu _ => None end.

(** Where an agent is.  [W] are the channels it has already woken since it
    acquired the condition lock. *)
Inductive place :=
  | Out                                    (* holding nothing *)
  | Crit (l : nat) (W : list nat)          (* the caller's code, holding condition lock l *)
  | Enter (c : nat)                        (* sleep: before acquire(&p->lock) *)
  | Drop (c : nat)                         (* before release(lk) *)
  | MarkChan (c : nat)                     (* before p->chan = chan *)
  | MarkState (c : nat)                    (* before p->state = SLEEPING *)
  | Sched (c : nat)                        (* in sched, before the scheduler's release(&p->lock) *)
  | Asleep (c : nat)                       (* off the CPU *)
  | Tidy (c : nat)                         (* running again, before p->chan = 0 *)
  | Unlock (c : nat)                       (* before release(&p->lock) *)
  | Want (c : nat)                         (* before acquire(lk) *)
  | WScan (c : nat) (j : nat) (W : list nat)  (* wakeup: at the top of the loop, entry j *)
  | WHold (c : nat) (j : nat) (W : list nat)  (* holding the lock of entry j, before the test *)
  | WRel (c : nat) (j : nat) (W : list nat)   (* before release(&p->lock) *)
  | KScan (p : Z) (j : nat)                (* kkill: at the top of the loop, entry j *)
  | KHold (p : Z) (j : nat)                (* holding the lock of entry j, before the test *)
  | KRel (p : Z) (j : nat) (found : bool). (* before release(&p->lock) *)

Inductive run := Sleeping | Runnable | Running.

#[global] Instance run_eq_dec : EqDecision run.
Proof. solve_decision. Defined.

Record world := World {
  cond : nat -> bool;
  lk : nat -> option agent;      (* who holds condition lock l *)
  plk : nat -> option agent;     (* who holds p->lock of entry i *)
  st : nat -> run;
  chan : nat -> option nat;      (* p->chan *)
  pid : nat -> Z;
  killed : nat -> bool;
  pcs : agent -> place;
}.
#[global] Instance eta_world : Eta world :=
  fun r => World (cond r) (lk r) (plk r) (st r) (chan r) (pid r) (killed r) (pcs r).

Definition put {A B} `{EqDecision A} (i : A) (x : B) (f : A -> B) : A -> B :=
  fun j => if decide (j = i) then x else f j.

(** Interrupts are on only where no spin lock is held; a process does not move
    while a handler that interrupted it runs. *)
Definition interruptible (p : place) : bool :=
  match p with Out | Want _ | KScan _ _ => true | _ => false end.
Definition ready (m : world) (a : agent) : Prop :=
  match a with
  | Proc i => pcs m (Intr i) = Out
  | Intr i => interruptible (pcs m (Proc i)) = true
  | Cpu _ => True
  end.

(** [p->state = RUNNABLE] if it is SLEEPING. *)
Definition rouse (j : nat) (f : nat -> run) : nat -> run :=
  if decide (f j = Sleeping) then put j Runnable f else f.

Section Interleaving.
Context (lkof : nat -> nat).

(** One step of agent [a]. *)
Inductive step (m : world) : agent -> world -> Prop :=
  (* the callers, under a condition lock *)
  | c_acquire a l : ready m a -> pcs m a = Out -> lk m l = None ->
      step m a (m <| lk ::= put l (Some a) |> <| pcs ::= put a (Crit l []) |>)
  | c_release a l W : ready m a -> pcs m a = Crit l W ->
      step m a (m <| lk ::= put l None |> <| pcs ::= put a Out |>)
  | c_clear a l W c : ready m a -> pcs m a = Crit l W -> lkof c = l ->
      step m a (m <| cond ::= put c false |>)
  | c_set_wakeup a l W c : ready m a -> pcs m a = Crit l W -> lkof c = l ->
      step m a (m <| cond ::= put c true |> <| pcs ::= put a (WScan c 0 W) |>)
  | c_wakeup a l W c : ready m a -> pcs m a = Crit l W -> lkof c = l ->
      step m a (m <| pcs ::= put a (WScan c 0 W) |>)
  | c_set_woken a l W c : ready m a -> pcs m a = Crit l W -> lkof c = l -> c ∈ W ->
      step m a (m <| cond ::= put c true |>)
  | c_sleep i l W c : ready m (Proc i) -> pcs m (Proc i) = Crit l W -> lkof c = l -> cond m c = false ->
      step m (Proc i) (m <| pcs ::= put (Proc i) (Enter c) |>)
  (* sleep(chan, lk) *)
  | s_plock i c : ready m (Proc i) -> pcs m (Proc i) = Enter c -> plk m i = None ->
      step m (Proc i) (m <| plk ::= put i (Some (Proc i)) |> <| pcs ::= put (Proc i) (Drop c) |>)
  | s_drop i c : ready m (Proc i) -> pcs m (Proc i) = Drop c ->
      step m (Proc i) (m <| lk ::= put (lkof c) None |> <| pcs ::= put (Proc i) (MarkChan c) |>)
  | s_chan i c : ready m (Proc i) -> pcs m (Proc i) = MarkChan c ->
      step m (Proc i) (m <| chan ::= put i (Some c) |> <| pcs ::= put (Proc i) (MarkState c) |>)
  | s_state i c : ready m (Proc i) -> pcs m (Proc i) = MarkState c ->
      step m (Proc i) (m <| st ::= put i Sleeping |> <| pcs ::= put (Proc i) (Sched c) |>)
  | s_sched i c : ready m (Proc i) -> pcs m (Proc i) = Sched c ->
      step m (Proc i) (m <| plk ::= put i None |> <| pcs ::= put (Proc i) (Asleep c) |>)
  | s_run i c : ready m (Proc i) -> pcs m (Proc i) = Asleep c -> plk m i = None -> st m i = Runnable ->
      step m (Proc i) (m <| plk ::= put i (Some (Proc i)) |> <| st ::= put i Running |>
                         <| pcs ::= put (Proc i) (Tidy c) |>)
  | s_tidy i c : ready m (Proc i) -> pcs m (Proc i) = Tidy c ->
      step m (Proc i) (m <| chan ::= put i None |> <| pcs ::= put (Proc i) (Unlock c) |>)
  | s_unlock i c : ready m (Proc i) -> pcs m (Proc i) = Unlock c ->
      step m (Proc i) (m <| plk ::= put i None |> <| pcs ::= put (Proc i) (Want c) |>)
  | s_reacquire i c : ready m (Proc i) -> pcs m (Proc i) = Want c -> lk m (lkof c) = None ->
      step m (Proc i) (m <| lk ::= put (lkof c) (Some (Proc i)) |> <| pcs ::= put (Proc i) (Crit (lkof c) []) |>)
  (* wakeup(chan) *)
  | w_skip a c j W : ready m a -> pcs m a = WScan c j W -> (j < NPROC)%nat -> me a = Some j ->
      step m a (m <| pcs ::= put a (WScan c (S j) W) |>)
  | w_plock a c j W : ready m a -> pcs m a = WScan c j W -> (j < NPROC)%nat -> me a <> Some j ->
      plk m j = None ->
      step m a (m <| plk ::= put j (Some a) |> <| pcs ::= put a (WHold c j W) |>)
  | w_wake a c j W : ready m a -> pcs m a = WHold c j W ->
      step m a (m <| st ::= (if decide (chan m j = Some c) then rouse j else id) |>
                  <| pcs ::= put a (WRel c j W) |>)
  | w_unlock a c j W : ready m a -> pcs m a = WRel c j W ->
      step m a (m <| plk ::= put j None |> <| pcs ::= put a (WScan c (S j) W) |>)
  | w_done a c W : ready m a -> pcs m a = WScan c NPROC W ->
      step m a (m <| pcs ::= put a (Crit (lkof c) (c :: W)) |>)
  (* kkill(pid) *)
  | k_call a p : ready m a -> pcs m a = Out ->
      step m a (m <| pcs ::= put a (KScan p 0) |>)
  | k_plock a p j : ready m a -> pcs m a = KScan p j -> (j < NPROC)%nat -> plk m j = None ->
      step m a (m <| plk ::= put j (Some a) |> <| pcs ::= put a (KHold p j) |>)
  | k_kill a p j : ready m a -> pcs m a = KHold p j -> pid m j = p ->
      step m a (m <| killed ::= put j true |> <| st ::= rouse j |> <| pcs ::= put a (KRel p j true) |>)
  | k_other a p j : ready m a -> pcs m a = KHold p j -> pid m j <> p ->
      step m a (m <| pcs ::= put a (KRel p j false) |>)
  | k_unlock a p j b : ready m a -> pcs m a = KRel p j b ->
      step m a (m <| plk ::= put j None |> <| pcs ::= put a (if b then Out else KScan p (S j)) |>)
  | k_done a p : ready m a -> pcs m a = KScan p NPROC ->
      step m a (m <| pcs ::= put a Out |>).

(** Every process runs, nothing is locked, no condition holds. *)
Definition start (pids : nat -> Z) : world :=
  World (fun _ => false) (fun _ => None) (fun _ => None) (fun _ => Running) (fun _ => None)
    pids (fun _ => false) (fun _ => Out).

Inductive reachable : world -> Prop :=
  | r_start pids : reachable (start pids)
  | r_step m a m' : reachable m -> step m a m' -> reachable m'.

(** ** The invariant *)

(** The condition lock and the [p->lock] that the place in the code holds. *)
Definition has_lk (p : place) : option nat :=
  match p with
  | Crit l _ => Some l
  | Enter c | Drop c | WScan c _ _ | WHold c _ _ | WRel c _ _ => Some (lkof c)
  | _ => None
  end.
Definition has_plk (a : agent) (p : place) : option nat :=
  match p with
  | Drop _ | MarkChan _ | MarkState _ | Sched _ | Tidy _ | Unlock _ =>
      match a with Proc i => Some i | _ => None end
  | WHold _ j _ | WRel _ j _ | KHold _ j | KRel _ j _ => Some j
  | _ => None
  end.

(** Process [i] is asleep on [c], or past [release(lk)] on its way there. *)
Definition sleepy (m : world) (i c : nat) : Prop :=
  pcs m (Proc i) = MarkChan c \/ pcs m (Proc i) = MarkState c \/ pcs m (Proc i) = Sched c \/
  (pcs m (Proc i) = Asleep c /\ st m i = Sleeping).

(** The next entry that [wakeup(c)] tests. *)
Definition next_entry (p : place) (c : nat) : option nat :=
  match p with
  | WScan d j _ | WHold d j _ => if decide (d = c) then Some j else None
  | WRel d j _ => if decide (d = c) then Some (S j) else None
  | _ => None
  end.

(** The channels woken since the condition lock was acquired. *)
Definition woken (p : place) : list nat :=
  match p with Crit _ W | WScan _ _ W | WHold _ _ W | WRel _ _ W => W | _ => [] end.

Record locks_ok (m : world) : Prop := LocksOk {
  i_lk : forall l a, lk m l = Some a <-> has_lk (pcs m a) = Some l;
  i_plk : forall j a, plk m j = Some a <-> has_plk a (pcs m a) = Some j;
  i_intr : forall i, pcs m (Intr i) <> Out -> interruptible (pcs m (Proc i)) = true;
  i_chan : forall i c, pcs m (Proc i) = MarkState c \/ pcs m (Proc i) = Sched c \/
    pcs m (Proc i) = Asleep c -> chan m i = Some c;
  i_woken_lk : forall a c, c ∈ woken (pcs m a) -> has_lk (pcs m a) = Some (lkof c);
}.

Record inv (m : world) : Prop := Inv {
  i_locks : locks_ok m;
  i_cond : forall a c, pcs m a = Enter c \/ pcs m a = Drop c -> cond m c = false;
  i_scan : forall a c j i, next_entry (pcs m a) c = Some j -> (i < j)%nat -> ~ sleepy m i c;
  i_woken : forall a c i, c ∈ woken (pcs m a) -> (i < NPROC)%nat -> ~ sleepy m i c;
  i_come : forall c i, (i < NPROC)%nat -> cond m c = true -> sleepy m i c ->
    exists a j, next_entry (pcs m a) c = Some j;
}.

(** ** The invariant holds *)

Lemma put_eq {A B} `{EqDecision A} (i : A) (x : B) f : put i x f i = x.
Proof. unfold put. by rewrite decide_True. Qed.
Lemma put_ne {A B} `{EqDecision A} (i j : A) (x : B) f : j <> i -> put i x f j = f j.
Proof. intros. unfold put. by rewrite decide_False. Qed.

(** Split on whether the agent, lock or entry in question is the one that
    changed. *)
Ltac put_case i j :=
  destruct (decide (j = i)); [simplify_eq; rewrite ?put_eq in *|rewrite ?(put_ne i j) in * by congruence].
Ltac put_cases :=
  repeat match goal with
  | H : context [put ?i _ _ ?j] |- _ => put_case i j
  | |- context [put ?i _ _ ?j] => put_case i j
  end.

(** Replace the program counters that the context knows. *)
Ltac use_pcs :=
  repeat match goal with
  | H : pcs ?m ?a = _, G : context [pcs ?m ?a] |- _ =>
      lazymatch G with H => fail | _ => rewrite H in G end
  | H : pcs ?m ?a = _ |- context [pcs ?m ?a] => rewrite H
  end; simpl in *.

(** Both ends of [kkill]'s loop body. *)
Ltac split_if :=
  try match goal with
  | b : bool |- context [if ?b then _ else _] => destruct b
  | b : bool, _ : context [if ?b then _ else _] |- _ => destruct b
  end; simpl in *.

(** A step moves nobody else. *)
Lemma step_frame m a m' b : step m a m' -> b <> a -> pcs m' b = pcs m b.
Proof. intros Hs Hne. destruct Hs; simpl; rewrite ?put_ne by done; reflexivity. Qed.

Lemma rouse_sleeping j f i : rouse j f i = Sleeping -> f i = Sleeping /\ i <> j.
Proof.
  unfold rouse. case_decide as E; [put_cases; [discriminate|done]|].
  intros H. split; [exact H|]. intros ->. contradiction.
Qed.

Lemma lk_step m a m' : locks_ok m -> step m a m' ->
  forall l b, lk m' l = Some b <-> has_lk (pcs m' b) = Some l.
Proof.
  intros [Hlk _ _ _ _] Hs l b. pose proof (Hlk l b) as H1. pose proof (Hlk l a) as H2.
  destruct Hs; try pose proof (Hlk l0 b); try pose proof (Hlk (lkof c) b);
    clear Hlk; simpl in *; put_cases; use_pcs; split_if; intuition congruence.
Qed.

Lemma plk_step m a m' : locks_ok m -> step m a m' ->
  forall j b, plk m' j = Some b <-> has_plk b (pcs m' b) = Some j.
Proof.
  intros [_ Hp _ _ _] Hs l b. pose proof (Hp l b) as H1. pose proof (Hp l a) as H2.
  destruct Hs; try pose proof (Hp j b); try pose proof (Hp i b);
    clear Hp; simpl in *; put_cases; use_pcs; split_if; intuition congruence.
Qed.

Lemma intr_step m a m' : locks_ok m -> step m a m' ->
  forall i, pcs m' (Intr i) <> Out -> interruptible (pcs m' (Proc i)) = true.
Proof.
  intros [_ _ Hi _ _] Hs i. pose proof (Hi i) as H1.
  assert (Hr : ready m a) by (by destruct Hs).
  destruct (decide (a = Proc i)) as [->|N1].
  { simpl in Hr. rewrite (step_frame _ _ _ (Intr i) Hs) by done. intros H. contradiction. }
  rewrite (step_frame _ _ _ (Proc i) Hs) by done.
  destruct (decide (a = Intr i)) as [->|N2]; [intros _; exact Hr|].
  by rewrite (step_frame _ _ _ (Intr i) Hs) by done.
Qed.

Lemma chan_step m a m' : locks_ok m -> step m a m' ->
  forall i c, pcs m' (Proc i) = MarkState c \/ pcs m' (Proc i) = Sched c \/
    pcs m' (Proc i) = Asleep c -> chan m' i = Some c.
Proof.
  intros [_ _ _ Hc _] Hs i c. pose proof (Hc i c) as H1.
  destruct Hs; clear Hc; simpl in *; put_cases; use_pcs; split_if; intuition (simplify_eq; auto).
Qed.

Lemma woken_lk_step m a m' : locks_ok m -> step m a m' ->
  forall b c, c ∈ woken (pcs m' b) -> has_lk (pcs m' b) = Some (lkof c).
Proof.
  intros [_ _ _ _ Hw] Hs b c. pose proof (Hw b c) as H1.
  destruct Hs; clear Hw; simpl in *; put_cases; use_pcs; split_if;
    rewrite ?elem_of_cons, ?elem_of_nil in *; intuition congruence.
Qed.

Lemma locks_step m a m' : locks_ok m -> step m a m' -> locks_ok m'.
Proof.
  intros Hm Hs. constructor.
  - by apply (lk_step m a).
  - by apply (plk_step m a).
  - by apply (intr_step m a).
  - by apply (chan_step m a).
  - by apply (woken_lk_step m a).
Qed.

(** A condition lock has one holder. *)
Lemma lk_one m a b l : locks_ok m -> has_lk (pcs m a) = Some l -> has_lk (pcs m b) = Some l -> a = b.
Proof. intros [Hlk _ _ _ _] Ha%Hlk Hb%Hlk. congruence. Qed.

Lemma next_has_lk p c j : next_entry p c = Some j -> has_lk p = Some (lkof c).
Proof. destruct p; simpl; intros; try discriminate; case_decide; congruence. Qed.

(** The only way to become sleepy is the [release(lk)] of [sleep]. *)
Lemma sleepy_back m a m' i c : step m a m' -> sleepy m' i c ->
  sleepy m i c \/ (a = Proc i /\ pcs m a = Drop c /\ pcs m' a = MarkChan c /\ cond m' c = cond m c).
Proof.
  unfold sleepy. intros Hs.
  destruct Hs; simpl; try (put_cases; use_pcs; split_if; intuition congruence).
  - put_cases; use_pcs; try (intuition congruence). case_decide; [|tauto].
    intros [E|[E|[E|[E Hst]]]]; try tauto. apply rouse_sleeping in Hst as [Hst _]. tauto.
  - put_cases; use_pcs; try (intuition congruence).
    intros [E|[E|[E|[E Hst]]]]; try tauto. apply rouse_sleeping in Hst as [Hst _]. tauto.
Qed.

(** Nobody becomes sleepy on a channel whose lock is another agent's. *)
Lemma sleepy_locked m a m' b i c : locks_ok m -> step m a m' ->
  has_lk (pcs m b) = Some (lkof c) -> has_lk (pcs m' b) = Some (lkof c) -> sleepy m' i c -> sleepy m i c.
Proof.
  intros Hm Hs Hb Hb' Hsl. destruct (sleepy_back _ _ _ _ _ Hs Hsl) as [?|(-> & Hd & Hd' & _)]; [done|].
  assert (b = Proc i) as -> by (eapply lk_one; eauto; by rewrite Hd).
  rewrite Hd' in Hb'. discriminate.
Qed.

Lemma cond_step m a m' : inv m -> step m a m' ->
  forall b c, pcs m' b = Enter c \/ pcs m' b = Drop c -> cond m' c = false.
Proof.
  intros [Hl Hc _ _ _] Hs b c. pose proof (Hc b c) as H1. pose proof (lk_one m a b (lkof c) Hl) as H2.
  destruct Hs; clear Hc; simpl in *; put_cases; use_pcs; split_if; try (intuition congruence).
  1,2: intros E; exfalso; assert (Hb : has_lk (pcs m b) = Some (lkof c0)) by (destruct E as [-> | ->]; reflexivity);
    specialize (H2 eq_refl Hb); subst; use_pcs; intuition congruence.
  intros [E|E]; simplify_eq. auto.
Qed.

(** Entry [j] is not sleepy when [wakeup] passes over it. *)
Lemma passed_self m a c j W :
  ready m a -> pcs m a = WScan c j W -> me a = Some j -> ~ sleepy m j c.
Proof.
  unfold sleepy. intros Hr Hp Hme. destruct a; simplify_eq/=; [intuition congruence|].
  destruct (pcs m (Proc j)); simplify_eq/=; intuition congruence.
Qed.

Lemma passed_tested m a c j W :
  locks_ok m -> pcs m a = WHold c j W ->
  pcs m (Proc j) = MarkChan c \/ pcs m (Proc j) = MarkState c \/ pcs m (Proc j) = Sched c \/
  (pcs m (Proc j) = Asleep c /\ (if decide (chan m j = Some c) then rouse j else id) (st m) j = Sleeping) ->
  False.
Proof.
  intros [_ Hp _ Hc _] Ha Hsl. assert (Hj : plk m j = Some a) by (apply Hp; by rewrite Ha).
  assert (Hno : has_plk (Proc j) (pcs m (Proc j)) <> Some j).
  { intros H%Hp. assert (a = Proc j) as -> by congruence. rewrite Ha in Hsl. intuition congruence. }
  destruct Hsl as [E|[E|[E|[E Hst]]]]; try (rewrite E in Hno; by apply Hno).
  rewrite (Hc j c) in Hst by auto. rewrite decide_True in Hst by done.
  by apply rouse_sleeping in Hst as [_ []].
Qed.

Lemma scan_step m a m' : inv m -> step m a m' ->
  forall b c j i, next_entry (pcs m' b) c = Some j -> (i < j)%nat -> ~ sleepy m' i c.
Proof.
  intros Hi Hs b c j i Hn Hlt Hsl. pose proof (i_locks _ Hi) as Hl.
  assert (Hb' : has_lk (pcs m' b) = Some (lkof c)) by (by eapply next_has_lk).
  assert (Hold : forall j', next_entry (pcs m b) c = Some j' -> sleepy m i c /\ (j' <= i)%nat).
  { intros j' Hj'. assert (Ho : sleepy m i c).
    { eapply (sleepy_locked m a m' b); eauto. by eapply next_has_lk. }
    split; [exact Ho|]. destruct (decide (i < j')%nat) as [E|]; [|lia]. by destruct (i_scan _ Hi b c j' i). }
  destruct (decide (b = a)) as [->|Hne].
  2:{ rewrite (step_frame _ _ _ _ Hs Hne) in Hn. destruct (Hold _ Hn). lia. }
  destruct Hs; simpl in Hn, Hold; rewrite ?put_eq in Hn; use_pcs; try discriminate;
    try (split_if; discriminate); case_decide; simplify_eq; try lia; destruct (Hold _ eq_refl) as [Ho Hle];
    try lia; assert (i = j0) as -> by lia.
  - by eapply passed_self.
  - eapply passed_tested; eauto. revert Hsl. clear Hb'. unfold sleepy. simpl.
    put_cases; [intuition congruence|tauto].
Qed.

Lemma woken_step m a m' : inv m -> step m a m' ->
  forall b c i, c ∈ woken (pcs m' b) -> (i < NPROC)%nat -> ~ sleepy m' i c.
Proof.
  intros Hi Hs b c i Hw Hlt Hsl. pose proof (i_locks _ Hi) as Hl.
  pose proof (i_woken_lk _ (locks_step _ _ _ Hl Hs) b c Hw) as Hb'.
  assert (Hold : c ∈ woken (pcs m b) -> False).
  { intros Hc. destruct (i_woken _ Hi b c i Hc Hlt). eapply (sleepy_locked m a m' b); eauto.
    by apply i_woken_lk. }
  destruct (decide (b = a)) as [->|Hne].
  2:{ apply Hold. by rewrite <- (step_frame _ _ _ _ Hs Hne). }
  assert (Hscan : next_entry (pcs m a) c = Some NPROC -> False).
  { intros Hn. destruct (i_scan _ Hi a c NPROC i Hn Hlt). eapply (sleepy_locked m a m' a); eauto.
    by eapply next_has_lk. }
  destruct Hs; simpl in Hw, Hold, Hscan; rewrite ?put_eq in Hw; use_pcs; split_if; auto;
    try (by apply elem_of_nil in Hw).
  apply elem_of_cons in Hw as [->|Hw]; [|auto]. rewrite decide_True in Hscan by done. auto.
Qed.

Lemma come_step m a m' : inv m -> step m a m' ->
  forall c i, (i < NPROC)%nat -> cond m' c = true -> sleepy m' i c ->
  exists b j, next_entry (pcs m' b) c = Some j.
Proof.
  intros Hi Hs c i Hlt Hc Hsl. pose proof (i_locks _ Hi) as Hl.
  destruct (sleepy_back _ _ _ _ _ Hs Hsl) as [Ho|(-> & Hd & _ & Ec)].
  2:{ rewrite Ec, (i_cond _ Hi (Proc i) c) in Hc by auto. discriminate. }
  destruct (cond m c) eqn:Eo.
  - destruct (i_come _ Hi c i Hlt Eo Ho) as (b & j & Hn).
    destruct (decide (b = a)) as [->|Hne].
    2:{ exists b, j. by rewrite (step_frame _ _ _ _ Hs Hne). }
    exists a. pose proof (i_scan _ Hi a c j i Hn) as Hd.
    destruct Hs; simpl; rewrite ?put_eq; use_pcs; try discriminate; case_decide; simplify_eq; eauto.
    by destruct (Hd Hlt).
  - destruct Hs; simpl in Hc; try congruence; put_cases; try congruence.
    + exists a, O. simpl. rewrite put_eq. simpl. by rewrite decide_True.
    + exfalso. eapply (i_woken _ Hi a _ i); [| |exact Ho]; [by use_pcs|exact Hlt].
Qed.

Lemma inv_step m a m' : inv m -> step m a m' -> inv m'.
Proof.
  intros Hi Hs. constructor.
  - eapply locks_step; eauto. apply Hi.
  - by apply (cond_step m a).
  - by apply (scan_step m a).
  - by apply (woken_step m a).
  - by apply (come_step m a).
Qed.

Lemma inv_start pids : inv (start pids).
Proof.
  constructor; [constructor|..]; simpl; try (intros; split; discriminate); try (intros; discriminate);
    try (intuition discriminate); intros a c; [intros H%elem_of_nil|intros i H%elem_of_nil]; done.
Qed.

Lemma reachable_inv m : reachable m -> inv m.
Proof. induction 1; [apply inv_start|by eapply inv_step]. Qed.

(** C5: no wakeup is lost.  Whatever the processes, the interrupt handlers and
    the kills do, in whatever order their statements interleave: while the
    condition of channel [c] is true and process [i] is asleep on [c], or past
    [release(lk)] in [sleep] on its way there, some agent that holds the
    condition lock is in the loop of [wakeup(c)] and has still to come to
    entry [i], which it will not skip as its own process.  So when the
    condition is true and no [wakeup(c)] is in progress, no process sleeps on
    [c]. *)
Theorem no_lost_wakeup m c i
    (Hreach : reachable m) (Hi : (i < NPROC)%nat) (Hcond : cond m c = true) (Hsl : sleepy m i c) :
  exists a j, next_entry (pcs m a) c = Some j /\ (j <= i)%nat /\
    lk m (lkof c) = Some a /\ me a <> Some i.
Proof.
  pose proof (reachable_inv m Hreach) as Hinv.
  destruct (i_come _ Hinv c i Hi Hcond Hsl) as (a & j & Hn). exists a, j. split; [exact Hn|].
  split; [destruct (decide (i < j)%nat) as [E|]; [by destruct (i_scan _ Hinv a c j i)|lia]|].
  split; [apply (i_lk _ (i_locks _ Hinv)); by eapply next_has_lk|].
  intros Hme. destruct a as [k|k|k]; simplify_eq/=.
  - unfold sleepy in Hsl. destruct (pcs m (Proc i)); simplify_eq/=; intuition congruence.
  - pose proof (i_intr _ (i_locks _ Hinv) i) as Hint. unfold sleepy in Hsl.
    destruct (pcs m (Intr i)); simplify_eq/=;
      (destruct (pcs m (Proc i)); simpl in *; intuition congruence).
Qed.

End Interleaving.

(** Process 3 goes to sleep on channel 7; a handler on an idle CPU then makes
    the condition true and is in [wakeup(7)], before the first entry. *)
Lemma no_lost_wakeup_witness : exists m,
  reachable (fun c => c) m /\ cond m 7 = true /\ pcs m (Proc 3) = Asleep 7 /\ st m 3 = Sleeping /\
  exists a j, next_entry (pcs m a) 7 = Some j /\ (j <= 3)%nat /\ lk m 7 = Some a /\ me a <> Some 3%nat.
Proof.
  eassert (Hr : reachable (fun c => c) _).
  { eapply r_step; [eapply r_step; [eapply r_step; [eapply r_step; [eapply r_step; [eapply r_step;
      [eapply r_step; [eapply r_step; [eapply r_step; [apply (r_start _ (fun _ => 0))|]|]|]|]|]|]|]|]|].
    - apply (c_acquire _ _ (Proc 3) 7); reflexivity.
    - apply (c_sleep _ _ 3 7 [] 7); reflexivity.
    - apply (s_plock _ _ 3 7); reflexivity.
    - apply (s_drop _ _ 3 7); reflexivity.
    - apply (s_chan _ _ 3 7); reflexivity.
    - apply (s_state _ _ 3 7); reflexivity.
    - apply (s_sched _ _ 3 7); reflexivity.
    - apply (c_acquire _ _ (Cpu 0) 7); reflexivity.
    - apply (c_set_wakeup _ _ (Cpu 0) 7 [] 7); reflexivity. }
  eexists. split; [exact Hr|]. do 3 (split; [reflexivity|]).
  apply (no_lost_wakeup (fun c => c) _ 7 3 Hr); [unfold NPROC; lia|reflexivity|].
  do 3 right. split; reflexivity.
Defined.
