(* ===== verification/Iface.v ===== *)
(** * Interfaces between kernel components

    The components above the process table are written against the state [S]
    of the kernel they run in: each names the part of [S] it owns ([Has]) and
    the operations it needs of the components below (the classes here).
    Kernel.v puts all components into one state and supplies the instances;
    the theorems about a component use the smallest state that has what the
    component needs. *)

From S2P Require Import Prelude Kmonad Mem Riscv Kalloc Proc.

(** [X] is a part of the state [S]. *)
Class Has (S X : Type) := has : lens S X.

Definition hget {S X} `{Has S X} : M S X := gets (lget has).
Definition hmod {S X} `{Has S X} (f : X -> X) : M S unit :=
  modify (fun s => lput has (f (lget has s)) s).
Definition inpart {S X A} `{Has S X} (m : M X A) : M S A := zoom has m.

#[global] Instance has_self {S} : Has S S | 10 := Lens (fun s => s) (fun x _ => x).

(** A bound on how often a thread that sleeps in a loop is woken before the
    condition it waits for holds. *)
Class Fuel := fuel : nat.

(** What kernel/proc.c offers to code that sleeps. *)
Class SleepOps (S : Type) := {
  op_sleep : chan -> lockid -> M S unit;
  op_wakeup : chan -> M S unit;
  op_pid : M S Z;                       (* myproc()->pid *)
}.

(** [myproc()->pid] *)
Definition mypid : M pst Z :=
  let* i := myproc in let* p := getp i in ret (pr_pid p).

#[global] Instance proc_sleep_ops {S} `{Has S pst} : SleepOps S := {|
  op_sleep c lk := inpart (sleep c lk);
  op_wakeup c := inpart (wakeup c);
  op_pid := inpart mypid;
|}.

(** [killed(myproc())] *)
Class KillOps (S : Type) := op_killed : M S Z.
#[global] Instance proc_kill_ops {S} `{Has S pst} : KillOps S :=
  inpart (let* i := myproc in killed i).
