(* ===== verification/Sleeplock.v ===== *)
(** * Sleep locks (kernel/sleeplock.c)

    A sleep lock [L] is a field of some larger structure; [id] names its inner
    spin lock and its wait channel. *)

From S2P Require Import Prelude Kmonad Mem Riscv Kalloc Proc Iface.

(** [struct sleeplock] without the inner spin lock and the name. *)
Record sleeplock := Sleeplock { sl_locked : Z; sl_pid : Z }.
#[global] Instance sleeplock_eq_dec : EqDecision sleeplock.
Proof. solve_decision. Defined.

Definition initsleeplock : sleeplock := Sleeplock 0 0.

Section Sleeplock.
Context {S : Type} `{SleepOps S} `{Fuel}.

Definition acquiresleep (lk : lens S sleeplock) (id : slid) : M S unit :=
  acquire (LSleep id) ;;
  loop fuel
    (fun _ : unit =>
       let* l := gets (lget lk) in
       if negb (sl_locked l =? 0) then op_sleep (CSleep id) (LSleep id) ;; ret (inl tt)
       else ret (inr tt))
    tt ;;
  let* pid := op_pid in
  modify (fun s => lput lk (Sleeplock 1 pid) s) ;;
  release (LSleep id).

Definition releasesleep (lk : lens S sleeplock) (id : slid) : M S unit :=
  acquire (LSleep id) ;;
  modify (fun s => lput lk (Sleeplock 0 0) s) ;;
  op_wakeup (CSleep id) ;;
  release (LSleep id).

Definition holdingsleep (lk : lens S sleeplock) (id : slid) : M S bool :=
  acquire (LSleep id) ;;
  let* l := gets (lget lk) in
  let* r := (if negb (sl_locked l =? 0) then let* pid := op_pid in ret (sl_pid l =? pid) else ret false) in
  release (LSleep id) ;;
  ret r.

End Sleeplock.
