(* ===== verification/Bio.v ===== *)
(** * The buffer cache (kernel/bio.c)

    [bcache.buf[]] and the list head are one list of [struct buf]: entry
    [NBUF] is [bcache.head], and the [prev]/[next] pointers are indices.  A
    block's data is a memory of its own, at offsets [0, BSIZE).  The cache runs
    on any state [S] that has the buffers, sleep locks, and a disk driver. *)

From S2P Require Import Prelude Kmonad Mem Riscv Kalloc Proc Iface Sleeplock.

Definition BSIZE : Z := 1024.

(** [struct buf] of kernel/buf.h. *)
Record buf := Buf {
  b_valid : Z;
  b_disk : Z;
  b_dev : Z;
  b_blockno : Z;
  b_lock : sleeplock;
  b_refcnt : Z;
  b_prev : nat;
  b_next : nat;
  b_data : mem;
}.
#[global] Instance eta_buf : Eta buf := fun r =>
  Buf (b_valid r) (b_disk r) (b_dev r) (b_blockno r) (b_lock r) (b_refcnt r) (b_prev r) (b_next r) (b_data r).

Definition zero_buf : buf := Buf 0 0 0 0 initsleeplock 0 0 0 (fun _ => 0).
#[global] Instance buf_inhabited : Inhabited buf := populate zero_buf.

Definition bufs := list buf.
Definition bhead : nat := NBUF.

(** The disk driver: [virtio_disk_rw(b, write)]. *)
Class DiskOps (S : Type) := virtio_disk_rw : nat -> bool -> M S unit.

Section Bio.
Context {S : Type} `{Has S bufs} `{SleepOps S} `{DiskOps S} `{Fuel}.

Definition getb (i : nat) : M S buf := let* l := hget in ret ((l : bufs) !!! i).
Definition modb (i : nat) (f : buf -> buf) : M S unit :=
  hmod (fun l : bufs => <[i := f (l !!! i)]> l).

(** The sleep lock of buffer [i]. *)
Definition buf_lock (i : nat) : lens S sleeplock :=
  Lens (fun s => b_lock ((lget has s : bufs) !!! i))
       (fun x s => lput has (<[i := ((lget has s : bufs) !!! i) <| b_lock := x |>]> (lget has s : bufs)) s).

Definition binit : M S unit :=
  modb bhead (fun b => b <| b_prev := bhead |> <| b_next := bhead |>) ;;
  for_each (seq 0 NBUF)
    (fun i =>
       let* h := getb bhead in
       modb i (fun b => b <| b_next := b_next h |> <| b_prev := bhead |> <| b_lock := initsleeplock |>) ;;
       modb (b_next h) (fun b => b <| b_prev := i |>) ;;
       modb bhead (fun b => b <| b_next := i |>)).

(** Walk the circular list from [b] with [dir], until the head or a buffer
    that satisfies [p]; the list has [NBUF] buffers. *)
Definition bscan (dir : buf -> nat) (p : buf -> bool) (b : nat) : M S (option nat) :=
  loop (Datatypes.S NBUF)
    (fun b =>
       if (b =? bhead)%nat then ret (inr None)
       else
         let* x := getb b in
         if p x then ret (inr (Some b)) else ret (inl (dir x)))
    b.

Definition bget (dev blockno : Z) : M S nat :=
  acquire LBcache ;;
  let* h := getb bhead in
  let* hit := bscan b_next (fun b => (b_dev b =? dev) && (b_blockno b =? blockno)) (b_next h) in
  match hit with
  | Some b =>
      modb b (fun x => x <| b_refcnt ::= (fun r => u32 (r + 1)) |>) ;;
      release LBcache ;;
      acquiresleep (buf_lock b) (SLbuf b) ;;
      ret b
  | None =>
      let* victim := bscan b_prev (fun b => b_refcnt b =? 0) (b_prev h) in
      match victim with
      | Some b =>
          modb b (fun x => x <| b_dev := dev |> <| b_blockno := blockno |> <| b_valid := 0 |> <| b_refcnt := 1 |>) ;;
          release LBcache ;;
          acquiresleep (buf_lock b) (SLbuf b) ;;
          ret b
      | None => panic "bget: no buffers"
      end
  end.

Definition bread (dev blockno : Z) : M S nat :=
  let* b := bget dev blockno in
  let* x := getb b in
  when (b_valid x =? 0)
    (virtio_disk_rw b false ;;
     modb b (fun x => x <| b_valid := 1 |>)) ;;
  ret b.

Definition bwrite (b : nat) : M S unit :=
  let* h := holdingsleep (buf_lock b) (SLbuf b) in
  if negb h then panic "bwrite" else virtio_disk_rw b true.

Definition brelse (b : nat) : M S unit :=
  let* h := holdingsleep (buf_lock b) (SLbuf b) in
  if negb h then panic "brelse"
  else
    releasesleep (buf_lock b) (SLbuf b) ;;
    acquire LBcache ;;
    modb b (fun x => x <| b_refcnt ::= (fun r => u32 (r - 1)) |>) ;;
    let* x := getb b in
    when (b_refcnt x =? 0)
      (modb (b_next x) (fun y => y <| b_prev := b_prev x |>) ;;
       modb (b_prev x) (fun y => y <| b_next := b_next x |>) ;;
       let* h := getb bhead in
       modb b (fun y => y <| b_next := b_next h |> <| b_prev := bhead |>) ;;
       modb (b_next h) (fun y => y <| b_prev := b |>) ;;
       modb bhead (fun y => y <| b_next := b |>)) ;;
    release LBcache.

Definition bpin (b : nat) : M S unit :=
  acquire LBcache ;;
  modb b (fun x => x <| b_refcnt ::= (fun r => u32 (r + 1)) |>) ;;
  release LBcache.

Definition bunpin (b : nat) : M S unit :=
  acquire LBcache ;;
  modb b (fun x => x <| b_refcnt ::= (fun r => u32 (r - 1)) |>) ;;
  release LBcache.

End Bio.
