(* ===== verification/Disk.v ===== *)
(** * Disks and the order of writes

    A disk is a function from block numbers to blocks.  The drivers of the
    theorems record the writes in the order in which they reach the disk, so
    that a crash is a prefix of them. *)

From S2P Require Import Prelude Mem.

Definition upd {A} (f : Z -> A) (n : Z) (x : A) : Z -> A := fun m => if m =? n then x else f m.

Lemma upd_eq {A} (f : Z -> A) n x : upd f n x n = x.
Proof. unfold upd. by rewrite Z.eqb_refl. Qed.
Lemma upd_ne {A} (f : Z -> A) n x m : m <> n -> upd f n x m = f m.
Proof. intros H. unfold upd. by rewrite (proj2 (Z.eqb_neq _ _) H). Qed.

(** The disk as the writes [ws] leave it, oldest write first. *)
Definition disk := Z -> mem.
Definition apply_writes (d : disk) (ws : list (Z * mem)) : disk :=
  fold_left (fun d w => upd d (fst w) (snd w)) ws d.

(** Split on which entry of an updated function the goal looks at. *)
Ltac upd_cases :=
  repeat match goal with
  | |- context [upd _ ?a _ ?b] =>
      destruct (Z.eq_dec b a); [subst; rewrite ?upd_eq|rewrite ?(upd_ne _ a _ b) by assumption]
  end.

Lemma apply_writes_out ws : forall d n, n ∉ map fst ws -> apply_writes d ws n = d n.
Proof.
  induction ws as [|w ws IH]; intros d n Hn; simpl; [reflexivity|].
  simpl in Hn. rewrite elem_of_cons in Hn. unfold apply_writes in *. simpl.
  rewrite IH by tauto. apply upd_ne. tauto.
Qed.

Lemma apply_writes_app d ws ws' : apply_writes d (ws ++ ws') = apply_writes (apply_writes d ws) ws'.
Proof. apply fold_left_app. Qed.

(** A block written once has the contents written. *)
Lemma apply_writes_in ws : forall d i n m,
  NoDup (map fst ws) -> ws !! i = Some (n, m) -> apply_writes d ws n = m.
Proof.
  induction ws as [|w ws IH]; intros d i n m Hd Hi; [done|].
  simpl in Hd. apply NoDup_cons in Hd as [Hw Hd]. destruct i as [|i]; simpl in Hi.
  - injection Hi as ->. unfold apply_writes. simpl. fold (apply_writes (upd d n m) ws).
    rewrite apply_writes_out by auto. apply upd_eq.
  - by eapply (IH _ i).
Qed.
