(* ===== verification/BioSpec.v ===== *)
(** * What the buffer cache promises

    The cache of Bio.v over an ideal disk.  The buffers form a ring through
    the list head, most recently used first; a block has at most one buffer;
    an unused buffer holds what the disk holds.  [view] is the block as the
    rest of the kernel sees it: the buffer if there is one, else the disk.
    [bread] gives the view under the lock of the only buffer of the block and
    recycles the least recently used one that is free; [brelse] puts a buffer
    nobody uses at the front of the ring. *)

From S2P Require Import Prelude Kmonad Mem Riscv Kalloc Proc Iface Sleeplock Bio Disk.

(** ** Paths along pointers *)

(** [f] leads from every element of the list to the next one. *)
Fixpoint path (f : nat -> nat) (c : list nat) : Prop :=
  match c with
  | x :: (y :: _) as c' => f x = y /\ path f c'
  | _ => True
  end.

Definition upd_fun (f : nat -> nat) (x v : nat) : nat -> nat := fun y => if decide (y = x) then v else f y.

Lemma path_app f c1 x c2 : path f (c1 ++ x :: c2) <-> path f (c1 ++ [x]) /\ path f (x :: c2).
Proof.
  induction c1 as [|y c1 IH]; [simpl; destruct c2; tauto|].
  destruct c1 as [|z c1]; [simpl; tauto|]. simpl app in *. cbn [path]. rewrite IH. tauto.
Qed.

(** Only the pointers of the elements before the last one matter. *)
Lemma path_ext f g c e : (forall x, x ∈ c -> f x = g x) -> path f (c ++ [e]) -> path g (c ++ [e]).
Proof.
  induction c as [|x c IH]; [done|]. intros Hfg. destruct c as [|y c].
  - simpl. intros [H _]. split; [|done]. rewrite <- H. symmetry. apply Hfg. set_solver.
  - simpl app in *. cbn [path]. intros [H1 H2]. split; [|apply IH; [set_solver|exact H2]].
    rewrite <- H1. symmetry. apply Hfg. set_solver.
Qed.

(** Take [b] out of a path. *)
Lemma path_unlink f c1 p b n c2 e :
  NoDup (c1 ++ p :: b :: c2) -> path f (c1 ++ p :: b :: c2 ++ [e]) ->
  head (c2 ++ [e]) = Some n -> path (upd_fun f p n) (c1 ++ p :: c2 ++ [e]).
Proof.
  intros Hnd Hp Hn. apply path_app in Hp as [Hp1 Hp2]. apply path_app.
  assert (Hpc : (p ∉ c1) /\ (p ∉ c2)).
  { apply NoDup_app in Hnd as (_ & Hd & Hnd). split; [intros H; apply (Hd p H); set_solver|].
    apply NoDup_cons in Hnd as [H _]. set_solver. }
  split; [revert Hp1; apply path_ext; intros x Hx; unfold upd_fun; rewrite decide_False by set_solver; done|].
  destruct Hp2 as [_ Hp2]. destruct c2 as [|y c2]; simpl in *.
  - split; [|done]. unfold upd_fun. rewrite decide_True by done. congruence.
  - split; [unfold upd_fun; rewrite decide_True by done; congruence|].
    destruct Hp2 as [_ Hp2]. revert Hp2. apply (path_ext f _ (y :: c2)). intros x Hx. unfold upd_fun.
    rewrite decide_False by set_solver. done.
Qed.

(** Put [b] after [n]. *)
Lemma path_insert f c1 n b y c2 e :
  NoDup (c1 ++ n :: c2) -> b ∉ c1 ++ n :: c2 -> path f (c1 ++ n :: c2 ++ [e]) ->
  head (c2 ++ [e]) = Some y -> path (upd_fun (upd_fun f b y) n b) (c1 ++ n :: b :: c2 ++ [e]).
Proof.
  intros Hnd Hb Hp Hy. apply path_app in Hp as [Hp1 Hp2].
  assert (Hn : (n ∉ c1) /\ (n ∉ c2)).
  { apply NoDup_app in Hnd as (_ & Hd & Hnd). split; [intros H; apply (Hd n H); set_solver|].
    apply NoDup_cons in Hnd as [H _]. set_solver. }
  assert (Hbc : (b ∉ c1) /\ b <> n /\ (b ∉ c2)) by set_solver. destruct Hbc as (Hb1 & Hbn & Hb2).
  apply path_app. split; [|split; [unfold upd_fun; by rewrite decide_True|]].
  - revert Hp1. apply path_ext. intros x Hx. unfold upd_fun. rewrite !decide_False by set_solver. done.
  - assert (Hy' : upd_fun (upd_fun f b y) n b b = y) by (unfold upd_fun; by rewrite decide_False, decide_True).
    assert (Hc : path f (c2 ++ [e])) by (destruct c2; simpl in *; tauto).
    eapply (path_ext f (upd_fun (upd_fun f b y) n b)) in Hc;
      [|intros x Hx; unfold upd_fun; rewrite !decide_False by set_solver; done].
    destruct c2; simpl in *; split; try exact Hc; congruence.
Qed.

Lemma path_step f c1 x y c2 : path f (c1 ++ x :: y :: c2) -> f x = y.
Proof. intros H. apply path_app in H as [_ H]. apply H. Qed.

(** ** The ring

    Forwards through [next] and backwards through [prev], from the head to the
    head. *)
Record ring (nx pv : nat -> nat) (order : list nat) : Prop := {
  rg_nodup : NoDup (bhead :: order);
  rg_next : path nx (bhead :: order ++ [bhead]);
  rg_prev : path pv (bhead :: rev order ++ [bhead]);
}.

Lemma snoc_of (x : nat) l : exists c p, x :: l = c ++ [p] /\ head (rev l ++ [x]) = Some p.
Proof.
  destruct (exists_last (l := x :: l)) as (c & p & E); [done|]. exists c, p. split; [exact E|].
  change (rev l ++ [x]) with (rev (x :: l)). rewrite E, rev_app_distr. reflexivity.
Qed.

Lemma ring_neighbours nx pv pre b post :
  ring nx pv (pre ++ b :: post) -> head (post ++ [bhead]) = Some (nx b) /\ head (rev pre ++ [bhead]) = Some (pv b).
Proof.
  intros [_ Hn Hp]. split.
  - rewrite <- app_assoc in Hn. change (bhead :: pre ++ (b :: post) ++ [bhead]) with ((bhead :: pre) ++ b :: (post ++ [bhead])) in Hn.
    destruct (post ++ [bhead]) as [|y l] eqn:E; [by destruct post|]. simpl. f_equal. symmetry. by eapply path_step.
  - rewrite rev_app_distr in Hp. cbn [rev] in Hp. rewrite <- !app_assoc in Hp.
    change (bhead :: rev post ++ [b] ++ rev pre ++ [bhead]) with ((bhead :: rev post) ++ b :: (rev pre ++ [bhead])) in Hp.
    destruct (rev pre ++ [bhead]) as [|y l] eqn:E; [by destruct (rev pre)|]. simpl. f_equal. symmetry. by eapply path_step.
Qed.

(** The pointers after [brelse] has moved [b] to the front. *)
Lemma ring_move nx pv pre b post (f1 := upd_fun nx (pv b) (nx b)) (g1 := upd_fun pv (nx b) (pv b)) :
  ring nx pv (pre ++ b :: post) ->
  ring (upd_fun (upd_fun f1 b (f1 bhead)) bhead b) (upd_fun (upd_fun g1 b bhead) (f1 bhead) b) (b :: pre ++ post).
Proof.
  intros Hr. destruct (ring_neighbours _ _ _ _ _ Hr) as [Hnx Hpv]. destruct Hr as [Hnd Hn Hp].
  destruct (snoc_of bhead pre) as (c & p & Ec & Hc). destruct (snoc_of bhead (rev post)) as (d & q & Ed & Hd).
  rewrite rev_involutive in Hd. assert (pv b = p /\ nx b = q) as [Hpp Hqq] by (split; congruence).
  assert (Hnd' : NoDup (bhead :: b :: pre ++ post)).
  { rewrite (Permutation_middle pre post b). exact Hnd. }
  assert (H1 : path f1 (bhead :: (pre ++ post) ++ [bhead])).
  { subst f1. rewrite Hpp, <- app_assoc. change (bhead :: pre ++ post ++ [bhead]) with ((bhead :: pre) ++ post ++ [bhead]).
    rewrite Ec, <- app_assoc. apply path_unlink with (b := b); [| |exact Hnx].
    - rewrite (cons_middle p c), app_assoc, <- Ec. exact Hnd.
    - rewrite (cons_middle p c), app_assoc, <- Ec. rewrite <- app_assoc in Hn. exact Hn. }
  assert (H2 : path g1 (bhead :: rev (pre ++ post) ++ [bhead])).
  { subst g1. rewrite Hqq, rev_app_distr, <- app_assoc.
    change (bhead :: rev post ++ rev pre ++ [bhead]) with ((bhead :: rev post) ++ rev pre ++ [bhead]).
    rewrite Ed, <- app_assoc. apply path_unlink with (b := b); [| |exact Hpv].
    - rewrite (cons_middle q d), app_assoc, <- Ed. simpl app.
      rewrite <- (Permutation_rev post), <- (Permutation_rev pre), <- Permutation_middle, (Permutation_app_comm post pre).
      exact Hnd'.
    - rewrite (cons_middle q d), app_assoc, <- Ed. rewrite rev_app_distr in Hp. cbn [rev] in Hp. rewrite <- !app_assoc in Hp. exact Hp. }
  assert (Hf1 : head ((pre ++ post) ++ [bhead]) = Some (f1 bhead)).
  { destruct ((pre ++ post) ++ [bhead]) as [|y l] eqn:E; [by destruct (pre ++ post)|]. simpl. f_equal.
    destruct H1 as [H1 _]. done. }
  apply NoDup_cons in Hnd' as [Hh Hnd']. apply NoDup_cons in Hnd' as [Hb Hnd']. split.
  - constructor; [exact Hh|]. by constructor.
  - apply (path_insert f1 [] bhead b _ (pre ++ post) bhead); [constructor; set_solver|set_solver|exact H1|exact Hf1].
  - destruct (snoc_of bhead (rev (pre ++ post))) as (k & n & Ek & Hk). rewrite rev_involutive in Hk.
    assert (f1 bhead = n) as -> by congruence. simpl rev. rewrite <- app_assoc. simpl app.
    change (bhead :: rev (pre ++ post) ++ [b; bhead]) with ((bhead :: rev (pre ++ post)) ++ [b; bhead]).
    assert (Hp' : bhead :: rev (pre ++ post) ≡ₚ bhead :: pre ++ post) by (constructor; symmetry; apply Permutation_rev).
    rewrite Ek, <- app_assoc. apply (path_insert g1 k n b bhead [] bhead); [| | |reflexivity].
    + rewrite <- Ek, Hp'. constructor; [set_solver|done].
    + rewrite <- Ek, Hp'. set_solver.
    + simpl. rewrite (cons_middle n k), app_assoc, <- Ek. exact H2.
Qed.

(** ** The cache over an ideal disk

    The process table is not part of this state: [wakeup] leaves it alone, and
    a thread that sleeps comes back in whatever state the others left.  The
    disk is what it was at first and the writes since; [bs_ext] is the rest of
    the kernel, which the cache does not look at. *)
Record bst (X : Type) := Bst { bs_bufs : bufs; bs_base : disk; bs_trace : list (Z * mem); bs_ext : X }.
Arguments Bst {X}.
Arguments bs_bufs {X}.
Arguments bs_base {X}.
Arguments bs_trace {X}.
Arguments bs_ext {X}.

Section Cache.
Context {X : Type}.
#[local] Abbreviation bst := (bst X).
#[global] Instance eta_bst : Eta bst := fun r => Bst (bs_bufs r) (bs_base r) (bs_trace r) (bs_ext r).
#[global] Instance bst_has_bufs : Has bst bufs := Lens bs_bufs (fun x s => s <| bs_bufs := x |>).

Definition bs_disk (s : bst) : disk := apply_writes (bs_base s) (bs_trace s).
Definition bb (s : bst) (i : nat) : buf := bs_bufs s !!! i.
Definition setbuf (i : nat) (b : buf) (s : bst) : bst := s <| bs_bufs ::= <[i := b]> |>.

(** The driver of an ideal disk: it reads or writes the block at once. *)
#[global] Instance bst_disk_ops : DiskOps bst := fun i write => fun t s =>
  let b := bb s i in
  if write then ORet tt t (s <| bs_trace ::= (fun l => l ++ [(b_blockno b, b_data b)]) |>)
  else ORet tt t (setbuf i (b <| b_data := bs_disk s (b_blockno b) |>) s).

(** Only buffers changed. *)
Definition same_rest (s s' : bst) : Prop :=
  bs_base s' = bs_base s /\ bs_trace s' = bs_trace s /\ bs_ext s' = bs_ext s.

Lemma same_rest_disk s s' : same_rest s s' -> bs_disk s' = bs_disk s.
Proof. unfold bs_disk. by intros (-> & -> & _). Qed.

(** Buffer [i] is the one of block [blk]. *)
Definition bkey (blk : Z) (b : buf) : bool := (b_dev b =? ROOTDEV) && (b_blockno b =? blk).
Definition cached (s : bst) (i : nat) (blk : Z) : Prop := (i < NBUF)%nat /\ bkey blk (bb s i) = true.

(** The contents of block [blk] for the kernel. *)
Definition view (s : bst) (blk : Z) : mem :=
  match find (fun i => bkey blk (bb s i) && negb (b_valid (bb s i) =? 0)) (seq 0 NBUF) with
  | Some i => b_data (bb s i)
  | None => bs_disk s blk
  end.

(** A buffer without users is not locked, and what it holds is on the disk. *)
Record buf_ok (dk : Z -> mem) (b : buf) : Prop := {
  bo_ref : 0 <= b_refcnt b < 4294967296;
  bo_dev : b_valid b <> 0 -> b_dev b = ROOTDEV;
  bo_free : b_refcnt b = 0 -> sl_locked (b_lock b) = 0;
  bo_clean : b_refcnt b = 0 -> b_valid b <> 0 -> b_data b = dk (b_blockno b);
}.

Record binv (order : list nat) (s : bst) : Prop := {
  bi_len : length (bs_bufs s) = S NBUF;
  bi_perm : order ≡ₚ seq 0 NBUF;
  bi_ring : ring (fun i => b_next (bb s i)) (fun i => b_prev (bb s i)) order;
  bi_uniq : forall i j blk, cached s i blk -> cached s j blk -> i = j;
  bi_buf : forall i, (i < NBUF)%nat -> buf_ok (bs_disk s) (bb s i);
}.

Lemma bb_set i b s : (i < length (bs_bufs s))%nat -> bb (setbuf i b s) i = b.
Proof. intros. unfold bb, setbuf. simpl. by apply list_lookup_total_insert_eq. Qed.
Lemma bb_set_ne i j b s : i <> j -> bb (setbuf i b s) j = bb s j.
Proof. intros. unfold bb, setbuf. simpl. by apply list_lookup_total_insert_ne. Qed.
Lemma setbuf_set i b b' s : setbuf i b' (setbuf i b s) = setbuf i b' s.
Proof. destruct s. unfold setbuf. simpl. f_equal. apply list_insert_insert_eq. Qed.
Lemma setbuf_len i b s : length (bs_bufs (setbuf i b s)) = length (bs_bufs s).
Proof. apply length_insert. Qed.

Lemma bkey_spec blk b : bkey blk b = true <-> b_dev b = ROOTDEV /\ b_blockno b = blk.
Proof. unfold bkey. rewrite andb_true_iff, !Z.eqb_eq. tauto. Qed.

(** The block is in a valid buffer, or its contents are on the disk. *)
Lemma view_cases order s blk : binv order s ->
  (exists i, cached s i blk /\ b_valid (bb s i) <> 0 /\ view s blk = b_data (bb s i)) \/
  (forall i, cached s i blk -> b_valid (bb s i) = 0) /\ view s blk = bs_disk s blk.
Proof.
  intros _. unfold view. destruct (find _ _) as [i|] eqn:E.
  - left. apply find_some in E as [Hi E]. apply in_seq in Hi. exists i. unfold cached. split; [split; [lia|]|split]; [|lia|done].
    by destruct (bkey _ _).
  - right. split; [|done]. intros i [Hi Hk]. eapply find_none in E; [|apply in_seq; split; [apply Nat.le_0_l|exact Hi]].
    rewrite Hk in E. simpl in E. lia.
Qed.

Lemma view_hit order s i blk :
  binv order s -> cached s i blk -> b_valid (bb s i) <> 0 -> view s blk = b_data (bb s i).
Proof.
  intros Hi Hc Hv. destruct (view_cases order s blk Hi) as [(j & Hj & _ & E)|[Hn _]].
  - by rewrite (bi_uniq _ _ Hi i j blk Hc Hj).
  - by apply Hn in Hc.
Qed.

(** Changing one buffer, not its place in the ring. *)
Lemma binv_set order s i b :
  binv order s -> (i < NBUF)%nat -> b_next b = b_next (bb s i) -> b_prev b = b_prev (bb s i) ->
  buf_ok (bs_disk s) b ->
  (forall j, cached s j (b_blockno b) -> b_dev b = ROOTDEV -> j = i) ->
  binv order (setbuf i b s).
Proof.
  intros Hinv Hi Hn Hp Hb Hu. pose proof (bi_len _ _ Hinv) as Hlen.
  assert (Hbb : forall j, bb (setbuf i b s) j = if decide (j = i) then b else bb s j).
  { intros j. destruct (decide (j = i)) as [->|]; [apply bb_set; lia|by apply bb_set_ne]. }
  split.
  - by rewrite setbuf_len.
  - apply Hinv.
  - destruct (bi_ring _ _ Hinv) as [H1 H2 H3]. split; [exact H1| |].
    + revert H2. apply (path_ext _ _ (bhead :: order)). intros j _. rewrite Hbb. destruct (decide (j = i)) as [->|]; auto.
    + revert H3. apply (path_ext _ _ (bhead :: rev order)). intros j _. rewrite Hbb. destruct (decide (j = i)) as [->|]; auto.
  - assert (Hj : forall j j' blk, j' <> i -> cached (setbuf i b s) j blk -> cached s j' blk -> j = i -> False).
    { intros j j' blk Hne [_ Hk] Hc' ->. rewrite Hbb, decide_True in Hk by done. apply bkey_spec in Hk as [Hd <-]. auto. }
    intros j j' blk Hc Hc'. unfold cached in *. 
    destruct (decide (j = i)) as [->|Hji], (decide (j' = i)) as [->|Hji']; auto.
    + exfalso. eapply (Hj i j' blk Hji'); auto. unfold cached. rewrite Hbb, decide_False in Hc' by done. done.
    + exfalso. eapply (Hj i j blk Hji); auto. unfold cached. rewrite Hbb, decide_False in Hc by done. done.
    + rewrite Hbb, decide_False in Hc by done. rewrite Hbb, decide_False in Hc' by done. by apply (bi_uniq _ _ Hinv _ _ blk).
  - intros j Hj. rewrite Hbb. destruct (decide (j = i)); [exact Hb|]. by apply (bi_buf _ _ Hinv).
Qed.

(** ... and the contents of no block, when the new buffer shows what the
    kernel saw and the old one is not needed any more. *)
Lemma view_set order s i b :
  binv order s -> binv order (setbuf i b s) -> (i < NBUF)%nat ->
  (b_valid b <> 0 -> b_data b = view s (b_blockno b)) ->
  (b_valid (bb s i) <> 0 -> b_valid b <> 0 /\ b_dev b = ROOTDEV /\ b_blockno b = b_blockno (bb s i) \/
     b_data (bb s i) = bs_disk s (b_blockno (bb s i))) ->
  forall blk, view (setbuf i b s) blk = view s blk.
Proof.
  intros Hinv Hinv' Hi Hnew Hold blk. pose proof (bi_len _ _ Hinv) as Hlen.
  assert (Hne : forall j, j <> i -> cached (setbuf i b s) j blk <-> cached s j blk).
  { intros j Hj. unfold cached. by rewrite bb_set_ne by auto. }
  assert (Hbi : bb (setbuf i b s) i = b) by (apply bb_set; lia).
  destruct (view_cases _ _ blk Hinv') as [(j & Hc & Hv & ->)|[Hn ->]].
  - destruct (decide (j = i)) as [->|Hj].
    + rewrite Hbi in *. rewrite Hnew by done. destruct Hc as [_ Hk]. rewrite Hbi in Hk.
      apply bkey_spec in Hk as [_ ->]. done.
    + rewrite bb_set_ne in * by auto. symmetry. eapply view_hit; eauto. by apply Hne.
  - change (bs_disk (setbuf i b s)) with (bs_disk s).
    destruct (view_cases _ _ blk Hinv) as [(j & Hc & Hv & ->)|[_ ->]]; [|done].
    destruct (decide (j = i)) as [->|Hj].
    + destruct (proj1 (bkey_spec _ _) (proj2 Hc)) as [_ Hblk]. destruct (Hold Hv) as [(Hv' & Hd & Hk)| ->]; [|by rewrite Hblk].
      exfalso. apply Hv'. rewrite <- Hbi. apply Hn. split; [exact Hi|]. rewrite Hbi. apply bkey_spec. split; congruence.
    + exfalso. apply Hv. rewrite <- (bb_set_ne i j b) by auto. by apply Hn, Hne.
Qed.

(** ** The operations *)
Section Ops.
Context (pid : Z).
#[local] Instance bst_sleep_ops : SleepOps bst :=
  {| op_sleep _ _ := swtch; op_wakeup _ := ret tt; op_pid := ret pid |}.
#[local] Instance bst_fuel : Fuel := 1%nat.

Lemma modb_ok i f s t : modb i f t s = ORet tt t (setbuf i (f (bb s i)) s).
Proof. reflexivity. Qed.
Lemma getb_ok i s t : getb i t s = ORet (bb s i) t s.
Proof. reflexivity. Qed.

(** [bscan] finds the first buffer on its way that satisfies [p]. *)
Lemma bscan_ok dir p c t s :
  bhead ∉ c -> (length c <= NBUF)%nat -> path (fun i => dir (bb s i)) (c ++ [bhead]) ->
  bscan dir p (hd bhead c) t s = ORet (find (fun i => p (bb s i)) c) t s.
Proof.
  unfold bscan. intros Hh Hlen. assert (Hf : (length c < S NBUF)%nat) by lia. clear Hlen.
  revert Hh Hf. generalize (S NBUF). induction c as [|x c IH]; intros n Hh Hn Hp; destruct n as [|n]; try (simpl in Hn; lia).
  - cbn [loop hd]. unfold bind at 1. rewrite Nat.eqb_refl. reflexivity.
  - cbn [loop hd]. unfold bind at 1. rewrite (proj2 (Nat.eqb_neq _ _)) by set_solver.
    kstep (getb_ok x s t). cbn [find]. destruct (p (bb s x)); [reflexivity|].
    unfold ret at 1. cbn [obind]. assert (dir (bb s x) = hd bhead c) as ->.
    { destruct c; [apply Hp|]. by destruct Hp as [-> _]. }
    apply IH; [set_solver|simpl in Hn; lia|]. destruct c; [done|apply Hp].
Qed.

Lemma modb_set i f b s t :
  (i < length (bs_bufs s))%nat -> modb i f t (setbuf i b s) = ORet tt t (setbuf i (f b) s).
Proof.
  intros Hi. unfold modb, hmod, modify. f_equal. change (lget has (setbuf i b s)) with (bs_bufs (setbuf i b s)).
  change (bs_bufs (setbuf i b s) !!! i) with (bb (setbuf i b s) i). rewrite bb_set by auto.
  apply (setbuf_set i b (f b) s).
Qed.

(** The lock of a buffer that is not locked is taken at once. *)
Lemma acquiresleep_free i b s t :
  (i < length (bs_bufs s))%nat -> sl_locked (b_lock b) = 0 -> LSleep (SLbuf i) ∉ held t ->
  acquiresleep (buf_lock i) (SLbuf i) t (setbuf i b s) = ORet tt t (setbuf i (b <| b_lock := Sleeplock 1 pid |>) s).
Proof.
  intros Hi Hl Ht. unfold acquiresleep. kstep (acquire_free (LSleep (SLbuf i)) t (setbuf i b s) Ht).
  assert (Hg : lget (buf_lock i) (setbuf i b s) = b_lock b).
  { change (b_lock (bb (setbuf i b s) i) = b_lock b). by rewrite bb_set by auto. }
  unfold bst_fuel, fuel, loop, bind, gets. cbn [obind]. rewrite Hg, Hl.
  cbn [Z.eqb negb obind ret op_pid bst_sleep_ops modify]. rewrite release_top, tls_eta. f_equal.
  change (setbuf i ((bb (setbuf i b s) i) <| b_lock := Sleeplock 1 pid |>) (setbuf i b s) = setbuf i (b <| b_lock := Sleeplock 1 pid |>) s).
  rewrite bb_set by auto. apply setbuf_set.
Qed.

(** ** [bget] *)

Lemma ring_forward order s : binv order s ->
  b_next (bb s bhead) = hd bhead order /\ path (fun i => b_next (bb s i)) (order ++ [bhead]).
Proof.
  intros Hi. destruct (bi_ring _ _ Hi) as [_ H _]. destruct order; simpl in *; [tauto|]. split; apply H.
Qed.
Lemma ring_backward order s : binv order s ->
  b_prev (bb s bhead) = hd bhead (rev order) /\ path (fun i => b_prev (bb s i)) (rev order ++ [bhead]).
Proof.
  intros Hi. destruct (bi_ring _ _ Hi) as [_ _ H]. destruct (rev order); simpl in *; [tauto|]. split; apply H.
Qed.
Lemma order_facts order s : binv order s ->
  (bhead ∉ order) /\ length order = NBUF /\ (forall i, i ∈ order <-> (i < NBUF)%nat).
Proof.
  intros Hi. destruct (bi_ring _ _ Hi) as [H _ _]. apply NoDup_cons in H as [H _].
  pose proof (bi_perm _ _ Hi) as Hp. split; [exact H|]. split; [by rewrite Hp, length_seq|].
  intros i. rewrite Hp, elem_of_seq. lia.
Qed.

(** The least recently used buffer without users. *)
Definition victim (order : list nat) (s : bst) : option nat := find (fun i => b_refcnt (bb s i) =? 0) (rev order).

Definition hit (blk : Z) (order : list nat) (s : bst) : option nat := find (fun i => bkey blk (bb s i)) order.

Definition recycled (blk : Z) (b : buf) : buf :=
  b <| b_dev := ROOTDEV |> <| b_blockno := blk |> <| b_valid := 0 |> <| b_refcnt := 1 |>.
Definition used_again (b : buf) : buf := b <| b_refcnt ::= (fun r => u32 (r + 1)) |>.

(** What [bget] does under [bcache.lock], before it waits for the buffer. *)
Lemma bget_ok order blk t s :
  binv order s -> LBcache ∉ held t ->
  bget ROOTDEV blk t s =
    match hit blk order s with
    | Some i => (acquiresleep (buf_lock i) (SLbuf i) ;; ret i) t (setbuf i (used_again (bb s i)) s)
    | None =>
        match victim order s with
        | Some i => (acquiresleep (buf_lock i) (SLbuf i) ;; ret i) t (setbuf i (recycled blk (bb s i)) s)
        | None => OPanic "bget: no buffers"
        end
    end.
Proof.
  intros Hi Ht. destruct (order_facts _ _ Hi) as (Hh & Hlen & _). unfold bget.
  kstep (acquire_free LBcache t s Ht). kstep (getb_ok bhead s (Tls (LBcache :: held t) (me t))).
  destruct (ring_forward _ _ Hi) as [-> Hf]. destruct (ring_backward _ _ Hi) as [-> Hb].
  kstep (bscan_ok b_next (fun b => (b_dev b =? ROOTDEV) && (b_blockno b =? blk)) order (Tls (LBcache :: held t) (me t)) s Hh (Nat.eq_le_incl _ _ Hlen) Hf).
  change (find (fun i => _) order) with (hit blk order s). destruct (hit blk order s) as [i|].
  - kstep (modb_ok i used_again s (Tls (LBcache :: held t) (me t))).
    kstep (release_top LBcache (held t) (me t) (setbuf i (used_again (bb s i)) s)). by rewrite tls_eta.
  - assert (Hr : bhead ∉ rev order) by (rewrite <- (Permutation_rev order); exact Hh).
    assert (Hl : (length (rev order) <= NBUF)%nat) by (rewrite length_rev; lia).
    kstep (bscan_ok b_prev (fun b => b_refcnt b =? 0) (rev order) (Tls (LBcache :: held t) (me t)) s Hr Hl Hb).
    change (find (fun i => _) (rev order)) with (victim order s). destruct (victim order s) as [i|]; [|reflexivity].
    kstep (modb_ok i (recycled blk) s (Tls (LBcache :: held t) (me t))).
    kstep (release_top LBcache (held t) (me t) (setbuf i (recycled blk (bb s i)) s)). by rewrite tls_eta.
Qed.

Lemma hit_some order blk s i : binv order s -> hit blk order s = Some i -> cached s i blk.
Proof.
  intros Hi E. apply find_some in E as [Hin E]. split; [|exact E].
  apply (order_facts _ _ Hi). by apply list_elem_of_In.
Qed.
Lemma hit_none order blk s : binv order s -> hit blk order s = None -> forall i, ~ cached s i blk.
Proof.
  intros Hi E i [Hlt Hk]. apply (order_facts _ _ Hi) in Hlt. rewrite list_elem_of_In in Hlt.
  eapply find_none in E; [|exact Hlt]. simpl in E. congruence.
Qed.
Lemma victim_some order s i : binv order s -> victim order s = Some i -> (i < NBUF)%nat /\ b_refcnt (bb s i) = 0.
Proof.
  intros Hi E. apply find_some in E as [Hin E]. split; [|lia].
  apply (order_facts _ _ Hi). apply list_elem_of_In. by apply in_rev.
Qed.
Lemma victim_none order s : binv order s -> victim order s = None -> forall i, (i < NBUF)%nat -> b_refcnt (bb s i) <> 0.
Proof.
  intros Hi E i Hlt. apply (order_facts _ _ Hi) in Hlt. rewrite list_elem_of_In, in_rev in Hlt.
  eapply find_none in E; [|exact Hlt]. simpl in E. lia.
Qed.

(** ** [bread] *)

(** The buffer [bread] returns, from the one [bget] chose. *)
Definition loaded (dk : Z -> mem) (b : buf) : buf :=
  if b_valid b =? 0 then b <| b_data := dk (b_blockno b) |> <| b_valid := 1 |> else b.
Definition locked_by (b : buf) : buf := b <| b_lock := Sleeplock 1 pid |>.

Lemma bread_ok blk i b t s :
  (i < length (bs_bufs s))%nat -> sl_locked (b_lock b) = 0 -> LSleep (SLbuf i) ∉ held t ->
  bget ROOTDEV blk t s = (acquiresleep (buf_lock i) (SLbuf i) ;; ret i) t (setbuf i b s) ->
  bread ROOTDEV blk t s = ORet i t (setbuf i (loaded (bs_disk s) (locked_by b)) s).
Proof.
  intros Hi Hl Ht E. unfold bread. unfold bind at 1. rewrite E. unfold bind at 1.
  rewrite (acquiresleep_free i b s t Hi Hl Ht). cbn [obind ret].
  kstep (getb_ok i (setbuf i (locked_by b) s) t). rewrite bb_set by auto. unfold loaded.
  destruct (b_valid (locked_by b) =? 0); [|reflexivity]. cbn [when].
  unfold bind at 1. unfold bind at 1, virtio_disk_rw, bst_disk_ops. cbn [obind]. rewrite bb_set, setbuf_set by auto.
  rewrite modb_set by auto. reflexivity.
Qed.

(** The new buffer keeps the invariant and changes no block. *)
Lemma bread_keeps order blk i b s (b' := loaded (bs_disk s) (locked_by b)) :
  binv order s -> (i < NBUF)%nat ->
  b_next b = b_next (bb s i) -> b_prev b = b_prev (bb s i) -> b_data b = b_data (bb s i) ->
  b_dev b = ROOTDEV -> b_blockno b = blk -> 0 < b_refcnt b < 4294967296 ->
  b = used_again (bb s i) /\ cached s i blk \/
    b = recycled blk (bb s i) /\ (forall j, ~ cached s j blk) /\ b_refcnt (bb s i) = 0 ->
  binv order (setbuf i b' s) /\ (forall x, view (setbuf i b' s) x = view s x) /\ b_data b' = view s blk.
Proof.
  intros Hinv Hi Hn Hp Hd Hdev Hblk Href Hcase.
  assert (Hf : b_next b' = b_next b /\ b_prev b' = b_prev b /\ b_dev b' = b_dev b /\ b_blockno b' = b_blockno b /\
    b_refcnt b' = b_refcnt b /\ b_valid b' <> 0).
  { subst b'. unfold loaded. destruct (b_valid (locked_by b) =? 0) eqn:E; repeat split; simpl in *; lia. }
  destruct Hf as (F1 & F2 & F3 & F4 & F5 & F6).
  assert (Hv : b_data b' = view s blk).
  { subst b'. unfold loaded. destruct (view_cases _ _ blk Hinv) as [(j & Hj & Hjv & ->)|[Hno ->]].
    - destruct Hcase as [[-> Hc]|(-> & Hc & _)]; [|by apply Hc in Hj]. rewrite (bi_uniq _ _ Hinv _ _ _ Hj Hc) in *.
      simpl. destruct (b_valid (bb s i) =? 0) eqn:E; [lia|reflexivity].
    - destruct (b_valid (locked_by b) =? 0) eqn:E; [simpl in *; by rewrite Hblk|]. exfalso.
      destruct Hcase as [[-> Hc]|(-> & _)]; simpl in E; [apply Hno in Hc|]; lia. }
  assert (Hb : binv order (setbuf i b' s)).
  { apply binv_set; auto; [congruence..| |].
    - split; rewrite ?F5, ?F3; intros; try lia; done.
    - rewrite F4, Hblk. intros j Hj _. destruct Hcase as [[_ Hc]|(_ & Hc & _)]; [|by apply Hc in Hj].
      by eapply (bi_uniq _ _ Hinv). }
  split; [exact Hb|]. split; [|exact Hv]. apply (view_set order); auto.
  - intros _. by rewrite F4, Hblk.
  - intros Hold. destruct Hcase as [[_ [_ Hc]]|(_ & _ & Hr)].
    + left. apply bkey_spec in Hc. rewrite F3, F4. split; [exact F6|]. split; [exact Hdev|]. destruct Hc. congruence.
    + right. by apply (bo_clean _ _ (bi_buf _ _ Hinv i Hi)).
Qed.

(** The state [s'] after [bread] gave buffer [i] of block [blk] in [s]. *)
Record bread_post (order : list nat) (blk : Z) (s : bst) (i : nat) (s' : bst) : Prop := {
  bp_inv : binv order s';
  bp_cached : cached s' i blk;
  bp_valid : b_valid (bb s' i) <> 0;
  bp_lock : b_lock (bb s' i) = Sleeplock 1 pid;
  bp_data : b_data (bb s' i) = view s blk;
  bp_view : forall x, view s' x = view s x;
  bp_others : forall j, j <> i -> bb s' j = bb s j;
  bp_rest : same_rest s s';
}.

Lemma bread_gives order blk i b t s :
  binv order s -> LSleep (SLbuf i) ∉ held t -> (i < NBUF)%nat -> sl_locked (b_lock b) = 0 ->
  bget ROOTDEV blk t s = (acquiresleep (buf_lock i) (SLbuf i) ;; ret i) t (setbuf i b s) ->
  b_next b = b_next (bb s i) -> b_prev b = b_prev (bb s i) -> b_data b = b_data (bb s i) ->
  b_dev b = ROOTDEV -> b_blockno b = blk -> 0 < b_refcnt b < 4294967296 ->
  b = used_again (bb s i) /\ cached s i blk \/
    b = recycled blk (bb s i) /\ (forall j, ~ cached s j blk) /\ b_refcnt (bb s i) = 0 ->
  exists s', bread ROOTDEV blk t s = ORet i t s' /\ bread_post order blk s i s' /\ b_refcnt (bb s' i) = b_refcnt b.
Proof.
  intros Hinv HS Hi Hl Eb Hn Hp Hd Hdev Hblk Hr Hcase. pose proof (bi_len _ _ Hinv) as Hlen.
  destruct (bread_keeps order blk i b s) as (K1 & K2 & K3); auto.
  eexists. split; [apply (bread_ok blk i b); auto; lia|].
  split; [split; auto|]; unfold cached; rewrite ?bb_set, ?bkey_spec by lia;
    try (unfold loaded; destruct (b_valid (locked_by b) =? 0) eqn:Ev; simpl in *; auto; lia).
  - exact K3.
  - intros j Hj. by apply bb_set_ne.
  - done.
Qed.

(** Either there is a buffer, or all are in use. *)
Lemma bread_cases (order : list nat) (blk : Z) (t : tls) (s : bst)
    (Hinv : binv order s) (HB : LBcache ∉ held t) (HS : forall i, LSleep (SLbuf i) ∉ held t)
    (Hfree : forall i, cached s i blk -> sl_locked (b_lock (bb s i)) = 0)
    (Hcnt : forall i, cached s i blk -> b_refcnt (bb s i) + 1 < 4294967296) :
  (exists i s', bread ROOTDEV blk t s = ORet i t s' /\ bread_post order blk s i s' /\
     (cached s i blk /\ b_refcnt (bb s' i) = b_refcnt (bb s i) + 1 \/
      (forall j, ~ cached s j blk) /\ victim order s = Some i /\ b_refcnt (bb s' i) = 1)) \/
  (bread ROOTDEV blk t s = OPanic "bget: no buffers" /\
     (forall j, ~ cached s j blk) /\ forall j, (j < NBUF)%nat -> b_refcnt (bb s j) <> 0).
Proof.
  pose proof (bget_ok order blk t s Hinv HB) as E.
  destruct (hit blk order s) as [i|] eqn:Eh; [|destruct (victim order s) as [i|] eqn:Ev].
  - pose proof (hit_some _ _ _ _ Hinv Eh) as [Hi Hk].
    pose proof (bo_ref _ _ (bi_buf _ _ Hinv i Hi)). pose proof (Hcnt i (conj Hi Hk)) as Hc1.
    assert (Hu : b_refcnt (used_again (bb s i)) = b_refcnt (bb s i) + 1) by (simpl; apply u32_small; lia).
    left. destruct (bread_gives order blk i (used_again (bb s i)) t s) as (s' & E' & Hp & Hr); auto;
      try (apply bkey_spec in Hk; simpl; tauto); [by apply Hfree|lia|left; by repeat split|].
    exists i, s'. split; [exact E'|]. split; [exact Hp|]. left. split; [by split|congruence].
  - pose proof (hit_none _ _ _ Hinv Eh) as Hc. destruct (victim_some _ _ _ Hinv Ev) as [Hi Hr].
    left. destruct (bread_gives order blk i (recycled blk (bb s i)) t s) as (s' & E' & Hp & Hr'); auto;
      try (simpl; lia); [by apply (bo_free _ _ (bi_buf _ _ Hinv i Hi))|].
    exists i, s'. split; [exact E'|]. split; [exact Hp|]. right. by repeat split.
  - right. split; [unfold bread, bind; by rewrite E|]. split; [by eapply hit_none|by eapply victim_none].
Qed.

(** C12: the buffer cache keeps one copy of a block.  In a consistent cache,
    when nobody holds the lock of the block's buffer, [bread] returns a locked
    buffer that holds the current contents of the block; the contents of no
    block change, no other buffer changes and the ring stays as it was.  The
    buffer is the one that held the block, or, when none did, the least
    recently used one without users.  [bread] panics only when the block has
    no buffer and every buffer has users. *)
Theorem bread_spec (order : list nat) (blk : Z) (t : tls) (s : bst)
    (Hinv : binv order s) (HB : LBcache ∉ held t) (HS : forall i, LSleep (SLbuf i) ∉ held t)
    (Hfree : forall i, cached s i blk -> sl_locked (b_lock (bb s i)) = 0)
    (Hcnt : forall i, cached s i blk -> b_refcnt (bb s i) + 1 < 4294967296) :
  (exists i s', bread ROOTDEV blk t s = ORet i t s' /\ bread_post order blk s i s' /\
     (cached s i blk /\ b_refcnt (bb s' i) = b_refcnt (bb s i) + 1 \/
      (forall j, ~ cached s j blk) /\ victim order s = Some i /\ b_refcnt (bb s' i) = 1)) \/
  (bread ROOTDEV blk t s = OPanic "bget: no buffers" /\
     (forall j, ~ cached s j blk) /\ forall j, (j < NBUF)%nat -> b_refcnt (bb s j) <> 0).
Proof. by apply bread_cases. Qed.

(** ** [brelse] *)

(** A buffer without its pointers. *)
Definition core (b : buf) : buf := b <| b_next := 0%nat |> <| b_prev := 0%nat |>.
Definition link_next (i v : nat) (s : bst) : bst := setbuf i ((bb s i) <| b_next := v |>) s.
Definition link_prev (i v : nat) (s : bst) : bst := setbuf i ((bb s i) <| b_prev := v |>) s.

Definition nexts (s : bst) (i : nat) : nat := b_next (bb s i).
Definition prevs (s : bst) (i : nat) : nat := b_prev (bb s i).

(** From [s] to [s'] only pointers changed, and they are [f] and [g] now. *)
Record links (s s' : bst) (f g : nat -> nat) : Prop := {
  ln_next : forall j, nexts s' j = f j;
  ln_prev : forall j, prevs s' j = g j;
  ln_core : forall j, core (bb s' j) = core (bb s j);
  ln_len : length (bs_bufs s') = length (bs_bufs s);
  ln_rest : same_rest s s';
}.

Lemma links_next i v s s' f g : (i < length (bs_bufs s))%nat ->
  links s s' f g -> links s (link_next i v s') (upd_fun f i v) g.
Proof.
  intros Hi [H1 H2 H3 H4 H5]. rewrite <- H4 in Hi.
  split; [intros j..| |]; unfold nexts, prevs, link_next, upd_fun in *;
    try (destruct (decide (j = i)) as [->|]; [rewrite bb_set by auto|rewrite bb_set_ne by auto]; simpl; auto; by rewrite <- H3).
  - rewrite <- H4. apply setbuf_len.
  - exact H5.
Qed.
Lemma links_prev i v s s' f g : (i < length (bs_bufs s))%nat ->
  links s s' f g -> links s (link_prev i v s') f (upd_fun g i v).
Proof.
  intros Hi [H1 H2 H3 H4 H5]. rewrite <- H4 in Hi.
  split; [intros j..| |]; unfold nexts, prevs, link_prev, upd_fun in *;
    try (destruct (decide (j = i)) as [->|]; [rewrite bb_set by auto|rewrite bb_set_ne by auto]; simpl; auto; by rewrite <- H3).
  - rewrite <- H4. apply setbuf_len.
  - exact H5.
Qed.

(** Moving a buffer in the ring changes the pointers only. *)
Lemma binv_relink order order' s s' :
  binv order s -> links s s' (nexts s') (prevs s') -> order' ≡ₚ order -> ring (nexts s') (prevs s') order' ->
  binv order' s' /\ forall x, view s' x = view s x.
Proof.
  intros Hi [_ _ Hc Hlen Hd%same_rest_disk] Hp Hr.
  assert (Hf : forall j, b_valid (bb s' j) = b_valid (bb s j) /\ b_dev (bb s' j) = b_dev (bb s j) /\
    b_blockno (bb s' j) = b_blockno (bb s j) /\ b_lock (bb s' j) = b_lock (bb s j) /\
    b_refcnt (bb s' j) = b_refcnt (bb s j) /\ b_data (bb s' j) = b_data (bb s j)).
  { intros j. specialize (Hc j). unfold core in Hc. destruct (bb s' j), (bb s j). simpl in *. by injection Hc. }
  assert (Hk : forall j blk, bkey blk (bb s' j) = bkey blk (bb s j)).
  { intros j blk. unfold bkey. destruct (Hf j) as (_ & -> & -> & _). done. }
  split.
  - split; [rewrite Hlen; apply Hi|by rewrite Hp; apply Hi|exact Hr| |].
    + intros i j blk. unfold cached. rewrite !Hk. apply (bi_uniq _ _ Hi).
    + intros i Hlt. destruct (bi_buf _ _ Hi i Hlt). destruct (Hf i) as (E1 & E2 & E3 & E4 & E5 & E6).
      split; rewrite ?E1, ?E2, ?E3, ?E4, ?E5, ?E6, ?Hd; auto.
  - intros x. unfold view. rewrite Hd.
    assert (forall l, find (fun i => bkey x (bb s' i) && negb (b_valid (bb s' i) =? 0)) l =
      find (fun i => bkey x (bb s i) && negb (b_valid (bb s i) =? 0)) l) as ->.
    { intros l. induction l as [|i l IH]; [done|]. simpl. rewrite Hk, (proj1 (Hf i)), IH. done. }
    destruct (find _ _) as [i|]; [apply Hf|done].
Qed.

Definition move_front (b : nat) (s : bst) : bst :=
  let nx := nexts s b in let pv := prevs s b in
  let s := link_next pv nx (link_prev nx pv s) in
  let n := nexts s bhead in
  link_next bhead b (link_prev n b (link_prev b bhead (link_next b n s))).

Lemma ring_ext f g f' g' order :
  (forall i, f i = f' i) -> (forall i, g i = g' i) -> ring f g order -> ring f' g' order.
Proof.
  intros Hf Hg [H1 H2 H3]. split; [exact H1| |].
  - revert H2. by apply (path_ext _ _ (bhead :: order)).
  - revert H3. by apply (path_ext _ _ (bhead :: rev order)).
Qed.

Lemma head_elem (l : list nat) x : head l = Some x -> x ∈ l.
Proof. destruct l; [done|]. intros [= ->]. set_solver. Qed.

(** The pointers [brelse] follows lead to buffers or the head. *)
Lemma links_range pre b post s : binv (pre ++ b :: post) s ->
  (nexts s b <= NBUF)%nat /\ (prevs s b <= NBUF)%nat /\ (nexts s bhead <= NBUF)%nat.
Proof.
  intros Hi. destruct (order_facts _ _ Hi) as (_ & _ & Ho).
  destruct (ring_neighbours _ _ _ _ _ (bi_ring _ _ Hi)) as [H1 H2]. destruct (ring_forward _ _ Hi) as [H3 _].
  assert (Hin : forall x, x ∈ (pre ++ b :: post) ++ [bhead] -> (x <= NBUF)%nat).
  { intros x Hx. apply elem_of_app in Hx as [Hx|Hx]; [apply Ho in Hx; lia|].
    apply list_elem_of_singleton in Hx. subst. reflexivity. }
  apply head_elem in H1, H2. split; [|split].
  - apply Hin. rewrite !elem_of_app, elem_of_cons. apply elem_of_app in H1 as [H1|H1]; auto.
  - apply Hin. rewrite <- (Permutation_rev pre) in H2. rewrite !elem_of_app. apply elem_of_app in H2 as [H2|H2]; auto.
  - unfold nexts. rewrite H3. apply Hin. destruct (pre ++ b :: post); simpl; apply list_elem_of_here.
Qed.

Lemma move_front_links s b (f1 := upd_fun (nexts s) (prevs s b) (nexts s b)) :
  length (bs_bufs s) = S NBUF -> (b < NBUF)%nat ->
  (nexts s b <= NBUF)%nat -> (prevs s b <= NBUF)%nat -> (nexts s bhead <= NBUF)%nat ->
  links s (move_front b s) (upd_fun (upd_fun f1 b (f1 bhead)) bhead b)
    (upd_fun (upd_fun (upd_fun (prevs s) (nexts s b) (prevs s b)) b bhead) (f1 bhead) b).
Proof.
  intros Hlen Lb L1 L2 L3.
  assert (H2 : links s (link_next (prevs s b) (nexts s b) (link_prev (nexts s b) (prevs s b) s)) f1
    (upd_fun (prevs s) (nexts s b) (prevs s b))).
  { apply links_next; [lia|]. apply links_prev; [lia|]. by split. }
  assert (Ln : (f1 bhead <= NBUF)%nat) by (unfold f1, upd_fun; destruct (decide _); lia).
  unfold move_front. rewrite (ln_next _ _ _ _ H2).
  apply links_next; [unfold bhead; lia|]. apply links_prev; [lia|]. apply links_prev; [lia|]. by apply links_next; [lia|].
Qed.

Lemma move_front_ok pre b post s (s' := move_front b s) : binv (pre ++ b :: post) s ->
  binv (b :: pre ++ post) s' /\ (forall x, view s' x = view s x) /\ (forall j, core (bb s' j) = core (bb s j)) /\
  same_rest s s'.
Proof.
  intros Hi. destruct (links_range _ _ _ _ Hi) as (L1 & L2 & L3).
  assert (Lb : (b < NBUF)%nat) by (apply (order_facts _ _ Hi); set_solver).
  pose proof (move_front_links s b (bi_len _ _ Hi) Lb L1 L2 L3) as Hl.
  destruct (binv_relink (pre ++ b :: post) (b :: pre ++ post) s s') as [B1 B2]; auto.
  - split; [done|done|apply Hl..].
  - apply Permutation_middle.
  - eapply ring_ext; [intros j; symmetry; apply Hl..|]. apply ring_move, Hi.
  - split; [exact B1|]. split; [exact B2|]. split; apply Hl.
Qed.

Lemma holdingsleep_ok i s t :
  b_lock (bb s i) = Sleeplock 1 pid -> LSleep (SLbuf i) ∉ held t ->
  holdingsleep (buf_lock i) (SLbuf i) t s = ORet true t s.
Proof.
  intros Hl Ht. unfold holdingsleep. kstep (acquire_free (LSleep (SLbuf i)) t s Ht).
  unfold bind, gets. cbn [obind]. change (lget (buf_lock i) s) with (b_lock (bb s i)). rewrite Hl.
  cbn [sl_locked Z.eqb negb op_pid bst_sleep_ops ret obind sl_pid]. rewrite release_top. cbn [obind ret].
  by rewrite Z.eqb_refl, tls_eta.
Qed.

Lemma releasesleep_ok i s t :
  LSleep (SLbuf i) ∉ held t ->
  releasesleep (buf_lock i) (SLbuf i) t s = ORet tt t (setbuf i ((bb s i) <| b_lock := Sleeplock 0 0 |>) s).
Proof.
  intros Ht. unfold releasesleep. kstep (acquire_free (LSleep (SLbuf i)) t s Ht).
  unfold bind, modify. cbn [obind op_wakeup bst_sleep_ops ret]. rewrite release_top, tls_eta. reflexivity.
Qed.

Definition released (b : buf) : buf := b <| b_lock := Sleeplock 0 0 |> <| b_refcnt ::= (fun r => u32 (r - 1)) |>.

Lemma brelse_ok b t s (s1 := setbuf b (released (bb s b)) s) :
  (b < length (bs_bufs s))%nat -> b_lock (bb s b) = Sleeplock 1 pid ->
  LBcache ∉ held t -> LSleep (SLbuf b) ∉ held t ->
  brelse b t s = ORet tt t (if b_refcnt (released (bb s b)) =? 0 then move_front b s1 else s1).
Proof.
  intros Hb Hl HB HS. unfold brelse. kstep (holdingsleep_ok b s t Hl HS). cbn [negb].
  kstep (releasesleep_ok b s t HS).
  kstep (acquire_free LBcache t (setbuf b ((bb s b) <| b_lock := Sleeplock 0 0 |>) s) HB).
  erewrite bind_ret by (apply modb_set; exact Hb). cbv beta.
  change (setbuf b _ s) with s1. set (t1 := Tls (LBcache :: held t) (me t)).
  kstep (getb_ok b s1 t1). assert (bb s1 b = released (bb s b)) as -> by (apply bb_set; exact Hb).
  destruct (b_refcnt (released (bb s b)) =? 0); cbn [when].
  - unfold bind at 1. assert (Hs1 : bb s1 b = released (bb s b)) by (apply bb_set; exact Hb). rewrite <- Hs1.
    kstep (modb_ok (nexts s1 b) (fun y => y <| b_prev := prevs s1 b |>) s1 t1).
    set (s2 := setbuf (nexts s1 b) _ s1).
    kstep (modb_ok (prevs s1 b) (fun y => y <| b_next := nexts s1 b |>) s2 t1).
    set (s3 := setbuf (prevs s1 b) _ s2). kstep (getb_ok bhead s3 t1).
    kstep (modb_ok b (fun y => y <| b_next := nexts s3 bhead |> <| b_prev := bhead |>) s3 t1).
    set (s4 := setbuf b _ s3).
    kstep (modb_ok (nexts s3 bhead) (fun y => y <| b_prev := b |>) s4 t1).
    rewrite modb_ok. cbn [obind]. unfold t1. rewrite release_top, tls_eta. f_equal.
    unfold move_front. fold (link_prev (nexts s1 b) (prevs s1 b) s1) in s2. 
    assert (Hs4 : s4 = link_prev b bhead (link_next b (nexts s3 bhead) s3)); [|by rewrite Hs4].
    unfold s4, link_prev, link_next. rewrite setbuf_set, bb_set; [reflexivity|].
    unfold s3, s2, s1, link_prev. rewrite !setbuf_len. exact Hb.
  - unfold bind at 1. cbn [ret obind]. unfold t1. by rewrite release_top, tls_eta.
Qed.

(** The buffer after [brelse], before it moves. *)
Lemma released_keeps order b s (s1 := setbuf b (released (bb s b)) s) :
  binv order s -> (b < NBUF)%nat -> 0 < b_refcnt (bb s b) ->
  (b_refcnt (bb s b) = 1 -> b_valid (bb s b) <> 0 -> b_data (bb s b) = bs_disk s (b_blockno (bb s b))) ->
  binv order s1 /\ (forall x, view s1 x = view s x) /\ b_refcnt (released (bb s b)) = b_refcnt (bb s b) - 1.
Proof.
  intros Hi Hb Hpos Hclean. destruct (bi_buf _ _ Hi b Hb) as [H1 H2 H3 H4].
  assert (Hr : b_refcnt (released (bb s b)) = b_refcnt (bb s b) - 1) by (simpl; apply u32_small; lia).
  assert (Hs1 : binv order s1).
  { apply binv_set; auto.
    - split; rewrite ?Hr; [lia|exact H2|done|]. intros Hz. apply Hclean. lia.
    - intros j Hj Hd. apply (bi_uniq _ _ Hi j b _ Hj). split; [exact Hb|]. by apply bkey_spec. }
  split; [exact Hs1|]. split; [|exact Hr]. apply (view_set order); auto.
  intros Hv. symmetry. apply (view_hit order); auto. split; [exact Hb|]. apply bkey_spec. by split; [apply H2|].
Qed.

Lemma brelse_gives (pre : list nat) (b : nat) (post : list nat) (t : tls) (s : bst)
    (Hinv : binv (pre ++ b :: post) s) (Hlock : b_lock (bb s b) = Sleeplock 1 pid)
    (Hpos : 0 < b_refcnt (bb s b)) (HB : LBcache ∉ held t) (HS : LSleep (SLbuf b) ∉ held t)
    (Hclean : b_refcnt (bb s b) = 1 -> b_valid (bb s b) <> 0 ->
       b_data (bb s b) = bs_disk s (b_blockno (bb s b))) :
  exists s', brelse b t s = ORet tt t s' /\
    binv (if b_refcnt (bb s b) =? 1 then b :: pre ++ post else pre ++ b :: post) s' /\
    (forall x, view s' x = view s x) /\ same_rest s s' /\
    core (bb s' b) =
      core ((bb s b) <| b_lock := Sleeplock 0 0 |> <| b_refcnt := b_refcnt (bb s b) - 1 |>) /\
    forall j, j <> b -> core (bb s' j) = core (bb s j).
Proof.
  assert (Hb : (b < NBUF)%nat) by (apply (order_facts _ _ Hinv); set_solver).
  destruct (released_keeps _ _ _ Hinv Hb Hpos Hclean) as (K1 & K2 & K3). pose proof (bi_len _ _ Hinv) as Hlen.
  eexists. split; [apply brelse_ok; auto; lia|]. rewrite K3.
  assert (Hr : released (bb s b) = (bb s b) <| b_lock := Sleeplock 0 0 |> <| b_refcnt := b_refcnt (bb s b) - 1 |>).
  { unfold released in *. simpl in *. by rewrite K3. }
  assert (Hcore : forall j, core (bb (setbuf b (released (bb s b)) s) j) = if decide (j = b) then core (released (bb s b)) else core (bb s j)).
  { intros j. destruct (decide (j = b)) as [->|]; [rewrite bb_set by lia|rewrite bb_set_ne by auto]; done. }
  destruct (b_refcnt (bb s b) =? 1) eqn:E; rewrite <- Hr.
  - rewrite (proj2 (Z.eqb_eq _ 0)) by lia. destruct (move_front_ok _ _ _ _ K1) as (M1 & M2 & M3 & M4).
    split; [exact M1|]. split; [intros x; by rewrite M2|]. split; [exact M4|]. split; [rewrite M3, Hcore; by rewrite decide_True|].
    intros j Hj. rewrite M3, Hcore. by rewrite decide_False.
  - rewrite (proj2 (Z.eqb_neq _ 0)) by lia. split; [exact K1|]. split; [exact K2|]. split; [done|].
    split; [rewrite Hcore; by rewrite decide_True|]. intros j Hj. rewrite Hcore. by rewrite decide_False.
Qed.

(** C13: [brelse] gives a buffer back.  The caller holds the lock of the
    buffer; when it is the last user, the block is on the disk.  The lock is
    free afterwards, the buffer has one user less and keeps its block, the
    contents of no block change, and a buffer without users moves to the
    front of the ring, so that the ring stays sorted by the last use. *)
Theorem brelse_spec (pre : list nat) (b : nat) (post : list nat) (t : tls) (s : bst)
    (Hinv : binv (pre ++ b :: post) s) (Hlock : b_lock (bb s b) = Sleeplock 1 pid)
    (Hpos : 0 < b_refcnt (bb s b)) (HB : LBcache ∉ held t) (HS : LSleep (SLbuf b) ∉ held t)
    (Hclean : b_refcnt (bb s b) = 1 -> b_valid (bb s b) <> 0 ->
       b_data (bb s b) = bs_disk s (b_blockno (bb s b))) :
  exists s', brelse b t s = ORet tt t s' /\
    binv (if b_refcnt (bb s b) =? 1 then b :: pre ++ post else pre ++ b :: post) s' /\
    (forall x, view s' x = view s x) /\ same_rest s s' /\
    core (bb s' b) =
      core ((bb s b) <| b_lock := Sleeplock 0 0 |> <| b_refcnt := b_refcnt (bb s b) - 1 |>) /\
    forall j, j <> b -> core (bb s' j) = core (bb s j).
Proof. by apply brelse_gives. Qed.

(** [binit] makes a consistent cache of the zeroed buffers. *)
Lemma binit_ok dk x t : exists s',
  binit t (Bst (replicate (S NBUF) zero_buf) dk [] x) = ORet tt t s' /\ binv (rev (seq 0 NBUF)) s' /\
  (forall i, (i < NBUF)%nat -> core (bb s' i) = zero_buf) /\ bs_base s' = dk /\ bs_trace s' = [] /\ bs_ext s' = x.
Proof.
  eexists. split; [vm_compute; reflexivity|].
  match goal with |- binv _ ?s /\ _ => set (s' := s) end.
  assert (Hall : forall i, (i < NBUF)%nat -> core (bb s' i) = zero_buf).
  { intros i Hi. assert (Hf : Forall (fun b => core b = zero_buf) (take NBUF (bs_bufs s'))) by (vm_compute; repeat constructor).
    apply (Forall_lookup_1 (fun b => core b = zero_buf) (take NBUF (bs_bufs s')) i); [exact Hf|]. rewrite lookup_take_lt by exact Hi.
    apply list_lookup_lookup_total_lt. vm_compute in Hi |- *. lia. }
  split; [|split; [exact Hall|done]]. split.
  - reflexivity.
  - symmetry. apply Permutation_rev.
  - split; [apply (bool_decide_eq_true_1 _); vm_compute; reflexivity|vm_compute; repeat split..].
  - intros i j blk [Hi Hk]. apply bkey_spec in Hk as [Hd _].
    assert (b_dev (core (bb s' i)) = 0) by (by rewrite Hall). simpl in *. unfold ROOTDEV in Hd. lia.
  - intros i Hi. pose proof (Hall i Hi) as Hc. destruct (bb s' i) as [v dsk d k lk r p n da]. unfold core in Hc.
    simpl in Hc. injection Hc as -> -> -> -> -> -> ->. split; simpl; done || lia.
Qed.
End Ops.
End Cache.

(** ** The cache after [binit] *)

Lemma fresh_not_cached {X} (s : bst X) i blk :
  (forall i, (i < NBUF)%nat -> core (bb s i) = zero_buf) -> ~ cached s i blk.
Proof.
  intros H [Hi Hk]. apply bkey_spec in Hk as [Hd _]. specialize (H i Hi). apply (f_equal b_dev) in H. simpl in H.
  rewrite Hd in H. discriminate.
Qed.

(** ... with buffer [i] in use. *)
Definition in_use {X} (pid : Z) (i : nat) (s : bst X) : bst X :=
  setbuf i ((bb s i) <| b_lock := Sleeplock 1 pid |> <| b_refcnt := 1 |>) s.

Lemma in_use_inv {X} pid order i (s : bst X) :
  binv order s -> (forall i, (i < NBUF)%nat -> core (bb s i) = zero_buf) -> (i < NBUF)%nat -> binv order (in_use pid i s).
Proof.
  intros Hi Hf Hlt. apply binv_set; auto; [split; simpl; try done|].
  - apply (bi_buf _ _ Hi i Hlt).
  - intros j Hj. by apply fresh_not_cached in Hj.
Qed.

Lemma bread_spec_witness : exists (s : bst unit) i s', binv (rev (seq 0 NBUF)) s /\ bread_post 1 (rev (seq 0 NBUF)) 7 s i s'.
Proof.
  destruct (binit_ok (fun _ _ => 0) tt thread0) as (s & _ & Hi & Hf & _).
  destruct (bread_spec 1 (rev (seq 0 NBUF)) 7 thread0 s) as [(i & s' & _ & H & _)|(_ & _ & H)].
  - exact Hi.
  - apply not_elem_of_nil.
  - intros i. apply not_elem_of_nil.
  - intros i Hc. by apply fresh_not_cached in Hc.
  - intros i Hc. by apply fresh_not_cached in Hc.
  - exists s, i, s'. by split.
  - exfalso. apply (H 0%nat); [unfold NBUF; lia|]. apply (f_equal b_refcnt (Hf 0%nat ltac:(unfold NBUF; lia))).
Defined.

Lemma brelse_spec_witness : exists (s s' : bst unit),
  @brelse (bst unit) _ (bst_sleep_ops 1) 0 thread0 (in_use 1 0 s) = ORet tt thread0 s' /\ binv (0%nat :: rev (seq 1 29)) s'.
Proof.
  destruct (binit_ok (fun _ _ => 0) tt thread0) as (s & _ & Hi & Hf & _).
  assert (H0 : (0 < NBUF)%nat) by (unfold NBUF; lia).
  assert (Hb : bb (in_use 1 0 s) 0 = (bb s 0) <| b_lock := Sleeplock 1 1 |> <| b_refcnt := 1 |>).
  { apply bb_set. rewrite (bi_len _ _ Hi). lia. }
  destruct (brelse_spec 1 (rev (seq 1 29)) 0 [] thread0 (in_use 1 0 s)) as (s' & E & H1 & _).
  - by apply in_use_inv.
  - by rewrite Hb.
  - by rewrite Hb.
  - apply not_elem_of_nil.
  - apply not_elem_of_nil.
  - rewrite Hb. simpl. intros _ Hv. pose proof (f_equal b_valid (Hf 0%nat H0)) as Hz. simpl in Hz. by rewrite Hz in Hv.
  - exists s, s'. split; [exact E|]. rewrite Hb in H1. simpl in H1. exact H1.
Defined.
