(* ===== verification/Virtio.v ===== *)
(** * The virtio disk driver (kernel/virtio_disk.c)

    Descriptors, the available and used rings, the bookkeeping of free
    descriptors and in-flight requests, and the driver's three entry points.
    The device is outside the sources: what it answers to a register read is
    an argument ([dev_read]), and what it does to the rings and to memory
    happens while the driver sleeps. *)

From S2P Require Import Prelude Kmonad Mem Riscv Kalloc Proc Iface Sleeplock Bio.

(** ** Constants of kernel/virtio.h *)

Definition NUM : nat := 8.
Definition VRING_DESC_F_NEXT : Z := 1.
Definition VRING_DESC_F_WRITE : Z := 2.
Definition VIRTIO_BLK_T_IN : Z := 0.
Definition VIRTIO_BLK_T_OUT : Z := 1.

(** The control registers, and their offsets from VIRTIO0. *)
Inductive vreg :=
| VIRTIO_MMIO_MAGIC_VALUE
| VIRTIO_MMIO_VERSION
| VIRTIO_MMIO_DEVICE_ID
| VIRTIO_MMIO_VENDOR_ID
| VIRTIO_MMIO_DEVICE_FEATURES
| VIRTIO_MMIO_DRIVER_FEATURES
| VIRTIO_MMIO_QUEUE_SEL
| VIRTIO_MMIO_QUEUE_NUM_MAX
| VIRTIO_MMIO_QUEUE_NUM
| VIRTIO_MMIO_QUEUE_READY
| VIRTIO_MMIO_QUEUE_NOTIFY
| VIRTIO_MMIO_INTERRUPT_STATUS
| VIRTIO_MMIO_INTERRUPT_ACK
| VIRTIO_MMIO_STATUS
| VIRTIO_MMIO_QUEUE_DESC_LOW
| VIRTIO_MMIO_QUEUE_DESC_HIGH
| VIRTIO_MMIO_DRIVER_DESC_LOW
| VIRTIO_MMIO_DRIVER_DESC_HIGH
| VIRTIO_MMIO_DEVICE_DESC_LOW
| VIRTIO_MMIO_DEVICE_DESC_HIGH.
Definition vreg_off (r : vreg) : Z :=
  match r with
  | VIRTIO_MMIO_MAGIC_VALUE => 0x000
  | VIRTIO_MMIO_VERSION => 0x004
  | VIRTIO_MMIO_DEVICE_ID => 0x008
  | VIRTIO_MMIO_VENDOR_ID => 0x00c
  | VIRTIO_MMIO_DEVICE_FEATURES => 0x010
  | VIRTIO_MMIO_DRIVER_FEATURES => 0x020
  | VIRTIO_MMIO_QUEUE_SEL => 0x030
  | VIRTIO_MMIO_QUEUE_NUM_MAX => 0x034
  | VIRTIO_MMIO_QUEUE_NUM => 0x038
  | VIRTIO_MMIO_QUEUE_READY => 0x044
  | VIRTIO_MMIO_QUEUE_NOTIFY => 0x050
  | VIRTIO_MMIO_INTERRUPT_STATUS => 0x060
  | VIRTIO_MMIO_INTERRUPT_ACK => 0x064
  | VIRTIO_MMIO_STATUS => 0x070
  | VIRTIO_MMIO_QUEUE_DESC_LOW => 0x080
  | VIRTIO_MMIO_QUEUE_DESC_HIGH => 0x084
  | VIRTIO_MMIO_DRIVER_DESC_LOW => 0x090
  | VIRTIO_MMIO_DRIVER_DESC_HIGH => 0x094
  | VIRTIO_MMIO_DEVICE_DESC_LOW => 0x0a0
  | VIRTIO_MMIO_DEVICE_DESC_HIGH => 0x0a4
  end.
Coercion vreg_off : vreg >-> Z.

Definition VIRTIO_CONFIG_S_ACKNOWLEDGE : Z := 1.
Definition VIRTIO_CONFIG_S_DRIVER : Z := 2.
Definition VIRTIO_CONFIG_S_DRIVER_OK : Z := 4.
Definition VIRTIO_CONFIG_S_FEATURES_OK : Z := 8.

Definition VIRTIO_BLK_F_RO : Z := 5.
Definition VIRTIO_BLK_F_SCSI : Z := 7.
Definition VIRTIO_BLK_F_CONFIG_WCE : Z := 11.
Definition VIRTIO_BLK_F_MQ : Z := 12.
Definition VIRTIO_F_ANY_LAYOUT : Z := 27.
Definition VIRTIO_RING_F_INDIRECT_DESC : Z := 28.
Definition VIRTIO_RING_F_EVENT_IDX : Z := 29.

(** ** State *)

(** The address in a descriptor: [&disk.ops[i]], [bcache.buf[b].data] or
    [&disk.info[i].status]. *)
Inductive daddr := ANull | AReq (i : nat) | AData (b : nat) | AStatus (i : nat).

(** [struct virtq_desc] *)
Record vdesc := Vdesc { d_addr : daddr; d_len : Z; d_flags : Z; d_next : Z }.
#[global] Instance eta_vdesc : Eta vdesc := fun r => Vdesc (d_addr r) (d_len r) (d_flags r) (d_next r).
Definition zero_desc : vdesc := Vdesc ANull 0 0 0.
#[global] Instance vdesc_inhabited : Inhabited vdesc := populate zero_desc.

(** [struct virtio_blk_req] *)
Record vreq := Vreq { r_type : Z; r_reserved : Z; r_sector : Z }.
#[global] Instance vreq_inhabited : Inhabited vreq := populate (Vreq 0 0 0).

(** [struct disk], with the rings it points to and the writes to the device's
    registers so far, most recent first. *)
Record vdisk := Vdisk {
  vd_desc : list vdesc;
  vd_avail_idx : Z;               (* avail->idx *)
  vd_avail : list Z;              (* avail->ring *)
  vd_dev_idx : Z;                 (* used->idx, written by the device *)
  vd_used : list Z;               (* used->ring[].id, written by the device *)
  vd_free : list bool;
  vd_used_idx : Z;
  vd_info : list (option nat * Z);
  vd_ops : list vreq;
  vd_out : list (Z * Z);
}.
#[global] Instance eta_vdisk : Eta vdisk := fun r =>
  Vdisk (vd_desc r) (vd_avail_idx r) (vd_avail r) (vd_dev_idx r) (vd_used r) (vd_free r) (vd_used_idx r)
    (vd_info r) (vd_ops r) (vd_out r).
Definition zero_vdisk : vdisk :=
  Vdisk (replicate NUM zero_desc) 0 (replicate NUM 0) 0 (replicate NUM 0) (replicate NUM false) 0
    (replicate NUM (None, 0)) (replicate NUM (Vreq 0 0 0)) [].

Section Virtio.
Context {S : Type} `{Has S vdisk} `{Has S bufs} `{Has S vmst} `{SleepOps S} `{Fuel} {L : LinkMap}.
(** The device's answer to a read of register [r] after the writes [ws]. *)
Context (dev_read : Z -> list (Z * Z) -> Z).

Definition vget {A} (f : vdisk -> A) : M S A := let* d := hget in ret (f d).
Definition vmod (f : vdisk -> vdisk) : M S unit := hmod f.

(** [*R(r)] and [*R(r) = v]; registers are 32 bits wide. *)
Definition reg_read (r : Z) : M S Z := vget (fun d => u32 (dev_read r (vd_out d))).
Definition reg_write (r v : Z) : M S unit := vmod (fun d => d <| vd_out ::= cons (r, u32 v) |>).

Definition clear_bit (x k : Z) : Z := Z.land x (Z.lnot (Z.shiftl 1 k)).

(** [virtio_disk_init()]; the queue memory is the [vd_] lists, its pages come
    from [kalloc]. *)
Definition virtio_disk_init : M S unit :=
  let* magic := reg_read VIRTIO_MMIO_MAGIC_VALUE in
  let* version := reg_read VIRTIO_MMIO_VERSION in
  let* device := reg_read VIRTIO_MMIO_DEVICE_ID in
  let* vendor := reg_read VIRTIO_MMIO_VENDOR_ID in
  if negb (magic =? 0x74726976) || negb (version =? 2) || negb (device =? 2) || negb (vendor =? 0x554d4551)
  then panic "could not find virtio disk"
  else
    reg_write VIRTIO_MMIO_STATUS 0 ;;
    let status := VIRTIO_CONFIG_S_ACKNOWLEDGE in
    reg_write VIRTIO_MMIO_STATUS status ;;
    let status := Z.lor status VIRTIO_CONFIG_S_DRIVER in
    reg_write VIRTIO_MMIO_STATUS status ;;
    let* features := reg_read VIRTIO_MMIO_DEVICE_FEATURES in
    let features := fold_left clear_bit
      [VIRTIO_BLK_F_RO; VIRTIO_BLK_F_SCSI; VIRTIO_BLK_F_CONFIG_WCE; VIRTIO_BLK_F_MQ; VIRTIO_F_ANY_LAYOUT;
       VIRTIO_RING_F_EVENT_IDX; VIRTIO_RING_F_INDIRECT_DESC] features in
    reg_write VIRTIO_MMIO_DRIVER_FEATURES features ;;
    let status := Z.lor status VIRTIO_CONFIG_S_FEATURES_OK in
    reg_write VIRTIO_MMIO_STATUS status ;;
    let* status := reg_read VIRTIO_MMIO_STATUS in
    if Z.land status VIRTIO_CONFIG_S_FEATURES_OK =? 0 then panic "virtio disk FEATURES_OK unset"
    else
      reg_write VIRTIO_MMIO_QUEUE_SEL 0 ;;
      let* ready := reg_read VIRTIO_MMIO_QUEUE_READY in
      if negb (ready =? 0) then panic "virtio disk should not be ready"
      else
        let* max := reg_read VIRTIO_MMIO_QUEUE_NUM_MAX in
        if max =? 0 then panic "virtio disk has no queue 0"
        else if max <? Z.of_nat NUM then panic "virtio disk max queue too short"
        else
          let* desc := inpart kalloc in
          let* avail := inpart kalloc in
          let* used := inpart kalloc in
          if (desc =? 0) || (avail =? 0) || (used =? 0) then panic "virtio disk kalloc"
          else
            vmod (fun d => d <| vd_desc := replicate NUM zero_desc |> <| vd_avail_idx := 0 |>
                             <| vd_avail := replicate NUM 0 |> <| vd_dev_idx := 0 |> <| vd_used := replicate NUM 0 |>) ;;
            reg_write VIRTIO_MMIO_QUEUE_NUM (Z.of_nat NUM) ;;
            reg_write VIRTIO_MMIO_QUEUE_DESC_LOW desc ;;
            reg_write VIRTIO_MMIO_QUEUE_DESC_HIGH (Z.shiftr desc 32) ;;
            reg_write VIRTIO_MMIO_DRIVER_DESC_LOW avail ;;
            reg_write VIRTIO_MMIO_DRIVER_DESC_HIGH (Z.shiftr avail 32) ;;
            reg_write VIRTIO_MMIO_DEVICE_DESC_LOW used ;;
            reg_write VIRTIO_MMIO_DEVICE_DESC_HIGH (Z.shiftr used 32) ;;
            reg_write VIRTIO_MMIO_QUEUE_READY 0x1 ;;
            for_each (seq 0 NUM) (fun i => vmod (fun d => d <| vd_free ::= <[i := true]> |>)) ;;
            reg_write VIRTIO_MMIO_STATUS (Z.lor status VIRTIO_CONFIG_S_DRIVER_OK).

(** ** Descriptors *)

(** [alloc_desc()]: an index, or [None] for -1. *)
Definition alloc_desc : M S (option nat) :=
  for_find (seq 0 NUM)
    (fun i =>
       let* f := vget vd_free in
       if (f !!! i : bool) then vmod (fun d => d <| vd_free ::= <[i := false]> |>) ;; ret (Some i)
       else ret None).

Definition free_desc (i : Z) : M S unit :=
  if Z.of_nat NUM <=? i then panic "free_desc 1"
  else
    let n := Z.to_nat i in
    let* f := vget vd_free in
    if (f !!! n : bool) then panic "free_desc 2"
    else
      vmod (fun d => d <| vd_desc ::= <[n := zero_desc]> |> <| vd_free ::= <[n := true]> |>) ;;
      op_wakeup CDiskFree.

(** [free_chain(i)]: each turn frees a descriptor that was not free, so [NUM]
    turns suffice. *)
Definition free_chain (i : Z) : M S unit :=
  loop (Datatypes.S NUM)
    (fun i =>
       let* d := vget (fun d => vd_desc d !!! Z.to_nat i) in
       free_desc i ;;
       if negb (Z.land (d_flags d) VRING_DESC_F_NEXT =? 0) then ret (inl (d_next d)) else ret (inr tt))
    i.

(** [alloc3_desc(idx)]: three descriptors, or none. *)
Definition alloc3_desc : M S (option (nat * nat * nat)) :=
  let* a := alloc_desc in
  match a with
  | None => ret None
  | Some a =>
      let* b := alloc_desc in
      match b with
      | None => free_desc (Z.of_nat a) ;; ret None
      | Some b =>
          let* c := alloc_desc in
          match c with
          | None => free_desc (Z.of_nat a) ;; free_desc (Z.of_nat b) ;; ret None
          | Some c => ret (Some (a, b, c))
          end
      end
  end.

(** Fill the three descriptors of a request for buffer [b]. *)
Definition set_request (a1 a2 a3 b : nat) (write : bool) (sector : Z) (d : vdisk) : vdisk :=
  d <| vd_ops ::= <[a1 := Vreq (if write then VIRTIO_BLK_T_OUT else VIRTIO_BLK_T_IN) 0 sector]> |>
    <| vd_desc ::= <[a1 := Vdesc (AReq a1) 16 VRING_DESC_F_NEXT (Z.of_nat a2)]> |>
    <| vd_desc ::= <[a2 := Vdesc (AData b) BSIZE
                      (Z.lor (if write then 0 else VRING_DESC_F_WRITE) VRING_DESC_F_NEXT) (Z.of_nat a3)]> |>
    <| vd_info ::= <[a1 := (Some b, 0xff)]> |>
    <| vd_desc ::= <[a3 := Vdesc (AStatus a1) 1 VRING_DESC_F_WRITE 0]> |>.

Definition virtio_rw (b : nat) (write : bool) : M S unit :=
  let* x := getb b in
  let sector := u32 (b_blockno x * (BSIZE / 512)) in
  acquire LVdisk ;;
  let* idx := loop fuel
    (fun _ : unit =>
       let* r := alloc3_desc in
       match r with
       | Some idx => ret (inr idx)
       | None => op_sleep CDiskFree LVdisk ;; ret (inl tt)
       end) tt in
  let '(a1, a2, a3) := idx in
  vmod (set_request a1 a2 a3 b write sector) ;;
  modb b (fun x => x <| b_disk := 1 |>) ;;
  vmod (fun d => d <| vd_avail ::= <[Z.to_nat (vd_avail_idx d mod Z.of_nat NUM) := Z.of_nat a1]> |>) ;;
  vmod (fun d => d <| vd_avail_idx ::= (fun i => u16 (i + 1)) |>) ;;
  reg_write VIRTIO_MMIO_QUEUE_NOTIFY 0 ;;
  loop fuel
    (fun _ : unit =>
       let* x := getb b in
       if b_disk x =? 1 then op_sleep (CBuf b) LVdisk ;; ret (inl tt) else ret (inr tt)) tt ;;
  vmod (fun d => d <| vd_info ::= <[a1 := (None, snd (vd_info d !!! a1))]> |>) ;;
  free_chain (Z.of_nat a1) ;;
  release LVdisk.

(** [virtio_disk_intr()].  The ring holds at most [NUM] completions, but new
    ones may arrive while it runs: [fuel] bounds the turns. *)
Definition virtio_disk_intr : M S unit :=
  acquire LVdisk ;;
  let* st := reg_read VIRTIO_MMIO_INTERRUPT_STATUS in
  reg_write VIRTIO_MMIO_INTERRUPT_ACK (Z.land st 0x3) ;;
  loop fuel
    (fun _ : unit =>
       let* d := hget in
       if vd_used_idx d =? vd_dev_idx d then ret (inr tt)
       else
         let id := Z.to_nat (vd_used d !!! Z.to_nat (vd_used_idx d mod Z.of_nat NUM)) in
         let '(ob, status) := vd_info d !!! id in
         if negb (status =? 0) then panic "virtio_disk_intr status"
         else
           match ob with
           | None => panic "kerneltrap"
           | Some b =>
               modb b (fun x => x <| b_disk := 0 |>) ;;
               op_wakeup (CBuf b) ;;
               vmod (fun d => d <| vd_used_idx ::= (fun i => u16 (i + 1)) |>) ;;
               ret (inl tt)
           end) tt ;;
  release LVdisk.

End Virtio.
