(* ===== verification/Log.v ===== *)
(** * The log (kernel/log.c)

    A physical redo log: [log_write] records which blocks a transaction
    changed and pins their buffers, [commit] copies them to the log, writes
    the header (the commit point), installs them and clears the header, and
    [initlog] replays what a crash left behind.  The log runs on any state
    that has block buffers ([BlockDev]) and the variable [log]. *)

From S2P Require Import Prelude Kmonad Mem Riscv Kalloc Proc Iface Sleeplock Bio.

(** ** The interface of the buffer cache

    What kernel/bio.c offers to its clients: locked buffers by handle, and
    access to the data and block number of a buffer one holds. *)
Class BlockDev (S : Type) := {
  bd_bread : Z -> Z -> M S nat;
  bd_bwrite : nat -> M S unit;
  bd_brelse : nat -> M S unit;
  bd_bpin : nat -> M S unit;
  bd_bunpin : nat -> M S unit;
  bd_blockno : nat -> S -> Z;                (* b->blockno *)
  bd_data : nat -> S -> mem;                 (* b->data *)
  bd_set : nat -> mem -> S -> S;
}.

#[global] Instance bio_block_dev {S} `{Has S bufs} `{SleepOps S} `{DiskOps S} `{Fuel} : BlockDev S := {|
  bd_bread := bread;
  bd_bwrite := bwrite;
  bd_brelse := brelse;
  bd_bpin := bpin;
  bd_bunpin := bunpin;
  bd_blockno b s := b_blockno ((lget has s : bufs) !!! b);
  bd_data b s := b_data ((lget has s : bufs) !!! b);
  bd_set b m s :=
    lput has (<[b := ((lget has s : bufs) !!! b) <| b_data := m |>]> (lget has s : bufs)) s;
|}.

(** [struct log]; [lh_block] has [LOGBLOCKS] entries. *)
Record logst := Logst {
  log_start : Z;
  log_outstanding : Z;
  log_committing : Z;
  log_dev : Z;
  lh_n : Z;
  lh_block : list Z;
}.
#[global] Instance eta_logst : Eta logst := fun r =>
  Logst (log_start r) (log_outstanding r) (log_committing r) (log_dev r) (lh_n r) (lh_block r).
Definition zero_log : logst := Logst 0 0 0 0 0 (replicate (Z.to_nat LOGBLOCKS) 0).

(** The header in a block: [n] and then the block numbers, as [int]s. *)
Definition hd_n (m : mem) : Z := i32 (load32 0 m).
Definition hd_block (m : mem) (i : nat) : Z := i32 (load32 (4 + 4 * Z.of_nat i) m).
Definition sizeof_logheader : Z := 4 + 4 * LOGBLOCKS.

(** The blocks of the log: the header and the logged blocks. *)
Definition in_log (start n : Z) : Prop := start <= n <= start + LOGBLOCKS.

(** [memmove] of a whole block over another. *)
Definition copy_block (src dst : mem) : mem := mwrite 0 (bytes_at src 0 (Z.to_nat BSIZE)) dst.
#[global] Arguments copy_block : simpl never.

Section Log.
Context {S : Type} `{BlockDev S} `{Has S logst} `{SleepOps S} `{Fuel}.

Definition lget_ {A} (f : logst -> A) : M S A := let* l := hget in ret (f l).
Definition lmod (f : logst -> logst) : M S unit := hmod f.

(** [memmove(dst->data, src->data, BSIZE)] *)
Definition copy_data (dst src : nat) : M S unit :=
  let* m := gets (bd_data src) in
  modify (fun s => bd_set dst (copy_block m (bd_data dst s)) s).

(** The number of turns of the loops [for(i = 0; i < log.lh.n; i++)]. *)
Definition lh_range : M S (list nat) := lget_ (fun l => seq 0 (Z.to_nat (lh_n l))).

Definition install_trans (recovering : bool) : M S unit :=
  let* r := lh_range in
  for_each r
    (fun tail =>
       let* l := hget in
       let* lbuf := bd_bread (log_dev l) (log_start l + Z.of_nat tail + 1) in
       let* dbuf := bd_bread (log_dev l) (lh_block l !!! tail) in
       copy_data dbuf lbuf ;;
       bd_bwrite dbuf ;;
       when (negb recovering) (bd_bunpin dbuf) ;;
       bd_brelse lbuf ;;
       bd_brelse dbuf).

(** [read_head()].  A header with more than [LOGBLOCKS] blocks would overrun
    [log.lh.block]; mkfs and [write_head] never produce one. *)
Definition read_head : M S unit :=
  let* l := hget in
  let* b := bd_bread (log_dev l) (log_start l) in
  let* m := gets (bd_data b) in
  lmod (fun l => l <| lh_n := hd_n m |>) ;;
  let* r := lh_range in
  for_each r
    (fun i =>
       if (i <? Z.to_nat LOGBLOCKS)%nat then lmod (fun l => l <| lh_block ::= <[i := hd_block m i]> |>)
       else panic "undefined behaviour: log.lh.block overrun") ;;
  bd_brelse b.

Definition write_head : M S unit :=
  let* l := hget in
  let* b := bd_bread (log_dev l) (log_start l) in
  modify (fun s => bd_set b (store32 0 (lh_n l) (bd_data b s)) s) ;;
  let* r := lh_range in
  for_each r
    (fun i => modify (fun s => bd_set b (store32 (4 + 4 * Z.of_nat i) (lh_block l !!! i) (bd_data b s)) s)) ;;
  bd_bwrite b ;;
  bd_brelse b.

Definition recover_from_log : M S unit :=
  read_head ;;
  install_trans true ;;
  lmod (fun l => l <| lh_n := 0 |>) ;;
  write_head.

(** [initlog(dev, sb)]; [logstart] is [sb->logstart]. *)
Definition initlog (dev logstart : Z) : M S unit :=
  if BSIZE <=? sizeof_logheader then panic "initlog: too big logheader"
  else
    lmod (fun l => l <| log_start := logstart |> <| log_dev := dev |>) ;;
    recover_from_log.

Definition begin_op : M S unit :=
  acquire LLog ;;
  loop fuel
    (fun _ : unit =>
       let* l := hget in
       if negb (log_committing l =? 0) then op_sleep CLog LLog ;; ret (inl tt)
       else if LOGBLOCKS <? lh_n l + (log_outstanding l + 1) * MAXOPBLOCKS then
         op_sleep CLog LLog ;; ret (inl tt)
       else
         lmod (fun l => l <| log_outstanding ::= (fun n => n + 1) |>) ;;
         release LLog ;;
         ret (inr tt)) tt.

Definition write_log : M S unit :=
  let* r := lh_range in
  for_each r
    (fun tail =>
       let* l := hget in
       let* to := bd_bread (log_dev l) (log_start l + Z.of_nat tail + 1) in
       let* from := bd_bread (log_dev l) (lh_block l !!! tail) in
       copy_data to from ;;
       bd_bwrite to ;;
       bd_brelse from ;;
       bd_brelse to).

Definition commit : M S unit :=
  let* n := lget_ lh_n in
  when (0 <? n)
    (write_log ;;
     write_head ;;
     install_trans false ;;
     lmod (fun l => l <| lh_n := 0 |>) ;;
     write_head).

Definition end_op : M S unit :=
  acquire LLog ;;
  lmod (fun l => l <| log_outstanding ::= (fun n => n - 1) |>) ;;
  let* l := hget in
  if negb (log_committing l =? 0) then panic "log.committing"
  else
    let do_commit := log_outstanding l =? 0 in
    (if do_commit then lmod (fun l => l <| log_committing := 1 |>) else op_wakeup CLog) ;;
    release LLog ;;
    when do_commit
      (commit ;;
       acquire LLog ;;
       lmod (fun l => l <| log_committing := 0 |>) ;;
       op_wakeup CLog ;;
       release LLog).

(** The index that the scan of [log_write] stops at. *)
Definition log_slot (l : logst) (blockno : Z) : nat :=
  match list_find (fun x => x = blockno) (take (Z.to_nat (lh_n l)) (lh_block l)) with
  | Some (i, _) => i
  | None => Z.to_nat (lh_n l)
  end.

Definition log_write (b : nat) : M S unit :=
  acquire LLog ;;
  let* l := hget in
  if LOGBLOCKS <=? lh_n l then panic "too big a transaction"
  else if log_outstanding l <? 1 then panic "log_write outside of trans"
  else
    let* blockno := gets (bd_blockno b) in
    let i := log_slot l blockno in
    lmod (fun l => l <| lh_block ::= <[i := blockno]> |>) ;;
    when (Z.of_nat i =? lh_n l)
      (bd_bpin b ;;
       lmod (fun l => l <| lh_n ::= (fun n => n + 1) |>)) ;;
    release LLog.

End Log.
