(* ===== verification/LogSpec.v ===== *)
(** * The log survives crashes

    The log of Log.v on an abstract block device whose writes are recorded in
    the order in which they reach the disk.  A crash keeps a prefix of the
    writes; [initlog] then runs on a machine that knows only the disk.  The
    theorems: whatever prefix of [commit]'s writes survives, recovery yields
    the old or the new contents of all blocks outside the log, the new ones
    exactly from the header write on; and recovery may itself be interrupted. *)

From S2P Require Import Prelude Kmonad Mem Riscv Kalloc Proc Iface Sleeplock Bio Disk Log.

(** ** An abstract block device *)

(** Buffers are named by their block.  A buffer nobody references has no
    contents of its own: the next [bread] takes them from the disk.  Locking a
    locked buffer would sleep for ever in a single thread. *)
Record astate := Astate {
  a_base : disk;
  a_trace : list (Z * mem);
  a_buf : Z -> mem;
  a_ref : Z -> Z;
  a_locked : Z -> bool;
  a_log : logst;
}.
#[global] Instance eta_astate : Eta astate := fun r =>
  Astate (a_base r) (a_trace r) (a_buf r) (a_ref r) (a_locked r) (a_log r).

Definition dsk (s : astate) : disk := apply_writes (a_base s) (a_trace s).

Definition rd (n : Z) (s : astate) : astate :=
  s <| a_buf := if a_ref s n =? 0 then upd (a_buf s) n (dsk s n) else a_buf s |>
    <| a_ref := upd (a_ref s) n (a_ref s n + 1) |> <| a_locked := upd (a_locked s) n true |>.
Definition wr (n : Z) (s : astate) : astate := s <| a_trace ::= (fun l => l ++ [(n, a_buf s n)]) |>.
Definition rel (n : Z) (s : astate) : astate :=
  s <| a_ref := upd (a_ref s) n (a_ref s n - 1) |> <| a_locked := upd (a_locked s) n false |>.

#[global] Instance a_block_dev : BlockDev astate := {|
  bd_bread _ n := fun t s =>
    if a_locked s n then OPanic "deadlock" else ORet (Z.to_nat n) t (rd n s);
  bd_bwrite b := fun t s =>
    if a_locked s (Z.of_nat b) then ORet tt t (wr (Z.of_nat b) s) else OPanic "bwrite";
  bd_brelse b := fun t s =>
    if a_locked s (Z.of_nat b) then ORet tt t (rel (Z.of_nat b) s) else OPanic "brelse";
  bd_bpin b := modify (fun s => s <| a_ref := upd (a_ref s) (Z.of_nat b) (a_ref s (Z.of_nat b) + 1) |>);
  bd_bunpin b := modify (fun s => s <| a_ref := upd (a_ref s) (Z.of_nat b) (a_ref s (Z.of_nat b) - 1) |>);
  bd_blockno b _ := Z.of_nat b;
  bd_data b s := a_buf s (Z.of_nat b);
  bd_set b m s := s <| a_buf := upd (a_buf s) (Z.of_nat b) m |>;
|}.

#[global] Instance a_has_log : Has astate logst := Lens a_log (fun x s => s <| a_log := x |>).

(** A single thread never has to wait. *)
#[global] Instance a_sleep_ops : SleepOps astate := {|
  op_sleep _ _ := panic "sleep";
  op_wakeup _ := ret tt;
  op_pid := ret 0;
|}.

(** After a crash only the disk is left. *)
Definition crash (d : disk) : astate :=
  Astate d [] (fun _ _ => 0) (fun _ => 0) (fun _ => false) zero_log.

(** ** What one disk write does *)

(** Blocks are compared on their bytes. *)
Definition beq (m m' : mem) : Prop := forall x, 0 <= x < BSIZE -> byte_at m x = byte_at m' x.

(** From [s] to [s'] exactly the write [w] happened, and the references to
    block [p] dropped by [k]. *)
Record wrote (s s' : astate) (w : Z * mem) (p k : Z) : Prop := Wrote {
  w_base : a_base s' = a_base s;
  w_trace : a_trace s' = a_trace s ++ [w];
  w_log : a_log s' = a_log s;
  w_ref : forall n, a_ref s' n = a_ref s n - (if n =? p then k else 0);
  w_locked : forall n, a_locked s' n = a_locked s n;
  w_buf : forall n, n <> fst w -> 0 < a_ref s n -> a_buf s' n = a_buf s n;
}.

Lemma bread_a dev n t s :
  a_locked s n = false -> bd_bread dev n t s = ORet (Z.to_nat n) t (rd n s).
Proof. intros H. cbn. by rewrite H. Qed.

Lemma bwrite_a n t s :
  0 <= n -> a_locked s n = true -> bd_bwrite (Z.to_nat n) t s = ORet tt t (wr n s).
Proof. intros Hn H. cbn. by rewrite Z2Nat.id, H by auto. Qed.

Lemma brelse_a n t s :
  0 <= n -> a_locked s n = true -> bd_brelse (Z.to_nat n) t s = ORet tt t (rel n s).
Proof. intros Hn H. cbn. by rewrite Z2Nat.id, H by auto. Qed.

Lemma beq_copy m m' : beq (copy_block m m') m.
Proof.
  intros x Hx. unfold copy_block, byte_at at 1, mwrite. rewrite length_bytes_at.
  unfold BSIZE in *. rewrite Z2Nat.id by lia.
  destruct ((0 <=? x) && (x <? 0 + 1024)) eqn:E; [|lia].
  rewrite Z.sub_0_r, lookup_bytes_at by lia. simpl. unfold byte_at. rewrite u8_idem. f_equal. f_equal. lia.
Qed.

Lemma copy_data_a dst src t s :
  0 <= dst -> 0 <= src ->
  copy_data (Z.to_nat dst) (Z.to_nat src) t s =
  ORet tt t (s <| a_buf := upd (a_buf s) dst (copy_block (a_buf s src) (a_buf s dst)) |>).
Proof.
  intros Hd Hs. unfold copy_data, bind, gets, modify. cbn [obind bd_data bd_set a_block_dev].
  by rewrite !Z2Nat.id by auto.
Qed.

(** A turn of the loop of [write_log]. *)
Lemma write_log_step i t s src :
  let l := a_log s in
  let dst := log_start l + Z.of_nat i + 1 in
  lh_block l !!! i = src -> 0 <= dst -> 0 <= src -> dst <> src ->
  (forall n, a_locked s n = false) -> a_ref s dst = 0 -> 0 < a_ref s src ->
  exists s' m,
    (let* l := hget in
     let* to := bd_bread (log_dev l) (log_start l + Z.of_nat i + 1) in
     let* from := bd_bread (log_dev l) (lh_block l !!! i) in
     copy_data to from ;; bd_bwrite to ;; bd_brelse from ;; bd_brelse to) t s = ORet tt t s' /\
    wrote s s' (dst, m) 0 0 /\ beq m (a_buf s src).
Proof.
  intros l dst Hsrc Hd0 Hs0 Hne Hlk Hrd Hrs.
  unfold bind at 1, hget, gets. cbn [obind lget has a_has_log]. fold l. fold dst. rewrite Hsrc.
  kstep (bread_a (log_dev l) dst t s (Hlk dst)).
  assert (Hl2 : a_locked (rd dst s) src = false) by (simpl; by rewrite upd_ne).
  kstep (bread_a (log_dev l) src t _ Hl2).
  kstep (copy_data_a dst src t (rd src (rd dst s)) Hd0 Hs0).
  set (s3 := _ <| a_buf := _ |>).
  assert (L3 : a_locked s3 dst = true /\ a_locked s3 src = true).
  { unfold s3. simpl. rewrite (upd_ne _ src _ dst), !upd_eq by auto. auto. }
  destruct L3 as [L3d L3s].
  kstep (bwrite_a dst t s3 Hd0 L3d). kstep (brelse_a src t (wr dst s3) Hs0 L3s).
  assert (L5 : a_locked (rel src (wr dst s3)) dst = true) by (simpl; by rewrite upd_ne).
  rewrite (brelse_a dst t _ Hd0 L5). eexists _, _. split; [reflexivity|].
  assert (Hb : a_buf (rd src (rd dst s)) src = a_buf s src).
  { simpl. rewrite upd_ne by auto. rewrite (proj2 (Z.eqb_neq (a_ref s src) 0)) by lia.
    rewrite Hrd. simpl. by rewrite upd_ne. }
  split; [constructor; simpl|].
  - reflexivity.
  - rewrite upd_eq. reflexivity.
  - reflexivity.
  - intros n. clear -Hne. clearbody dst. destruct (n =? 0); upd_cases; lia.
  - intros n. clear -Hne Hlk. clearbody dst. rewrite Hlk. upd_cases; congruence || auto.
  - intros n Hn Hr. rewrite (upd_ne _ dst) by auto. rewrite (upd_ne _ dst _ src) by auto.
    rewrite (proj2 (Z.eqb_neq (a_ref s src) 0)), Hrd by lia. simpl. by rewrite upd_ne.
  - simpl. rewrite <- Hb. apply beq_copy.
Qed.

(** A turn of the loop of [install_trans]. *)
Lemma install_step recovering i t s dst :
  let l := a_log s in
  let src := log_start l + Z.of_nat i + 1 in
  lh_block l !!! i = dst -> 0 <= dst -> 0 <= src -> dst <> src ->
  (forall n, a_locked s n = false) -> a_ref s src = 0 ->
  exists s' m,
    (let* l := hget in
     let* lbuf := bd_bread (log_dev l) (log_start l + Z.of_nat i + 1) in
     let* dbuf := bd_bread (log_dev l) (lh_block l !!! i) in
     copy_data dbuf lbuf ;; bd_bwrite dbuf ;; when (negb recovering) (bd_bunpin dbuf) ;;
     bd_brelse lbuf ;; bd_brelse dbuf) t s = ORet tt t s' /\
    wrote s s' (dst, m) dst (if recovering : bool then 0 else 1) /\ beq m (dsk s src).
Proof.
  intros l src Hdst Hd0 Hs0 Hne Hlk Hrs.
  unfold bind at 1, hget, gets. cbn [obind lget has a_has_log]. fold l. fold src. rewrite Hdst.
  kstep (bread_a (log_dev l) src t s (Hlk src)).
  assert (Hl2 : a_locked (rd src s) dst = false) by (simpl; by rewrite upd_ne).
  kstep (bread_a (log_dev l) dst t _ Hl2).
  kstep (copy_data_a dst src t (rd dst (rd src s)) Hd0 Hs0).
  set (s3 := _ <| a_buf := _ |>).
  assert (L3 : a_locked s3 dst = true /\ a_locked s3 src = true).
  { unfold s3. simpl. rewrite (upd_ne _ dst _ src), !upd_eq by auto. auto. }
  destruct L3 as [L3d L3s].
  kstep (bwrite_a dst t s3 Hd0 L3d).
  set (s5 := if recovering then wr dst s3
             else (wr dst s3) <| a_ref := upd (a_ref s3) dst (a_ref s3 dst - 1) |>).
  assert (E5 : when (negb recovering) (bd_bunpin (Z.to_nat dst)) t (wr dst s3) = ORet tt t s5).
  { unfold s5. destruct recovering; [reflexivity|]. cbn [negb when bd_bunpin a_block_dev modify].
    unfold modify. by rewrite Z2Nat.id by auto. }
  kstep E5.
  assert (L5 : a_locked s5 = a_locked s3) by (unfold s5; by destruct recovering).
  assert (L5s : a_locked s5 src = true) by (by rewrite L5).
  kstep (brelse_a src t s5 Hs0 L5s).
  assert (L6 : a_locked (rel src s5) dst = true) by (simpl; rewrite upd_ne, L5; auto).
  rewrite (brelse_a dst t _ Hd0 L6). eexists _, (a_buf s3 dst). split; [reflexivity|].
  assert (Hb : beq (a_buf s3 dst) (dsk s src)).
  { unfold s3. simpl. rewrite upd_eq. intros x Hx. rewrite beq_copy by auto.
    rewrite (upd_ne _ src _ dst), Hrs by auto. simpl.
    destruct (a_ref s dst =? 0); rewrite ?(upd_ne _ dst _ src) by auto; by rewrite upd_eq. }
  split; [|exact Hb]. constructor; simpl.
  - unfold s5. by destruct recovering.
  - unfold s5. by destruct recovering.
  - unfold s5. by destruct recovering.
  - intros n. assert (Hr3 : a_ref s3 = upd (upd (a_ref s) src (a_ref s src + 1)) dst
      (upd (a_ref s) src (a_ref s src + 1) dst + 1)) by reflexivity.
    assert (Hr5 : a_ref s5 = if recovering then a_ref s3 else upd (a_ref s3) dst (a_ref s3 dst - 1))
      by (unfold s5; by destruct recovering).
    rewrite Hr5, Hr3. clear -Hne. clearbody src.
    destruct (n =? dst) eqn:E; destruct recovering; upd_cases; try lia.
  - intros n. rewrite L5. unfold s3. simpl. rewrite Hlk. clear -Hne Hlk. clearbody src.
    upd_cases; congruence || auto.
  - intros n Hn Hr. assert (Hb5 : a_buf s5 = a_buf s3) by (unfold s5; by destruct recovering).
    assert (Hns : n <> src) by (intros ->; lia).
    rewrite Hb5. unfold s3. simpl. rewrite (upd_ne _ dst _ n) by auto.
    rewrite (upd_ne _ src _ dst) by auto. rewrite Hrs. simpl.
    destruct (a_ref s dst =? 0); rewrite ?(upd_ne _ dst _ n) by auto; by rewrite upd_ne.
Qed.

(** [write_head] writes a header block with the current block numbers. *)
Definition is_header (m : mem) (n : Z) (block : nat -> Z) : Prop :=
  hd_n m = n /\ forall i, (i < Z.to_nat n)%nat -> hd_block m i = block i.

Lemma set_a b m t s :
  0 <= b -> modify (fun s => bd_set (Z.to_nat b) m s) t s =
  ORet tt t (s <| a_buf := upd (a_buf s) b m |>).
Proof. intros Hb. unfold modify. cbn [bd_set a_block_dev]. by rewrite Z2Nat.id. Qed.

Lemma hd_store m n :
  -2147483648 <= n < 2147483648 -> hd_n (store32 0 n m) = n.
Proof.
  intros Hn. unfold hd_n. rewrite mload_mstore_same. change (256 ^ Z.of_nat 4) with 4294967296.
  unfold i32. rewrite Zplus_mod_idemp_l, Z.mod_small by lia. lia.
Qed.

Lemma hd_n_store_block m i v : hd_n (store32 (4 + 4 * Z.of_nat i) v m) = hd_n m.
Proof. unfold hd_n. by rewrite mload_mstore_other by lia. Qed.

Lemma hd_block_store m i j v :
  -2147483648 <= v < 2147483648 ->
  hd_block (store32 (4 + 4 * Z.of_nat i) v m) j = if decide (j = i) then v else hd_block m j.
Proof.
  intros Hv. unfold hd_block. case_decide as E.
  - subst. rewrite mload_mstore_same. change (256 ^ Z.of_nat 4) with 4294967296.
    unfold i32. rewrite Zplus_mod_idemp_l, Z.mod_small by lia. lia.
  - by rewrite mload_mstore_other by lia.
Qed.

(** [s'] is [s] but for the contents of buffer [b]. *)
Definition only_buf (b : Z) (s s' : astate) : Prop :=
  a_base s' = a_base s /\ a_trace s' = a_trace s /\ a_log s' = a_log s /\ a_ref s' = a_ref s /\
  a_locked s' = a_locked s /\ forall n, n <> b -> a_buf s' n = a_buf s n.

(** The block numbers fit in an [int]. *)
Definition small (l : logst) : Prop :=
  0 <= lh_n l < 2147483648 /\ forall i, (i < Z.to_nat (lh_n l))%nat -> 0 <= lh_block l !!! i < 2147483648.

Lemma lh_range_a t s : lh_range t s = ORet (seq 0 (Z.to_nat (lh_n (a_log s)))) t s.
Proof. reflexivity. Qed.

Lemma write_head_step t s :
  let l := a_log s in
  0 <= log_start l -> small l -> (forall n, a_locked s n = false) ->
  exists s' m, write_head t s = ORet tt t s' /\
    wrote s s' (log_start l, m) 0 0 /\ is_header m (lh_n l) (fun i => lh_block l !!! i).
Proof.
  intros l Hst [Hn Hbl] Hlk. set (b := log_start l) in *. unfold write_head.
  unfold bind at 1, hget, gets. cbn [obind lget has a_has_log]. fold l. fold b.
  kstep (bread_a (log_dev l) b t s (Hlk b)).
  erewrite bind_ret by reflexivity. cbv beta. cbn [bd_set bd_data a_block_dev]. rewrite Z2Nat.id by auto.
  set (s1 := _ <| a_buf := _ |>). kstep (lh_range_a t s1). change (a_log s1) with l.
  destruct (for_each_seq (fun i s' => only_buf b s1 s' /\ hd_n (a_buf s' b) = lh_n l /\
      forall j, (j < i)%nat -> hd_block (a_buf s' b) j = lh_block l !!! j)
    (fun i => modify (fun s => s <| a_buf := upd (a_buf s) b
       (store32 (4 + 4 * Z.of_nat i) (lh_block l !!! i) (a_buf s b)) |>)) t (Z.to_nat (lh_n l)) 0 s1)
    as (s2 & E2 & (Hb & Ht & Hl & Hr & Hk & Hbuf) & Hh & Hbk).
  { intros i s' Hi ((Hb & Ht & Hl & Hr & Hk & Hbuf) & Hh & Hbk).
    eexists. split; [reflexivity|]. cbn. rewrite upd_eq. split; [|split].
    - unfold only_buf. cbn. repeat split; auto. intros n Hne. rewrite upd_ne by auto. auto.
    - by rewrite hd_n_store_block.
    - intros j Hj. rewrite hd_block_store by (specialize (Hbl i ltac:(lia)); lia).
      case_decide; [by subst|]. apply Hbk. lia. }
  { unfold s1. cbn. rewrite upd_eq. split; [unfold only_buf; auto 10|]. split; [apply hd_store; lia|lia]. }
  kstep E2. 
  assert (Hlk2 : a_locked s2 b = true) by (rewrite Hk; unfold s1; cbn; apply upd_eq).
  kstep (bwrite_a b t s2 Hst Hlk2). rewrite (brelse_a b t (wr b s2) Hst Hlk2).
  eexists _, _. split; [reflexivity|]. split; [constructor; cbn|split; [exact Hh|exact Hbk]].
  - exact Hb.
  - by rewrite Ht.
  - by rewrite Hl.
  - intros n. rewrite Hr. unfold s1. cbn. clear -n. clearbody b. destruct (n =? 0); upd_cases; lia.
  - intros n. rewrite Hk. unfold s1. cbn. clear -Hlk. clearbody b. rewrite Hlk. upd_cases; auto.
  - intros n Hne Hrn. rewrite Hbuf by auto. unfold s1. cbn. rewrite upd_ne by auto.
    destruct (a_ref s b =? 0); [by rewrite upd_ne|reflexivity].
Qed.

(** ** Runs of writes *)

(** The writes [ws] are those of [spec], up to bytes beyond the block. *)
Definition wmatch (ws spec : list (Z * mem)) : Prop :=
  Forall2 (fun w x => fst w = fst x /\ beq (snd w) (snd x)) ws spec.

Record wrotes (s s' : astate) (ws : list (Z * mem)) (drop : Z -> Z) : Prop := Wrotes {
  ws_base : a_base s' = a_base s;
  ws_trace : a_trace s' = a_trace s ++ ws;
  ws_log : a_log s' = a_log s;
  ws_ref : forall n, a_ref s' n = a_ref s n - drop n;
  ws_locked : forall n, a_locked s' n = a_locked s n;
  ws_buf : forall n, n ∉ map fst ws -> 0 < a_ref s n -> drop n = 0 -> a_buf s' n = a_buf s n;
}.

Lemma wrotes_nil s drop : (forall n, drop n = 0) -> wrotes s s [] drop.
Proof.
  intros H. constructor; auto; [by rewrite app_nil_r|]. intros n. rewrite H. lia.
Qed.

Lemma wrotes_snoc s s1 s2 ws w p k drop :
  wrotes s s1 ws drop -> wrote s1 s2 w p k -> k = 0 \/ p = fst w ->
  wrotes s s2 (ws ++ [w]) (fun n => drop n + (if n =? p then k else 0)).
Proof.
  intros [B T L R K U] [B' T' L' R' K' U'] Hp. constructor.
  - by rewrite B'.
  - by rewrite T', T, app_assoc.
  - by rewrite L'.
  - intros n. rewrite R', R. lia.
  - intros n. by rewrite K'.
  - intros n Hn Hr Hd. rewrite map_app, elem_of_app in Hn. simpl in Hn.
    rewrite list_elem_of_singleton in Hn.
    assert (Hd0 : drop n = 0).
    { destruct (n =? p) eqn:E; [|lia]. destruct Hp as [->| ->]; [lia|]. exfalso. apply Hn. right. lia. }
    rewrite U'; [apply U; tauto| |]; [tauto|]. rewrite R. lia.
Qed.

Lemma dsk_wrotes s s' ws drop : wrotes s s' ws drop -> dsk s' = apply_writes (dsk s) ws.
Proof. intros [B T _ _ _ _]. unfold dsk, apply_writes. by rewrite B, T, fold_left_app. Qed.

(** ** Transactions *)

(** The log [l] names the blocks [bs], which lie outside the log area and are
    distinct (absorption in [log_write] keeps them so). *)
Record logged (l : logst) (bs : list Z) : Prop := Logged {
  lg_start : 0 <= log_start l;
  lg_n : lh_n l = Z.of_nat (length bs);
  lg_max : Z.of_nat (length bs) <= LOGBLOCKS;
  lg_bs : forall i b, bs !! i = Some b -> lh_block l !!! i = b;
  lg_out : forall b, b ∈ bs -> 0 <= b < 2147483648 /\ ~ in_log (log_start l) b;
  lg_nodup : NoDup bs;
}.

(** Nobody holds a buffer, and no log block is referenced. *)
Definition at_rest (s : astate) (start : Z) : Prop :=
  (forall n, a_locked s n = false) /\ forall n, in_log start n -> a_ref s n = 0.

Lemma logged_small l bs : logged l bs -> small l.
Proof.
  intros [Hs Hn Hm Hb Ho Hd]. split.
  - rewrite Hn. unfold LOGBLOCKS, MAXOPBLOCKS in *. lia.
  - intros i Hi. rewrite Hn, Nat2Z.id in Hi. destruct (lookup_lt_is_Some_2 bs i Hi) as [b Hb'].
    rewrite (Hb i b Hb'). apply Ho. by eapply list_elem_of_lookup_2.
Qed.

(** The writes of [write_log] and of [install_trans]. *)
Definition log_writes (start : Z) (vals : list mem) : list (Z * mem) :=
  imap (fun i v => (start + Z.of_nat i + 1, v)) vals.

Lemma wmatch_snoc ws spec w x :
  wmatch ws spec -> fst w = fst x -> beq (snd w) (snd x) -> wmatch (ws ++ [w]) (spec ++ [x]).
Proof. intros H H1 H2. apply Forall2_app; [auto|]. by constructor. Qed.

Lemma wmatch_fst ws spec : wmatch ws spec -> map fst ws = map fst spec.
Proof. induction 1 as [|w x ws spec [E _] _ IH]; simpl; [reflexivity|]. by rewrite E, IH. Qed.

Lemma wmatch_lookup ws spec i n m :
  wmatch ws spec -> spec !! i = Some (n, m) -> exists m', ws !! i = Some (n, m') /\ beq m' m.
Proof.
  intros H Hi. destruct (Forall2_lookup_r _ _ _ _ _ H Hi) as ([n' m'] & Hw & E & Hb).
  simpl in E, Hb. subst. eauto.
Qed.

Lemma wrotes_ext s s' ws drop drop' :
  (forall n, drop n = drop' n) -> wrotes s s' ws drop -> wrotes s s' ws drop'.
Proof.
  intros H [B T L R K U]. constructor; auto.
  - intros n. by rewrite <- H.
  - intros n. rewrite <- H. apply U.
Qed.

Lemma log_writes_snoc start vals v :
  log_writes start (vals ++ [v]) = log_writes start vals ++ [(start + Z.of_nat (length vals) + 1, v)].
Proof. unfold log_writes. rewrite imap_app. simpl. by rewrite Nat.add_0_r. Qed.

Lemma log_writes_fst start vals n : n ∈ map fst (log_writes start vals) <->
  start < n <= start + Z.of_nat (length vals).
Proof.
  unfold log_writes. rewrite fmap_imap. rewrite elem_of_lookup_imap. simpl. split.
  - intros (i & v & -> & Hi). apply lookup_lt_Some in Hi. lia.
  - intros Hn. destruct (lookup_lt_is_Some_2 vals (Z.to_nat (n - start - 1))) as [v Hv]; [lia|].
    exists (Z.to_nat (n - start - 1)), v. split; [lia|auto].
Qed.

Lemma at_rest_wrotes s s' ws drop start :
  wrotes s s' ws drop -> at_rest s start -> (forall n, in_log start n -> drop n = 0) -> at_rest s' start.
Proof.
  intros [_ _ _ R K _] [Hl Hr] Hd. split; intros n; [by rewrite K|]. intros Hn.
  rewrite R, Hr, Hd by auto. lia.
Qed.

Lemma write_log_run t s bs :
  let start := log_start (a_log s) in
  logged (a_log s) bs -> at_rest s start -> (forall b, b ∈ bs -> 0 < a_ref s b) ->
  exists s' ws, write_log t s = ORet tt t s' /\ wrotes s s' ws (fun _ => 0) /\
    wmatch ws (log_writes start (map (a_buf s) bs)).
Proof.
  intros start Hlg Hr Hpin. unfold write_log. kstep (lh_range_a t s).
  rewrite (lg_n _ _ Hlg), Nat2Z.id.
  match goal with |- context [for_each (seq 0 _) ?body] =>
    destruct (for_each_seq (fun i s' => exists ws, wrotes s s' ws (fun _ => 0) /\
      wmatch ws (log_writes start (map (a_buf s) (take i bs)))) body t (length bs) 0 s)
      as (s' & E & ws & Hw & Hm) end;
    [| |exists s', ws; rewrite take_ge in Hm by (simpl; lia); eauto].
  - intros i s1 Hi (ws & Hw & Hm).
    destruct (lookup_lt_is_Some_2 bs i) as [b Hb]; [lia|].
    assert (Hbin : b ∈ bs) by (by eapply list_elem_of_lookup_2).
    destruct (lg_out _ _ Hlg b Hbin) as [Hb0 Hbo]. pose proof (lg_start _ _ Hlg) as Hs0.
    pose proof (lg_max _ _ Hlg) as Hmax. fold start in Hbo, Hs0.
    assert (Hsame : a_buf s1 b = a_buf s b).
    { apply (ws_buf _ _ _ _ Hw); [|auto|auto]. rewrite (wmatch_fst _ _ Hm), log_writes_fst, length_map, length_take.
      unfold in_log in Hbo. lia. }
    destruct (at_rest_wrotes _ _ _ _ _ Hw Hr) as [Hl1 Hr1]; [auto|].
    destruct (write_log_step i t s1 b) as (s2 & m & E2 & Hw2 & Hm2); rewrite ?(ws_log _ _ _ _ Hw); fold start.
    + by apply (lg_bs _ _ Hlg).
    + lia.
    + lia.
    + unfold in_log in Hbo. lia.
    + exact Hl1.
    + apply Hr1. unfold in_log. lia.
    + rewrite (ws_ref _ _ _ _ Hw). specialize (Hpin b Hbin). lia.
    + exists s2. split; [exact E2|]. rewrite (ws_log _ _ _ _ Hw) in Hw2. fold start in Hw2.
      exists (ws ++ [(start + Z.of_nat i + 1, m)]). split.
      * eapply wrotes_ext; [|eapply wrotes_snoc; eauto]. intros n. simpl. destruct (n =? 0); lia.
      * rewrite (take_S_r bs i b Hb), map_app. simpl. rewrite log_writes_snoc.
        apply wmatch_snoc; [auto| |simpl; by rewrite <- Hsame].
        simpl. rewrite length_map, length_take. f_equal. f_equal. lia.
  - exists []. split; [by apply wrotes_nil|]. rewrite take_0. constructor.
Qed.

Definition install_writes (d : disk) (start : Z) (bs : list Z) : list (Z * mem) :=
  imap (fun i b => (b, d (start + Z.of_nat i + 1))) bs.

Lemma install_writes_fst d start bs : map fst (install_writes d start bs) = bs.
Proof.
  unfold install_writes. apply list_eq. intros i.
  rewrite fmap_imap, list_lookup_imap. by destruct (bs !! i).
Qed.

Lemma install_writes_snoc d start bs b :
  install_writes d start (bs ++ [b]) = install_writes d start bs ++ [(b, d (start + Z.of_nat (length bs) + 1))].
Proof. unfold install_writes. rewrite imap_app. simpl. by rewrite Nat.add_0_r. Qed.

(** References dropped when the blocks [bs] are unpinned. *)
Definition unpinned (recovering : bool) (bs : list Z) (n : Z) : Z :=
  if recovering then 0 else if bool_decide (n ∈ bs) then 1 else 0.

Lemma unpinned_snoc recovering bs b n :
  b ∉ bs -> unpinned recovering bs n + (if n =? b then (if recovering then 0 else 1) else 0) =
  unpinned recovering (bs ++ [b]) n.
Proof.
  intros Hb. unfold unpinned. destruct recovering; [destruct (n =? b); lia|].
  destruct (Z.eq_dec n b) as [->|Hne].
  - rewrite Z.eqb_refl, bool_decide_eq_false_2 by auto. rewrite bool_decide_eq_true_2; [lia|].
    apply elem_of_app. right. by left.
  - rewrite (proj2 (Z.eqb_neq _ _) Hne). rewrite Z.add_0_r.
    rewrite (bool_decide_ext (n ∈ bs ++ [b]) (n ∈ bs)); [reflexivity|].
    rewrite elem_of_app, list_elem_of_singleton. tauto.
Qed.

Lemma install_run recovering t s bs :
  let start := log_start (a_log s) in
  logged (a_log s) bs -> at_rest s start ->
  exists s' ws, install_trans recovering t s = ORet tt t s' /\ wrotes s s' ws (unpinned recovering bs) /\
    wmatch ws (install_writes (dsk s) start bs).
Proof.
  intros start Hlg Hr. unfold install_trans. kstep (lh_range_a t s).
  rewrite (lg_n _ _ Hlg), Nat2Z.id.
  match goal with |- context [for_each (seq 0 _) ?body] =>
    destruct (for_each_seq (fun i s' => exists ws, wrotes s s' ws (unpinned recovering (take i bs)) /\
      wmatch ws (install_writes (dsk s) start (take i bs))) body t (length bs) 0 s)
      as (s' & E & ws & Hw & Hm) end;
    [| |exists s', ws; rewrite take_ge in Hm, Hw by (simpl; lia); eauto].
  - intros i s1 Hi (ws & Hw & Hm).
    destruct (lookup_lt_is_Some_2 bs i) as [b Hb]; [lia|].
    assert (Hbin : b ∈ bs) by (by eapply list_elem_of_lookup_2).
    destruct (lg_out _ _ Hlg b Hbin) as [Hb0 Hbo]. pose proof (lg_start _ _ Hlg) as Hs0.
    pose proof (lg_max _ _ Hlg) as Hmax. fold start in Hbo, Hs0.
    assert (Hnlog : forall n, n ∈ take i bs -> ~ in_log start n).
    { intros n Hn. apply (lg_out _ _ Hlg). by apply (subseteq_take i). }
    assert (Hbn : b ∉ take i bs).
    { intros Hin. apply list_elem_of_lookup in Hin as [j Hj]. apply lookup_take_Some in Hj as [Hj Hlt].
      pose proof (NoDup_lookup _ _ _ _ (lg_nodup _ _ Hlg) Hj Hb). lia. }
    destruct (at_rest_wrotes _ _ _ _ _ Hw Hr) as [Hl1 Hr1].
    { intros n Hn. unfold unpinned. destruct recovering; [reflexivity|].
      rewrite bool_decide_eq_false_2; [reflexivity|]. intros Hin. by apply (Hnlog n). }
    destruct (install_step recovering i t s1 b) as (s2 & m & E2 & Hw2 & Hm2);
      rewrite ?(ws_log _ _ _ _ Hw); fold start.
    + by apply (lg_bs _ _ Hlg).
    + lia.
    + lia.
    + unfold in_log in Hbo. lia.
    + exact Hl1.
    + apply Hr1. unfold in_log. lia.
    + exists s2. split; [exact E2|]. rewrite (ws_log _ _ _ _ Hw) in Hm2. fold start in Hm2.
      exists (ws ++ [(b, m)]). rewrite (take_S_r bs i b Hb). split.
      * eapply wrotes_ext; [|eapply wrotes_snoc; eauto].
        intros n. by apply unpinned_snoc.
      * rewrite install_writes_snoc. apply wmatch_snoc; [auto|reflexivity|].
        cbn [snd]. rewrite length_take, Nat.min_l by lia.
        rewrite (dsk_wrotes _ _ _ _ Hw), apply_writes_out in Hm2; [exact Hm2|].
        rewrite (wmatch_fst _ _ Hm), install_writes_fst. intros Hin. apply (Hnlog _ Hin). unfold in_log. lia.
  - exists []. split; [apply wrotes_nil|rewrite take_0; constructor].
    intros n. unfold unpinned. rewrite take_0. destruct recovering; [reflexivity|].
    rewrite bool_decide_eq_false_2; [reflexivity|apply not_elem_of_nil].
Qed.

(** ** [commit] *)

Lemma wrote_wrotes s s' w p : wrote s s' w p 0 -> wrotes s s' [w] (fun _ => 0).
Proof.
  intros H. eapply wrotes_ext; [|apply (wrotes_snoc s s s' [] w p 0 (fun _ => 0)); auto].
  - intros n. simpl. destruct (n =? p); lia.
  - by apply wrotes_nil.
Qed.

Lemma commit_run t s bs :
  let start := log_start (a_log s) in
  bs <> [] -> logged (a_log s) bs -> at_rest s start -> (forall b, b ∈ bs -> 0 < a_ref s b) ->
  exists s' ws1 h1 ws2 h0, commit t s = ORet tt t s' /\
    a_base s' = a_base s /\ a_trace s' = a_trace s ++ (ws1 ++ [(start, h1)]) ++ (ws2 ++ [(start, h0)]) /\
    wmatch ws1 (log_writes start (map (a_buf s) bs)) /\
    is_header h1 (Z.of_nat (length bs)) (fun i => bs !!! i) /\
    wmatch ws2 (install_writes (apply_writes (dsk s) (ws1 ++ [(start, h1)])) start bs) /\
    hd_n h0 = 0 /\ a_log s' = (a_log s) <| lh_n := 0 |> /\
    (forall n, a_locked s' n = false) /\ (forall n, a_ref s' n = a_ref s n - unpinned false bs n).
Proof.
  intros start Hne Hlg Hr Hpin. unfold commit, bind at 1, lget_, bind at 1, hget, gets, ret.
  cbn [obind lget has a_has_log]. rewrite (lg_n _ _ Hlg).
  destruct bs as [|b0 bs0]; [contradiction|]. set (bs := b0 :: bs0) in *.
  destruct (0 <? Z.of_nat (length bs)) eqn:E0; [|unfold bs in E0; simpl in E0; lia]. cbn [when].
  destruct (write_log_run t s bs Hlg Hr Hpin) as (s1 & ws1 & E1 & Hw1 & Hm1). fold start in Hm1. kstep E1.
  pose proof (lg_start _ _ Hlg) as Hs0. fold start in Hs0.
  destruct (at_rest_wrotes _ _ _ _ start Hw1 Hr) as [Hl1 Hr1]; [auto|].
  destruct (write_head_step t s1) as (s2 & h1 & E2 & Hw2 & Hh1); rewrite ?(ws_log _ _ _ _ Hw1); auto.
  { by eapply logged_small. }
  kstep E2. rewrite (ws_log _ _ _ _ Hw1) in Hw2, Hh1. fold start in Hw2.
  apply wrote_wrotes in Hw2.
  assert (Hl2 : a_log s2 = a_log s) by (rewrite (ws_log _ _ _ _ Hw2); apply (ws_log _ _ _ _ Hw1)).
  destruct (install_run false t s2 bs) as (s3 & ws2 & E3 & Hw3 & Hm3); rewrite ?Hl2; auto.
  { eapply at_rest_wrotes; [exact Hw2|by split|auto]. }
  kstep E3. rewrite Hl2 in Hm3. fold start in Hm3.
  erewrite bind_ret by reflexivity. cbv beta. set (s4 := lput _ _ s3).
  assert (Hl3 : a_log s3 = a_log s) by (rewrite (ws_log _ _ _ _ Hw3); exact Hl2).
  assert (Hl4 : a_log s4 = (a_log s) <| lh_n := 0 |>).
  { unfold s4, update. cbn. by rewrite Hl3. }
  assert (K4 : forall n, a_locked s4 n = false).
  { intros n. change (a_locked s4 n) with (a_locked s3 n).
    rewrite (ws_locked _ _ _ _ Hw3), (ws_locked _ _ _ _ Hw2). apply Hl1. }
  destruct (write_head_step t s4) as (s5 & h0 & E5 & Hw5 & Hh0); rewrite ?Hl4; auto.
  { split; cbn; [lia|]. intros i Hi. simpl in Hi. lia. }
  rewrite Hl4 in Hw5, Hh0. change (log_start _) with start in Hw5. apply wrote_wrotes in Hw5.
  exists s5, ws1, h1, ws2, h0. split; [exact E5|].
  assert (Hd2 : dsk s2 = apply_writes (dsk s) (ws1 ++ [(start, h1)])).
  { rewrite (dsk_wrotes _ _ _ _ Hw2), (dsk_wrotes _ _ _ _ Hw1). symmetry. apply apply_writes_app. }
  rewrite Hd2 in Hm3. split.
  { rewrite (ws_base _ _ _ _ Hw5). change (a_base s4) with (a_base s3).
    by rewrite (ws_base _ _ _ _ Hw3), (ws_base _ _ _ _ Hw2), (ws_base _ _ _ _ Hw1). }
  split.
  { rewrite (ws_trace _ _ _ _ Hw5). change (a_trace s4) with (a_trace s3).
    rewrite (ws_trace _ _ _ _ Hw3), (ws_trace _ _ _ _ Hw2), (ws_trace _ _ _ _ Hw1).
    by rewrite !app_assoc. }
  split; [exact Hm1|]. split.
  { rewrite (lg_n _ _ Hlg) in Hh1. destruct Hh1 as [Hn Hb]. split; [exact Hn|]. intros i Hi.
    rewrite Hb by auto. rewrite Nat2Z.id in Hi. destruct (lookup_lt_is_Some_2 bs i Hi) as [b Hbi].
    rewrite (lg_bs _ _ Hlg i b Hbi). by rewrite list_lookup_total_alt, Hbi. }
  split; [exact Hm3|]. split; [apply Hh0|]. split.
  { rewrite (ws_log _ _ _ _ Hw5). exact Hl4. }
  split.
  - intros n. rewrite (ws_locked _ _ _ _ Hw5). apply K4.
  - intros n. pose proof (ws_ref _ _ _ _ Hw5 n) as R5. change (a_ref s4 n) with (a_ref s3 n) in R5.
    rewrite (ws_ref _ _ _ _ Hw3), (ws_ref _ _ _ _ Hw2), (ws_ref _ _ _ _ Hw1) in R5. lia.
Qed.

(** ** Recovery *)

(** The blocks [bs] can be logged by a log at [start]. *)
Record loggable (start : Z) (bs : list Z) : Prop := Loggable {
  la_start : 0 <= start;
  la_max : Z.of_nat (length bs) <= LOGBLOCKS;
  la_out : forall b, b ∈ bs -> 0 <= b < 2147483648 /\ ~ in_log start b;
  la_nodup : NoDup bs;
}.

Lemma read_head_run t s bs :
  let l := a_log s in
  let d := dsk s in
  a_trace s = [] -> (forall n, a_ref s n = 0) -> (forall n, a_locked s n = false) ->
  length (lh_block l) = Z.to_nat LOGBLOCKS -> loggable (log_start l) bs ->
  is_header (d (log_start l)) (Z.of_nat (length bs)) (fun i => bs !!! i) ->
  exists s', read_head t s = ORet tt t s' /\ a_base s' = a_base s /\ a_trace s' = [] /\
    (forall n, a_ref s' n = 0) /\ (forall n, a_locked s' n = false) /\
    log_start (a_log s') = log_start l /\ logged (a_log s') bs.
Proof.
  intros l d Htr Hrf Hlk Hlen [Hst Hmax Hout Hnd] [Hhn Hhb]. set (b := log_start l) in *. unfold read_head.
  unfold bind at 1, hget, gets. cbn [obind lget has a_has_log]. fold l. fold b.
  kstep (bread_a (log_dev l) b t s (Hlk b)).
  assert (Hm : a_buf (rd b s) b = d b) by (cbn; rewrite Hrf; cbn; apply upd_eq).
  unfold bind at 1, gets. cbn [obind bd_data a_block_dev]. rewrite Z2Nat.id, Hm by auto.
  erewrite bind_ret by reflexivity. cbv beta. set (s2 := lput _ _ (rd b s)).
  kstep (lh_range_a t s2). assert (Hn2 : lh_n (a_log s2) = Z.of_nat (length bs)) by (cbn; exact Hhn).
  rewrite Hn2, Nat2Z.id.
  match goal with |- context [for_each (seq 0 _) ?body] =>
    destruct (for_each_seq (fun i s' => exists blk, s' = s2 <| a_log ::= (fun l => l <| lh_block := blk |>) |> /\
      length blk = Z.to_nat LOGBLOCKS /\ forall j, (j < i)%nat -> blk !!! j = bs !!! j)
      body t (length bs) 0 s2) as (s3 & E3 & blk & -> & Hbl & Hbk) end.
  - intros i s' Hi (blk & -> & Hbl & Hbk). rewrite (proj2 (Nat.ltb_lt i _)) by lia.
    eexists. split; [reflexivity|]. exists (<[i := hd_block (d b) i]> blk).
    split; [reflexivity|]. rewrite length_insert. split; [auto|]. intros j Hj.
    destruct (decide (j = i)) as [->|Hne].
    + rewrite list_lookup_total_insert_eq by lia. apply Hhb. lia.
    + rewrite list_lookup_total_insert_ne by auto. apply Hbk. lia.
  - exists (lh_block l). split; [reflexivity|]. split; [exact Hlen|]. lia.
  - kstep E3. set (s3 := s2 <| a_log ::= _ |>).
    assert (L3 : a_locked s3 b = true) by (cbn; apply upd_eq).
    rewrite (brelse_a b t s3 Hst L3). eexists. split; [reflexivity|].
    split; [reflexivity|]. split; [exact Htr|]. split.
    { intros n. unfold s3, s2. cbn. clear -Hrf. clearbody b. upd_cases; rewrite Hrf; lia. }
    split.
    { intros n. unfold s3, s2. cbn. clear -Hlk. clearbody b. upd_cases; auto. }
    split; [reflexivity|]. constructor; auto.
    intros i b' Hb'. cbn. rewrite Hbk by (by eapply lookup_lt_Some). by rewrite list_lookup_total_alt, Hb'.
Qed.

Lemma recover_run d dev start bs t :
  loggable start bs -> is_header (d start) (Z.of_nat (length bs)) (fun i => bs !!! i) ->
  exists s' ws h, initlog dev start t (crash d) = ORet tt t s' /\
    a_base s' = d /\ a_trace s' = ws ++ [(start, h)] /\
    wmatch ws (install_writes d start bs) /\ hd_n h = 0.
Proof.
  intros Hla Hh. unfold initlog. change (BSIZE <=? sizeof_logheader) with false. cbn iota.
  erewrite bind_ret by reflexivity. cbv beta. set (s0 := lput _ _ (crash d)).
  unfold recover_from_log.
  destruct (read_head_run t s0 bs) as (s1 & E1 & B1 & T1 & R1 & K1 & S1 & L1); auto.
  kstep E1. change (log_start (a_log s0)) with start in S1. change (a_base s0) with d in B1.
  destruct (install_run true t s1 bs L1) as (s2 & ws & E2 & Hw2 & Hm2).
  { split; auto. }
  kstep E2. erewrite bind_ret by reflexivity. cbv beta. set (s3 := lput _ _ s2).
  assert (Hl3 : log_start (a_log s3) = start) by (change (log_start (a_log s2) = start); by rewrite (ws_log _ _ _ _ Hw2)).
  destruct (write_head_step t s3) as (s4 & h & E4 & Hw4 & Hh4).
  { rewrite Hl3. apply Hla. } { split; cbn; [lia|]. intros i Hi. simpl in Hi. lia. }
  { intros n. change (a_locked s3 n) with (a_locked s2 n). rewrite (ws_locked _ _ _ _ Hw2). apply K1. }
  rewrite Hl3 in Hw4. apply wrote_wrotes in Hw4. exists s4, ws, h. split; [exact E4|].
  split.
  { rewrite (ws_base _ _ _ _ Hw4). change (a_base s3) with (a_base s2). by rewrite (ws_base _ _ _ _ Hw2). }
  split.
  { rewrite (ws_trace _ _ _ _ Hw4). change (a_trace s3) with (a_trace s2).
    by rewrite (ws_trace _ _ _ _ Hw2), T1. }
  split; [|apply Hh4]. rewrite S1 in Hm2.
  replace (dsk s1) with d in Hm2; [exact Hm2|]. unfold dsk. by rewrite B1, T1.
Qed.

(** ** Crash states *)

Lemma beq_refl m : beq m m.
Proof. intros x _. reflexivity. Qed.
Lemma beq_trans m1 m2 m3 : beq m1 m2 -> beq m2 m3 -> beq m1 m3.
Proof. intros H1 H2 x Hx. by rewrite H1, H2. Qed.

(** The disks agree outside the log. *)
Definition same_outside (start : Z) (d d' : disk) : Prop :=
  forall n, ~ in_log start n -> beq (d n) (d' n).

(** The disk [d] holds a committed transaction that sets the blocks [bs] to
    the contents [val]: the header names them and the log has the data. *)
Definition committed (start : Z) (d : disk) (bs : list Z) (val : Z -> mem) : Prop :=
  is_header (d start) (Z.of_nat (length bs)) (fun i => bs !!! i) /\
  forall i b, bs !! i = Some b -> beq (d (start + Z.of_nat i + 1)) (val b).

Definition set_blocks (d : disk) (bs : list Z) (val : Z -> mem) : disk :=
  apply_writes d (map (fun b => (b, val b)) bs).

Lemma map_fst_pair (bs : list Z) (val : Z -> mem) : map fst (map (fun b => (b, val b)) bs) = bs.
Proof. rewrite map_map. apply map_id. Qed.

Lemma set_blocks_in d bs val b : NoDup bs -> b ∈ bs -> set_blocks d bs val b = val b.
Proof.
  intros Hd Hb. apply list_elem_of_lookup in Hb as [i Hi]. unfold set_blocks.
  eapply (apply_writes_in _ _ i); [by rewrite map_fst_pair|]. by rewrite list_lookup_fmap, Hi.
Qed.

Lemma set_blocks_out d bs val b : b ∉ bs -> set_blocks d bs val b = d b.
Proof. intros Hb. apply apply_writes_out. by rewrite map_fst_pair. Qed.

Lemma NoDup_snoc_start start (ws : list (Z * mem)) h bs :
  loggable start bs -> map fst ws = bs -> NoDup (map fst (ws ++ [(start, h)])).
Proof.
  intros Hla E. rewrite map_app, E. simpl. apply NoDup_app. split; [apply Hla|]. split.
  - intros n Hn. rewrite list_elem_of_singleton. intros ->. apply (la_out _ _ Hla) in Hn as [_ Hn].
    apply Hn. unfold in_log, LOGBLOCKS, MAXOPBLOCKS. lia.
  - repeat constructor. apply not_elem_of_nil.
Qed.

(** Recovery carries a committed transaction out. *)
Lemma recover_committed d dev start bs val t :
  loggable start bs -> committed start d bs val ->
  exists s' ws, initlog dev start t (crash d) = ORet tt t s' /\ a_base s' = d /\ a_trace s' = ws /\
    length ws = S (length bs) /\ hd_n (dsk s' start) = 0 /\
    same_outside start (dsk s') (set_blocks d bs val) /\
    forall k, (k <= length bs)%nat -> committed start (apply_writes d (take k ws)) bs val /\
      forall n, ~ in_log start n -> n ∉ bs -> apply_writes d (take k ws) n = d n.
Proof.
  intros Hla [Hh Hv].
  destruct (recover_run d dev start bs t Hla Hh) as (s' & ws & h & E & B & T & Hm & Hh0).
  assert (Hf : map fst ws = bs) by (rewrite (wmatch_fst _ _ Hm); apply install_writes_fst).
  assert (Hlen : length ws = length bs) by (rewrite <- Hf; by rewrite length_map).
  assert (Hnd : NoDup (map fst (ws ++ [(start, h)]))) by (by eapply NoDup_snoc_start).
  assert (Hlog : forall n k, in_log start n -> apply_writes d (take k ws) n = d n).
  { intros n k Hn. apply apply_writes_out. rewrite <- firstn_map, Hf. intros Hin.
    apply subseteq_take in Hin. by apply (la_out _ _ Hla) in Hin as [_ Hin]. }
  exists s', (ws ++ [(start, h)]). split; [exact E|]. split; [exact B|]. split; [exact T|].
  split; [rewrite length_app, Hlen; simpl; lia|].
  assert (Ed : dsk s' = apply_writes d (ws ++ [(start, h)])) by (unfold dsk; by rewrite B, T).
  split.
  { rewrite Ed, (apply_writes_in _ d (length ws) start h Hnd); [exact Hh0|].
    by rewrite lookup_app_r, Nat.sub_diag by lia. }
  split.
  { intros n Hn. rewrite Ed. destruct (decide (n ∈ bs)) as [Hin|Hin].
    - rewrite set_blocks_in by (auto; apply Hla). apply list_elem_of_lookup in Hin as [i Hi].
      destruct (wmatch_lookup _ _ i n (d (start + Z.of_nat i + 1)) Hm) as (m' & Hw & Hb).
      { unfold install_writes. by rewrite list_lookup_imap, Hi. }
      rewrite (apply_writes_in _ d i n m' Hnd) by (by apply lookup_app_l_Some).
      eapply beq_trans; [exact Hb|]. by apply Hv.
    - rewrite set_blocks_out, apply_writes_out; [apply beq_refl| |auto].
      rewrite map_app, Hf, elem_of_app. simpl. rewrite list_elem_of_singleton. intros [?| ->]; [auto|].
      apply Hn. unfold in_log, LOGBLOCKS, MAXOPBLOCKS. lia. }
  intros k Hk. rewrite take_app_le by lia. split.
  - split.
    + rewrite Hlog; [exact Hh|]. unfold in_log, LOGBLOCKS, MAXOPBLOCKS. lia.
    + intros i b Hb. rewrite Hlog; [by apply Hv|]. apply lookup_lt_Some in Hb.
      pose proof (la_max _ _ Hla). unfold in_log. lia.
  - intros n Hn Hin. apply apply_writes_out. rewrite <- firstn_map, Hf. intros Ht. by apply subseteq_take in Ht.
Qed.

(** A log with an empty header: recovery changes nothing outside the log. *)
Lemma recover_empty d dev start t :
  0 <= start -> hd_n (d start) = 0 ->
  exists s', initlog dev start t (crash d) = ORet tt t s' /\ hd_n (dsk s' start) = 0 /\
    same_outside start (dsk s') d.
Proof.
  intros Hs Hn.
  destruct (recover_committed d dev start [] (fun _ => d 0) t) as (s' & ws & E & _ & _ & _ & H0 & Ho & _).
  - constructor; [auto|unfold LOGBLOCKS, MAXOPBLOCKS; simpl; lia| |constructor].
    intros b Hb. by apply elem_of_nil in Hb.
  - split; [split; [exact Hn|simpl; lia]|]. intros i b Hb. done.
  - exists s'. auto.
Qed.

Lemma log_writes_nodup start vals : NoDup (map fst (log_writes start vals)).
Proof.
  apply NoDup_alt. intros i j n. unfold log_writes. rewrite fmap_imap, !list_lookup_imap.
  destruct (vals !! i), (vals !! j); simpl; try discriminate. intros [= <-] [= E]. lia.
Qed.

(** The disk between the header write and the end of [commit]. *)
Lemma commit_middle start d bs val ws1 h1 ws2 j :
  loggable start bs ->
  wmatch ws1 (log_writes start (map val bs)) ->
  is_header h1 (Z.of_nat (length bs)) (fun i => bs !!! i) ->
  let d1 := apply_writes d (ws1 ++ [(start, h1)]) in
  wmatch ws2 (install_writes d1 start bs) ->
  let d2 := apply_writes d1 (take j ws2) in
  committed start d2 bs val /\ (forall n, ~ in_log start n -> n ∉ bs -> d2 n = d n) /\
  ((length bs <= j)%nat -> same_outside start d2 (set_blocks d bs val)).
Proof.
  intros Hla Hm1 Hh1 d1 Hm2 d2. pose proof (la_max _ _ Hla) as Hmax.
  assert (Hf2 : map fst ws2 = bs) by (rewrite (wmatch_fst _ _ Hm2); apply install_writes_fst).
  assert (Hin1 : forall n, n ∈ map fst ws1 <-> start < n <= start + Z.of_nat (length bs)).
  { intros n. rewrite (wmatch_fst _ _ Hm1), log_writes_fst, length_map. reflexivity. }
  assert (Hnd : NoDup (map fst (ws1 ++ [(start, h1)]))).
  { rewrite map_app. apply NoDup_app. split; [rewrite (wmatch_fst _ _ Hm1); apply log_writes_nodup|]. split.
    - intros n Hn. rewrite Hin1 in Hn. simpl. rewrite list_elem_of_singleton. lia.
    - repeat constructor. apply not_elem_of_nil. }
  assert (Hout1 : forall n, ~ in_log start n -> d1 n = d n).
  { intros n Hn. apply apply_writes_out. rewrite map_app, elem_of_app, Hin1. simpl.
    rewrite list_elem_of_singleton. unfold in_log in Hn. lia. }
  assert (Hlog2 : forall n, in_log start n -> d2 n = d1 n).
  { intros n Hn. apply apply_writes_out. rewrite <- firstn_map, Hf2. intros Hin.
    apply subseteq_take in Hin. by apply (la_out _ _ Hla) in Hin as [_ Hin]. }
  assert (Hd1 : forall i b, bs !! i = Some b -> beq (d1 (start + Z.of_nat i + 1)) (val b)).
  { intros i b Hb. destruct (wmatch_lookup _ _ i (start + Z.of_nat i + 1) (val b) Hm1) as (m & Hw & Hbm).
    { unfold log_writes. by rewrite list_lookup_imap, list_lookup_fmap, Hb. }
    unfold d1. rewrite (apply_writes_in _ d i _ m Hnd); [exact Hbm|by apply lookup_app_l_Some]. }
  split; [split|split].
  - rewrite Hlog2 by (unfold in_log, LOGBLOCKS, MAXOPBLOCKS; lia). unfold d1.
    rewrite (apply_writes_in _ d (length ws1) start h1 Hnd); [exact Hh1|].
    by rewrite lookup_app_r, Nat.sub_diag by lia.
  - intros i b Hb. rewrite Hlog2; [by apply Hd1|]. apply lookup_lt_Some in Hb. unfold in_log. lia.
  - intros n Hn Hb. unfold d2. rewrite apply_writes_out; [by apply Hout1|].
    rewrite <- firstn_map, Hf2. intros Hin. by apply subseteq_take in Hin.
  - intros Hj n Hn. unfold d2. rewrite take_ge by (by rewrite <- (length_map fst), Hf2).
    destruct (decide (n ∈ bs)) as [Hin|Hin].
    + rewrite set_blocks_in by (auto; apply Hla). apply list_elem_of_lookup in Hin as [i Hi].
      destruct (wmatch_lookup _ _ i n (d1 (start + Z.of_nat i + 1)) Hm2) as (m & Hw & Hbm).
      { unfold install_writes. by rewrite list_lookup_imap, Hi. }
      rewrite (apply_writes_in _ d1 i n m); [|by rewrite Hf2; apply Hla|exact Hw].
      eapply beq_trans; [exact Hbm|by apply Hd1].
    + rewrite set_blocks_out, apply_writes_out by (auto; by rewrite Hf2).
      rewrite Hout1 by auto. apply beq_refl.
Qed.

Lemma logged_loggable l bs : logged l bs -> loggable (log_start l) bs.
Proof. intros [? ? ? ? ? ?]. by constructor. Qed.

Lemma set_blocks_same start d d' bs val :
  NoDup bs -> (forall n, ~ in_log start n -> n ∉ bs -> d n = d' n) ->
  same_outside start (set_blocks d bs val) (set_blocks d' bs val).
Proof.
  intros Hd H n Hn. destruct (decide (n ∈ bs)).
  - rewrite !set_blocks_in by auto. apply beq_refl.
  - rewrite !set_blocks_out, H by auto. apply beq_refl.
Qed.

Lemma same_outside_trans start d1 d2 d3 :
  same_outside start d1 d2 -> same_outside start d2 d3 -> same_outside start d1 d3.
Proof. intros H1 H2 n Hn. eapply beq_trans; eauto. Qed.

(** The header on the disk [d] names blocks that can be installed. *)
Definition recoverable (start : Z) (d : disk) : Prop :=
  exists bs, loggable start bs /\ is_header (d start) (Z.of_nat (length bs)) (fun i => bs !!! i).

Lemma empty_recoverable start d : 0 <= start -> hd_n (d start) = 0 -> recoverable start d.
Proof.
  intros Hs Hn. exists []. split; [|split; [exact Hn|simpl; lia]].
  constructor; [auto|unfold LOGBLOCKS, MAXOPBLOCKS; simpl; lia| |constructor]. intros b Hb. by apply elem_of_nil in Hb.
Qed.

Lemma commit_crash t s bs dev
    (Hne : bs <> []) (Hlg : logged (a_log s) bs) (Hrest : at_rest s (log_start (a_log s)))
    (Hpin : forall b, b ∈ bs -> 0 < a_ref s b)
    (Hempty : hd_n (dsk s (log_start (a_log s))) = 0) :
  let start := log_start (a_log s) in
  exists s' ws, commit t s = ORet tt t s' /\ a_base s' = a_base s /\ a_trace s' = a_trace s ++ ws /\ (length bs < length ws)%nat /\
    same_outside start (dsk s') (set_blocks (dsk s) bs (a_buf s)) /\ hd_n (dsk s' start) = 0 /\
    forall k t2, (k <= length ws)%nat ->
      recoverable start (apply_writes (dsk s) (take k ws)) /\
      (forall n, ~ in_log start n -> n ∉ bs -> apply_writes (dsk s) (take k ws) n = dsk s n) /\
      exists s2, initlog dev start t2 (crash (apply_writes (dsk s) (take k ws))) = ORet tt t2 s2 /\
        hd_n (dsk s2 start) = 0 /\
        same_outside start (dsk s2)
          (if (k <=? length bs)%nat then dsk s else set_blocks (dsk s) bs (a_buf s)).
Proof.
  intros start. pose proof (logged_loggable _ _ Hlg) as Hla. fold start in Hla, Hrest, Hempty.
  destruct (commit_run t s bs Hne Hlg Hrest Hpin)
    as (s' & ws1 & h1 & ws2 & h0 & E & B & T & Hm1 & Hh1 & Hm2 & Hh0 & _). fold start in T, Hm1, Hm2.
  assert (Hl1 : length ws1 = length bs) by (apply Forall2_length in Hm1; rewrite Hm1; unfold log_writes;
    by rewrite length_imap, length_map).
  assert (Hl2 : length ws2 = length bs) by (apply Forall2_length in Hm2; rewrite Hm2; unfold install_writes;
    by rewrite length_imap).
  set (d1 := apply_writes (dsk s) (ws1 ++ [(start, h1)])) in *.
  pose proof (fun j => commit_middle start (dsk s) bs (a_buf s) ws1 h1 ws2 j Hla Hm1 Hh1 Hm2) as Hmid.
  cbn zeta in Hmid. fold d1 in Hmid.
  set (d3 := apply_writes d1 (ws2 ++ [(start, h0)])).
  assert (Hd3 : same_outside start d3 (set_blocks (dsk s) bs (a_buf s)) /\ hd_n (d3 start) = 0).
  { destruct (Hmid (length bs)) as (_ & _ & Hend). specialize (Hend (Nat.le_refl _)).
    rewrite take_ge in Hend by lia. unfold d3. rewrite apply_writes_app. split.
    - intros n Hn. unfold apply_writes at 1. cbn [fold_left fst snd].
      rewrite upd_ne; [by apply Hend|]. intros ->. apply Hn. unfold in_log, LOGBLOCKS, MAXOPBLOCKS. lia.
    - unfold apply_writes at 1. cbn [fold_left fst snd]. by rewrite upd_eq. }
  destruct Hd3 as [Hd3 Hd3h].
  exists s', ((ws1 ++ [(start, h1)]) ++ (ws2 ++ [(start, h0)])). split; [exact E|]. split; [exact B|]. split; [exact T|].
  split; [rewrite !length_app, Hl1; simpl; lia|].
  assert (Eds : dsk s' = d3).
  { unfold dsk. rewrite B, T. rewrite apply_writes_app. fold (dsk s). by rewrite apply_writes_app. }
  rewrite Eds. split; [exact Hd3|]. split; [exact Hd3h|]. intros k t2 Hk.
  assert (Hfr : forall n, ~ in_log start n -> n ∉ bs -> apply_writes (dsk s) (take k ((ws1 ++ [(start, h1)]) ++ (ws2 ++ [(start, h0)]))) n = dsk s n).
  { intros n Hn Hb. apply apply_writes_out. rewrite <- firstn_map. intros Hin. apply subseteq_take in Hin. revert Hin.
    rewrite !map_app, (wmatch_fst _ _ Hm1), (wmatch_fst _ _ Hm2), install_writes_fst, !elem_of_app, log_writes_fst, length_map. simpl.
    rewrite !list_elem_of_singleton. pose proof (la_max _ _ Hla). unfold in_log, LOGBLOCKS, MAXOPBLOCKS in *. intuition lia. }
  match goal with |- ?A /\ _ /\ ?B => cut (A /\ B); [intros [? ?]; by split_and!|] end. clear Hfr.
  destruct (k <=? length bs)%nat eqn:Ek.
  - rewrite <- app_assoc, take_app_le by lia.
    assert (Hin : forall n, n ∈ map fst (take k ws1) -> start < n <= start + LOGBLOCKS).
    { intros n. rewrite <- firstn_map, (wmatch_fst _ _ Hm1). intros H. apply subseteq_take in H.
      rewrite log_writes_fst, length_map in H. pose proof (la_max _ _ Hla). lia. }
    destruct (recover_empty (apply_writes (dsk s) (take k ws1)) dev start t2) as (s2 & E2 & H0 & Ho).
    { apply Hla. } { rewrite apply_writes_out; [auto|]. intros H. apply Hin in H. lia. }
    split. { apply empty_recoverable; [apply Hla|]. rewrite apply_writes_out; [auto|]. intros H. apply Hin in H. lia. }
    exists s2. split; [exact E2|]. split; [exact H0|]. intros n Hn. specialize (Ho n Hn).
    rewrite apply_writes_out in Ho; [exact Ho|]. intros H. apply Hin in H. unfold in_log in Hn. lia.
  - set (j := (k - S (length bs))%nat).
    rewrite take_app_ge by (rewrite length_app, Hl1; simpl; lia).
    rewrite length_app, Hl1, Nat.add_1_r. fold j. rewrite apply_writes_app. fold d1.
    destruct (decide (j <= length bs)%nat) as [Hj|Hj].
    + rewrite take_app_le by lia. destruct (Hmid j) as (Hc & Hout & _).
      destruct (recover_committed _ dev start bs (a_buf s) t2 Hla Hc) as (s2 & ws & E2 & _ & _ & _ & H0 & Ho & _).
      split; [exists bs; split; [exact Hla|apply Hc]|]. exists s2. split; [exact E2|]. split; [exact H0|].
      eapply same_outside_trans; [exact Ho|]. apply set_blocks_same; [apply Hla|exact Hout].
    + rewrite (take_ge (ws2 ++ _)) by (rewrite length_app; simpl; lia). fold d3.
      destruct (recover_empty d3 dev start t2) as (s2 & E2 & H0 & Ho); [apply Hla|auto|].
      split; [apply empty_recoverable; [apply Hla|exact Hd3h]|].
      exists s2. split; [exact E2|]. split; [exact H0|]. eapply same_outside_trans; eauto.
Qed.

(** C3: commits are atomic with respect to crashes.  [commit] runs to its end
    without panic or deadlock, and for every crash point [k] (the first [k] of
    its disk writes survive) recovery by [initlog] succeeds, empties the log,
    and leaves every block outside the log as it was before the transaction
    if [k] is at most the number of logged blocks (the header was not yet
    written), and with all the transaction's changes otherwise. *)
Theorem commit_crash_atomic t s bs dev
    (Hne : bs <> []) (Hlg : logged (a_log s) bs) (Hrest : at_rest s (log_start (a_log s)))
    (Hpin : forall b, b ∈ bs -> 0 < a_ref s b)
    (Hempty : hd_n (dsk s (log_start (a_log s))) = 0) :
  let start := log_start (a_log s) in
  exists s' ws, commit t s = ORet tt t s' /\ a_trace s' = a_trace s ++ ws /\
    same_outside start (dsk s') (set_blocks (dsk s) bs (a_buf s)) /\
    forall k, (k <= length ws)%nat ->
      exists s2, initlog dev start t (crash (apply_writes (dsk s) (take k ws))) = ORet tt t s2 /\
        hd_n (dsk s2 start) = 0 /\
        same_outside start (dsk s2)
          (if (k <=? length bs)%nat then dsk s else set_blocks (dsk s) bs (a_buf s)).
Proof.
  intros start. destruct (commit_crash t s bs dev Hne Hlg Hrest Hpin Hempty) as (s' & ws & E & _ & T & _ & Ho & _ & Hk).
  exists s', ws. split; [exact E|]. split; [exact T|]. split; [exact Ho|]. intros k Hle. by apply Hk.
Qed.

(** C30: recovery can itself be interrupted: if the machine crashes again after
    any number of the disk writes of [initlog], running [initlog] once more
    gives the same blocks outside the log as an uninterrupted recovery. *)
Theorem recovery_idempotent d dev start bs val t
    (Hla : loggable start bs) (Hc : committed start d bs val) :
  exists s' ws, initlog dev start t (crash d) = ORet tt t s' /\ a_trace s' = ws /\
    same_outside start (dsk s') (set_blocks d bs val) /\
    forall k, (k <= length ws)%nat ->
      exists s2, initlog dev start t (crash (apply_writes d (take k ws))) = ORet tt t s2 /\
        same_outside start (dsk s2) (set_blocks d bs val).
Proof.
  destruct (recover_committed d dev start bs val t Hla Hc) as (s' & ws & E & B & T & Hlen & H0 & Ho & Hk).
  exists s', ws. split; [exact E|]. split; [exact T|]. split; [exact Ho|]. intros k Hle.
  destruct (decide (k <= length bs)%nat) as [Hj|Hj].
  - destruct (Hk k Hj) as [Hc' Hout].
    destruct (recover_committed _ dev start bs val t Hla Hc') as (s2 & ws' & E2 & _ & _ & _ & _ & Ho2 & _).
    exists s2. split; [exact E2|]. eapply same_outside_trans; [exact Ho2|].
    apply set_blocks_same; [apply Hla|exact Hout].
  - rewrite take_ge by lia. assert (Ed : apply_writes d ws = dsk s') by (unfold dsk; by rewrite B, T).
    rewrite Ed. destruct (recover_empty (dsk s') dev start t) as (s2 & E2 & _ & Ho2); [apply Hla|auto|].
    exists s2. split; [exact E2|]. eapply same_outside_trans; eauto.
Qed.

(** ** Log space *)

(** The operations in progress may still log [budgets] blocks each; what is
    logged and what is reserved fits in the log. *)
Definition reserved (l : logst) (budgets : list Z) : Prop :=
  log_outstanding l = Z.of_nat (length budgets) /\
  Forall (fun b => 0 <= b <= MAXOPBLOCKS) budgets /\
  0 <= lh_n l /\ lh_n l + foldr Z.add 0 budgets <= LOGBLOCKS.

Lemma sum_bound budgets :
  Forall (fun b => 0 <= b <= MAXOPBLOCKS) budgets ->
  0 <= foldr Z.add 0 budgets <= Z.of_nat (length budgets) * MAXOPBLOCKS.
Proof.
  induction 1 as [|b bs Hb _ IH]; cbn [foldr length]; [unfold MAXOPBLOCKS; lia|]. unfold MAXOPBLOCKS in *. lia.
Qed.

Lemma log_slot_in l bs i b :
  logged l bs -> length (lh_block l) = Z.to_nat LOGBLOCKS -> bs !! i = Some b -> log_slot l b = i.
Proof.
  intros Hlg Hlen Hi. pose proof (lookup_lt_Some _ _ _ Hi) as Hlt. pose proof (lg_max _ _ Hlg) as Hmax.
  assert (Htk : take (Z.to_nat (lh_n l)) (lh_block l) = bs).
  { rewrite (lg_n _ _ Hlg), Nat2Z.id. apply list_eq. intros j.
    destruct (decide (j < length bs)%nat) as [Hj|Hj].
    - destruct (lookup_lt_is_Some_2 bs j Hj) as [x Hx]. rewrite lookup_take_lt, Hx by auto.
      rewrite <- (lg_bs _ _ Hlg j x Hx). apply list_lookup_lookup_total_lt. lia.
    - rewrite !lookup_ge_None_2; [auto|lia|]. rewrite length_take. lia. }
  unfold log_slot. rewrite Htk. destruct (list_find (fun x => x = b) bs) as [[j x]|] eqn:Ef.
  - apply list_find_Some in Ef as (Hj & -> & _). apply (NoDup_lookup bs j i b); auto. apply Hlg.
  - apply list_find_None in Ef. rewrite Forall_lookup in Ef. by apply Ef in Hi.
Qed.

Lemma log_slot_out l bs b :
  logged l bs -> length (lh_block l) = Z.to_nat LOGBLOCKS -> b ∉ bs -> log_slot l b = length bs.
Proof.
  intros Hlg Hlen Hb. unfold log_slot. rewrite (lg_n _ _ Hlg), Nat2Z.id.
  destruct (list_find _ _) as [[j x]|] eqn:Ef; [|reflexivity].
  apply list_find_Some in Ef as (Hj & -> & _). apply lookup_take_Some in Hj as [Hj Hlt]. exfalso. apply Hb.
  destruct (lookup_lt_is_Some_2 bs j Hlt) as [x Hx]. pose proof (lg_bs _ _ Hlg j x Hx) as E.
  rewrite list_lookup_total_alt, Hj in E. simpl in E. subst. by eapply list_elem_of_lookup_2.
Qed.

Lemma log_write_ok t s bs b b0 budgets
    (Hlg : logged (a_log s) bs) (Hlen : length (lh_block (a_log s)) = Z.to_nat LOGBLOCKS)
    (Hres : reserved (a_log s) (b0 :: budgets)) (Hb0 : 0 < b0) (Hlk : LLog ∉ held t)
    (Hb : 0 <= b < 2147483648) (Hout : ~ in_log (log_start (a_log s)) b) :
  exists s', log_write (Z.to_nat b) t s = ORet tt t s' /\
    a_base s' = a_base s /\ a_trace s' = a_trace s /\ a_buf s' = a_buf s /\
    if bool_decide (b ∈ bs)
    then logged (a_log s') bs /\ a_ref s' = a_ref s /\ reserved (a_log s') (b0 :: budgets)
    else logged (a_log s') (bs ++ [b]) /\ a_ref s' = upd (a_ref s) b (a_ref s b + 1) /\
         reserved (a_log s') (b0 - 1 :: budgets).
Proof.
  destruct Hres as (Ho & Hf & Hn0 & Hsum). cbn [foldr length] in Hsum, Ho.
  apply Forall_cons in Hf as [Hb0' Hf]. pose proof (sum_bound _ Hf) as Hsb.
  unfold log_write. kstep (acquire_free LLog t s Hlk).
  unfold bind at 1, hget, gets. cbn [obind lget has a_has_log]. set (l := a_log s) in *.
  destruct (LOGBLOCKS <=? lh_n l) eqn:E1; [lia|]. destruct (log_outstanding l <? 1) eqn:E2; [lia|].
  unfold bind at 1. cbn [obind bd_blockno a_block_dev]. rewrite Z2Nat.id by lia.
  erewrite bind_ret by reflexivity. cbv beta. set (s1 := lput _ _ s).
  case_bool_decide as Hin.
  - apply list_elem_of_lookup in Hin as [i Hi]. pose proof (lookup_lt_Some _ _ _ Hi) as Hlt.
    rewrite (log_slot_in l bs i b Hlg Hlen Hi), (lg_n _ _ Hlg).
    destruct (Z.of_nat i =? Z.of_nat (length bs)) eqn:E3; [lia|]. cbn [when].
    erewrite bind_ret by reflexivity. rewrite release_top, tls_eta. exists s1. split; [reflexivity|].
    assert (Hbk : <[log_slot l b := b]> (lh_block l) = lh_block l).
    { apply list_insert_id. rewrite (log_slot_in l bs i b Hlg Hlen Hi).
      pose proof (lg_bs _ _ Hlg i b Hi) as E. pose proof (lg_max _ _ Hlg).
      rewrite <- E. apply list_lookup_lookup_total_lt. lia. }
    assert (Hl1 : a_log s1 = l).
    { change (a_log s1) with (l <| lh_block := <[log_slot l b := b]> (lh_block l) |>).
      rewrite Hbk. by destruct l. }
    rewrite Hl1. split; [reflexivity|]. split; [reflexivity|]. split; [reflexivity|]. split; [auto|]. split; [reflexivity|].
    split; [exact Ho|]. split; [by constructor|]. split; [auto|]. exact Hsum.
  - rewrite (log_slot_out l bs b Hlg Hlen Hin), (lg_n _ _ Hlg), Z.eqb_refl. cbn [when].
    erewrite bind_ret; [|unfold bind; reflexivity]. rewrite release_top, tls_eta.
    eexists. split; [reflexivity|]. split; [reflexivity|]. split; [reflexivity|]. split; [reflexivity|].
    assert (Hsl : log_slot l b = length bs) by (by apply log_slot_out).
    unfold l in *. clear l. destruct Hlg as [H1 H2 H3 H4 H5 H6]. cbn. rewrite Hsl. split; [|split].
    + constructor; cbn.
      * exact H1.
      * rewrite H2, length_app. simpl. lia.
      * rewrite length_app. simpl. lia.
      * intros i x Hx. destruct (decide (i = length bs)) as [->|Hne].
        -- rewrite list_lookup_total_insert_eq by lia. rewrite lookup_app_r, Nat.sub_diag in Hx by lia.
           by injection Hx.
        -- rewrite list_lookup_total_insert_ne by auto. apply H4.
           pose proof (lookup_lt_Some _ _ _ Hx) as Hlt. rewrite length_app in Hlt. simpl in Hlt.
           by rewrite lookup_app_l in Hx by lia.
      * intros x Hx. apply elem_of_app in Hx as [Hx|Hx]; [auto|].
        apply list_elem_of_singleton in Hx as ->. auto.
      * apply NoDup_app. split; [auto|]. split; [|repeat constructor; apply not_elem_of_nil].
        intros x Hx. rewrite list_elem_of_singleton. by intros ->.
    + by rewrite Z2Nat.id by lia.
    + split; [exact Ho|]. split; [constructor; [lia|auto]|].
      cbn [foldr]. change (lh_n _) with (lh_n (a_log s) + 1). lia.
Qed.

(** [log_write] by an operation that has not used up its reservation never
    panics.  A block that is already in the transaction is absorbed: the log
    is unchanged.  A new block is appended, its buffer is pinned, and the
    reservation still covers all operations in progress.  Buffers and disk are
    untouched. *)
Theorem log_write_spec t s bs b b0 budgets
    (Hlg : logged (a_log s) bs) (Hlen : length (lh_block (a_log s)) = Z.to_nat LOGBLOCKS)
    (Hres : reserved (a_log s) (b0 :: budgets)) (Hb0 : 0 < b0) (Hlk : LLog ∉ held t)
    (Hb : 0 <= b < 2147483648) (Hout : ~ in_log (log_start (a_log s)) b) :
  exists s', log_write (Z.to_nat b) t s = ORet tt t s' /\
    a_trace s' = a_trace s /\ a_buf s' = a_buf s /\
    if bool_decide (b ∈ bs)
    then logged (a_log s') bs /\ a_ref s' = a_ref s /\ reserved (a_log s') (b0 :: budgets)
    else logged (a_log s') (bs ++ [b]) /\ a_ref s' = upd (a_ref s) b (a_ref s b + 1) /\
         reserved (a_log s') (b0 - 1 :: budgets).
Proof.
  destruct (log_write_ok t s bs b b0 budgets Hlg Hlen Hres Hb0 Hlk Hb Hout) as (s' & E & _ & H). by exists s'.
Qed.

(** [begin_op] admits an operation only when the log has room for the
    blocks of all operations in progress and its own: when it returns, a full
    share of [MAXOPBLOCKS] blocks is reserved for the new operation on top of
    what the others may still log. *)
Theorem begin_op_spec {F : Fuel} t s budgets
    (Hfuel : (0 < fuel)%nat) (Hlk : LLog ∉ held t) (Hc : log_committing (a_log s) = 0)
    (Hres : reserved (a_log s) budgets)
    (Hroom : lh_n (a_log s) + (log_outstanding (a_log s) + 1) * MAXOPBLOCKS <= LOGBLOCKS) :
  exists s', begin_op t s = ORet tt t s' /\ reserved (a_log s') (MAXOPBLOCKS :: budgets) /\
    dsk s' = dsk s /\ a_buf s' = a_buf s /\ a_ref s' = a_ref s.
Proof.
  destruct Hres as (Ho & Hf & Hn0 & Hsum). pose proof (sum_bound _ Hf) as Hsb.
  unfold begin_op. kstep (acquire_free LLog t s Hlk).
  destruct fuel as [|n]; [lia|]. cbn [loop]. unfold bind at 1, bind at 1, hget, gets.
  cbn [obind lget has a_has_log]. rewrite Hc. cbn [Z.eqb negb].
  destruct (LOGBLOCKS <? _) eqn:E; [lia|].
  erewrite bind_ret by reflexivity. cbv beta. erewrite bind_ret by apply release_top. rewrite tls_eta.
  eexists. split; [reflexivity|]. split; [|auto].
  split; [change (log_outstanding _) with (log_outstanding (a_log s) + 1); simpl length; lia|].
  split; [constructor; [unfold MAXOPBLOCKS; lia|auto]|].
  change (lh_n _) with (lh_n (a_log s)). cbn [foldr]. split; [auto|]. unfold MAXOPBLOCKS in *. lia.
Qed.

(** ** A transaction that changed block 40 *)

Definition demo_log : logst := Logst 2 1 0 1 1 (40 :: replicate 29 0).
Definition demo_astate : astate :=
  Astate (fun _ _ => 0) [] (fun n _ => if n =? 40 then 7 else 0) (fun n => if n =? 40 then 1 else 0)
    (fun _ => false) demo_log.

Lemma demo_logged : logged demo_log [40].
Proof.
  constructor; [done|reflexivity|done| | |].
  - intros i b H. destruct i as [|i]; [by injection H as <-|by destruct i].
  - intros b Hb. apply list_elem_of_singleton in Hb as ->. unfold in_log. simpl. unfold LOGBLOCKS, MAXOPBLOCKS. lia.
  - repeat constructor. apply not_elem_of_nil.
Qed.

Lemma commit_crash_atomic_witness : exists s' ws,
  commit thread0 demo_astate = ORet tt thread0 s' /\ a_trace s' = ws /\
  forall k, (k <= length ws)%nat ->
    exists s2, initlog 1 2 thread0 (crash (apply_writes (dsk demo_astate) (take k ws))) = ORet tt thread0 s2 /\
      same_outside 2 (dsk s2)
        (if (k <=? 1)%nat then dsk demo_astate else set_blocks (dsk demo_astate) [40] (a_buf demo_astate)).
Proof.
  destruct (commit_crash_atomic thread0 demo_astate [40] 1) as (s' & ws & E & T & _ & Hk);
    [discriminate|apply demo_logged| | |reflexivity|].
  - split; [reflexivity|]. intros n Hn. unfold in_log in Hn. cbn in *. unfold LOGBLOCKS, MAXOPBLOCKS in Hn.
    destruct (n =? 40) eqn:En; [lia|reflexivity].
  - intros b Hb. apply list_elem_of_singleton in Hb as ->. reflexivity.
  - exists s', ws. split; [exact E|]. split; [exact T|]. intros k Hle.
    destruct (Hk k Hle) as (s2 & E2 & _ & Ho). exists s2. auto.
Defined.

(** A disk that crashed right after the header write. *)
Definition demo_crashed : disk := fun n =>
  if n =? 2 then store32 4 40 (store32 0 1 (fun _ => 0)) else if n =? 3 then (fun _ => 7) else (fun _ => 0).

Lemma recovery_idempotent_witness : exists s' ws,
  initlog 1 2 thread0 (crash demo_crashed) = ORet tt thread0 s' /\ a_trace s' = ws /\
  same_outside 2 (dsk s') (set_blocks demo_crashed [40] (fun _ _ => 7)).
Proof.
  destruct (recovery_idempotent demo_crashed 1 2 [40] (fun _ _ => 7) thread0) as (s' & ws & E & T & Ho & _);
    [apply (logged_loggable _ _ demo_logged)| |exists s', ws; auto].
  split; [split; [reflexivity|]|].
  - intros i Hi. destruct i as [|i]; [reflexivity|]. simpl in Hi. lia.
  - intros i b Hb. destruct i as [|i]; [|by destruct i]. injection Hb as <-. apply beq_refl.
Defined.

