(* ===== verification/Sim.v ===== *)
(** * Simulation between two runs of the same code

    The components of the kernel are written for any state that has what they
    need, so one function of the source runs on an ideal state and on a
    detailed one.  [sim w m1 m2 Q] says that the detailed run [m2] does what
    the ideal run [m1] does: where [m1] returns, so does [m2], in states that
    are related again.  [R w] relates the states; [w] records what the thread
    has in its hands between two statements (the buffers it has locked). *)

From S2P Require Import Prelude Kmonad.

Section Sim.
Context {S1 S2 W : Type}.
Context (R : W -> S1 -> S2 -> Prop).
(** The locks a thread may hold, the order in which the ideal state grows,
    and the ideal states that the detailed one has room for. *)
Context (T : tls -> Prop) (le : S1 -> S1 -> Prop) (F : S1 -> Prop).
Context `{!PreOrder le} (F_le : forall s s', le s s' -> F s' -> F s).

Definition grows {A} (m : M S1 A) : Prop := forall t s a t' s', m t s = ORet a t' s' -> le s s'.

Definition sim {A B} (w : W) (m1 : M S1 A) (m2 : M S2 B) (Q : W -> A -> B -> Prop) : Prop :=
  forall t s1 s2 a t' s1', T t -> R w s1 s2 -> m1 t s1 = ORet a t' s1' -> F s1' ->
  exists w' b s2', m2 t s2 = ORet b t' s2' /\ R w' s1' s2' /\ Q w' a b /\ T t'.

(** The two runs give the same result, and the thread ends with what it had. *)
Definition same {A} (w : W) : W -> A -> A -> Prop := fun w' a b => w' = w /\ a = b.

(** A sequence that returns returned in between. *)
Lemma bind_inv {S A B} (m : M S A) (f : A -> M S B) t s b t' s' :
  bind m f t s = ORet b t' s' ->
  exists a t1 s1, m t s = ORet a t1 s1 /\ f a t1 s1 = ORet b t' s'.
Proof. unfold bind. destruct (m t s) as [a t1 s1|msg|s1 k|]; simpl; try discriminate. eauto. Qed.

(** ** What grows *)

Lemma grows_ret {A} (a : A) : grows (ret a).
Proof. intros t s a' t' s' [= <- <- <-]. reflexivity. Qed.

Lemma grows_panic {A} msg : grows (panic msg : M S1 A).
Proof. intros t s a t' s' [=]. Qed.

Lemma grows_gets {A} (f : S1 -> A) : grows (gets f).
Proof. intros t s a t' s' [= <- <- <-]. reflexivity. Qed.

Lemma grows_modify f : (forall s, le s (f s)) -> grows (modify f).
Proof. intros H t s a t' s' [= <- <- <-]. apply H. Qed.

Lemma grows_bind {A B} (m : M S1 A) (f : A -> M S1 B) : grows m -> (forall a, grows (f a)) -> grows (bind m f).
Proof.
  intros Hm Hf t s b t' s' E. apply bind_inv in E as (a & t1 & s1 & E1 & E2).
  transitivity s1; [exact (Hm _ _ _ _ _ E1)|exact (Hf _ _ _ _ _ _ E2)].
Qed.

Lemma grows_when b (m : M S1 unit) : grows m -> grows (when b m).
Proof. destruct b; [done|]. intros _. apply grows_ret. Qed.

Lemma grows_acquire lk : grows (acquire lk).
Proof. intros t s a t' s'. unfold acquire. destruct (holding lk t); [done|]. intros [= <- <- <-]. reflexivity. Qed.

Lemma grows_release lk : grows (release lk).
Proof. intros t s a t' s'. unfold release. destruct (holding lk t); [|done]. intros [= <- <- <-]. reflexivity. Qed.

Lemma grows_for_each {X} (l : list X) (body : X -> M S1 unit) : (forall x, grows (body x)) -> grows (for_each l body).
Proof.
  intros H. induction l as [|x l IH]; simpl; [apply grows_ret|]. apply grows_bind; auto.
Qed.

Lemma grows_for_find {X A} (l : list X) (body : X -> M S1 (option A)) :
  (forall x, grows (body x)) -> grows (for_find l body).
Proof.
  intros H. induction l as [|x l IH]; simpl; [apply grows_ret|]. apply grows_bind; [auto|].
  intros [a|]; [apply grows_ret|auto].
Qed.

Lemma grows_loop {X A} n (body : X -> M S1 (X + A)) x : (forall x, grows (body x)) -> grows (loop n body x).
Proof.
  intros H. revert x. induction n as [|n IH]; intros x; simpl; [by intros ? ? ? ? ?|].
  apply grows_bind; [auto|]. intros [x'|a]; [auto|apply grows_ret].
Qed.

(** ** Rules *)

Lemma sim_ret {A B} w (a : A) (b : B) (Q : W -> A -> B -> Prop) : Q w a b -> sim w (ret a) (ret b) Q.
Proof. intros HQ t s1 s2 a' t' s1' HT HR [= <- <- <-] _. exists w, b, s2. auto. Qed.

Lemma sim_conseq {A B} w (m1 : M S1 A) (m2 : M S2 B) (Q Q' : W -> A -> B -> Prop) :
  sim w m1 m2 Q -> (forall w' a b, Q w' a b -> Q' w' a b) -> sim w m1 m2 Q'.
Proof.
  intros H HQ t s1 s2 a t' s1' HT HR E HF. destruct (H _ _ _ _ _ _ HT HR E HF) as (w' & b & s2' & H1 & H2 & H3 & H4).
  exists w', b, s2'. auto.
Qed.

Lemma sim_bind {A A' B B'} w (m1 : M S1 A) (m2 : M S2 B) (f1 : A -> M S1 A') (f2 : B -> M S2 B') Q Q' :
  sim w m1 m2 Q -> (forall a, grows (f1 a)) ->
  (forall w' a b, Q w' a b -> sim w' (f1 a) (f2 b) Q') ->
  sim w (bind m1 f1) (bind m2 f2) Q'.
Proof.
  intros Hm Hg Hf t s1 s2 a t' s1' HT HR E HF. apply bind_inv in E as (a1 & t1 & x1 & E1 & E2).
  assert (HF1 : F x1) by (eapply F_le; [exact (Hg _ _ _ _ _ _ E2)|exact HF]).
  destruct (Hm _ _ _ _ _ _ HT HR E1 HF1) as (w1 & b1 & x2 & E1' & HR1 & HQ1 & HT1).
  destruct (Hf _ _ _ HQ1 _ _ _ _ _ _ HT1 HR1 E2 HF) as (w2 & b2 & s2' & E2' & HR2 & HQ2 & HT2).
  exists w2, b2, s2'. split; [|auto]. unfold bind. by rewrite E1'.
Qed.

Lemma sim_bind_same {A A' B'} w (m1 : M S1 A) (m2 : M S2 A) (f1 : A -> M S1 A') (f2 : A -> M S2 B') Q' :
  sim w m1 m2 (same w) -> (forall a, grows (f1 a)) -> (forall a, sim w (f1 a) (f2 a) Q') ->
  sim w (bind m1 f1) (bind m2 f2) Q'.
Proof. intros Hm Hg Hf. eapply sim_bind; [exact Hm|exact Hg|]. intros w' a b [-> ->]. apply Hf. Qed.

Lemma sim_panic {A B} w msg (m2 : M S2 B) Q : sim w (panic msg : M S1 A) m2 Q.
Proof. intros t s1 s2 a t' s1' _ _ [=]. Qed.

Lemma sim_gets {A} w (f1 : S1 -> A) (f2 : S2 -> A) :
  (forall s1 s2, R w s1 s2 -> f1 s1 = f2 s2) -> sim w (gets f1) (gets f2) (same w).
Proof.
  intros H t s1 s2 a t' s1' HT HR [= <- <- <-] _. exists w, (f2 s2), s2. unfold same. by split_and!; auto.
Qed.

Lemma sim_modify w w' f1 f2 :
  (forall s1 s2, R w s1 s2 -> R w' (f1 s1) (f2 s2)) -> sim w (modify f1) (modify f2) (fun v _ _ => v = w').
Proof. intros H t s1 s2 a t' s1' HT HR [= <- <- <-] _. exists w', tt, (f2 s2). auto. Qed.

Lemma sim_when w b (m1 : M S1 unit) (m2 : M S2 unit) :
  sim w m1 m2 (same w) -> sim w (when b m1) (when b m2) (same w).
Proof. intros H. destruct b; [exact H|]. by apply sim_ret. Qed.

Lemma sim_if {A B} w (b : bool) (m1 m1' : M S1 A) (m2 m2' : M S2 B) Q :
  (b = true -> sim w m1 m2 Q) -> (b = false -> sim w m1' m2' Q) ->
  sim w (if b then m1 else m1') (if b then m2 else m2') Q.
Proof. intros H1 H2. destruct b; auto. Qed.

Lemma sim_acquire w lk :
  (forall t, T t -> T (Tls (lk :: held t) (me t))) -> sim w (acquire lk) (acquire lk) (same w).
Proof.
  intros H t s1 s2 a t' s1' HT HR E _. unfold acquire in *. destruct (holding lk t); [done|]. injection E as <- <- <-.
  exists w, tt, s2. unfold same. auto.
Qed.

Lemma sim_release w lk :
  (forall t, T t -> T (Tls (remove_lock lk (held t)) (me t))) -> sim w (release lk) (release lk) (same w).
Proof.
  intros H t s1 s2 a t' s1' HT HR E _. unfold release in *. destruct (holding lk t); [|done]. injection E as <- <- <-.
  exists w, tt, s2. unfold same. auto.
Qed.

(** Loops: the body keeps what the thread has in its hands. *)
Lemma sim_for_each {X} w (l : list X) (b1 : X -> M S1 unit) (b2 : X -> M S2 unit) :
  (forall x, grows (b1 x)) -> (forall x, x ∈ l -> sim w (b1 x) (b2 x) (same w)) ->
  sim w (for_each l b1) (for_each l b2) (same w).
Proof.
  intros Hg. induction l as [|x l IH]; intros H; simpl; [by apply sim_ret|].
  apply sim_bind_same; [apply H, list_elem_of_here|intros _; by apply grows_for_each|].
  intros _. apply IH. intros y Hy. apply H. by apply list_elem_of_further.
Qed.

(** ... or changes it from turn to turn. *)
Lemma sim_for_each_at {X} (v : nat -> W) (b1 : X -> M S1 unit) (b2 : X -> M S2 unit) : forall (l : list X) k,
  (forall x, grows (b1 x)) ->
  (forall i x, l !! i = Some x -> sim (v (k + i)%nat) (b1 x) (b2 x) (fun w' _ _ => w' = v (k + S i)%nat)) ->
  sim (v k) (for_each l b1) (for_each l b2) (fun w' _ _ => w' = v (k + length l)%nat).
Proof.
  induction l as [|x l IH]; intros k Hg H; simpl; [apply sim_ret; f_equal; lia|].
  eapply sim_bind; [|intros _; by apply grows_for_each|].
  { specialize (H 0%nat x eq_refl). rewrite Nat.add_0_r in H. exact H. }
  intros w' _ _ ->. replace (k + S (length l))%nat with (k + 1 + length l)%nat by lia. apply IH; [exact Hg|].
  intros i y Hy. replace (k + 1 + i)%nat with (k + S i)%nat by lia.
  replace (k + 1 + S i)%nat with (k + S (S i))%nat by lia. by apply H.
Qed.

Lemma sim_for_find {X A} w (l : list X) (b1 : X -> M S1 (option A)) (b2 : X -> M S2 (option A)) :
  (forall x, grows (b1 x)) -> (forall x, x ∈ l -> sim w (b1 x) (b2 x) (same w)) ->
  sim w (for_find l b1) (for_find l b2) (same w).
Proof.
  intros Hg. induction l as [|x l IH]; intros H; simpl; [by apply sim_ret|].
  apply sim_bind_same; [apply H, list_elem_of_here| |].
  - intros [a|]; [apply grows_ret|by apply grows_for_find].
  - intros [a|]; [by apply sim_ret|]. apply IH. intros y Hy. apply H. by apply list_elem_of_further.
Qed.

Lemma sim_loop {X A} w n (b1 : X -> M S1 (X + A)) (b2 : X -> M S2 (X + A)) x :
  (forall x, grows (b1 x)) -> (forall x, sim w (b1 x) (b2 x) (same w)) ->
  sim w (loop n b1 x) (loop n b2 x) (same w).
Proof.
  intros Hg H. revert x. induction n as [|n IH]; intros x; simpl; [by intros ? ? ? ? ? ? ? ?|].
  apply sim_bind_same; [apply H| |].
  - intros [x'|a]; [by apply grows_loop|apply grows_ret].
  - intros [x'|a]; [apply IH|by apply sim_ret].
Qed.
End Sim.

Arguments same {W A}.
