(* ===== verification/Fs.v ===== *)
(** * The file system (kernel/fs.c)

    Blocks, inodes, directories and paths.  The layer runs on any state [S]
    that has block buffers ([BlockDev]), a log ([LogOps]), sleep locks, the
    variables [sb] and [itable] ([fsst]) and the user memory of the current
    process ([UserOps]).

    An [struct inode *] is an index into [itable.inode[]], [None] for a null
    pointer.  A C string is the list of its characters without the NUL; the
    array [name[DIRSIZ]] is a list of [DIRSIZ] bytes.  Messages that the code
    prints are left out. *)

From S2P Require Import Prelude Kmonad Mem Riscv Kalloc Cstring Vm Proc Iface Sleeplock Bio Log.

(** ** On-disk format (kernel/fs.h) *)
Definition ROOTINO : Z := 1.
Definition FSMAGIC : Z := 0x10203040.
Definition NDIRECT : Z := 12.
Definition NINDIRECT : Z := BSIZE / 4.
Definition MAXFILE : Z := NDIRECT + NINDIRECT.
Definition sizeof_dinode : Z := 64.
Definition IPB : Z := BSIZE / sizeof_dinode.
Definition BPB : Z := BSIZE * 8.
Definition DIRSIZ : Z := 14.
Definition sizeof_dirent : Z := 16.

Definition T_DIR : Z := 1.
Definition T_FILE : Z := 2.
Definition T_DEVICE : Z := 3.

Record superblock := Superblock {
  sb_magic : Z;
  sb_size : Z;
  sb_nblocks : Z;
  sb_ninodes : Z;
  sb_nlog : Z;
  sb_logstart : Z;
  sb_inodestart : Z;
  sb_bmapstart : Z;
}.

Definition IBLOCK (i : Z) (sb : superblock) : Z := u32 (i / IPB + sb_inodestart sb).
Definition BBLOCK (b : Z) (sb : superblock) : Z := u32 (b / BPB + sb_bmapstart sb).

(** The superblock in a block. *)
Definition sb_of (m : mem) : superblock :=
  Superblock (load32 0 m) (load32 4 m) (load32 8 m) (load32 12 m)
    (load32 16 m) (load32 20 m) (load32 24 m) (load32 28 m).

(** [struct dinode], at offset [o] of an inode block. *)
Record dinode := Dinode {
  di_type : Z;
  di_major : Z;
  di_minor : Z;
  di_nlink : Z;
  di_size : Z;
  di_addrs : list Z;
}.
Definition addrs_at (m : mem) (o : Z) (n : nat) : list Z :=
  (fun j => load32 (o + 4 * Z.of_nat j) m) <$> seq 0 n.
Definition dinode_at (m : mem) (o : Z) : dinode :=
  Dinode (i16 (mload 2 o m)) (i16 (mload 2 (o + 2) m)) (i16 (mload 2 (o + 4) m)) (i16 (mload 2 (o + 6) m))
    (load32 (o + 8) m) (addrs_at m (o + 12) (Z.to_nat (NDIRECT + 1))).

(** [a[0..]] stored as an array of [uint] at [o]. *)
Fixpoint store_addrs (o : Z) (l : list Z) (m : mem) : mem :=
  match l with [] => m | a :: l' => store_addrs (o + 4) l' (store32 o a m) end.
Definition put_dinode (o : Z) (d : dinode) (m : mem) : mem :=
  store_addrs (o + 12) (di_addrs d)
    (store32 (o + 8) (di_size d) (mstore 2 (o + 6) (di_nlink d)
      (mstore 2 (o + 4) (di_minor d) (mstore 2 (o + 2) (di_major d) (mstore 2 o (di_type d) m))))).

(** The offset of inode [inum] in its block. *)
Definition dinode_off (inum : Z) : Z := sizeof_dinode * (inum mod IPB).

(** [struct inode] of kernel/file.h. *)
Record inode := Inode {
  i_dev : Z;
  i_inum : Z;
  i_ref : Z;
  i_lock : sleeplock;
  i_valid : Z;
  i_type : Z;
  i_major : Z;
  i_minor : Z;
  i_nlink : Z;
  i_size : Z;
  i_addrs : list Z;
}.
#[global] Instance eta_inode : Eta inode := fun r =>
  Inode (i_dev r) (i_inum r) (i_ref r) (i_lock r) (i_valid r) (i_type r) (i_major r) (i_minor r)
    (i_nlink r) (i_size r) (i_addrs r).
Definition zero_inode : inode :=
  Inode 0 0 0 initsleeplock 0 0 0 0 0 0 (replicate (Z.to_nat (NDIRECT + 1)) 0).
#[global] Instance inode_inhabited : Inhabited inode := populate zero_inode.

(** The variables of kernel/fs.c. *)
Record fsst := Fsst { fs_sb : superblock; itable : list inode }.
#[global] Instance eta_fsst : Eta fsst := fun r => Fsst (fs_sb r) (itable r).

(** ** Interfaces *)

(** What kernel/log.c offers to the file system. *)
Class LogOps (S : Type) := {
  op_begin : M S unit;
  op_end : M S unit;
  op_log_write : nat -> M S unit;
  op_initlog : Z -> Z -> M S unit;
}.
#[global] Instance log_ops {S} `{BlockDev S} `{Has S logst} `{SleepOps S} `{Fuel} : LogOps S := {|
  op_begin := begin_op;
  op_end := end_op;
  op_log_write := log_write;
  op_initlog := initlog;
|}.

(** What the file system needs of the current process. *)
Class UserOps (S : Type) := {
  op_copyout : kdst -> list Z -> M S Z;             (* either_copyout *)
  op_copyin : ksrc -> nat -> M S (Z * list Z);      (* either_copyin *)
  op_cwd : M S (option nat);                        (* myproc()->cwd *)
}.
#[global] Instance proc_user_ops {S} `{Has S pst} `{LinkMap} : UserOps S := {|
  op_copyout d l := inpart (either_copyout d l);
  op_copyin src n := inpart (either_copyin src n);
  op_cwd := inpart (let* i := myproc in let* p := getp i in ret (pr_cwd p));
|}.

(** A use of a pointer that must not be null. *)
Definition deref {S A} (p : option A) : M S A :=
  match p with Some a => ret a | None => panic "undefined behaviour: null pointer" end.

Section Fs.
Context {S : Type} `{BlockDev S} `{LogOps S} `{SleepOps S} `{Has S fsst} `{UserOps S} `{Fuel}.

Definition getsb : M S superblock := let* f := hget in ret (fs_sb f).
Definition geti (i : nat) : M S inode := let* f := hget in ret (itable f !!! i).
Definition modi (i : nat) (g : inode -> inode) : M S unit :=
  hmod (fun f : fsst => f <| itable := <[i := g (itable f !!! i)]> (itable f) |>).
Definition inode_lock (i : nat) : lens S sleeplock :=
  Lens (fun s => i_lock (itable (lget has s) !!! i))
       (fun x s => lput has ((lget has s : fsst)
          <| itable := <[i := (itable (lget has s) !!! i) <| i_lock := x |>]> (itable (lget has s)) |>) s).

(** A change to [bp->data]. *)
Definition set_data (b : nat) (g : mem -> mem) : M S unit :=
  modify (fun s => bd_set b (g (bd_data b s)) s).

(** ** Blocks *)

Definition readsb (dev : Z) : M S unit :=
  let* bp := bd_bread dev 1 in
  let* m := gets (bd_data bp) in
  hmod (fun f : fsst => f <| fs_sb := sb_of m |>) ;;
  bd_brelse bp.

Definition bzero (dev bno : Z) : M S unit :=
  let* bp := bd_bread dev bno in
  set_data bp (mset 0 0 BSIZE) ;;
  op_log_write bp ;;
  bd_brelse bp.

(** The test of [balloc] and [bfree]: [bp->data[bi/8] & m] with
    [m = 1 << (bi % 8)]. *)
Definition bit_mask (bi : Z) : Z := Z.shiftl 1 (bi mod 8).
Definition bit_used (m : mem) (bi : Z) : bool := negb (Z.land (byte_at m (bi / 8)) (bit_mask bi) =? 0).

(** The inner loop of [balloc] over the first [n] bits of a bitmap block. *)
Definition first_free (m : mem) (n : nat) : option nat :=
  fst <$> list_find (fun bi => bit_used m (Z.of_nat bi) = false) (seq 0 n).

(** [balloc(dev)]: the outer loop runs over the bitmap blocks, [b] the first
    block number of each. *)
Definition balloc (dev : Z) : M S Z :=
  let* sb := getsb in
  let* r := for_find (seq 0 (Z.to_nat ((sb_size sb + BPB - 1) / BPB)))
    (fun g =>
       let b := Z.of_nat g * BPB in
       let* bp := bd_bread dev (BBLOCK b sb) in
       let* m := gets (bd_data bp) in
       match first_free m (Z.to_nat (Z.min BPB (sb_size sb - b))) with
       | Some bi =>
           set_data bp (fun m => mstore 1 (Z.of_nat bi / 8) (Z.lor (byte_at m (Z.of_nat bi / 8)) (bit_mask (Z.of_nat bi))) m) ;;
           op_log_write bp ;;
           bd_brelse bp ;;
           bzero dev (b + Z.of_nat bi) ;;
           ret (Some (b + Z.of_nat bi))
       | None => bd_brelse bp ;; ret None
       end) in
  ret (default 0 r).

Definition bfree (dev b : Z) : M S unit :=
  let* sb := getsb in
  let* bp := bd_bread dev (BBLOCK b sb) in
  let bi := b mod BPB in
  let* m := gets (bd_data bp) in
  if negb (bit_used m bi) then panic "freeing free block"
  else
    set_data bp (fun m => mstore 1 (bi / 8) (Z.land (byte_at m (bi / 8)) (Z.lnot (bit_mask bi))) m) ;;
    op_log_write bp ;;
    bd_brelse bp.

(** ** Inodes *)

Definition iinit : M S unit :=
  for_each (seq 0 NINODE) (fun i => modi i (fun ip => ip <| i_lock := initsleeplock |>)).

(** The scan of [iget] with the variable [empty]: the entry that holds the
    inode, or the first free entry. *)
Fixpoint iget_scan (dev inum : Z) (l : list inode) (i : nat) (empty : option nat) : nat + option nat :=
  match l with
  | [] => inr empty
  | ip :: l' =>
      if (0 <? i_ref ip) && (i_dev ip =? dev) && (i_inum ip =? inum) then inl i
      else iget_scan dev inum l' (Datatypes.S i)
             (if match empty with None => i_ref ip =? 0 | Some _ => false end then Some i else empty)
  end.

Definition iget (dev inum : Z) : M S nat :=
  acquire LItable ;;
  let* f := hget in
  match iget_scan dev inum (itable f) 0 None with
  | inl ip =>
      modi ip (fun x => x <| i_ref ::= (fun r => r + 1) |>) ;;
      release LItable ;;
      ret ip
  | inr None => panic "iget: no inodes"
  | inr (Some ip) =>
      modi ip (fun x => x <| i_dev := dev |> <| i_inum := inum |> <| i_ref := 1 |> <| i_valid := 0 |>) ;;
      release LItable ;;
      ret ip
  end.

Definition ialloc (dev type : Z) : M S (option nat) :=
  let* sb := getsb in
  for_find (seq 1 (Z.to_nat (sb_ninodes sb - 1)))
    (fun inum =>
       let inum := Z.of_nat inum in
       let* bp := bd_bread dev (IBLOCK inum sb) in
       let* m := gets (bd_data bp) in
       if di_type (dinode_at m (dinode_off inum)) =? 0 then
         set_data bp (fun m => mstore 2 (dinode_off inum) type (mset (dinode_off inum) 0 sizeof_dinode m)) ;;
         op_log_write bp ;;
         bd_brelse bp ;;
         let* ip := iget dev inum in ret (Some ip)
       else bd_brelse bp ;; ret None).

Definition dinode_of (ip : inode) : dinode :=
  Dinode (i_type ip) (i_major ip) (i_minor ip) (i_nlink ip) (i_size ip) (i_addrs ip).

Definition iupdate (i : nat) : M S unit :=
  let* ip := geti i in
  let* sb := getsb in
  let* bp := bd_bread (i_dev ip) (IBLOCK (i_inum ip) sb) in
  set_data bp (put_dinode (dinode_off (i_inum ip)) (dinode_of ip)) ;;
  op_log_write bp ;;
  bd_brelse bp.

Definition idup (i : nat) : M S nat :=
  acquire LItable ;;
  modi i (fun ip => ip <| i_ref ::= (fun r => r + 1) |>) ;;
  release LItable ;;
  ret i.

Definition ilock (i : nat) : M S unit :=
  let* ip := geti i in
  if i_ref ip <? 1 then panic "ilock"
  else
    acquiresleep (inode_lock i) (SLinode i) ;;
    let* ip := geti i in
    when (i_valid ip =? 0)
      (let* sb := getsb in
       let* bp := bd_bread (i_dev ip) (IBLOCK (i_inum ip) sb) in
       let* m := gets (bd_data bp) in
       let d := dinode_at m (dinode_off (i_inum ip)) in
       modi i (fun ip => ip <| i_type := di_type d |> <| i_major := di_major d |> <| i_minor := di_minor d |>
                            <| i_nlink := di_nlink d |> <| i_size := di_size d |> <| i_addrs := di_addrs d |>) ;;
       bd_brelse bp ;;
       modi i (fun ip => ip <| i_valid := 1 |>) ;;
       if di_type d =? 0 then panic "ilock: no type" else ret tt).

Definition iunlock (i : nat) : M S unit :=
  let* h := holdingsleep (inode_lock i) (SLinode i) in
  let* ip := geti i in
  if negb h || (i_ref ip <? 1) then panic "iunlock"
  else releasesleep (inode_lock i) (SLinode i).

(** ** Inode content *)

(** [ip->addrs[j]], allocating a block if there is none. *)
Definition addr_or_alloc (i : nat) (j : nat) : M S Z :=
  let* ip := geti i in
  let addr := i_addrs ip !!! j in
  if addr =? 0 then
    let* addr := balloc (i_dev ip) in
    if addr =? 0 then ret 0
    else modi i (fun ip => ip <| i_addrs ::= <[j := addr]> |>) ;; ret addr
  else ret addr.

Definition bmap (i : nat) (bn : Z) : M S Z :=
  if bn <? NDIRECT then addr_or_alloc i (Z.to_nat bn)
  else
    let bn := bn - NDIRECT in
    if bn <? NINDIRECT then
      let* addr := addr_or_alloc i (Z.to_nat NDIRECT) in
      if addr =? 0 then ret 0
      else
        let* ip := geti i in
        let* bp := bd_bread (i_dev ip) addr in
        let* m := gets (bd_data bp) in
        let addr := load32 (4 * bn) m in
        let* addr :=
          (if addr =? 0 then
             let* addr := balloc (i_dev ip) in
             when (negb (addr =? 0)) (set_data bp (store32 (4 * bn) addr) ;; op_log_write bp) ;;
             ret addr
           else ret addr) in
        bd_brelse bp ;;
        ret addr
    else panic "bmap: out of range".

Definition itrunc (i : nat) : M S unit :=
  for_each (seq 0 (Z.to_nat NDIRECT))
    (fun j =>
       let* ip := geti i in
       when (negb (i_addrs ip !!! j =? 0))
         (bfree (i_dev ip) (i_addrs ip !!! j) ;;
          modi i (fun ip => ip <| i_addrs ::= <[j := 0]> |>))) ;;
  let* ip := geti i in
  when (negb (i_addrs ip !!! Z.to_nat NDIRECT =? 0))
    (let* bp := bd_bread (i_dev ip) (i_addrs ip !!! Z.to_nat NDIRECT) in
     for_each (seq 0 (Z.to_nat NINDIRECT))
       (fun j =>
          let* m := gets (bd_data bp) in
          let a := load32 (4 * Z.of_nat j) m in
          when (negb (a =? 0)) (bfree (i_dev ip) a)) ;;
     bd_brelse bp ;;
     bfree (i_dev ip) (i_addrs ip !!! Z.to_nat NDIRECT) ;;
     modi i (fun ip => ip <| i_addrs ::= <[Z.to_nat NDIRECT := 0]> |>)) ;;
  modi i (fun ip => ip <| i_size := 0 |>) ;;
  iupdate i.

Definition iput (i : nat) : M S unit :=
  acquire LItable ;;
  let* ip := geti i in
  when ((i_ref ip =? 1) && negb (i_valid ip =? 0) && (i_nlink ip =? 0))
    (acquiresleep (inode_lock i) (SLinode i) ;;
     release LItable ;;
     itrunc i ;;
     modi i (fun ip => ip <| i_type := 0 |>) ;;
     iupdate i ;;
     modi i (fun ip => ip <| i_valid := 0 |>) ;;
     releasesleep (inode_lock i) (SLinode i) ;;
     acquire LItable) ;;
  modi i (fun ip => ip <| i_ref ::= (fun r => r - 1) |>) ;;
  release LItable.

Definition iunlockput (i : nat) : M S unit := iunlock i ;; iput i.

Definition ireclaim (dev : Z) : M S unit :=
  let* sb := getsb in
  for_each (seq 1 (Z.to_nat (sb_ninodes sb - 1)))
    (fun inum =>
       let inum := Z.of_nat inum in
       let* bp := bd_bread dev (IBLOCK inum sb) in
       let* m := gets (bd_data bp) in
       let d := dinode_at m (dinode_off inum) in
       let* ip := (if negb (di_type d =? 0) && (di_nlink d =? 0)
                   then let* ip := iget dev inum in ret (Some ip) else ret None) in
       bd_brelse bp ;;
       match ip with
       | Some ip => op_begin ;; ilock ip ;; iunlock ip ;; iput ip ;; op_end
       | None => ret tt
       end).

Definition fsinit (dev : Z) : M S unit :=
  readsb dev ;;
  let* sb := getsb in
  if negb (sb_magic sb =? FSMAGIC) then panic "invalid file system"
  else op_initlog dev (sb_logstart sb) ;; ireclaim dev.

(** [struct stat] as [stati] fills it in; padding is not written. *)
Record stat := Stat { st_dev : Z; st_ino : Z; st_type : Z; st_nlink : Z; st_size : Z }.
Definition stati (i : nat) : M S stat :=
  let* ip := geti i in
  ret (Stat (i_dev ip) (i_inum ip) (i_type ip) (i_nlink ip) (i_size ip)).

(** [readi(ip, user_dst, dst, off, n)]: the return value, and the bytes read
    when the destination is a variable of the caller ([DVar]).  Every turn of
    the loop ends at a block boundary or is the last. *)
Definition readi (i : nat) (dst : kdst) (off n : Z) : M S (Z * list Z) :=
  let* ip := geti i in
  if (i_size ip <? off) || (u32 (off + n) <? off) then ret (0, [])
  else
    let n := if i_size ip <? u32 (off + n) then u32 (i_size ip - off) else n in
    loop (Z.to_nat (n / BSIZE + 3))
      (fun x => let '(tot, off, dst, acc) := x in
         if tot <? n then
           let* addr := bmap i (off / BSIZE) in
           if addr =? 0 then ret (inr (tot, acc))
           else
             let* bp := bd_bread (i_dev ip) addr in
             let m := Z.min (n - tot) (BSIZE - off mod BSIZE) in
             let* l := gets (fun s => bytes_at (bd_data bp s) (off mod BSIZE) (Z.to_nat m)) in
             let* r := op_copyout dst l in
             if r =? -1 then bd_brelse bp ;; ret (inr (-1, acc))
             else bd_brelse bp ;; ret (inl (tot + m, u32 (off + m), kdst_shift dst m, acc ++ l))
         else ret (inr (tot, acc)))
      (0, off, dst, []).

(** [writei(ip, user_src, src, off, n)].  A copy that fails has stored its
    first bytes in the buffer. *)
Definition writei (i : nat) (src : ksrc) (off n : Z) : M S Z :=
  let* ip := geti i in
  if (i_size ip <? off) || (u32 (off + n) <? off) then ret (-1)
  else if MAXFILE * BSIZE <? u32 (off + n) then ret (-1)
  else
    let* '(tot, off) := loop (Z.to_nat (n / BSIZE + 3))
      (fun x => let '(tot, off, src) := x in
         if tot <? n then
           let* addr := bmap i (off / BSIZE) in
           if addr =? 0 then ret (inr (tot, off))
           else
             let* bp := bd_bread (i_dev ip) addr in
             let m := Z.min (n - tot) (BSIZE - off mod BSIZE) in
             let* '(r, l) := op_copyin src (Z.to_nat m) in
             set_data bp (mwrite (off mod BSIZE) l) ;;
             if r =? -1 then bd_brelse bp ;; ret (inr (tot, off))
             else
               op_log_write bp ;;
               bd_brelse bp ;;
               ret (inl (tot + m, u32 (off + m), ksrc_shift src m))
         else ret (inr (tot, off)))
      (0, off, src) in
    let* ip := geti i in
    when (i_size ip <? off) (modi i (fun ip => ip <| i_size := off |>)) ;;
    iupdate i ;;
    ret tot.

(** ** Directories *)

(** Two strings in a memory of their own, for the routines of kernel/string.c. *)
Definition two_strings (s t : list Z) : mem := mwrite 0 s (mwrite DIRSIZ t (fun _ => 0)).
Definition namecmp (s t : list Z) : Z :=
  strncmp (Z.to_nat DIRSIZ) 0 DIRSIZ (two_strings (take (Z.to_nat DIRSIZ) s) (take (Z.to_nat DIRSIZ) t)).

(** [struct dirent] as bytes. *)
Definition de_inum (de : list Z) : Z := mload 2 0 (mwrite 0 de (fun _ => 0)).
Definition de_name (de : list Z) : list Z := drop 2 de.
Definition dirent_bytes (name : list Z) (inum : Z) : list Z :=
  let m := two_strings [] (take (Z.to_nat DIRSIZ) name) in
  bytes_at (mstore 2 0 inum (fun _ => 0)) 0 2 ++
  bytes_at (strncpy (Z.to_nat DIRSIZ) 0 DIRSIZ m) 0 (Z.to_nat DIRSIZ).

(** The loop over the entries of a directory, up to the first for which
    [stop] gives a result. *)
Definition dir_scan {A} (msg : string) (dp : nat) (stop : Z -> list Z -> option A) : M S (A + Z) :=
  let* ip := geti dp in
  loop (Z.to_nat (i_size ip / sizeof_dirent + 2))
    (fun off =>
       let* ip := geti dp in
       if off <? i_size ip then
         let* '(r, de) := readi dp DVar off sizeof_dirent in
         if negb (r =? sizeof_dirent) then panic msg
         else match stop off de with
              | Some a => ret (inr (inl a))
              | None => ret (inl (u32 (off + sizeof_dirent)))
              end
       else ret (inr (inr off)))
    0.

(** [dirlookup(dp, name, poff)]: the inode and the offset of its entry. *)
Definition dirlookup (dp : nat) (name : list Z) : M S (option (nat * Z)) :=
  let* ip := geti dp in
  if negb (i_type ip =? T_DIR) then panic "dirlookup not DIR"
  else
    let* r := dir_scan "dirlookup read" dp
      (fun off de => if de_inum de =? 0 then None
                     else if namecmp name (de_name de) =? 0 then Some (off, de_inum de) else None) in
    match r with
    | inl (off, inum) => let* ip' := iget (i_dev ip) inum in ret (Some (ip', off))
    | inr _ => ret None
    end.

Definition dirlink (dp : nat) (name : list Z) (inum : Z) : M S Z :=
  let* r := dirlookup dp name in
  match r with
  | Some (ip, _) => iput ip ;; ret (-1)
  | None =>
      let* r := dir_scan "dirlink read" dp (fun off de => if de_inum de =? 0 then Some off else None) in
      let off := match r with inl off => off | inr off => off end in
      let* w := writei dp (SVar (dirent_bytes name inum)) off sizeof_dirent in
      if negb (w =? sizeof_dirent) then ret (-1) else ret 0
  end.

(** ** Paths *)

Definition SLASH : Z := 47.

(** [while( *path == '/') path++] *)
Fixpoint skip_slashes (path : list Z) : list Z :=
  match path with c :: path' => if c =? SLASH then skip_slashes path' else path | [] => [] end.
(** [while( *path != '/' && *path != 0) path++]: the characters passed over,
    and the rest. *)
Fixpoint take_elem (path : list Z) : list Z * list Z :=
  match path with
  | c :: path' => if c =? SLASH then ([], path) else let '(e, r) := take_elem path' in (c :: e, r)
  | [] => ([], [])
  end.

(** [skipelem(path, name)]: the rest of the path and the new contents of
    [name], or 0. *)
Definition skipelem (path name : list Z) : option (list Z * list Z) :=
  match skip_slashes path with
  | [] => None
  | s =>
      let '(e, path) := take_elem s in
      let len := length e in
      let name := if (Z.to_nat DIRSIZ <=? len)%nat then take (Z.to_nat DIRSIZ) e
                  else e ++ [0] ++ drop (Datatypes.S len) name in
      Some (skip_slashes path, name)
  end.

(** [namex(path, nameiparent, name)]: the inode and the contents of [name].
    Every turn of the loop consumes a character of the path. *)
Definition namex (path : list Z) (nameiparent : bool) (name : list Z) : M S (option nat * list Z) :=
  let* ip := (if bool_decide (head path = Some SLASH) then iget ROOTDEV ROOTINO
              else let* cwd := op_cwd in let* cwd := deref cwd in idup cwd) in
  loop (Datatypes.S (length path))
    (fun x => let '(ip, path, name) := x in
       match skipelem path name with
       | Some (path, name) =>
           ilock ip ;;
           let* dp := geti ip in
           if negb (i_type dp =? T_DIR) then iunlockput ip ;; ret (inr (None, name))
           else if nameiparent && bool_decide (path = []) then iunlock ip ;; ret (inr (Some ip, name))
           else
             let* r := dirlookup ip name in
             match r with
             | None => iunlockput ip ;; ret (inr (None, name))
             | Some (next, _) => iunlockput ip ;; ret (inl (next, path, name))
             end
       | None =>
           if nameiparent then iput ip ;; ret (inr (None, name)) else ret (inr (Some ip, name))
       end)
    (ip, path, name).

Definition namei (path : list Z) : M S (option nat) :=
  let* '(ip, _) := namex path false (replicate (Z.to_nat DIRSIZ) 0) in ret ip.

Definition nameiparent (path name : list Z) : M S (option nat * list Z) := namex path true name.

End Fs.
