(* ===== verification/Uart.v ===== *)
(** * The UART driver (kernel/uart.c)

    The 16550a is outside the sources.  The state records the accesses to its
    registers; what a read returns is a function of the accesses before it
    ([dev_read]).  Interrupts are not part of a thread's state here
    (Spinlock.v has [push_off] and [pop_off]), so the two calls in
    [uartputc_sync] do not appear. *)

From S2P Require Import Prelude Kmonad Mem Riscv Kalloc Proc Iface.

Definition RHR : Z := 0.
Definition THR : Z := 0.
Definition IER : Z := 1.
Definition IER_RX_ENABLE : Z := Z.shiftl 1 0.
Definition IER_TX_ENABLE : Z := Z.shiftl 1 1.
Definition FCR : Z := 2.
Definition FCR_FIFO_ENABLE : Z := Z.shiftl 1 0.
Definition FCR_FIFO_CLEAR : Z := Z.shiftl 3 1.
Definition ISR : Z := 2.
Definition LCR : Z := 3.
Definition LCR_EIGHT_BITS : Z := Z.shiftl 3 0.
Definition LCR_BAUD_LATCH : Z := Z.shiftl 1 7.
Definition LSR : Z := 5.
Definition LSR_RX_READY : Z := Z.shiftl 1 0.
Definition LSR_TX_IDLE : Z := Z.shiftl 1 5.

(** An access to a register: a read, or a write of a byte. *)
Inductive uacc := URead (reg : Z) | UWrite (reg v : Z).

(** [tx_busy], the accesses so far (most recent first), and the variables
    [panicking] and [panicked] of kernel/printf.c. *)
Record uartst := Uartst { tx_busy : Z; u_acc : list uacc; panicking : Z; panicked : Z }.
#[global] Instance eta_uartst : Eta uartst := fun r =>
  Uartst (tx_busy r) (u_acc r) (panicking r) (panicked r).
Definition zero_uart : uartst := Uartst 0 [] 0 0.

(** The device: the byte that a read of a register returns. *)
Class UartDev := uart_read : Z -> list uacc -> Z.

Section Uart.
Context {S : Type} `{Has S uartst} `{SleepOps S} `{UartDev} `{Fuel}.

Definition ReadReg (reg : Z) : M S Z :=
  let* u := hget in
  hmod (fun u : uartst => u <| u_acc ::= cons (URead reg) |>) ;;
  ret (u8 (uart_read reg (u_acc u))).
Definition WriteReg (reg v : Z) : M S unit :=
  hmod (fun u : uartst => u <| u_acc ::= cons (UWrite reg (u8 v)) |>).

Definition uartinit : M S unit :=
  WriteReg IER 0x00 ;;
  WriteReg LCR LCR_BAUD_LATCH ;;
  WriteReg 0 0x03 ;;
  WriteReg 1 0x00 ;;
  WriteReg LCR LCR_EIGHT_BITS ;;
  WriteReg FCR (Z.lor FCR_FIFO_ENABLE FCR_FIFO_CLEAR) ;;
  WriteReg IER (Z.lor IER_TX_ENABLE IER_RX_ENABLE).

(** [uartwrite(buf, n)], [buf] the [n] bytes. *)
Definition uartwrite (buf : list Z) : M S unit :=
  acquire LTx ;;
  for_each buf
    (fun c =>
       loop fuel
         (fun _ : unit =>
            let* u := hget in
            if negb (tx_busy u =? 0) then op_sleep CTx LTx ;; ret (inl tt) else ret (inr tt))
         tt ;;
       WriteReg THR c ;;
       hmod (fun u : uartst => u <| tx_busy := 1 |>)) ;;
  release LTx.

Definition uartputc_sync (c : Z) : M S unit :=
  let* u := hget in
  if negb (panicked u =? 0) then outoffuel
  else
    loop fuel
      (fun _ : unit =>
         let* lsr := ReadReg LSR in
         if Z.land lsr LSR_TX_IDLE =? 0 then ret (inl tt) else ret (inr tt))
      tt ;;
    WriteReg THR c.

Definition uartgetc : M S Z :=
  let* lsr := ReadReg LSR in
  if negb (Z.land lsr LSR_RX_READY =? 0) then ReadReg RHR else ret (-1).

End Uart.
