(* ===== verification/Printf.v ===== *)
(** * Formatted output (kernel/printf.c)

    [printf] and the conversions below it, on top of [consputc] of
    kernel/console.c.  A C string is the list of its characters. *)

From S2P Require Import Prelude Kmonad Mem Riscv Kalloc Cstring Proc Iface Uart.

(** The characters of a string constant. *)
Fixpoint chars (s : string) : list Z :=
  match s with
  | EmptyString => []
  | String c s' => Z.of_N (Ascii.N_of_ascii c) :: chars s'
  end.

Definition digits : list Z := chars "0123456789abcdef".

(** The digits of [x] from the table [tbl], least significant first: the loop
    [do { buf[i++] = ..; } while((x /= base) != 0)]. *)
Fixpoint digit_loop (tbl : list Z) (fuel : nat) (x base : Z) : list Z :=
  match fuel with
  | O => []
  | S f =>
      let d := tbl !!! Z.to_nat (x mod base) in
      if x / base =? 0 then [d] else d :: digit_loop tbl f (x / base) base
  end.

(** What [printint(xx, base, sign)] leaves in [buf] before it prints it from
    the end.  A number below 2^64 has at most 64 digits. *)
Definition printint_buf (tbl : list Z) (xx base : Z) (sign : bool) : list Z :=
  let neg := sign && (xx <? 0) in
  let x := u64 (if neg then - xx else xx) in
  digit_loop tbl 64 x base ++ (if neg then [45] else []).

(** The characters [printint] prints. *)
Definition printint_chars (xx base : Z) (sign : bool) : list Z := rev (printint_buf digits xx base sign).

(** The characters of [printptr]: 16 nibbles, the top one first. *)
Fixpoint printptr_loop (tbl : list Z) (n : nat) (x : Z) : list Z :=
  match n with
  | O => []
  | S n' => tbl !!! Z.to_nat (Z.shiftr x 60) :: printptr_loop tbl n' (u64 (Z.shiftl x 4))
  end.
Definition printptr_chars (x : Z) : list Z := chars "0x" ++ printptr_loop digits 16 x.

(** A variable argument: a number, or a string ([None] for a null pointer). *)
Inductive parg := PInt (z : Z) | PStr (s : option (list Z)).

Definition PERCENT : Z := 37.

(** The conversion after a [%]: what it prints, and how many more characters
    of the format it takes.  [None]: the argument is of the wrong kind. *)
Definition conv_int (args : list parg) (f : Z -> list Z) (skip : nat) : option (list Z * nat * list parg) :=
  match args with PInt z :: args' => Some (f z, skip, args') | _ => None end.

Definition i64 (z : Z) : Z := (z + 2 ^ 63) mod 2 ^ 64 - 2 ^ 63.

Definition convert (c0 c1 c2 : Z) (args : list parg) : option (list Z * nat * list parg) :=
  let d := 100 in let l := 108 in let u := 117 in let x := 120 in
  let dec z := printint_chars (i64 z) 10 true in
  let udec z := printint_chars (u64 z) 10 false in
  let hex z := printint_chars (u64 z) 16 false in
  if c0 =? d then conv_int args (fun z => printint_chars (i32 z) 10 true) 0
  else if (c0 =? l) && (c1 =? d) then conv_int args dec 1
  else if (c0 =? l) && (c1 =? l) && (c2 =? d) then conv_int args dec 2
  else if c0 =? u then conv_int args (fun z => udec (u32 z)) 0
  else if (c0 =? l) && (c1 =? u) then conv_int args udec 1
  else if (c0 =? l) && (c1 =? l) && (c2 =? u) then conv_int args udec 2
  else if c0 =? x then conv_int args (fun z => hex (u32 z)) 0
  else if (c0 =? l) && (c1 =? x) then conv_int args hex 1
  else if (c0 =? l) && (c1 =? l) && (c2 =? x) then conv_int args hex 2
  else if c0 =? 112 then conv_int args (fun z => printptr_chars (u64 z)) 0
  else if c0 =? 99 then conv_int args (fun z => [u32 z]) 0
  else if c0 =? 115 then
    match args with
    | PStr (Some s) :: args' => Some (s, 0%nat, args')
    | PStr None :: args' => Some (chars "(null)", 0%nat, args')
    | _ => None
    end
  else if c0 =? PERCENT then Some ([PERCENT], 0%nat, args)
  else Some ([PERCENT; c0], 0%nat, args).

(** The arguments [printf] gives to [consputc], one after the other. *)
Fixpoint format (n : nat) (fmt : list Z) (args : list parg) : option (list Z) :=
  match n, fmt with
  | _, [] => Some []
  | O, _ => None
  | S n', cx :: fmt' =>
      if negb (cx =? PERCENT) then cons cx <$> format n' fmt' args
      else match fmt' with
           | [] => Some []
           | c0 :: fmt2 =>
               let c1 := default 0 (fmt2 !! 0%nat) in
               let c2 := default 0 (fmt2 !! 1%nat) in
               r ← convert c0 c1 c2 args;
               let '(out, skip, args') := r in
               app out <$> format n' (drop skip fmt2) args'
           end
  end.

Definition BACKSPACE : Z := 0x100.

Section Printf.
Context {S : Type} `{Has S uartst} `{SleepOps S} `{UartDev} `{Fuel}.

(** [consputc] of kernel/console.c. *)
Definition consputc (c : Z) : M S unit :=
  if c =? BACKSPACE then uartputc_sync 8 ;; uartputc_sync 32 ;; uartputc_sync 8
  else uartputc_sync c.

Definition printint (xx base : Z) (sign : bool) : M S unit :=
  for_each (printint_chars xx base sign) consputc.
Definition printptr (x : Z) : M S unit := for_each (printptr_chars x) consputc.

Definition printf (fmt : string) (args : list parg) : M S unit :=
  let* u := hget in
  when (panicking u =? 0) (acquire LPr) ;;
  match format (length (chars fmt)) (chars fmt) args with
  | Some l => for_each l consputc
  | None => panic "undefined behaviour: variable arguments"
  end ;;
  let* u := hget in
  when (panicking u =? 0) (release LPr).

(** [panic(s)]: after the message the CPU spins, and [uartputc_sync] on the
    others too. *)
Definition kpanic (s : string) : M S unit :=
  hmod (fun u : uartst => u <| panicking := 1 |>) ;;
  printf "panic: " [] ;;
  printf "%s
" [PStr (Some (chars s))] ;;
  hmod (fun u : uartst => u <| panicked := 1 |>) ;;
  outoffuel.

(** [procdump] of kernel/proc.c, over the table [ps]. *)
Definition procdump (ps : list proc) : M S unit :=
  printf "
" [] ;;
  for_each ps
    (fun p =>
       match procdump_line p with
       | Some (pid, state, name) =>
           printf "%d %s %s" [PInt pid; PStr (Some (chars state)); PStr (Some (ctake name))] ;;
           printf "
" []
       | None => ret tt
       end).

End Printf.
