(* ===== verification/Console.v ===== *)
(** * The console (kernel/console.c)

    Input from the UART is edited a line at a time in a circular buffer with
    three indices: characters between [r] and [w] are for [consoleread], the
    ones between [w] and [e] are the line being edited. *)

From S2P Require Import Prelude Kmonad Mem Riscv Kalloc Cstring Vm Proc Iface Sleeplock Bio Log Fs Uart Printf.

Definition INPUT_BUF_SIZE : Z := 128.
(** [C(x)] *)
Definition ctrl (x : Z) : Z := x - 64.
Definition CtrlD : Z := ctrl 68.
Definition CtrlH : Z := ctrl 72.
Definition CtrlP : Z := ctrl 80.
Definition CtrlU : Z := ctrl 85.
Definition DEL : Z := 0x7f.
Definition NEWLINE : Z := 10.
Definition CR : Z := 13.

(** [cons], without its lock; the indices are [uint]. *)
Record consst := Consst { c_buf : list Z; c_r : Z; c_w : Z; c_e : Z }.
#[global] Instance eta_consst : Eta consst := fun r => Consst (c_buf r) (c_r r) (c_w r) (c_e r).
Definition zero_cons : consst := Consst (replicate (Z.to_nat INPUT_BUF_SIZE) 0) 0 0 0.

(** [cons.buf[i % INPUT_BUF_SIZE]] *)
Definition cslot (i : Z) : nat := Z.to_nat (i mod INPUT_BUF_SIZE).

Section Console.
Context {S : Type} `{Has S consst} `{Has S uartst} `{Has S pst} `{SleepOps S} `{KillOps S} `{UserOps S}
  `{UartDev} `{Fuel}.

Definition cget : M S consst := hget.
Definition cmod (f : consst -> consst) : M S unit := hmod f.

(** [consolewrite(user_src, src, n)] *)
Definition consolewrite (src : ksrc) (n : Z) : M S Z :=
  loop (Z.to_nat (Z.max 0 n / 32 + 2))
    (fun i =>
       if i <? n then
         let nn := Z.min 32 (n - i) in
         let* '(r, buf) := op_copyin (ksrc_shift src i) (Z.to_nat nn) in
         if r =? -1 then ret (inr i)
         else uartwrite buf ;; ret (inl (i + nn))
       else ret (inr i))
    0.

(** [consoleread(user_dst, dst, n)]: the return value, and the bytes read when
    the destination is a variable of the caller. *)
Definition consoleread (dst : kdst) (n : Z) : M S (Z * list Z) :=
  let target := u32 n in
  acquire LCons ;;
  let* r := loop (Datatypes.S (Z.to_nat n))
    (fun x => let '(n, dst, acc) := x in
       if 0 <? n then
         let* empty := loop fuel
           (fun _ : unit =>
              let* c := cget in
              if c_r c =? c_w c then
                let* k := op_killed in
                if negb (k =? 0) then release LCons ;; ret (inr true)
                else op_sleep CCons LCons ;; ret (inl tt)
              else ret (inr false))
           tt in
         if empty : bool then ret (inr None)
         else
           let* st := cget in
           let c := c_buf st !!! cslot (c_r st) in
           cmod (fun st => st <| c_r ::= (fun r => u32 (r + 1)) |>) ;;
           if c =? CtrlD then
             when (n <? target) (cmod (fun st => st <| c_r ::= (fun r => u32 (r - 1)) |>)) ;;
             ret (inr (Some (n, acc)))
           else
             let* r := op_copyout dst [c] in
             if r =? -1 then ret (inr (Some (n, acc)))
             else if c =? NEWLINE then ret (inr (Some (n - 1, acc ++ [c])))
             else ret (inl (n - 1, kdst_shift dst 1, acc ++ [c]))
       else ret (inr (Some (n, acc))))
    (n, dst, []) in
  match r with
  | None => ret (-1, [])
  | Some (n, acc) => release LCons ;; ret (i32 (target - n), acc)
  end.

(** The loop of [case C('U')]. *)
Definition kill_line : M S unit :=
  let* c := cget in
  loop (Datatypes.S (Z.to_nat (u32 (c_e c - c_w c))))
    (fun _ : unit =>
       let* c := cget in
       if negb (c_e c =? c_w c) && negb (c_buf c !!! cslot (u32 (c_e c - 1)) =? NEWLINE) then
         cmod (fun c => c <| c_e ::= (fun e => u32 (e - 1)) |>) ;;
         consputc BACKSPACE ;;
         ret (inl tt)
       else ret (inr tt))
    tt.

Definition consoleintr (c : Z) : M S unit :=
  acquire LCons ;;
  (if c =? CtrlP then
     let* s := hget in procdump (procs s)
   else if c =? CtrlU then kill_line
   else if (c =? CtrlH) || (c =? DEL) then
     let* st := cget in
     when (negb (c_e st =? c_w st))
       (cmod (fun st => st <| c_e ::= (fun e => u32 (e - 1)) |>) ;;
        consputc BACKSPACE)
   else
     let* st := cget in
     when (negb (c =? 0) && (u32 (c_e st - c_r st) <? INPUT_BUF_SIZE))
       (let c := if c =? CR then NEWLINE else c in
        consputc c ;;
        cmod (fun st => st <| c_buf ::= <[cslot (c_e st) := u8 c]> |> <| c_e ::= (fun e => u32 (e + 1)) |>) ;;
        let* st := cget in
        when ((c =? NEWLINE) || (c =? CtrlD) || (u32 (c_e st - c_r st) =? INPUT_BUF_SIZE))
          (cmod (fun st => st <| c_w := c_e st |>) ;;
           op_wakeup CCons))) ;;
  release LCons.

(** [uartintr()] of kernel/uart.c.  The device decides how many characters
    are waiting; [fuel] bounds them. *)
Definition uartintr : M S unit :=
  let* _ := ReadReg ISR in
  acquire LTx ;;
  let* lsr := ReadReg LSR in
  when (negb (Z.land lsr LSR_TX_IDLE =? 0))
    (hmod (fun u : uartst => u <| tx_busy := 0 |>) ;;
     op_wakeup CTx) ;;
  release LTx ;;
  loop fuel
    (fun _ : unit =>
       let* c := uartgetc in
       if c =? -1 then ret (inr tt) else consoleintr c ;; ret (inl tt))
    tt.

(** [consoleinit()]; the table [devsw] is in File.v. *)
Definition consoleinit : M S unit := uartinit.

End Console.
