(* ===== verification/Pipe.v ===== *)
(** * Pipes (kernel/pipe.c)

    A pipe lives in a page of its own, laid out as the C compiler lays out
    [struct pipe]: the spin lock takes 24 bytes, the circular buffer
    [data] 512, then the counters [nread] and [nwrite], which are [uint] and
    wrap, and the flags [readopen] and [writeopen].  A pipe is named by the
    address of its page. *)

From S2P Require Import Prelude Kmonad Mem Riscv Kalloc Vm Proc Iface.

Definition PIPESIZE : Z := 512.
Definition pi_data (pi : Z) : Z := pi + 24.
Definition pi_nread (pi : Z) : Z := pi + 536.
Definition pi_nwrite (pi : Z) : Z := pi + 540.
Definition pi_readopen (pi : Z) : Z := pi + 544.
Definition pi_writeopen (pi : Z) : Z := pi + 548.

Section Pipe.
Context `{Fuel} {L : LinkMap}.

(** The value of a [uint] or [int] field, and an assignment to it. *)
Definition pget (a : Z) : M pst Z := invm (gets (fun s => load32 a (phys s))).
Definition pset (a v : Z) : M pst unit := invm (modify (on_phys (store32 a v))).

(** The stores of [pipealloc] into the new page. *)
Definition pipe_init (pi : Z) : M pst unit :=
  pset (pi_readopen pi) 1 ;;
  pset (pi_writeopen pi) 1 ;;
  pset (pi_nwrite pi) 0 ;;
  pset (pi_nread pi) 0.

Definition pipeclose (pi : Z) (writable : bool) : M pst unit :=
  acquire (LPipe pi) ;;
  (if writable then pset (pi_writeopen pi) 0 ;; wakeup (CPipeRead pi)
   else pset (pi_readopen pi) 0 ;; wakeup (CPipeWrite pi)) ;;
  let* ro := pget (pi_readopen pi) in
  let* wo := pget (pi_writeopen pi) in
  if (ro =? 0) && (wo =? 0) then release (LPipe pi) ;; invm (kfree pi)
  else release (LPipe pi).

(** [pi->data[pi->nwrite++ % PIPESIZE] = ch] *)
Definition pipe_push (pi ch : Z) : M pst unit :=
  let* w := pget (pi_nwrite pi) in
  pset (pi_nwrite pi) (u32 (w + 1)) ;;
  invm (modify (on_phys (mstore 1 (pi_data pi + w mod PIPESIZE) ch))).

(** [ch = pi->data[pi->nread++ % PIPESIZE]] *)
Definition pipe_pop (pi : Z) : M pst Z :=
  let* r := pget (pi_nread pi) in
  pset (pi_nread pi) (u32 (r + 1)) ;;
  invm (gets (fun s => byte_at (phys s) (pi_data pi + r mod PIPESIZE))).

(** A turn of the loop of [pipewrite], with [i] bytes written: it gives up
    when nobody can read or the process was killed, sleeps while the pipe is
    full, and otherwise copies a byte. *)
Definition pipewrite_turn (pi : Z) (pr : nat) (addr n i : Z) : M pst (Z + option Z) :=
  if i <? n then
    let* ro := pget (pi_readopen pi) in
    let* k := (if ro =? 0 then ret 1 else killed pr) in
    if negb (k =? 0) then release (LPipe pi) ;; ret (inr None)
    else
      let* w := pget (pi_nwrite pi) in
      let* r := pget (pi_nread pi) in
      if w =? u32 (r + PIPESIZE) then
        wakeup (CPipeRead pi) ;;
        sleep (CPipeWrite pi) (LPipe pi) ;;
        ret (inl i)
      else
        let* p := getp pr in
        let* '(e, ch) := pcopyin (pr_pagetable p) (u64 (addr + i)) 1 in
        if e =? -1 then ret (inr (Some i))
        else pipe_push pi (ch !!! 0%nat) ;; ret (inl (i + 1))
  else ret (inr (Some i)).

(** [pipewrite(pi, addr, n)]; [fuel] bounds the number of turns. *)
Definition pipewrite (pi addr n : Z) : M pst Z :=
  let* pr := myproc in
  acquire (LPipe pi) ;;
  let* r := loop fuel (pipewrite_turn pi pr addr n) 0 in
  match r with
  | None => ret (-1)
  | Some i => wakeup (CPipeRead pi) ;; release (LPipe pi) ;; ret i
  end.

(** The first loop of [piperead]: wait for a byte or for the last writer to
    go away. *)
Definition piperead_wait (pi : Z) (pr : nat) (_ : unit) : M pst (unit + bool) :=
  let* r := pget (pi_nread pi) in
  let* w := pget (pi_nwrite pi) in
  let* wo := pget (pi_writeopen pi) in
  if (r =? w) && negb (wo =? 0) then
    let* k := killed pr in
    if negb (k =? 0) then release (LPipe pi) ;; ret (inr true)
    else sleep (CPipeRead pi) (LPipe pi) ;; ret (inl tt)
  else ret (inr false).

(** A turn of the second loop, with [i] bytes read. *)
Definition piperead_turn (pi : Z) (pr : nat) (addr n i : Z) : M pst (Z + Z) :=
  if i <? n then
    let* r := pget (pi_nread pi) in
    let* w := pget (pi_nwrite pi) in
    if r =? w then ret (inr i)
    else
      let* ch := pipe_pop pi in
      let* p := getp pr in
      let* e := pcopyout (pr_pagetable p) (u64 (addr + i)) [ch] in
      if e =? -1 then ret (inr i) else ret (inl (i + 1))
  else ret (inr i).

Definition piperead (pi addr n : Z) : M pst Z :=
  let* pr := myproc in
  acquire (LPipe pi) ;;
  let* dead := loop fuel (piperead_wait pi pr) tt in
  if dead : bool then ret (-1)
  else
    let* i := loop (Datatypes.S (Z.to_nat n)) (piperead_turn pi pr addr n) 0 in
    wakeup (CPipeWrite pi) ;;
    release (LPipe pi) ;;
    ret i.

End Pipe.
