(* ===== verification/PipeSpec.v ===== *)
(** * Pipes are bounded queues (kernel/pipe.c)

    The circular buffer with its two wrapping counters implements a queue of
    at most [PIPESIZE] bytes; [pipewrite] appends the bytes of the caller's
    memory to it and [piperead] moves bytes from it to the caller's memory. *)

From S2P Require Import Prelude Kmonad Mem Riscv Kalloc Cstring Vm PageTable VmWalk VmFree VmUser VmSpec Proc ProcSpec Iface Pipe.

(** ** The queue *)

Section Queue.

Definition cnt (m : mem) (pi : Z) : Z := u32 (load32 (pi_nwrite pi) m - load32 (pi_nread pi) m).
Definition cell (m : mem) (pi c : Z) : Z := byte_at m (pi_data pi + c mod PIPESIZE).

(** The bytes written and not yet read. *)
Definition pqueue (m : mem) (pi : Z) : list Z :=
  (fun k => cell m pi (load32 (pi_nread pi) m + Z.of_nat k)) <$> seq 0 (Z.to_nat (cnt m pi)).

Definition pipe_inv (m : mem) (pi : Z) : Prop := cnt m pi <= PIPESIZE.

Definition push_mem (pi ch : Z) (m : mem) : mem :=
  let w := load32 (pi_nwrite pi) m in
  mstore 1 (pi_data pi + w mod PIPESIZE) ch (store32 (pi_nwrite pi) (u32 (w + 1)) m).
Definition pop_mem (pi : Z) (m : mem) : mem :=
  store32 (pi_nread pi) (u32 (load32 (pi_nread pi) m + 1)) m.

Lemma u32_mod z : u32 z = z mod 4294967296.
Proof. reflexivity. Qed.

(** The tests of [pipewrite] and [piperead]. *)
Lemma full_test m pi : (load32 (pi_nwrite pi) m =? u32 (load32 (pi_nread pi) m + PIPESIZE)) = (cnt m pi =? PIPESIZE).
Proof.
  pose proof (load32_range (pi_nwrite pi) m). pose proof (load32_range (pi_nread pi) m).
  unfold cnt, PIPESIZE. rewrite !u32_mod. apply Bool.eq_iff_eq_true. rewrite !Z.eqb_eq. dlia.
Qed.

Lemma empty_test m pi : (load32 (pi_nread pi) m =? load32 (pi_nwrite pi) m) = (cnt m pi =? 0).
Proof.
  pose proof (load32_range (pi_nwrite pi) m). pose proof (load32_range (pi_nread pi) m).
  unfold cnt. rewrite !u32_mod. apply Bool.eq_iff_eq_true. rewrite !Z.eqb_eq. dlia.
Qed.

Lemma cnt_length m pi : cnt m pi = Z.of_nat (length (pqueue m pi)).
Proof.
  unfold pqueue. rewrite length_fmap, length_seq. unfold cnt. rewrite u32_mod. dlia.
Qed.

(** A store into [data] leaves the counters. *)
Lemma data_store_load m pi k ch a :
  0 <= k < 512 -> pi_nread pi <= a -> load32 a (mstore 1 (pi_data pi + k) ch m) = load32 a m.
Proof. intros Hk Ha. apply mload_mstore_other. unfold pi_nread, pi_data in *. lia. Qed.

Lemma push_fields m pi ch :
  load32 (pi_nwrite pi) (push_mem pi ch m) = u32 (load32 (pi_nwrite pi) m + 1) /\
  load32 (pi_nread pi) (push_mem pi ch m) = load32 (pi_nread pi) m /\
  load32 (pi_readopen pi) (push_mem pi ch m) = load32 (pi_readopen pi) m /\
  load32 (pi_writeopen pi) (push_mem pi ch m) = load32 (pi_writeopen pi) m.
Proof.
  assert (Hk : 0 <= load32 (pi_nwrite pi) m mod PIPESIZE < 512) by (unfold PIPESIZE; dlia).
  unfold push_mem. cbv zeta. rewrite !data_store_load by (auto; unfold pi_nread, pi_nwrite, pi_readopen, pi_writeopen; lia).
  split; [apply load32_store32; rewrite u32_mod; dlia|].
  rewrite !mload_mstore_other by (unfold pi_nread, pi_nwrite, pi_readopen, pi_writeopen; lia). auto.
Qed.

Lemma pop_fields m pi :
  load32 (pi_nread pi) (pop_mem pi m) = u32 (load32 (pi_nread pi) m + 1) /\
  load32 (pi_nwrite pi) (pop_mem pi m) = load32 (pi_nwrite pi) m /\
  load32 (pi_readopen pi) (pop_mem pi m) = load32 (pi_readopen pi) m /\
  load32 (pi_writeopen pi) (pop_mem pi m) = load32 (pi_writeopen pi) m.
Proof.
  unfold pop_mem. split; [apply load32_store32; rewrite u32_mod; dlia|].
  rewrite !mload_mstore_other by (unfold pi_nread, pi_nwrite, pi_readopen, pi_writeopen; lia). auto.
Qed.

Lemma push_queue m pi ch :
  cnt m pi < PIPESIZE -> 0 <= ch < 256 -> pqueue (push_mem pi ch m) pi = pqueue m pi ++ [ch].
Proof.
  intros Hc Hch. destruct (push_fields m pi ch) as (Ew & Er & _ & _).
  pose proof (load32_range (pi_nwrite pi) m) as Hw. pose proof (load32_range (pi_nread pi) m) as Hr.
  assert (Ec : cnt (push_mem pi ch m) pi = cnt m pi + 1).
  { unfold cnt, PIPESIZE in *. rewrite Ew, Er, !u32_mod in *. dlia. }
  unfold pqueue. rewrite Ec, Er.
  assert (H0 : 0 <= cnt m pi) by (unfold cnt; rewrite u32_mod; dlia).
  replace (Z.to_nat (cnt m pi + 1)) with (Z.to_nat (cnt m pi) + 1)%nat by lia.
  rewrite seq_app, fmap_app. f_equal.
  - apply list_fmap_ext. intros j k Hk. apply lookup_seq in Hk as [-> Hk]. unfold cell, push_mem. cbv zeta.
    unfold byte_at. rewrite mstore_out, mstore_out; [reflexivity| |].
    + unfold pi_nwrite, pi_data, PIPESIZE. dlia.
    + unfold cnt, PIPESIZE in *. rewrite u32_mod in *. dlia.
  - simpl. f_equal. unfold cell, push_mem. cbv zeta. rewrite byte_at_mstore1, decide_True; [by apply u8_small|].
    unfold cnt, PIPESIZE in *. rewrite u32_mod in *. dlia.
Qed.

Lemma pop_queue m pi :
  cnt m pi <> 0 -> pqueue m pi = cell m pi (load32 (pi_nread pi) m) :: pqueue (pop_mem pi m) pi.
Proof.
  intros Hc. destruct (pop_fields m pi) as (Er & Ew & _ & _).
  pose proof (load32_range (pi_nwrite pi) m) as Hw. pose proof (load32_range (pi_nread pi) m) as Hr.
  assert (Ec : cnt (pop_mem pi m) pi = cnt m pi - 1 /\ 0 < cnt m pi).
  { unfold cnt in *. rewrite Ew, Er, !u32_mod in *. dlia. }
  destruct Ec as [Ec H0]. unfold pqueue. rewrite Ec, Er.
  replace (Z.to_nat (cnt m pi)) with (Datatypes.S (Z.to_nat (cnt m pi - 1))) by lia.
  cbn [seq fmap list_fmap]. f_equal; [by rewrite Z.add_0_r|].
  rewrite <- fmap_S_seq, <- list_fmap_compose. apply list_fmap_ext. intros j k Hk. simpl. unfold cell, pop_mem, byte_at.
  rewrite mstore_out by (unfold pi_nread, pi_data, PIPESIZE; dlia).
  do 3 f_equal. rewrite u32_mod. unfold PIPESIZE. dlia.
Qed.

(** Only the page of the pipe changes. *)
Lemma push_page m pi ch : same_off [pi] m (push_mem pi ch m).
Proof.
  intros x Hx. assert (H : ~ (pi <= x < pi + 4096)).
  { intros H. apply Hx. exists pi. split; [by left|]. exact H. }
  unfold push_mem. cbv zeta. rewrite !mstore_out; [reflexivity| |]; unfold pi_nwrite, pi_data, PIPESIZE; dlia.
Qed.

Lemma pop_page m pi : same_off [pi] m (pop_mem pi m).
Proof.
  intros x Hx. assert (H : ~ (pi <= x < pi + 4096)).
  { intros H. apply Hx. exists pi. split; [by left|]. exact H. }
  unfold pop_mem. rewrite mstore_out; [reflexivity|]. unfold pi_nread. lia.
Qed.

End Queue.

(** ** The operations *)

Section Operations.
Context `{Fuel} {L : LinkMap} {HL : LinkMapOk}.

Definition vmem (s : pst) : mem := phys (p_vm s).
Definition with_mem (f : mem -> mem) (s : pst) : pst := s <| p_vm ::= on_phys f |>.

Lemma pget_d a t s : pget a t s = ORet (load32 a (vmem s)) t s.
Proof. by destruct s as [[] ]. Qed.
Lemma pset_d a v t s : pset a v t s = ORet tt t (with_mem (store32 a v) s).
Proof. reflexivity. Qed.

Lemma pipe_push_d pi ch t s : pipe_push pi ch t s = ORet tt t (with_mem (push_mem pi ch) s).
Proof. unfold pipe_push. kstep (pget_d (pi_nwrite pi) t s). reflexivity. Qed.

Lemma pipe_pop_d pi t s :
  pipe_pop pi t s = ORet (cell (pop_mem pi (vmem s)) pi (load32 (pi_nread pi) (vmem s))) t (with_mem (pop_mem pi) s).
Proof. unfold pipe_pop. kstep (pget_d (pi_nread pi) t s). by destruct s as [[] ]. Qed.

(** A process [pr] with page table [root] and a pipe in a page that belongs
    neither to the page table nor to the process's memory. *)
Record pipe_env (s : pst) (pi : Z) (pr : nat) (root : Z) (ps l : list Z) : Prop := PipeEnv {
  pe_tbl : tbl_ok s;
  pe_proc : exists p, procs s !! pr = Some p /\ pr_killed p = 0 /\ pr_pagetable p = root;
  pe_vm : vm_inv (p_vm s) root ps l;
  pe_user : uspace (p_vm s) root ps l;
  pe_page : valid_page pi;
  pe_own : pi ∉ ps ++ l;
  pe_apart : forall va, 0 <= va < MAXVA -> user_ok (pt (p_vm s) root va) = true -> PTE2PA (pt (p_vm s) root va) <> pi;
  pe_inv : pipe_inv (vmem s) pi
}.

(** A change to the page of the pipe is not seen by the process. *)
Lemma env_pipe_page s pi pr root ps l f :
  pipe_env s pi pr root ps l -> same_off [pi] (vmem s) (f (vmem s)) -> pipe_inv (f (vmem s)) pi ->
  pipe_env (with_mem f s) pi pr root ps l /\
  (forall va, pt (p_vm (with_mem f s)) root va = pt (p_vm s) root va) /\
  (forall va, 0 <= va < MAXVA -> user_ok (pt (p_vm s) root va) = true ->
     umem (p_vm (with_mem f s)) root va = umem (p_vm s) root va).
Proof.
  intros [E1 E2 (Ht & Hk & Hd & Hv) E4 E5 E6 E7 E8] Hoff Hinv'.
  rewrite elem_of_app in E6. set (s' := with_mem f s).
  assert (Hon : same_on ps (phys (p_vm s)) (phys (p_vm s'))).
  { eapply (same_off_on [pi] ps); eauto. constructor; [tauto|]. by apply NoDup_app in Hd as (? & _ & _). }
  assert (Hpt : forall va, pt (p_vm s') root va = pt (p_vm s) root va).
  { intros va. eapply pte_of_same; eauto. }
  assert (Hvm : vm_inv (p_vm s') root ps l).
  { split; [eapply ptree_same; eauto|]. split; [|auto].
    eapply (kmem_inv_off (p_vm s) (p_vm s') l [pi]); eauto.
    constructor; [tauto|]. by apply NoDup_app in Hd as (_ & _ & ?). }
  split; [|split; [exact Hpt|]].
  - split; auto; [eapply uspace_same; eauto|by rewrite elem_of_app|].
    intros va Hva. rewrite Hpt. by apply E7.
  - intros va Hva Hu. unfold umem, upa. rewrite Hpt. unfold byte_at. f_equal. apply Hoff.
    intros (q & Hq & Hx). apply list_elem_of_singleton in Hq as ->.
    destruct (proj1 E4 va Hva Hu) as [Hp _]. pose proof (E7 va Hva Hu).
    pose proof (Z.mod_pos_bound va 4096 ltac:(lia)).
    destruct (pages_disjoint pi (PTE2PA (pt (p_vm s) root va))); [apply E5|apply Hp|auto|klia|klia].
Qed.

(** A byte written to the memory of the process is not seen by the pipe. *)
Lemma env_user_byte s pi pr root ps l va ch t :
  pipe_env s pi pr root ps l -> 0 <= va < MAXVA -> 0 <= ch < 256 -> me t = Some pr ->
  user_ok (pt (p_vm s) root va) = true -> pte_test (pt (p_vm s) root va) PTE_W = true ->
  exists s', pcopyout root va [ch] t s = ORet 0 t s' /\ pipe_env s' pi pr root ps l /\ procs s' = procs s /\
    (forall a, pi <= a < pi + 4096 -> vmem s' a = vmem s a) /\
    (forall va, pt (p_vm s') root va = pt (p_vm s) root va) /\
    written root va [ch] (p_vm s) (p_vm s').
Proof.
  intros [E1 E2 E3 E4 E5 E6 E7 E8] Hva Hch Hme Hu Hw. destruct E2 as (p & Hp & Hk & Hr).
  destruct (proj1 E4 va Hva Hu) as [Hvp _]. pose proof (Z.mod_pos_bound va 4096 ltac:(lia)) as Hm.
  set (f := mwrite (PTE2PA (pt (p_vm s) root va) + va mod 4096) [ch]).
  assert (Ecopy : forall psz ppt, copyout psz ppt root va [ch] t (p_vm s) = ORet 0 t (on_phys f (p_vm s))).
  { intros psz ppt.
    change (copyout psz ppt root va [ch] t (p_vm s))
      with (loop 2 (copyout_body psz ppt root) (va, [ch]) t (p_vm s)).
    cbn [loop]. unfold bind at 1. rewrite copyout_step by auto. cbn [obind].
    rewrite drop_ge, take_ge by (simpl; lia). reflexivity. }
  destruct (store_user root va (va mod 4096) [ch] ps l (p_vm s)) as (Hi & Hpt & Hwr); auto; [simpl; lia|].
  fold f in Hi, Hpt, Hwr. exists (with_mem f s).
  assert (Hsame : forall a, pi <= a < pi + 4096 -> vmem (with_mem f s) a = vmem s a).
  { intros a Ha. apply mwrite_out. simpl length. pose proof (E7 va Hva Hu).
    destruct (pages_disjoint pi (PTE2PA (pt (p_vm s) root va))); [apply E5|apply Hvp|auto|klia|klia]. }
  split; [|split; [|split; [reflexivity|split; [exact Hsame|split; [exact Hpt|exact Hwr]]]]].
  - unfold pcopyout, bind at 1, myproc. rewrite Hme. cbn [obind]. unfold bind at 1, getp, gets. cbn [obind].
    unfold invm. erewrite zoom_ret by apply Ecopy. by destruct s.
  - split; auto; [by exists p|eapply uspace_same; eauto|intros v Hv; rewrite Hpt; by apply E7|].
    unfold pipe_inv, cnt. rewrite !(mload_agree 4 _ (vmem (with_mem f s)) (vmem s)); [exact E8|..];
      intros x Hx; apply Hsame; unfold pi_nread, pi_nwrite in Hx; lia.
Qed.

Lemma pqueue_agree m m' pi : (forall a, pi <= a < pi + 4096 -> m' a = m a) -> pqueue m' pi = pqueue m pi.
Proof.
  intros H1. assert (Hr : load32 (pi_nread pi) m' = load32 (pi_nread pi) m)
    by (apply mload_agree; intros x Hx; apply H1; unfold pi_nread in Hx; lia).
  assert (Hw : load32 (pi_nwrite pi) m' = load32 (pi_nwrite pi) m)
    by (apply mload_agree; intros x Hx; apply H1; unfold pi_nwrite in Hx; lia).
  unfold pqueue, cnt. rewrite Hr, Hw. apply list_fmap_ext. intros j k _. unfold cell, byte_at. f_equal. apply H1.
  unfold pi_data, PIPESIZE. dlia.
Qed.

Lemma written_cons root va b l s s1 s2 :
  (forall v, pt s1 root v = pt s root v) -> written root va [b] s s1 -> written root (va + 1) l s1 s2 ->
  written root va (b :: l) s s2.
Proof.
  intros Hpt H1 H2 v Hv Hu. rewrite H2 by (auto; by rewrite Hpt). simpl length. case_decide as E2.
  - rewrite decide_True by lia. replace (Z.to_nat (v - va)) with (Datatypes.S (Z.to_nat (v - (va + 1)))) by lia. reflexivity.
  - rewrite H1 by auto. simpl length. destruct (decide (va <= v < va + Z.of_nat 1)) as [Hv1|Hv1].
    + rewrite decide_True by lia. replace (Z.to_nat (v - va)) with O by lia. reflexivity.
    + rewrite decide_False by lia. reflexivity.
Qed.

Lemma killed_d i p t s :
  procs s !! i = Some p -> LProc i ∉ held t -> killed i t s = ORet (pr_killed p) t s.
Proof.
  intros Hp Hl. unfold killed. kstep (acquire_free (LProc i) t s Hl).
  unfold bind at 1, getp, gets. cbn [obind]. kstep (release_top (LProc i) (held t) (me t) s).
  rewrite tls_eta, (lookup_total_eq _ _ _ Hp). reflexivity.
Qed.

(** A turn of the second loop of [piperead]. *)
Lemma piperead_turn_ok pi pr root ps l addr n i t s :
  pipe_env s pi pr root ps l -> me t = Some pr -> 0 <= i < n -> 0 <= addr -> addr + n <= MAXVA ->
  user_ok (pt (p_vm s) root (addr + i)) = true -> pte_test (pt (p_vm s) root (addr + i)) PTE_W = true ->
  match pqueue (vmem s) pi with
  | [] => piperead_turn pi pr addr n i t s = ORet (inr i) t s
  | ch :: q =>
      exists s', piperead_turn pi pr addr n i t s = ORet (inl (i + 1)) t s' /\
        pipe_env s' pi pr root ps l /\ procs s' = procs s /\ pqueue (vmem s') pi = q /\
        (forall va, pt (p_vm s') root va = pt (p_vm s) root va) /\
        written root (addr + i) [ch] (p_vm s) (p_vm s')
  end.
Proof.
  intros E Hme Hi H0 Hmax Hu Hw. unfold piperead_turn. rewrite (proj2 (Z.ltb_lt i n)) by lia.
  kstep (pget_d (pi_nread pi) t s). kstep (pget_d (pi_nwrite pi) t s). rewrite empty_test.
  destruct (cnt (vmem s) pi =? 0) eqn:Ec.
  { pose proof (cnt_length (vmem s) pi). by destruct (pqueue (vmem s) pi); [|simpl in *; lia]. }
  rewrite (pop_queue (vmem s) pi) by lia. set (ch := cell (vmem s) pi (load32 (pi_nread pi) (vmem s))).
  assert (Hpop : pipe_pop pi t s = ORet ch t (with_mem (pop_mem pi) s)).
  { rewrite pipe_pop_d. f_equal. unfold ch, cell, pop_mem, byte_at.
    rewrite mstore_out by (unfold pi_nread, pi_data, PIPESIZE; dlia). reflexivity. }
  kstep Hpop. set (s1 := with_mem (pop_mem pi) s).
  destruct (env_pipe_page s pi pr root ps l (pop_mem pi) E (pop_page _ _)) as (E1 & Hpt1 & Hum1).
  { pose proof (pop_queue (vmem s) pi ltac:(lia)) as Hq. apply (f_equal length) in Hq. simpl in Hq.
    pose proof (pe_inv _ _ _ _ _ _ E) as Hinv. unfold pipe_inv in *. rewrite cnt_length in *. lia. }
  fold s1 in E1, Hpt1, Hum1. destruct (pe_proc _ _ _ _ _ _ E1) as (p & Hp & _ & Hr).
  unfold bind at 1, getp, gets. cbn [obind]. rewrite (lookup_total_eq _ _ _ Hp), Hr, u64_small by klia.
  destruct (env_user_byte s1 pi pr root ps l (addr + i) ch t) as (s2 & Eo & E2 & Hp2 & Hsame & Hpt2 & Hwr); auto; try lia.
  { apply byte_at_range. } { by rewrite Hpt1. } { by rewrite Hpt1. }
  kstep Eo. exists s2. split; [reflexivity|]. split; [exact E2|]. split; [by rewrite Hp2|].
  split; [by apply pqueue_agree|]. split; [intros va; by rewrite Hpt2|].
  intros v Hv Huv. rewrite Hwr by (auto; by rewrite Hpt1). case_decide; [reflexivity|]. by apply Hum1.
Qed.

(** The second loop of [piperead] takes what there is, at most [n] bytes. *)
Lemma piperead_loop pi pr root ps l addr n t :
  me t = Some pr -> 0 <= addr -> addr + n <= MAXVA ->
  forall fl i s, (Z.to_nat (n - i) < fl)%nat -> 0 <= i <= n -> pipe_env s pi pr root ps l ->
  (forall va, addr + i <= va < addr + n ->
     user_ok (pt (p_vm s) root va) = true /\ pte_test (pt (p_vm s) root va) PTE_W = true) ->
  let q := pqueue (vmem s) pi in
  let k := Nat.min (Z.to_nat (n - i)) (length q) in
  exists s', loop fl (piperead_turn pi pr addr n) i t s = ORet (i + Z.of_nat k) t s' /\
    pipe_env s' pi pr root ps l /\ procs s' = procs s /\ pqueue (vmem s') pi = drop k q /\
    (forall va, pt (p_vm s') root va = pt (p_vm s) root va) /\
    written root (addr + i) (take k q) (p_vm s) (p_vm s').
Proof.
  intros Hme H0 Hmax. induction fl as [|fl IH]; intros i s Hfl Hi E Hu q k; [lia|].
  assert (Hstop : k = O -> i + Z.of_nat k = i /\ drop k q = q /\ written root (addr + i) (take k q) (p_vm s) (p_vm s)).
  { intros ->. rewrite Z.add_0_r. split; [reflexivity|]. split; [reflexivity|]. intros v _ _.
    rewrite decide_False by (simpl; lia). reflexivity. }
  cbn [loop]. destruct (decide (i < n)) as [Hin|Hin].
  2: { destruct Hstop as (-> & -> & Hw); [lia|]. exists s. split; [|auto 10].
       unfold piperead_turn at 1. rewrite (proj2 (Z.ltb_ge i n)) by lia. reflexivity. }
  destruct (Hu (addr + i)) as [Hu1 Hu2]; [lia|].
  pose proof (piperead_turn_ok pi pr root ps l addr n i t s E Hme ltac:(lia) H0 Hmax Hu1 Hu2) as Hturn.
  unfold k, q in *. destruct (pqueue (vmem s) pi) as [|ch q'] eqn:Eq.
  { destruct Hstop as (-> & -> & Hw); [simpl; lia|]. exists s. kstep Hturn. split; [reflexivity|auto 10]. }
  destruct Hturn as (s1 & E1 & Env1 & Hp1 & Hq1 & Hpt1 & Hw1). kstep E1.
  destruct (IH (i + 1) s1) as (s2 & E2 & Env2 & Hp2 & Hq2 & Hpt2 & Hw2); [lia|lia|auto| |].
  { intros va Hva. rewrite Hpt1. apply Hu. lia. }
  rewrite Hq1 in *. exists s2.
  replace (Nat.min (Z.to_nat (n - i)) (length (ch :: q')))
    with (Datatypes.S (Nat.min (Z.to_nat (n - (i + 1))) (length q'))) by (simpl; lia).
  split; [rewrite E2; f_equal; lia|]. split; [exact Env2|]. split; [congruence|]. split; [exact Hq2|].
  split; [intros va; by rewrite Hpt2|]. cbn [take]. eapply written_cons; eauto. by rewrite <- Z.add_assoc.
Qed.

(** A turn of [pipewrite] that copies a byte. *)
Lemma pipewrite_turn_ok pi pr root ps l addr n i t s :
  pipe_env s pi pr root ps l -> me t = Some pr -> LProc pr ∉ held t -> load32 (pi_readopen pi) (vmem s) <> 0 ->
  0 <= i < n -> 0 <= addr -> addr + n <= MAXVA -> user_ok (pt (p_vm s) root (addr + i)) = true ->
  cnt (vmem s) pi < PIPESIZE ->
  let s' := with_mem (push_mem pi (umem (p_vm s) root (addr + i))) s in
  pipewrite_turn pi pr addr n i t s = ORet (inl (i + 1)) t s' /\
  pipe_env s' pi pr root ps l /\ load32 (pi_readopen pi) (vmem s') <> 0 /\
  pqueue (vmem s') pi = pqueue (vmem s) pi ++ [umem (p_vm s) root (addr + i)] /\
  (forall va, pt (p_vm s') root va = pt (p_vm s) root va) /\
  (forall va, 0 <= va < MAXVA -> user_ok (pt (p_vm s) root va) = true ->
     umem (p_vm s') root va = umem (p_vm s) root va).
Proof.
  intros E Hme Hl Hro Hi H0 Hmax Hu Hc s'. set (ch := umem (p_vm s) root (addr + i)) in *.
  assert (Hch : 0 <= ch < 256) by apply byte_at_range.
  pose proof (push_queue (vmem s) pi ch Hc Hch) as Hq.
  destruct (env_pipe_page s pi pr root ps l (push_mem pi ch) E (push_page _ _ _)) as (E1 & Hpt1 & Hum1).
  { unfold pipe_inv. rewrite cnt_length in *. rewrite Hq, length_app. simpl. lia. }
  destruct (push_fields (vmem s) pi ch) as (_ & _ & Hro' & _).
  split; [|split; [exact E1|split; [unfold vmem in *; simpl; congruence|auto]]].
  unfold pipewrite_turn. rewrite (proj2 (Z.ltb_lt i n)) by lia. kstep (pget_d (pi_readopen pi) t s).
  rewrite (proj2 (Z.eqb_neq _ 0) Hro). destruct (pe_proc _ _ _ _ _ _ E) as (p & Hp & Hk & Hr).
  kstep (killed_d pr p t s Hp Hl). rewrite Hk. change (negb (0 =? 0)) with false. cbv iota.
  kstep (pget_d (pi_nwrite pi) t s). kstep (pget_d (pi_nread pi) t s). rewrite full_test.
  rewrite (proj2 (Z.eqb_neq (cnt (vmem s) pi) PIPESIZE)) by lia.
  unfold bind at 1, getp, gets. cbn [obind]. rewrite (lookup_total_eq _ _ _ Hp), Hr, u64_small by klia.
  assert (Ecopy : pcopyin root (addr + i) 1 t s = ORet (0, [ch]) t s).
  { assert (Eu : urange (p_vm s) root (addr + i) 1 = [ch]) by (unfold urange; simpl; by rewrite Z.add_0_r).
    destruct (proj1 (pe_user _ _ _ _ _ _ E) (addr + i)) as [Hv _]; [lia|exact Hu|].
    unfold pcopyin, bind at 1, myproc. rewrite Hme. cbn [obind]. unfold bind at 1, getp, gets. cbn [obind].
    unfold invm. rewrite (zoom_ret vmL _ t s (0, [ch]) t (p_vm s)); [by destruct s|].
    rewrite <- Eu. apply copyin_ok; [lia|lia|]. intros va Hva. replace va with (addr + i) by lia.
    split; [exact Hu|]. pose proof (valid_page_pos _ Hv). lia. }
  kstep Ecopy. change (0 =? -1) with false. cbv iota. kstep (pipe_push_d pi ch t s). reflexivity.
Qed.

(** [k] turns that copy a byte each. *)
Lemma pipewrite_loop pi pr root ps l addr n t :
  me t = Some pr -> LProc pr ∉ held t -> 0 <= addr -> addr + n <= MAXVA ->
  forall k fl i s, pipe_env s pi pr root ps l -> load32 (pi_readopen pi) (vmem s) <> 0 ->
  0 <= i -> i + Z.of_nat k <= n -> cnt (vmem s) pi + Z.of_nat k <= PIPESIZE -> 
  (forall va, addr + i <= va < addr + n -> user_ok (pt (p_vm s) root va) = true) ->
  exists s', loop (k + fl) (pipewrite_turn pi pr addr n) i t s = loop fl (pipewrite_turn pi pr addr n) (i + Z.of_nat k) t s' /\
    pipe_env s' pi pr root ps l /\ load32 (pi_readopen pi) (vmem s') <> 0 /\ procs s' = procs s /\
    pqueue (vmem s') pi = pqueue (vmem s) pi ++ urange (p_vm s) root (addr + i) k /\
    (forall va, 0 <= va < MAXVA -> user_ok (pt (p_vm s) root va) = true ->
       umem (p_vm s') root va = umem (p_vm s) root va).
Proof.
  intros Hme Hl H0 Hmax. induction k as [|k IH]; intros fl i s E Hro Hi Hn Hc Hu.
  { exists s. rewrite Z.add_0_r, app_nil_r. auto 10. }
  destruct (pipewrite_turn_ok pi pr root ps l addr n i t s) as (Et & E1 & Hro1 & Hq1 & Hpt1 & Hum1);
    auto; try lia; [apply Hu; lia|].
  cbn [loop plus]. kstep Et. set (s1 := with_mem _ s) in *.
  destruct (IH fl (i + 1) s1) as (s2 & E2 & Env2 & Hro2 & Hp2 & Hq2 & Hum2); auto; try lia.
  { rewrite cnt_length in *. rewrite Hq1, length_app. simpl. lia. }
  { intros va Hva. rewrite Hpt1. apply Hu. lia. }
  exists s2. split; [rewrite E2; f_equal; lia|]. split; [exact Env2|]. split; [exact Hro2|]. split; [exact Hp2|]. split.
  - rewrite Hq2, Hq1, <- app_assoc. f_equal. change (Datatypes.S k) with (1 + k)%nat. rewrite urange_app.
    f_equal; [unfold urange; simpl; by rewrite Z.add_0_r|]. rewrite <- Z.add_assoc. change (Z.of_nat 1) with 1.
    apply map_ext_in. intros j Hj. apply in_seq in Hj. apply Hum1; [lia|apply Hu; lia].
  - intros va Hva Huv. rewrite Hum2 by (auto; by rewrite Hpt1). by apply Hum1.
Qed.

(** What [wakeup(c)], called by process [pr], does to the process table. *)
Definition wake_others (pr : nat) (c : chan) (l : list proc) : list proc :=
  imap (fun i p => if decide (Some pr = Some i) then p else woken c p) l.

Lemma wakeup_pipe pr lk c s :
  tbl_ok s -> (forall i, lk <> LProc i) ->
  wakeup c (Tls [lk] (Some pr)) s = ORet tt (Tls [lk] (Some pr)) (s <| procs ::= wake_others pr c |>).
Proof.
  intros Hs Hlk. apply wakeup_ok; [exact Hs|]. intros i _. simpl. rewrite list_elem_of_singleton. auto.
Qed.

Lemma insert_alter {A} (f : A -> A) (l : list A) i x : l !! i = Some x -> <[i := f x]> l = alter f i l.
Proof. revert i. induction l as [|y l IH]; intros [|i] Hx; simplify_eq/=; [reflexivity|]. f_equal. by apply IH. Qed.

(** A turn of [pipewrite] on a full pipe. *)
Lemma pipewrite_turn_full pi pr root ps l addr n i s :
  pipe_env s pi pr root ps l -> load32 (pi_readopen pi) (vmem s) <> 0 -> i < n -> cnt (vmem s) pi = PIPESIZE ->
  exists k, pipewrite_turn pi pr addr n i (Tls [LPipe pi] (Some pr)) s =
    OSwtch (s <| procs ::= fun l => alter (fun p => p <| pr_chan := CPipeWrite pi |> <| pr_state := SLEEPING |>) pr
                             (wake_others pr (CPipeRead pi) l) |>) k.
Proof.
  intros E Hro Hi Hc. set (t := Tls [LPipe pi] (Some pr)).
  destruct (pe_proc _ _ _ _ _ _ E) as (p & Hp & Hk & _). pose proof (pe_tbl _ _ _ _ _ _ E) as Htbl.
  assert (Hlk : forall j, LProc j ∉ held t) by (intros j; simpl; rewrite list_elem_of_singleton; discriminate).
  set (s2 := s <| procs ::= wake_others pr (CPipeRead pi) |>).
  assert (Hp2 : procs s2 !! pr = Some p).
  { unfold s2, wake_others. simpl. rewrite list_lookup_imap, Hp. simpl. by rewrite decide_True. }
  destruct (sleep_ok (CPipeWrite pi) (LPipe pi) pr p t s2) as (k & Es & _); auto.
  { unfold tbl_ok, s2, wake_others. simpl. rewrite length_imap. exact Htbl. }
  unfold pipewrite_turn. rewrite (proj2 (Z.ltb_lt i n)) by lia. kstep (pget_d (pi_readopen pi) t s).
  rewrite (proj2 (Z.eqb_neq _ 0) Hro).
  kstep (killed_d pr p t s Hp (Hlk pr)).
  rewrite Hk. change (negb (0 =? 0)) with false. cbv iota.
  kstep (pget_d (pi_nwrite pi) t s). kstep (pget_d (pi_nread pi) t s). rewrite full_test, Hc, Z.eqb_refl.
  kstep (wakeup_pipe pr (LPipe pi) (CPipeRead pi) s Htbl ltac:(intros; discriminate)). fold t s2.
  unfold bind. rewrite Es. simpl. eexists. f_equal. unfold s2. simpl. f_equal.
  exact (insert_alter (fun p => p <| pr_chan := CPipeWrite pi |> <| pr_state := SLEEPING |>) _ pr p Hp2).
Qed.

(** C10: [pipewrite] appends the caller's bytes to the queue.  The read end is
    open, the caller is not killed and its memory is mapped.  When they fit,
    it returns their number with the queue extended by exactly the [n] bytes
    of user memory at [addr], the readers woken and user memory unchanged.
    When they do not fit it fills the queue to [PIPESIZE] bytes in order,
    wakes the readers and switches away asleep on the channel that
    [piperead] wakes. *)
Theorem pipewrite_spec pi addr n pr root ps l s
    (E : pipe_env s pi pr root ps l) (Hro : load32 (pi_readopen pi) (vmem s) <> 0)
    (Hn : 0 <= n) (H0 : 0 <= addr) (Hmax : addr + n <= MAXVA)
    (Hu : forall va, addr <= va < addr + n -> user_ok (pt (p_vm s) root va) = true)
    (Hf : (Z.to_nat n < fuel)%nat) :
  let q := pqueue (vmem s) pi in
  let room := PIPESIZE - Z.of_nat (length q) in
  exists s',
    pqueue (vmem s') pi = q ++ urange (p_vm s) root addr (Z.to_nat (Z.min n room)) /\
    (forall va, 0 <= va < MAXVA -> user_ok (pt (p_vm s) root va) = true ->
       umem (p_vm s') root va = umem (p_vm s) root va) /\
    if decide (n <= room)
    then pipewrite pi addr n (Tls [] (Some pr)) s = ORet n (Tls [] (Some pr)) s' /\
         procs s' = wake_others pr (CPipeRead pi) (procs s)
    else exists k, pipewrite pi addr n (Tls [] (Some pr)) s = OSwtch s' k /\
         procs s' = alter (fun p => p <| pr_chan := CPipeWrite pi |> <| pr_state := SLEEPING |>) pr
                      (wake_others pr (CPipeRead pi) (procs s)).
Proof.
  intros q room. set (t := Tls [LPipe pi] (Some pr)).
  assert (Hlk : forall i, LProc i ∉ held t) by (intros i; simpl; rewrite list_elem_of_singleton; discriminate).
  pose proof (pe_inv _ _ _ _ _ _ E) as Hinv. unfold pipe_inv in Hinv. pose proof Hinv as Hinv0. rewrite cnt_length in Hinv0.
  set (m := Z.to_nat (Z.min n room)). assert (Hm : Z.of_nat m <= n /\ Z.of_nat m <= room) by (unfold room, q in *; lia).
  destruct (pipewrite_loop pi pr root ps l addr n t eq_refl (Hlk pr) H0 Hmax m (fuel - m)%nat 0 s) as
    (s1 & El & E1 & Hro1 & Hp1 & Hq1 & Hum1); auto; try lia.
  { rewrite cnt_length. unfold room, q in Hm. lia. } { intros va Hva. apply Hu. lia. }
  replace (m + (fuel - m))%nat with fuel in El by lia. rewrite Z.add_0_r, Z.add_0_l in *.
  pose proof (f_equal length Hq1) as Hlen. rewrite length_app in Hlen. unfold urange in Hlen. rewrite length_map, length_seq in Hlen.
  pose proof (wakeup_pipe pr (LPipe pi) (CPipeRead pi) s1 (pe_tbl _ _ _ _ _ _ E1) ltac:(intros; discriminate)) as Ew.
  unfold pipewrite. unfold bind at 1, myproc. cbn [me obind].
  erewrite bind_ret by (apply acquire_free; apply not_elem_of_nil). cbv beta. cbn [held me]. fold t. fold t in Ew.
  destruct (fuel - m)%nat as [|fl] eqn:Efl; [lia|]. cbn [loop] in El. case_decide as Hd.
  - exists (s1 <| procs ::= wake_others pr (CPipeRead pi) |>). split; [exact Hq1|]. split; [exact Hum1|].
    assert (Et : pipewrite_turn pi pr addr n (Z.of_nat m) t s1 = ORet (inr (Some (Z.of_nat m))) t s1).
    { unfold pipewrite_turn. rewrite (proj2 (Z.ltb_ge (Z.of_nat m) n)) by lia. reflexivity. }
    rewrite (bind_ret _ _ _ _ _ _ _ Et) in El. rewrite (bind_ret _ _ _ _ _ _ _ El). cbv beta iota. kstep Ew.
    erewrite bind_ret by apply release_top. split; [unfold ret; f_equal; lia|]. simpl. by rewrite Hp1.
  - destruct (pipewrite_turn_full pi pr root ps l addr n (Z.of_nat m) s1 E1 Hro1) as (k & Et); [lia| |].
    { rewrite cnt_length, Hlen. unfold room, q in *. lia. }
    rewrite (bind_swtch _ _ _ _ _ _ Et) in El.
    exists (s1 <| procs ::= fun l => alter (fun p => p <| pr_chan := CPipeWrite pi |> <| pr_state := SLEEPING |>) pr
              (wake_others pr (CPipeRead pi) l) |>). split; [exact Hq1|]. split; [exact Hum1|].
    eexists. split; [exact (bind_swtch _ _ _ _ _ _ El)|]. simpl. by rewrite Hp1.
Qed.

(** C11: [piperead] takes bytes off the front of the queue.  The caller is not
    killed and its memory is mapped and writable.  When there is a
    byte to read, or the write end is closed, it returns the smaller of [n] and
    the number of bytes in the queue, having moved exactly these bytes, in
    order, to user memory at [addr], left the rest in the queue, changed no
    other user memory and woken the writers.  On an empty pipe with an open
    write end it sleeps on the channel that [pipewrite] wakes. *)
Theorem piperead_spec pi addr n pr root ps l s
    (E : pipe_env s pi pr root ps l)
    (Hn : 0 <= n) (H0 : 0 <= addr) (Hmax : addr + n <= MAXVA)
    (Hu : forall va, addr <= va < addr + n ->
       user_ok (pt (p_vm s) root va) = true /\ pte_test (pt (p_vm s) root va) PTE_W = true)
    (Hf : (0 < fuel)%nat) :
  let q := pqueue (vmem s) pi in
  let k := Nat.min (Z.to_nat n) (length q) in
  if decide (q = [] /\ load32 (pi_writeopen pi) (vmem s) <> 0)
  then exists c, piperead pi addr n (Tls [] (Some pr)) s =
         OSwtch (s <| procs ::= alter (fun p => p <| pr_chan := CPipeRead pi |> <| pr_state := SLEEPING |>) pr |>) c
  else exists s', piperead pi addr n (Tls [] (Some pr)) s = ORet (Z.of_nat k) (Tls [] (Some pr)) s' /\
         pqueue (vmem s') pi = drop k q /\ written root addr (take k q) (p_vm s) (p_vm s') /\
         procs s' = wake_others pr (CPipeWrite pi) (procs s).
Proof.
  intros q k. set (t := Tls [LPipe pi] (Some pr)).
  assert (Hlk : forall i, LProc i ∉ held t) by (intros i; simpl; rewrite list_elem_of_singleton; discriminate).
  assert (Eacq : acquire (LPipe pi) (Tls [] (Some pr)) s = ORet tt t s)
    by (apply acquire_free; apply not_elem_of_nil).
  pose proof (pget_d (pi_nread pi) t s) as G1. pose proof (pget_d (pi_nwrite pi) t s) as G2.
  pose proof (pget_d (pi_writeopen pi) t s) as G3. pose proof (cnt_length (vmem s) pi) as Hcl.
  destruct (pe_proc _ _ _ _ _ _ E) as (p & Hp & Hk & _). case_decide as Hd.
  - destruct (sleep_ok (CPipeRead pi) (LPipe pi) pr p t s) as (c & Es & _); auto; [apply (pe_tbl _ _ _ _ _ _ E)|].
    rewrite (insert_alter (fun p => p <| pr_chan := CPipeRead pi |> <| pr_state := SLEEPING |>) _ pr p Hp) in Es.
    eassert (Ewait : piperead_wait pi pr tt t s = OSwtch _ (fun x => obind (c x) (fun _ => ret (inl tt)))).
    { unfold piperead_wait. kstep G1. kstep G2. kstep G3. rewrite empty_test, Hcl. destruct Hd as [Hq Hwo].
      unfold q in Hq. rewrite Hq, (proj2 (Z.eqb_neq _ 0) Hwo).
      change ((Z.of_nat (length (A := Z) []) =? 0) && negb false) with true. cbv iota.
      kstep (killed_d pr p t s Hp (Hlk pr)). rewrite Hk. exact (bind_swtch _ _ _ _ _ _ Es). }
    unfold piperead. unfold bind at 1, myproc. cbn [me obind]. kstep Eacq.
    destruct fuel as [|fl]; [lia|]. cbn [loop]. eexists. exact (bind_swtch _ _ _ _ _ _ (bind_swtch _ _ _ _ _ _ Ewait)).
  - assert (Ewait : loop fuel (piperead_wait pi pr) tt t s = ORet false t s).
    { destruct fuel as [|fl]; [lia|]. cbn [loop].
      enough (E0 : piperead_wait pi pr tt t s = ORet (inr false) t s) by (kstep E0; reflexivity).
      unfold piperead_wait. kstep G1. kstep G2. kstep G3. rewrite empty_test, Hcl.
      destruct (_ && _) eqn:Eb; [|reflexivity]. exfalso. apply Hd. unfold q.
      destruct (pqueue (vmem s) pi); simpl in Eb; [split; [reflexivity|lia]|lia]. }
    destruct (piperead_loop pi pr root ps l addr n t eq_refl H0 Hmax (Datatypes.S (Z.to_nat n)) 0 s) as
      (s1 & El & E1 & Hp1 & Hq1 & _ & Hw1); auto; [lia|lia|intros va Hva; apply Hu; lia|].
    rewrite Z.add_0_l, Z.add_0_r, Z.sub_0_r in *.
    exists (s1 <| procs ::= wake_others pr (CPipeWrite pi) |>). split.
    + unfold piperead. unfold bind at 1, myproc. cbn [me obind]. kstep Eacq. kstep Ewait.
      kstep El. kstep (wakeup_pipe pr (LPipe pi) (CPipeWrite pi) s1 (pe_tbl _ _ _ _ _ _ E1) ltac:(intros; discriminate)).
      erewrite bind_ret by apply release_top. reflexivity.
    + split; [exact Hq1|]. split; [exact Hw1|]. simpl. by rewrite Hp1.
Qed.

End Operations.

(** ** Witnesses

    Process 0 has page [PA 4] at address 0 and the pipe is in [PA 5]; it holds
    the byte 65 and both ends are open. *)

#[local] Existing Instance demo_link.
#[local] Existing Instance demo_link_ok.

Definition demo_pipe_mem (m : mem) : mem :=
  push_mem (PA 5) 65 (store32 (pi_writeopen (PA 5)) 1 (store32 (pi_readopen (PA 5)) 1 m)).
Definition demo_user_pst : pst :=
  Pst demo_mapped ((zero_proc <| pr_state := RUNNING |> <| pr_pagetable := PA 3 |>) :: replicate 63 zero_proc) 2 None.
Definition demo_pipe : pst := with_mem demo_pipe_mem demo_user_pst.
Definition demo_fuel : Fuel := 10%nat.
#[local] Existing Instance demo_fuel.

Lemma demo_pipe_env : exists ps l, pipe_env demo_pipe (PA 5) 0 (PA 3) ps l /\
  forall va, 0 <= va < 4096 -> user_ok (pt (p_vm demo_pipe) (PA 3) va) = true /\
    pte_test (pt (p_vm demo_pipe) (PA 3) va) PTE_W = true.
Proof.
  destruct demo_mapped_inv as (ps & l & Hi & Hperm & Hpt & _). exists ps, l.
  assert (E : pipe_env demo_user_pst (PA 5) 0 (PA 3) ps l).
  { destruct demo_leaf as [Hl Hpa]. split; [reflexivity| |exact Hi|by apply demo_uspace|apply PA_valid; lia| | |].
    - eexists. split; [reflexivity|]. split; reflexivity.
    - rewrite Hperm. distinct_pages.
    - intros va Hva. change (p_vm demo_user_pst) with demo_mapped. rewrite Hpt by klia.
      case_decide; [|discriminate]. intros _. rewrite Hpa. discriminate.
    - vm_compute. discriminate. }
  destruct (env_pipe_page _ _ _ _ _ _ demo_pipe_mem E) as (E1 & Hpt1 & _).
  - unfold demo_pipe_mem. intros x Hx. rewrite push_page by exact Hx.
    assert (H : ~ (PA 5 <= x < PA 5 + 4096)) by (intros H; apply Hx; exists (PA 5); split; [by left|exact H]).
    rewrite !mstore_out; [reflexivity| |]; unfold pi_writeopen, pi_readopen; lia.
  - vm_compute. discriminate.
  - split; [exact E1|]. intros va Hva. unfold demo_pipe. rewrite Hpt1. change (p_vm demo_user_pst) with demo_mapped.
    rewrite demo_user by auto. vm_compute. auto.
Qed.

Lemma pipewrite_spec_witness :
  exists s', pipewrite (PA 5) 100 2 (Tls [] (Some 0%nat)) demo_pipe = ORet 2 (Tls [] (Some 0%nat)) s' /\
    pqueue (vmem s') (PA 5) = [65; 0; 0].
Proof.
  destruct demo_pipe_env as (ps & l & E & Hu).
  destruct (pipewrite_spec (PA 5) 100 2 0 (PA 3) ps l demo_pipe E) as (s' & Hq & _ & H);
    [vm_compute; discriminate|lia|lia|klia|intros va Hva; apply Hu; lia|vm_compute; lia|].
  assert (Eq : pqueue (vmem demo_pipe) (PA 5) = [65]) by (vm_compute; reflexivity).
  rewrite Eq in *. exists s'. split; [apply H|]. rewrite Hq. vm_compute. reflexivity.
Defined.

Lemma piperead_spec_witness :
  exists s', piperead (PA 5) 100 2 (Tls [] (Some 0%nat)) demo_pipe = ORet 1 (Tls [] (Some 0%nat)) s' /\
    pqueue (vmem s') (PA 5) = [].
Proof.
  destruct demo_pipe_env as (ps & l & E & Hu).
  pose proof (piperead_spec (PA 5) 100 2 0 (PA 3) ps l demo_pipe E ltac:(lia) ltac:(lia) ltac:(klia)
    ltac:(intros va Hva; apply Hu; lia) ltac:(vm_compute; lia)) as H.
  assert (Eq : pqueue (vmem demo_pipe) (PA 5) = [65]) by (vm_compute; reflexivity).
  cbv zeta in H. rewrite Eq in H. rewrite decide_False in H by (intros [? _]; discriminate).
  destruct H as (s' & H1 & H2 & _). exists s'. split; [exact H1|exact H2].
Defined.
