(* ===== verification/File.v ===== *)
(** * Open files (kernel/file.c) and [pipealloc] (kernel/pipe.c)

    The table of open files, shared by all processes; a [struct file *] is an
    index into [ftable.file[]], [None] for a null pointer. *)

From S2P Require Import Prelude Kmonad Mem Riscv Kalloc Cstring Vm Proc Iface Sleeplock Bio Log Fs Uart Printf Console Pipe.

Inductive ftype := FD_NONE | FD_PIPE | FD_INODE | FD_DEVICE.
#[global] Instance ftype_eq_dec : EqDecision ftype.
Proof. solve_decision. Defined.

Record file := File {
  f_type : ftype;
  f_ref : Z;
  f_readable : bool;
  f_writable : bool;
  f_pipe : Z;                      (* address of the pipe *)
  f_ip : option nat;
  f_off : Z;
  f_major : Z;
}.
#[global] Instance eta_file : Eta file := fun r =>
  File (f_type r) (f_ref r) (f_readable r) (f_writable r) (f_pipe r) (f_ip r) (f_off r) (f_major r).
Definition zero_file : file := File FD_NONE 0 false false 0 None 0 0.
#[global] Instance file_inhabited : Inhabited file := populate zero_file.

(** The functions that [devsw[]] can point to. *)
Inductive devread := Consoleread.
Inductive devwrite := Consolewrite.

Definition CONSOLE : Z := 1.

(** The variables of kernel/file.c. *)
Record filest := Filest { ftable : list file; devsw : list (option devread * option devwrite) }.
#[global] Instance eta_filest : Eta filest := fun r => Filest (ftable r) (devsw r).
Definition zero_files : filest :=
  Filest (replicate NFILE zero_file) (replicate (Z.to_nat NDEV) (None, None)).

(** [struct stat] in memory: 24 bytes, of which the four after [nlink] are
    padding and keep what the stack held, [pad]. *)
Definition stat_bytes (st : stat) (pad : list Z) : list Z :=
  let m := mstore 4 0 (st_dev st) (mstore 4 4 (st_ino st) (mstore 2 8 (st_type st)
             (mstore 2 10 (st_nlink st) (mwrite 12 pad (mstore 8 16 (st_size st) (fun _ => 0)))))) in
  bytes_at m 0 24.

Section File.
Context {S : Type} `{Has S filest} `{Has S fsst} `{Has S pst} `{Has S consst} `{Has S uartst}
  `{BlockDev S} `{LogOps S} `{SleepOps S} `{KillOps S} `{UserOps S} `{UartDev} `{Fuel} {L : LinkMap}.

Definition getf (i : nat) : M S file := let* t := hget in ret (ftable t !!! i).
Definition modf (i : nat) (g : file -> file) : M S unit :=
  hmod (fun t : filest => t <| ftable := <[i := g (ftable t !!! i)]> (ftable t) |>).

(** The part of [consoleinit] that connects the console to [devsw]. *)
Definition console_devsw : M S unit :=
  hmod (fun t : filest => t <| devsw ::= <[Z.to_nat CONSOLE := (Some Consoleread, Some Consolewrite)]> |>).

Definition filealloc : M S (option nat) :=
  acquire LFtable ;;
  let* t := hget in
  match list_find (fun f => f_ref f = 0) (ftable t) with
  | Some (i, _) =>
      modf i (fun f => f <| f_ref := 1 |>) ;;
      release LFtable ;;
      ret (Some i)
  | None => release LFtable ;; ret None
  end.

Definition filedup (i : nat) : M S nat :=
  acquire LFtable ;;
  let* f := getf i in
  if f_ref f <? 1 then panic "filedup"
  else
    modf i (fun f => f <| f_ref ::= (fun r => r + 1) |>) ;;
    release LFtable ;;
    ret i.

Definition fileclose (i : nat) : M S unit :=
  acquire LFtable ;;
  let* f := getf i in
  if f_ref f <? 1 then panic "fileclose"
  else
    modf i (fun f => f <| f_ref ::= (fun r => r - 1) |>) ;;
    let* ff := getf i in
    if 0 <? f_ref ff then release LFtable
    else
      modf i (fun f => f <| f_ref := 0 |> <| f_type := FD_NONE |>) ;;
      release LFtable ;;
      match f_type ff with
      | FD_PIPE => inpart (pipeclose (f_pipe ff) (f_writable ff))
      | FD_INODE | FD_DEVICE =>
          op_begin ;;
          let* ip := deref (f_ip ff) in
          iput ip ;;
          op_end
      | FD_NONE => ret tt
      end.

(** [filestat(f, addr)]; [pad] is what the stack holds in the padding of
    [st]. *)
Definition filestat (pad : list Z) (i : nat) (addr : Z) : M S Z :=
  let* f := getf i in
  match f_type f with
  | FD_INODE | FD_DEVICE =>
      let* ip := deref (f_ip f) in
      ilock ip ;;
      let* st := stati ip in
      iunlock ip ;;
      let* r := op_copyout (DUser addr) (stat_bytes st pad) in
      if r <? 0 then ret (-1) else ret 0
  | _ => ret (-1)
  end.

(** The entry of [devsw] that [fileread] and [filewrite] look up. *)
Definition dev_entry (major : Z) : M S (option devread * option devwrite) :=
  if (major <? 0) || (NDEV <=? major) then ret (None, None)
  else let* t := hget in ret (default (None, None) (devsw t !! Z.to_nat major)).

Definition fileread (i : nat) (addr n : Z) : M S Z :=
  let* f := getf i in
  if negb (f_readable f) then ret (-1)
  else match f_type f with
  | FD_PIPE => inpart (piperead (f_pipe f) addr n)
  | FD_DEVICE =>
      let* d := dev_entry (f_major f) in
      match fst d with
      | None => ret (-1)
      | Some Consoleread => let* '(r, _) := consoleread (DUser addr) n in ret r
      end
  | FD_INODE =>
      let* ip := deref (f_ip f) in
      ilock ip ;;
      let* f := getf i in
      let* '(r, _) := readi ip (DUser addr) (f_off f) (u32 n) in
      when (0 <? r) (modf i (fun f => f <| f_off ::= (fun off => u32 (off + r)) |>)) ;;
      iunlock ip ;;
      ret r
  | FD_NONE => panic "fileread"
  end.

(** The most bytes that [filewrite] writes in one transaction. *)
Definition filewrite_max : Z := (MAXOPBLOCKS - 1 - 1 - 2) / 2 * BSIZE.

Definition filewrite (i : nat) (addr n : Z) : M S Z :=
  let* f := getf i in
  if negb (f_writable f) then ret (-1)
  else match f_type f with
  | FD_PIPE => inpart (pipewrite (f_pipe f) addr n)
  | FD_DEVICE =>
      let* d := dev_entry (f_major f) in
      match snd d with
      | None => ret (-1)
      | Some Consolewrite => consolewrite (SUser addr) n
      end
  | FD_INODE =>
      let* ip := deref (f_ip f) in
      let* k := loop (Z.to_nat (Z.max 0 n / filewrite_max + 2))
        (fun k =>
           if k <? n then
             let n1 := Z.min (n - k) filewrite_max in
             op_begin ;;
             ilock ip ;;
             let* f := getf i in
             let* r := writei ip (SUser (u64 (addr + k))) (f_off f) n1 in
             when (0 <? r) (modf i (fun f => f <| f_off ::= (fun off => u32 (off + r)) |>)) ;;
             iunlock ip ;;
             op_end ;;
             if negb (r =? n1) then ret (inr k) else ret (inl (k + r))
           else ret (inr k))
        0 in
      ret (if k =? n then n else -1)
  | FD_NONE => panic "filewrite"
  end.

(** [pipealloc(f0, f1)]: the two files, or [None] for the return value -1. *)
Definition pipealloc : M S (option (nat * nat)) :=
  let bad (f0 f1 : option nat) :=
    match f0 with Some f => fileclose f | None => ret tt end ;;
    match f1 with Some f => fileclose f | None => ret tt end ;;
    ret None in
  let* f0 := filealloc in
  let* f1 := (match f0 with Some _ => filealloc | None => ret None end) in
  match f0, f1 with
  | Some a, Some b =>
      let* pi := inpart (invm kalloc) in
      if pi =? 0 then bad f0 f1
      else
        inpart (pipe_init pi) ;;
        modf a (fun f => f <| f_type := FD_PIPE |> <| f_readable := true |> <| f_writable := false |> <| f_pipe := pi |>) ;;
        modf b (fun f => f <| f_type := FD_PIPE |> <| f_readable := false |> <| f_writable := true |> <| f_pipe := pi |>) ;;
        ret (Some (a, b))
  | _, _ => bad f0 f1
  end.

End File.
