(* ===== verification/Usr.v ===== *)
(** * The processes and their open files, as seen below the system calls

    The state of the kernel above the file system: the process table with
    the memory of the machine ([pst]), the table of open files, the console
    and the UART.  The theorems about kernel/fs.c and kernel/file.c run on a
    disk with this state beside it, so that the source and the destination of
    a read or a write can be the memory of the process that runs.  Copies to
    and from that memory take locks, allocate pages on a fault and give the
    locks back. *)

From S2P Require Import Prelude Kmonad Mem Riscv Kalloc Cstring Vm PageTable VmWalk VmUser VmSpec Proc Iface Sleeplock Bio Log Fs Uart Printf Console Pipe PipeSpec File.

Record usr := Usr { u_proc : pst; u_files : filest; u_cons : consst; u_uart : uartst }.
#[global] Instance eta_usr : Eta usr := fun r => Usr (u_proc r) (u_files r) (u_cons r) (u_uart r).

Section Parts.
Context {S : Type} `{Has S usr}.

#[export] Instance usr_has_proc : Has S pst | 2 :=
  Lens (fun s : S => u_proc (lget has s)) (fun x (s : S) => lput has ((lget has s : usr) <| u_proc := x |>) s).
#[export] Instance usr_has_files : Has S filest | 2 :=
  Lens (fun s : S => u_files (lget has s)) (fun x (s : S) => lput has ((lget has s : usr) <| u_files := x |>) s).
#[export] Instance usr_has_cons : Has S consst | 2 :=
  Lens (fun s : S => u_cons (lget has s)) (fun x (s : S) => lput has ((lget has s : usr) <| u_cons := x |>) s).
#[export] Instance usr_has_uart : Has S uartst | 2 :=
  Lens (fun s : S => u_uart (lget has s)) (fun x (s : S) => lput has ((lget has s : usr) <| u_uart := x |>) s).
End Parts.

(** ** Code that gives back the locks it takes *)

Definition steady {S A} (m : M S A) : Prop := forall t s a t' s', m t s = ORet a t' s' -> t' = t.

Create HintDb steady.

Section Steady.
Context {S : Type}.

Lemma steady_ret {A} (a : A) : steady (ret a : M S A).
Proof. by intros t s a' t' s' [= _ <- _]. Qed.
Lemma steady_panic {A} msg : steady (panic msg : M S A).
Proof. by intros t s a t' s' [=]. Qed.
Lemma steady_gets {A} (f : S -> A) : steady (gets f).
Proof. by intros t s a t' s' [= _ <- _]. Qed.
Lemma steady_modify (f : S -> S) : steady (modify f).
Proof. by intros t s a t' s' [= _ <- _]. Qed.
Lemma steady_myproc : steady (myproc : M S nat).
Proof. intros t s a t' s'. unfold myproc. destruct (me t); [by intros [= _ <- _]|done]. Qed.
Lemma steady_bind {A B} (m : M S A) (f : A -> M S B) : steady m -> (forall a, steady (f a)) -> steady (bind m f).
Proof.
  intros Hm Hf t s b t' s'. unfold bind. destruct (m t s) as [a t1 s1| | |] eqn:E; try discriminate. simpl.
  intros E2. by rewrite (Hf _ _ _ _ _ _ E2), (Hm _ _ _ _ _ E).
Qed.
Lemma steady_when b (m : M S unit) : steady m -> steady (when b m).
Proof. destruct b; [done|]. intros _. apply steady_ret. Qed.
Lemma steady_loop {X A} n (body : X -> M S (X + A)) x : (forall x, steady (body x)) -> steady (loop n body x).
Proof.
  intros H. revert x. induction n as [|n IH]; intros x; simpl; [done|].
  apply steady_bind; [auto|]. intros [x'|a]; [auto|apply steady_ret].
Qed.

End Steady.

Lemma steady_zoom {T S A} (L : lens T S) (m : M S A) : steady m -> steady (zoom L m).
Proof.
  intros Hm t s a t' s'. unfold zoom. destruct (m t (lget L s)) as [b t1 s1| | |] eqn:E; try discriminate.
  simpl. apply Hm in E as ->. by intros [= _ <- _].
Qed.

(** Go through the statements; the calls are in the hint database. *)
Ltac steadily :=
  cbv zeta;
  lazymatch goal with
  | |- forall _, _ => intro; steadily
  | |- steady (bind _ _) => apply steady_bind; [steadily|steadily]
  | |- steady (ret _) => apply steady_ret
  | |- steady (panic _) => apply steady_panic
  | |- steady (gets _) => apply steady_gets
  | |- steady (modify _) => apply steady_modify
  | |- steady myproc => apply steady_myproc
  | |- steady (when _ _) => apply steady_when; steadily
  | |- steady (zoom _ _) => apply steady_zoom; steadily
  | |- steady (loop _ _ _) => apply steady_loop; steadily
  | |- steady (match ?x with _ => _ end) => destruct x; steadily
  | |- _ => solve [auto with steady]
  end.

Section Copies.
Context {L : LinkMap}.

Lemma steady_kalloc : steady kalloc.
Proof.
  intros t s a t' s'. unfold kalloc, bind, acquire, gets, modify, when, ret.
  destruct (holding LKmem t); [done|]. cbn [obind].
  destruct (negb _); cbn [obind]; rewrite release_top; cbn [obind]; intros [= _ <- _]; by destruct t.
Qed.
Lemma steady_kfree pa : steady (kfree pa).
Proof.
  unfold kfree. destruct (_ || _); [apply steady_panic|].
  apply steady_bind; [apply steady_modify|]. intros _ t s a t' s'. unfold bind, acquire, gets, modify.
  destruct (holding LKmem t); [done|]. cbn [obind]. rewrite release_top. intros [= _ <- _]. by destruct t.
Qed.
Hint Resolve steady_kalloc steady_kfree : steady.

Lemma steady_read64 a : steady (read64 a).
Proof. unfold read64. steadily. Qed.
Lemma steady_write64 a x : steady (write64 a x).
Proof. unfold write64. steadily. Qed.
Lemma steady_deref64 a : steady (deref64 a).
Proof. unfold deref64, read64. steadily. Qed.
Hint Resolve steady_read64 steady_write64 steady_deref64 : steady.

Lemma steady_walk_from n pt va alloc : steady (walk_from n pt va alloc).
Proof. revert pt. induction n as [|n IH]; intros pt; simpl; steadily. Qed.
Lemma steady_walk pt va alloc : steady (walk pt va alloc).
Proof. pose proof steady_walk_from. unfold walk. steadily. Qed.
Hint Resolve steady_walk : steady.
Lemma steady_walkaddr pt va : steady (walkaddr pt va).
Proof. unfold walkaddr. steadily. Qed.
Lemma steady_mappages pt va sz pa perm : steady (mappages pt va sz pa perm).
Proof. unfold mappages. steadily. Qed.
Lemma steady_ismapped pt va : steady (ismapped pt va).
Proof. unfold ismapped. steadily. Qed.
Hint Resolve steady_walkaddr steady_mappages steady_ismapped : steady.
Lemma steady_vmfault psz ppt pt va : steady (vmfault psz ppt pt va).
Proof. unfold vmfault. steadily. Qed.
Hint Resolve steady_vmfault : steady.
Lemma steady_copyout psz ppt pt va src : steady (copyout psz ppt pt va src).
Proof. unfold copyout. steadily. Qed.
Lemma steady_copyin psz ppt pt va n : steady (copyin psz ppt pt va n).
Proof. unfold copyin. steadily. Qed.
Hint Resolve steady_copyout steady_copyin : steady.

Lemma steady_getp i : steady (getp i).
Proof. apply steady_gets. Qed.
Hint Resolve steady_getp : steady.
Lemma steady_either_copyout d l : steady (either_copyout d l).
Proof. unfold either_copyout, invm. steadily. Qed.
Lemma steady_either_copyin src n : steady (either_copyin src n).
Proof. unfold either_copyin, invm. steadily. Qed.
Lemma steady_cwd : steady (let* i := myproc in let* p := getp i in ret (pr_cwd p)).
Proof. steadily. Qed.
End Copies.
#[export] Hint Resolve steady_either_copyout steady_either_copyin steady_cwd : steady.

(** ** Sources of a copy *)

(** The source [src] holds the bytes [l]: any part of them can be copied, which
    changes nothing. *)
Record gives {L : LinkMap} (t : tls) (u : usr) (src : ksrc) (l : list Z) : Prop := Gives {
  gv_self : ksrc_shift src 0 = src;
  gv_copy : forall k m, (k + m <= length l)%nat ->
    either_copyin (ksrc_shift src (Z.of_nat k)) m t (u_proc u) = ORet (0, take m (drop k l)) t (u_proc u);
}.

(** A variable of the kernel does. *)
Lemma gives_var {L : LinkMap} t u l : gives t u (SVar l) l.
Proof. split; [reflexivity|]. intros k m _. simpl. by rewrite Nat2Z.id. Qed.

(** Memory of the process that runs does, where it is mapped. *)
Lemma gives_user {L : LinkMap} t u i p va n :
  me t = Some i -> procs (u_proc u) !!! i = p -> 0 <= va -> va + Z.of_nat n <= MAXVA ->
  (forall a, va <= a < va + Z.of_nat n ->
     user_ok (pt (p_vm (u_proc u)) (pr_pagetable p) a) = true /\ PTE2PA (pt (p_vm (u_proc u)) (pr_pagetable p) a) <> 0) ->
  gives t u (SUser va) (urange (p_vm (u_proc u)) (pr_pagetable p) va n).
Proof.
  intros Hme Hp H0 Hhi Hok.
  assert (Hs : forall k, 0 <= k <= Z.of_nat n -> u64 (va + k) = va + k).
  { intros k Hk. apply Z.mod_small. change MAXVA with (2 ^ 38) in Hhi. lia. }
  split; [simpl; by rewrite Hs by lia; rewrite Z.add_0_r|]. intros k m Hk. unfold urange in Hk. rewrite length_map, length_seq in Hk.
  simpl. rewrite Hs by lia. unfold myproc, bind. rewrite Hme. cbn [obind]. unfold getp, gets. cbn [obind]. rewrite Hp.
  unfold invm, zoom. rewrite copyin_ok; [|lia|lia|intros a Ha; apply Hok; lia]. cbn [ozoom]. do 2 f_equal.
  - f_equal. replace n with (k + (m + (n - k - m)))%nat by lia. rewrite !urange_app.
    assert (Hl : forall v j, length (urange (p_vm (u_proc u)) (pr_pagetable p) v j) = j)
      by (intros; unfold urange; by rewrite length_map, length_seq).
    rewrite drop_app_length' by (by rewrite Hl). by rewrite take_app_length' by (by rewrite Hl).
  - by destruct (u_proc u).
Qed.

Lemma ksrc_shift_add src (k : nat) m :
  0 <= m -> ksrc_shift (ksrc_shift src (Z.of_nat k)) m = ksrc_shift src (Z.of_nat (k + Z.to_nat m)).
Proof.
  intros Hm. replace (Z.of_nat (k + Z.to_nat m)) with (Z.of_nat k + m) by lia. destruct src as [va|a|l]; simpl.
  - f_equal. unfold u64. rewrite Zplus_mod_idemp_l. f_equal. lia.
  - f_equal. unfold u64. rewrite Zplus_mod_idemp_l. f_equal. lia.
  - rewrite drop_drop. do 2 f_equal. lia.
Qed.

(** Part of what a source holds is held by the part of the source. *)
Lemma gives_part {L : LinkMap} t u src l k m :
  gives t u src l -> (k + m <= length l)%nat -> gives t u (ksrc_shift src (Z.of_nat k)) (take m (drop k l)).
Proof.
  intros [G1 G2] Hk. split.
  - rewrite ksrc_shift_add by lia. do 2 f_equal. lia.
  - intros k' m'. rewrite length_take, length_drop. intros Hk'.
    rewrite ksrc_shift_add by lia. rewrite Nat2Z.id, G2 by lia. do 2 f_equal.
    rewrite skipn_firstn_comm, drop_drop, take_take. f_equal. lia.
Qed.

(** ** A process with a page of memory and a file open for writing *)

(** The page holds "hi" at address 100. *)
Definition demo_usr : usr :=
  Usr (demo_user_pst <| p_vm ::= on_phys (mwrite (PA 4 + 100) [104; 105]) |>)
    (zero_files <| ftable ::= <[0%nat := File FD_INODE 1 true true 0 (Some 0%nat) 0 0]> |>) zero_cons zero_uart.

Lemma demo_gives : gives (L := demo_link) thread0 demo_usr (SUser 100) [104; 105].
Proof.
  set (p := zero_proc <| pr_state := RUNNING |> <| pr_pagetable := PA 3 |>).
  assert (Hp : procs (u_proc demo_usr) !!! 0%nat = p) by reflexivity.
  assert (Hok : forall a, 100 <= a < 100 + Z.of_nat 2 ->
    user_ok (pt (p_vm (u_proc demo_usr)) (pr_pagetable p) a) = true /\
    PTE2PA (pt (p_vm (u_proc demo_usr)) (pr_pagetable p) a) <> 0).
  { intros a Ha. assert (a = 100 \/ a = 101) as [-> | ->] by lia; vm_compute; (split; [reflexivity|discriminate]). }
  pose proof (gives_user (L := demo_link) thread0 demo_usr 0 p 100 2 eq_refl Hp ltac:(lia)
    ltac:(vm_compute; discriminate) Hok) as G.
  assert (E : urange (p_vm (u_proc demo_usr)) (pr_pagetable p) 100 2 = [104; 105]) by (vm_compute; reflexivity).
  by rewrite E in G.
Qed.
