(* ===== verification/CacheSim.v ===== *)
(** * The buffer cache is a block device

    The cache of Bio.v, over a disk that records its writes, does what the
    abstract block device of LogSpec.v does.  A world says which blocks are
    pinned by the log and which buffers the thread has locked; [cache_rel]
    relates the states.  The buffers are not named alike on the two sides: the
    abstract device names them by their block. *)

From S2P Require Import Prelude Kmonad Mem Riscv Kalloc Proc Iface Sleeplock Bio Disk BioSpec Log LogSpec Fs Usr.

(** ** The state below the file system *)

(** What is in memory beside the cache: the variables of log.c and fs.c, and
    the processes and open files above them. *)
Record fsx := Fsx { x_log : logst; x_fs : fsst; x_usr : usr }.
#[global] Instance eta_fsx : Eta fsx := fun r => Fsx (x_log r) (x_fs r) (x_usr r).

#[global] Instance bst_has_log : Has (bst fsx) logst :=
  Lens (fun s => x_log (bs_ext s)) (fun l s => s <| bs_ext ::= (fun x => x <| x_log := l |>) |>).
#[global] Instance bst_has_fs : Has (bst fsx) fsst :=
  Lens (fun s => x_fs (bs_ext s)) (fun f s => s <| bs_ext ::= (fun x => x <| x_fs := f |>) |>).
#[global] Instance bst_has_usr : Has (bst fsx) usr :=
  Lens (fun s => x_usr (bs_ext s)) (fun u s => s <| bs_ext ::= (fun x => x <| x_usr := u |>) |>).

(** The process that runs has [pid] 1. *)
#[global] Instance fsx_sleep_ops : SleepOps (bst fsx) := bst_sleep_ops 1.
#[global] Existing Instance bst_fuel.

(** ** Worlds *)

(** A locked buffer is as it was read or logged, changed since, or on the disk. *)
Inductive bstatus := BKept | BDirty | BSync.

Record world := World {
  w_pins : gset Z;
  w_open : gmap Z (nat * bstatus);
  w_log : logst;
  w_fs : fsst;
  w_usr : usr;
}.
#[global] Instance eta_world : Eta world := fun r => World (w_pins r) (w_open r) (w_log r) (w_fs r) (w_usr r).

Definition opened (w : world) (n : Z) : bool := bool_decide (is_Some (w_open w !! n)).
(** The references to the buffer of block [n]. *)
Definition refs (w : world) (n : Z) : Z := Z.b2z (bool_decide (n ∈ w_pins w)) + Z.b2z (opened w n).
(** The buffers in use. *)
Definition w_size (w : world) : nat := size (w_pins w) + size (w_open w).
Definition set_open (n : Z) (i : nat) (st : bstatus) (w : world) : world := w <| w_open ::= <[n := (i, st)]> |>.
Definition del_open (n : Z) (w : world) : world := w <| w_open ::= delete n |>.

Definition status_ok (w : world) (a : astate) (n : Z) (st : bstatus) : Prop :=
  match st with
  | BKept => n ∈ w_pins w \/ a_buf a n = dsk a n
  | BDirty => True
  | BSync => a_buf a n = dsk a n
  end.

Record cache_rel (w : world) (a : astate) (s : bst fsx) : Prop := CacheRel {
  cr_inv : exists order, binv order s;
  cr_base : bs_base s = a_base a;
  cr_trace : bs_trace s = a_trace a;
  cr_log : a_log a = w_log w;
  cr_ext : bs_ext s = Fsx (w_log w) (w_fs w) (w_usr w);
  cr_ref : forall n, a_ref a n = refs w n;
  cr_locked : forall n, a_locked a n = opened w n;
  cr_cnt : forall i, (i < NBUF)%nat ->
    b_refcnt (bb s i) = if decide (b_dev (bb s i) = ROOTDEV) then refs w (b_blockno (bb s i)) else 0;
  cr_buf : forall n, 0 < refs w n -> exists i, cached s i n /\ b_valid (bb s i) <> 0 /\ b_data (bb s i) = a_buf a n;
  cr_open : forall n i st, w_open w !! n = Some (i, st) ->
    cached s i n /\ b_lock (bb s i) = Sleeplock 1 1 /\ 0 <= n /\ status_ok w a n st;
  cr_free : forall i n, cached s i n -> opened w n = false -> sl_locked (b_lock (bb s i)) = 0;
}.

(** The thread holds no lock of the cache. *)
Definition cache_free (t : tls) : Prop := LBcache ∉ held t /\ forall i, LSleep (SLbuf i) ∉ held t.

Lemma refs_range w n : 0 <= refs w n <= 2.
Proof. unfold refs. destruct (bool_decide _), (opened w n); simpl; lia. Qed.

Lemma opened_set n i st w m : opened (set_open n i st w) m = bool_decide (m = n) || opened w m.
Proof.
  unfold opened, set_open. simpl. destruct (decide (m = n)) as [->|Hne].
  - rewrite lookup_insert_eq, (bool_decide_eq_true_2 (n = n)) by done. apply bool_decide_eq_true_2. eauto.
  - rewrite lookup_insert_ne by auto. by rewrite (bool_decide_eq_false_2 (m = n)).
Qed.
Lemma opened_del n w m : opened (del_open n w) m = negb (bool_decide (m = n)) && opened w m.
Proof.
  unfold opened, del_open. simpl. destruct (decide (m = n)) as [->|Hne].
  - rewrite lookup_delete_eq, (bool_decide_eq_true_2 (n = n)) by done. apply bool_decide_eq_false_2. by intros [? ?].
  - rewrite lookup_delete_ne by auto. by rewrite (bool_decide_eq_false_2 (m = n)).
Qed.
Lemma opened_some w n i st : w_open w !! n = Some (i, st) -> opened w n = true.
Proof. intros H. apply bool_decide_eq_true_2. eauto. Qed.
Lemma opened_none w n : opened w n = false -> w_open w !! n = None.
Proof. intros H. apply bool_decide_eq_false_1 in H. by apply eq_None_not_Some. Qed.

Lemma cached_fun {X} (s : bst X) i n n' : cached s i n -> cached s i n' -> n = n'.
Proof. intros [_ H] [_ H']. apply bkey_spec in H, H'. destruct H, H'. congruence. Qed.

Section Rel.
Context (w : world) (a : astate) (s : bst fsx) (C : cache_rel w a s).

Lemma cr_disk : bs_disk s = dsk a.
Proof. unfold bs_disk, dsk. by rewrite (cr_base _ _ _ C), (cr_trace _ _ _ C). Qed.

Lemma cr_uniq i j n : cached s i n -> cached s j n -> i = j.
Proof. destruct (cr_inv _ _ _ C) as [order I]. apply (bi_uniq _ _ I). Qed.

Lemma cached_refs i n : cached s i n -> b_refcnt (bb s i) = refs w n.
Proof.
  intros [Hi Hk]. apply bkey_spec in Hk as [Hd Hn]. rewrite (cr_cnt _ _ _ C i Hi), decide_True by exact Hd.
  by rewrite Hn.
Qed.

(** The buffer of a block in use. *)
Lemma cr_data i n : 0 < refs w n -> cached s i n -> b_valid (bb s i) <> 0 /\ b_data (bb s i) = a_buf a n.
Proof.
  intros Hr Hc. destruct (cr_buf _ _ _ C n Hr) as (j & Hj & H). by rewrite (cr_uniq i j n Hc Hj).
Qed.

(** What the kernel sees of a block. *)
Lemma cr_view n : view s n = if refs w n =? 0 then dsk a n else a_buf a n.
Proof.
  destruct (cr_inv _ _ _ C) as [order I]. rewrite <- cr_disk. pose proof (refs_range w n).
  destruct (refs w n =? 0) eqn:E.
  - destruct (view_cases _ _ n I) as [(i & Hc & Hv & ->)|[_ ->]]; [|done].
    pose proof (cached_refs i n Hc). destruct Hc as [Hi Hk]. apply bkey_spec in Hk as [_ <-].
    apply (bo_clean _ _ (bi_buf _ _ I i Hi)); [lia|exact Hv].
  - destruct (cr_buf _ _ _ C n ltac:(lia)) as (i & Hc & Hv & <-). by eapply view_hit.
Qed.

(** A cache that has no free buffer is full of blocks in use. *)
Lemma cr_full : (forall i, (i < NBUF)%nat -> b_refcnt (bb s i) <> 0) -> (NBUF <= w_size w)%nat.
Proof.
  intros H. assert (Hc : forall i, (i < NBUF)%nat -> cached s i (b_blockno (bb s i)) /\ 0 < refs w (b_blockno (bb s i))).
  { intros i Hi. specialize (H i Hi). rewrite (cr_cnt _ _ _ C i Hi) in H. case_decide as Hd; [|done].
    pose proof (refs_range w (b_blockno (bb s i))). split; [|lia]. split; [exact Hi|]. by apply bkey_spec. }
  set (l := (fun i => b_blockno (bb s i)) <$> seq 0 NBUF).
  assert (Hnd : NoDup l).
  { apply NoDup_fmap_2_strong; [|apply NoDup_seq]. intros i j Hi Hj E. apply elem_of_seq in Hi, Hj.
    apply (cr_uniq i j (b_blockno (bb s i))); [apply Hc; lia|rewrite E; apply Hc; lia]. }
  assert (Hsub : list_to_set l ⊆ w_pins w ∪ dom (w_open w)).
  { intros n Hn. apply elem_of_list_to_set in Hn. unfold l in Hn. apply list_elem_of_fmap in Hn as (i & -> & Hi).
    apply elem_of_seq in Hi. destruct (Hc i ltac:(lia)) as [_ Hr]. unfold refs, opened in Hr.
    destruct (bool_decide_reflect (b_blockno (bb s i) ∈ w_pins w)) as [Hp|_]; [by apply elem_of_union_l|].
    apply elem_of_union_r, elem_of_dom. case_bool_decide; [done|simpl in Hr; lia]. }
  apply subseteq_size in Hsub. rewrite size_list_to_set in Hsub by exact Hnd. unfold l in Hsub.
  rewrite length_fmap, length_seq in Hsub. etrans; [exact Hsub|]. rewrite size_union_alt. unfold w_size.
  rewrite <- (size_dom (w_open w)). apply Nat.add_le_mono_l, subseteq_size, subseteq_difference_l. done.
Qed.
End Rel.

(** ** One buffer changes *)

Lemma core_fields b b' : core b = core b' ->
  b_valid b = b_valid b' /\ b_dev b = b_dev b' /\ b_blockno b = b_blockno b' /\ b_lock b = b_lock b' /\
  b_refcnt b = b_refcnt b' /\ b_data b = b_data b'.
Proof. unfold core. destruct b, b'. simpl. by intros [=]. Qed.

Lemma core_cached {X} (s s' : bst X) i n : core (bb s' i) = core (bb s i) -> cached s' i n <-> cached s i n.
Proof. intros (_ & E1 & E2 & _)%core_fields. unfold cached, bkey. by rewrite E1, E2. Qed.

(** The two sides agree outside block [n]. *)
Record agree_but (n : Z) (w w' : world) (a a' : astate) : Prop := {
  ag_pins : forall m, m <> n -> m ∈ w_pins w' <-> m ∈ w_pins w;
  ag_open : forall m, m <> n -> w_open w' !! m = w_open w !! m;
  ag_ref : forall m, a_ref a' m = refs w' m;
  ag_locked : forall m, a_locked a' m = opened w' m;
  ag_buf : forall m, m <> n -> 0 < refs w m -> a_buf a' m = a_buf a m;
  ag_dsk : forall m, m <> n -> dsk a' m = dsk a m;
  ag_log : a_log a' = w_log w';
}.

(** Buffer [i] is the one of block [n] after the change. *)
Record buf_at (n : Z) (i : nat) (w' : world) (a' : astate) (s' : bst fsx) : Prop := {
  ba_cached : cached s' i n;
  ba_cnt : b_refcnt (bb s' i) = refs w' n;
  ba_data : 0 < refs w' n -> b_valid (bb s' i) <> 0 /\ b_data (bb s' i) = a_buf a' n;
  ba_lock : match w_open w' !! n with
            | Some (j, st) => j = i /\ b_lock (bb s' i) = Sleeplock 1 1 /\ 0 <= n /\ status_ok w' a' n st
            | None => sl_locked (b_lock (bb s' i)) = 0
            end;
}.

Lemma agree_refs n w w' a a' m : agree_but n w w' a a' -> m <> n -> refs w' m = refs w m /\ opened w' m = opened w m.
Proof.
  intros A Hm. unfold refs, opened. rewrite (ag_open _ _ _ _ _ A m Hm).
  rewrite (bool_decide_ext _ _ (ag_pins _ _ _ _ _ A m Hm)). done.
Qed.

Lemma rel_at n i order w w' a a' s s' :
  cache_rel w a s -> binv order s' -> bs_base s' = a_base a' -> bs_trace s' = a_trace a' ->
  bs_ext s' = Fsx (w_log w') (w_fs w') (w_usr w') -> (forall j, j <> i -> core (bb s' j) = core (bb s j)) ->
  cached s i n \/ b_refcnt (bb s i) = 0 -> agree_but n w w' a a' -> buf_at n i w' a' s' -> cache_rel w' a' s'.
Proof.
  intros C I Hb Ht Hx Hc Hi A [B1 B2 B3 B4].
  assert (Hne : forall j m, m <> n -> cached s' j m -> j <> i).
  { intros j m Hm Hj ->. by apply Hm, (cached_fun s' i m n). }
  assert (Hni : forall j m, m <> n -> 0 < refs w m -> cached s j m -> j <> i).
  { intros j m Hm Hr Hj ->. destruct Hi as [Hi|Hi]; [by apply Hm, (cached_fun s i m n)|].
    rewrite (cached_refs _ _ _ C i m Hj) in Hi. lia. }
  split; eauto.
  - apply (ag_log _ _ _ _ _ A).
  - apply (ag_ref _ _ _ _ _ A).
  - apply (ag_locked _ _ _ _ _ A).
  - intros j Hj. destruct (decide (j = i)) as [->|Hji].
    + destruct B1 as [_ Hk]. apply bkey_spec in Hk as [Hd Hk]. by rewrite decide_True, Hk by exact Hd.
    + pose proof (Hc j Hji) as Hcj. destruct (core_fields _ _ Hcj) as (_ & E1 & E2 & _ & E3 & _).
      rewrite E1, E2, E3, (cr_cnt _ _ _ C j Hj). case_decide as Hd; [|done]. symmetry.
      apply (agree_refs _ _ _ _ _ _ A). intros E. apply Hji.
      apply (bi_uniq _ _ I _ _ n); [|exact B1]. split; [exact Hj|]. apply bkey_spec. by rewrite E1, E2.
  - intros m Hr. destruct (decide (m = n)) as [->|Hm]; [exists i; split; auto; by apply B3|].
    destruct (agree_refs _ _ _ _ _ _ A Hm) as [Er _]. rewrite Er in Hr.
    destruct (cr_buf _ _ _ C m Hr) as (j & Hj & Hv & Hd). pose proof (Hni j m Hm Hr Hj) as Hji.
    exists j. destruct (core_fields _ _ (Hc j Hji)) as (-> & _ & _ & _ & _ & ->).
    split; [by apply (core_cached s s' j m (Hc j Hji))|]. split; [exact Hv|].
    by rewrite (ag_buf _ _ _ _ _ A m Hm Hr).
  - intros m j st Ho. destruct (decide (m = n)) as [->|Hm].
    { rewrite Ho in B4. destruct B4 as (-> & B4). by split. }
    rewrite (ag_open _ _ _ _ _ A m Hm) in Ho. destruct (cr_open _ _ _ C m j st Ho) as (Hj & Hl & H0 & Hs).
    assert (Hr : 0 < refs w m) by (unfold refs; rewrite (opened_some _ _ _ _ Ho); destruct (bool_decide _); simpl; lia).
    pose proof (Hni j m Hm Hr Hj) as Hji. destruct (core_fields _ _ (Hc j Hji)) as (_ & _ & _ & -> & _).
    split; [by apply (core_cached s s' j m (Hc j Hji))|]. split; [exact Hl|]. split; [exact H0|].
    destruct st; simpl in *; rewrite ?(ag_pins _ _ _ _ _ A m Hm), ?(ag_buf _ _ _ _ _ A m Hm Hr), ?(ag_dsk _ _ _ _ _ A m Hm); auto.
  - intros j m Hj Ho. destruct (decide (m = n)) as [->|Hm].
    { apply opened_none in Ho. rewrite Ho in B4. by rewrite (bi_uniq _ _ I j i n Hj B1). }
    pose proof (Hne j m Hm Hj) as Hji. destruct (core_fields _ _ (Hc j Hji)) as (_ & _ & _ & -> & _).
    apply (cr_free _ _ _ C j m); [by apply (core_cached s s' j m (Hc j Hji))|].
    by rewrite <- (proj2 (agree_refs _ _ _ _ _ _ A Hm)).
Qed.

Lemma refs_set n i st w m : opened w n = false -> refs (set_open n i st w) m = refs w m + (if m =? n then 1 else 0).
Proof.
  intros Ho. unfold refs. rewrite opened_set. change (w_pins (set_open n i st w)) with (w_pins w).
  destruct (Z.eq_dec m n) as [->|Hne].
  - rewrite Z.eqb_refl, Ho, (bool_decide_eq_true_2 (n = n)) by done. simpl. lia.
  - rewrite (proj2 (Z.eqb_neq _ _) Hne), (bool_decide_eq_false_2 (m = n)) by done. simpl. lia.
Qed.
Lemma refs_again n i st w m : opened w n = true -> refs (set_open n i st w) m = refs w m.
Proof.
  intros Ho. unfold refs. rewrite opened_set. change (w_pins (set_open n i st w)) with (w_pins w).
  by destruct (bool_decide_reflect (m = n)) as [->|]; rewrite ?Ho.
Qed.
Lemma refs_del n w m : opened w n = true -> refs (del_open n w) m = refs w m - (if m =? n then 1 else 0).
Proof.
  intros Ho. unfold refs. rewrite opened_del. change (w_pins (del_open n w)) with (w_pins w).
  destruct (Z.eq_dec m n) as [->|Hne].
  - rewrite Z.eqb_refl, Ho, (bool_decide_eq_true_2 (n = n)) by done. simpl. lia.
  - rewrite (proj2 (Z.eqb_neq _ _) Hne), (bool_decide_eq_false_2 (m = n)) by done. simpl. lia.
Qed.

Definition add_pin (n : Z) (w : world) : world := w <| w_pins ::= (fun p => {[n]} ∪ p) |>.
Definition del_pin (n : Z) (w : world) : world := w <| w_pins ::= (fun p => p ∖ {[n]}) |>.

Lemma refs_pin n w m : n ∉ w_pins w -> refs (add_pin n w) m = refs w m + (if m =? n then 1 else 0).
Proof.
  intros Hp. unfold refs. change (opened (add_pin n w) m) with (opened w m).
  change (w_pins (add_pin n w)) with ({[n]} ∪ w_pins w). destruct (Z.eq_dec m n) as [->|Hne].
  - rewrite Z.eqb_refl, (bool_decide_eq_false_2 _ Hp), bool_decide_eq_true_2 by set_solver. simpl. lia.
  - rewrite (proj2 (Z.eqb_neq _ _) Hne), (bool_decide_ext (m ∈ {[n]} ∪ w_pins w) (m ∈ w_pins w)) by set_solver. lia.
Qed.
Lemma refs_unpin n w m : n ∈ w_pins w -> refs (del_pin n w) m = refs w m - (if m =? n then 1 else 0).
Proof.
  intros Hp. unfold refs. change (opened (del_pin n w) m) with (opened w m).
  change (w_pins (del_pin n w)) with (w_pins w ∖ {[n]}). destruct (Z.eq_dec m n) as [->|Hne].
  - rewrite Z.eqb_refl, (bool_decide_eq_true_2 _ Hp), bool_decide_eq_false_2 by set_solver. simpl. lia.
  - rewrite (proj2 (Z.eqb_neq _ _) Hne), (bool_decide_ext (m ∈ w_pins w ∖ {[n]}) (m ∈ w_pins w)) by set_solver. lia.
Qed.

Lemma upd_if {A} (f : Z -> A) n v m : upd f n v m = if m =? n then v else f m.
Proof. reflexivity. Qed.

Section Ops.
Context (w : world) (a : astate) (s : bst fsx) (t : tls).
Hypotheses (C : cache_rel w a s) (HT : cache_free t).

(** ** [bread] *)

Lemma bread_agree n i :
  opened w n = false -> agree_but n w (set_open n i BKept w) a (rd n a).
Proof.
  intros Ho. split; simpl.
  - done.
  - intros m Hm. by rewrite lookup_insert_ne.
  - intros m. rewrite refs_set, upd_if, !(cr_ref _ _ _ C) by exact Ho. destruct (m =? n) eqn:E; [|lia].
    by apply Z.eqb_eq in E as ->.
  - intros m. rewrite opened_set, upd_if, (cr_locked _ _ _ C). destruct (Z.eq_dec m n) as [->|Hm].
    + by rewrite Z.eqb_refl, bool_decide_eq_true_2.
    + by rewrite (proj2 (Z.eqb_neq _ _) Hm), bool_decide_eq_false_2.
  - intros m Hm _. destruct (a_ref a n =? 0); [by rewrite upd_ne|done].
  - done.
  - apply (cr_log _ _ _ C).
Qed.

Lemma bread_rel n :
  0 <= n -> opened w n = false -> (w_size w < NBUF)%nat ->
  exists i s', bread ROOTDEV n t s = ORet i t s' /\ cache_rel (set_open n i BKept w) (rd n a) s'.
Proof.
  intros H0 Ho Hsz. destruct HT as [HB HS]. destruct (cr_inv _ _ _ C) as [order I]. pose proof (refs_range w n) as Hr.
  destruct (bread_cases 1 order n t s I HB HS) as [(i & s' & E & P & Hc)|(_ & _ & Hn)].
  { intros i Hc. by apply (cr_free _ _ _ C i n). }
  { intros i Hc. rewrite (cached_refs _ _ _ C i n Hc). lia. }
  2:{ pose proof (cr_full _ _ _ C Hn). lia. }
  exists i, s'. split; [exact E|]. destruct P as [P1 P2 P3 P4 P5 P6 P7 [P8 [P9 P10]]].
  assert (Hcnt : b_refcnt (bb s' i) = refs w n + 1).
  { destruct Hc as [[Hc ->]|(Hc & _ & ->)]; [by rewrite (cached_refs _ _ _ C i n Hc)|].
    destruct (Z.eq_dec (refs w n) 0) as [->|Hne]; [done|]. destruct (cr_buf _ _ _ C n) as (j & Hj & _); [lia|]. by apply Hc in Hj. }
  apply (rel_at n i order w (set_open n i BKept w) a (rd n a) s s' C P1).
  - rewrite P8. apply (cr_base _ _ _ C).
  - rewrite P9. apply (cr_trace _ _ _ C).
  - rewrite P10. apply (cr_ext _ _ _ C).
  - intros j Hj. by rewrite P7.
  - destruct Hc as [[Hc _]|(_ & Hv & _)]; [by left|right]. by eapply victim_some.
  - by apply bread_agree.
  - assert (Hd : a_buf (rd n a) n = view s n).
    { rewrite (cr_view _ _ _ C). simpl. rewrite (cr_ref _ _ _ C). destruct (refs w n =? 0); [apply upd_eq|done]. }
    split; [exact P2| | |].
    + rewrite refs_set, Z.eqb_refl by exact Ho. exact Hcnt.
    + intros _. split; [exact P3|]. by rewrite P5, Hd.
    + change (w_open (set_open n i BKept w)) with (<[n := (i, BKept)]> (w_open w)).
      rewrite lookup_insert_eq. split; [done|]. split; [exact P4|]. split; [exact H0|].
      unfold status_ok. change (dsk (rd n a)) with (dsk a). destruct (bool_decide_reflect (n ∈ w_pins w)) as [Hp|Hp]; [by left|right].
      rewrite Hd, (cr_view _ _ _ C). unfold refs. rewrite Ho, bool_decide_eq_false_2 by exact Hp. done.
Qed.

(** ** [brelse] *)

Lemma open_facts n i st : w_open w !! n = Some (i, st) ->
  cached s i n /\ b_lock (bb s i) = Sleeplock 1 1 /\ 0 <= n /\ status_ok w a n st /\ opened w n = true /\
  0 < refs w n /\ b_refcnt (bb s i) = refs w n /\ b_valid (bb s i) <> 0 /\ b_data (bb s i) = a_buf a n /\
  (i < NBUF)%nat /\ b_dev (bb s i) = ROOTDEV /\ b_blockno (bb s i) = n.
Proof.
  intros Ho. destruct (cr_open _ _ _ C n i st Ho) as (Hc & Hl & H0 & Hs). pose proof (opened_some _ _ _ _ Ho) as Hop.
  assert (Hr : 0 < refs w n) by (unfold refs; rewrite Hop; destruct (bool_decide _); simpl; lia).
  destruct (cr_data _ _ _ C i n Hr Hc) as [Hv Hd]. pose proof (cached_refs _ _ _ C i n Hc) as Hcnt.
  destruct Hc as [Hi Hk]. pose proof (proj1 (bkey_spec _ _) Hk) as [H1 H2]. by split_and!.
Qed.

Lemma brelse_agree n :
  opened w n = true -> agree_but n w (del_open n w) a (rel n a).
Proof.
  intros Ho. split; simpl.
  - done.
  - intros m Hm. by rewrite lookup_delete_ne.
  - intros m. rewrite refs_del, upd_if, !(cr_ref _ _ _ C) by exact Ho. destruct (m =? n) eqn:E; [|lia].
    by apply Z.eqb_eq in E as ->.
  - intros m. rewrite opened_del, upd_if, (cr_locked _ _ _ C). destruct (Z.eq_dec m n) as [->|Hm].
    + by rewrite Z.eqb_refl, bool_decide_eq_true_2.
    + by rewrite (proj2 (Z.eqb_neq _ _) Hm), bool_decide_eq_false_2.
  - done.
  - done.
  - apply (cr_log _ _ _ C).
Qed.

Lemma brelse_rel n i st :
  w_open w !! n = Some (i, st) -> st <> BDirty ->
  exists s', brelse i t s = ORet tt t s' /\ cache_rel (del_open n w) (rel n a) s'.
Proof.
  intros Ho Hst. destruct HT as [HB HS]. destruct (cr_inv _ _ _ C) as [order I].
  destruct (open_facts n i st Ho) as (Hc & Hl & H0 & Hs & Hop & Hr & Hcnt & Hv & Hd & Hi & Hdev & Hblk).
  assert (Hin : i ∈ order) by (apply (order_facts _ _ I); exact Hi).
  apply list_elem_of_split in Hin as (pre & post & ->).
  destruct (brelse_gives 1 pre i post t s I Hl) as (s' & E & I' & _ & [P8 [P9 P10]] & K & K'); auto; [lia| |].
  { intros H1 _. rewrite Hd, (cr_disk _ _ _ C), Hblk. rewrite Hcnt in H1. unfold refs in H1. rewrite Hop in H1.
    destruct (bool_decide_reflect (n ∈ w_pins w)) as [Hp|Hp]; [simpl in H1; lia|].
    destruct st; [|done|exact Hs]. by destruct Hs. }
  exists s'. split; [exact E|]. destruct (core_fields _ _ K) as (K1 & K2 & K3 & K4 & K5 & K6). simpl in *.
  eapply (rel_at n i _ w (del_open n w) a (rel n a) s s' C I').
  - rewrite P8. apply (cr_base _ _ _ C).
  - rewrite P9. apply (cr_trace _ _ _ C).
  - rewrite P10. apply (cr_ext _ _ _ C).
  - exact K'.
  - by left.
  - by apply brelse_agree.
  - split.
    + split; [exact Hi|]. apply bkey_spec. by rewrite K2, K3.
    + rewrite refs_del, Z.eqb_refl by exact Hop. lia.
    + intros _. rewrite K1, K6. by split.
    + simpl. rewrite lookup_delete_eq. by rewrite K4.
Qed.
(** ** Changes to a locked buffer *)

Lemma setbuf_rel n i st st' w' a' b' :
  w_open w !! n = Some (i, st) -> w_open w' !! n = Some (i, st') -> status_ok w' a' n st' ->
  b_next b' = b_next (bb s i) -> b_prev b' = b_prev (bb s i) -> b_dev b' = b_dev (bb s i) ->
  b_blockno b' = b_blockno (bb s i) -> b_valid b' = b_valid (bb s i) -> b_lock b' = b_lock (bb s i) ->
  b_refcnt b' = refs w' n -> b_data b' = a_buf a' n ->
  a_base a' = a_base a -> a_trace a' = a_trace a -> w_log w' = w_log w -> w_fs w' = w_fs w -> w_usr w' = w_usr w ->
  agree_but n w w' a a' -> cache_rel w' a' (setbuf i b' s).
Proof.
  intros Ho Ho' Hs' E1 E2 E3 E4 E5 E6 E7 E8 E9 E10 E11 E12 E13 A. destruct (cr_inv _ _ _ C) as [order I].
  destruct (open_facts n i st Ho) as (Hc & Hl & H0 & Hs & Hop & Hr & Hcnt & Hv & Hd & Hi & Hdev & Hblk).
  assert (Hr' : 0 < refs w' n <= 2).
  { pose proof (refs_range w' n). unfold refs in *. rewrite (opened_some _ _ _ _ Ho') in *. destruct (bool_decide _); simpl in *; lia. }
  pose proof (bi_len _ _ I) as Hlen. assert (Hbi : bb (setbuf i b' s) i = b') by (apply bb_set; lia).
  apply (rel_at n i order w w' a a' s); auto.
  - apply binv_set; auto.
    + split; rewrite ?E7, ?E3; intros; [lia|auto|lia|lia].
    + intros j Hj _. rewrite E4, Hblk in Hj. by apply (cr_uniq _ _ _ C j i n).
  - rewrite E9. apply (cr_base _ _ _ C).
  - rewrite E10. apply (cr_trace _ _ _ C).
  - rewrite E11, E12, E13. apply (cr_ext _ _ _ C).
  - intros j Hj. by rewrite bb_set_ne.
  - split; unfold cached; rewrite ?Hbi.
    + split; [exact Hi|]. apply bkey_spec. by rewrite E3, E4.
    + exact E7.
    + intros _. by rewrite E5, E8.
    + rewrite Ho'. by rewrite E6.
Qed.

Lemma set_agree n i st a' :
  w_open w !! n = Some (i, st) -> a_ref a' = a_ref a -> a_locked a' = a_locked a -> a_log a' = a_log a ->
  (forall m, m <> n -> a_buf a' m = a_buf a m) -> (forall m, m <> n -> dsk a' m = dsk a m) ->
  forall st', agree_but n w (set_open n i st' w) a a'.
Proof.
  intros Ho E1 E2 E3 E4 E5 st'. pose proof (opened_some _ _ _ _ Ho) as Hop. split; simpl.
  - done.
  - intros m Hm. by rewrite lookup_insert_ne.
  - intros m. by rewrite E1, refs_again, (cr_ref _ _ _ C).
  - intros m. rewrite E2, opened_set, (cr_locked _ _ _ C). by destruct (bool_decide_reflect (m = n)) as [->|].
  - intros m Hm _. by apply E4.
  - exact E5.
  - rewrite E3. apply (cr_log _ _ _ C).
Qed.

(** [b->data] is changed. *)
Lemma set_rel n i st m :
  w_open w !! n = Some (i, st) ->
  cache_rel (set_open n i BDirty w) (a <| a_buf := upd (a_buf a) n m |>) (bd_set i m s).
Proof.
  intros Ho. change (bd_set i m s) with (setbuf i ((bb s i) <| b_data := m |>) s).
  destruct (open_facts n i st Ho) as (_ & _ & _ & _ & Hop & _ & Hcnt & _).
  apply (setbuf_rel n i st BDirty); auto.
  - apply lookup_insert_eq.
  - done.
  - by rewrite refs_again.
  - simpl. by rewrite upd_eq.
  - eapply set_agree; eauto. intros x Hx. simpl. by rewrite upd_ne.
Qed.

Lemma modb_locked f i :
  LBcache ∉ held t ->
  (acquire LBcache ;; modb i f ;; release LBcache) t s = ORet tt t (setbuf i (f (bb s i)) s).
Proof.
  intros HB. kstep (acquire_free LBcache t s HB). kstep (modb_ok i f s (Tls (LBcache :: held t) (me t))).
  by rewrite release_top, tls_eta.
Qed.

Lemma bpin_rel n i st :
  w_open w !! n = Some (i, st) -> n ∉ w_pins w ->
  exists s', bpin i t s = ORet tt t s' /\
    cache_rel (add_pin n (set_open n i BKept w)) (a <| a_ref := upd (a_ref a) n (a_ref a n + 1) |>) s'.
Proof.
  intros Ho Hp. destruct HT as [HB _].
  destruct (open_facts n i st Ho) as (_ & _ & _ & _ & Hop & Hr & Hcnt & _). pose proof (refs_range w n).
  eexists. split; [unfold bpin; by apply modb_locked|].
  assert (Hrf : forall m, refs (add_pin n (set_open n i BKept w)) m = refs w m + (if m =? n then 1 else 0)).
  { intros m. by rewrite refs_pin, refs_again. }
  apply (setbuf_rel n i st BKept); auto.
  - apply lookup_insert_eq.
  - left. set_solver.
  - simpl. rewrite Hcnt, Hrf, Z.eqb_refl. apply u32_small. lia.
  - by destruct (open_facts n i st Ho) as (_ & _ & _ & _ & _ & _ & _ & _ & Hd & _).
  - split; simpl.
    + set_solver.
    + intros m Hm. by rewrite lookup_insert_ne.
    + intros m. rewrite Hrf, upd_if, !(cr_ref _ _ _ C). destruct (m =? n) eqn:E; [|lia]. by apply Z.eqb_eq in E as ->.
    + intros m. change (opened (add_pin n _) m) with (opened (set_open n i BKept w) m).
      rewrite opened_set, (cr_locked _ _ _ C). by destruct (bool_decide_reflect (m = n)) as [->|].
    + done.
    + done.
    + apply (cr_log _ _ _ C).
Qed.

Lemma bunpin_rel n i :
  w_open w !! n = Some (i, BSync) -> n ∈ w_pins w ->
  exists s', bunpin i t s = ORet tt t s' /\
    cache_rel (del_pin n w) (a <| a_ref := upd (a_ref a) n (a_ref a n - 1) |>) s'.
Proof.
  intros Ho Hp. destruct HT as [HB _].
  destruct (open_facts n i BSync Ho) as (_ & _ & _ & Hs & Hop & Hr & Hcnt & _ & Hd & _). pose proof (refs_range w n).
  eexists. split; [unfold bunpin; by apply modb_locked|].
  assert (Hrn : 2 = refs w n) by (unfold refs; rewrite Hop, bool_decide_eq_true_2 by exact Hp; done).
  apply (setbuf_rel n i BSync BSync); auto.
  - simpl. rewrite Hcnt, refs_unpin, Z.eqb_refl by exact Hp. apply u32_small. lia.
  - split; simpl.
    + set_solver.
    + done.
    + intros m. rewrite refs_unpin, upd_if, !(cr_ref _ _ _ C) by exact Hp. destruct (m =? n) eqn:E; [|lia]. by apply Z.eqb_eq in E as ->.
    + intros m. apply (cr_locked _ _ _ C).
    + done.
    + done.
    + apply (cr_log _ _ _ C).
Qed.

(** ** [bwrite] *)

Lemma bwrite_rel n i st :
  w_open w !! n = Some (i, st) ->
  exists s', bwrite i t s = ORet tt t s' /\ cache_rel (set_open n i BSync w) (wr n a) s'.
Proof.
  intros Ho. destruct HT as [_ HS]. destruct (cr_inv _ _ _ C) as [order I].
  destruct (open_facts n i st Ho) as (Hc & Hl & H0 & Hs & Hop & Hr & Hcnt & Hv & Hd & Hi & Hdev & Hblk).
  unfold bwrite. kstep (holdingsleep_ok 1 i s t Hl (HS i)). cbn [negb].
  set (s' := s <| bs_trace ::= (fun l => l ++ [(n, a_buf a n)]) |>). exists s'.
  split; [unfold virtio_disk_rw, bst_disk_ops; by rewrite Hblk, Hd|].
  assert (Hw : dsk (wr n a) = upd (dsk a) n (a_buf a n)).
  { unfold dsk, wr. simpl. by rewrite apply_writes_app. }
  assert (Hdk : bs_disk s' = dsk (wr n a)).
  { unfold bs_disk, dsk, s'. simpl. by rewrite (cr_base _ _ _ C), (cr_trace _ _ _ C). }
  assert (I' : binv order s').
  { destruct I as [I1 I2 I3 I4 I5]. split; [exact I1|exact I2|exact I3|exact I4|]. intros j Hj. specialize (I5 j Hj).
    change (bb s' j) with (bb s j). destruct I5 as [J1 J2 J3 J4]. split; [exact J1|exact J2|exact J3|].
    intros Hz Hvj. rewrite Hdk, Hw, (J4 Hz Hvj), (cr_disk _ _ _ C), upd_ne; [done|]. intros E.
    rewrite (cr_cnt _ _ _ C j Hj), decide_True, E in Hz by (by apply J2). lia. }
  apply (rel_at n i order w (set_open n i BSync w) a (wr n a) s s' C I').
  - apply (cr_base _ _ _ C).
  - unfold s'. simpl. by rewrite (cr_trace _ _ _ C).
  - apply (cr_ext _ _ _ C).
  - done.
  - by left.
  - eapply set_agree; eauto. intros m Hm. rewrite Hw. by rewrite upd_ne.
  - split; [exact Hc| | |].
    + by rewrite refs_again.
    + intros _. by split.
    + change (w_open (set_open n i BSync w)) with (<[n := (i, BSync)]> (w_open w)). rewrite lookup_insert_eq.
      split; [done|]. split; [exact Hl|]. split; [exact H0|]. unfold status_ok. by rewrite Hw, upd_eq.
Qed.

(** A logged block counts as kept. *)
Lemma kept_rel n i st : w_open w !! n = Some (i, st) -> n ∈ w_pins w -> cache_rel (set_open n i BKept w) a s.
Proof.
  intros Ho Hp. destruct (cr_inv _ _ _ C) as [order I].
  destruct (open_facts n i st Ho) as (Hc & Hl & H0 & Hs & Hop & Hr & Hcnt & Hv & Hd & Hi & Hdev & Hblk).
  apply (rel_at n i order w (set_open n i BKept w) a a s s C I); try apply C; auto.
  - eapply set_agree; eauto.
  - split; [exact Hc| | |].
    + by rewrite refs_again.
    + intros _. by split.
    + change (w_open (set_open n i BKept w)) with (<[n := (i, BKept)]> (w_open w)). rewrite lookup_insert_eq.
      split; [done|]. split; [exact Hl|]. split; [exact H0|]. by left.
Qed.

(** The log and the file system's variables are beside the cache. *)
Lemma hmod_rel (f : logst -> logst) :
  cache_rel (w <| w_log ::= f |>) (a <| a_log ::= f |>) (lput has (f (lget has s)) s).
Proof.
  destruct C as [I E1 E2 E3 E4 R K N B O Fr]. split; simpl; auto; try (rewrite E3; done).
  - destruct I as [order [I1 I2 I3 I4 I5]]. exists order. by split.
  - by rewrite E4.
Qed.
Lemma usr_rel (f : usr -> usr) :
  cache_rel (w <| w_usr ::= f |>) a (lput has (f (lget has s)) s).
Proof.
  destruct C as [I E1 E2 E3 E4 R K N B O Fr]. split; simpl; auto.
  - destruct I as [order [I1 I2 I3 I4 I5]]. exists order. by split.
  - by rewrite E4.
Qed.
Lemma fs_rel (f : fsst -> fsst) :
  cache_rel (w <| w_fs ::= f |>) a (lput has (f (lget has s)) s).
Proof.
  destruct C as [I E1 E2 E3 E4 R K N B O Fr]. split; simpl; auto.
  - destruct I as [order [I1 I2 I3 I4 I5]]. exists order. by split.
  - by rewrite E4.
Qed.
End Ops.
