(* ===== verification/LogSim.v ===== *)
(** * The log on the buffer cache

    The functions of log.c run on the buffer cache as they run on the abstract
    block device of LogSpec.v, as long as the cache has two buffers more than
    the log has pinned: [commit] and recovery on the cache. *)

From S2P Require Import Prelude Kmonad Mem Riscv Kalloc Proc Iface Sleeplock Bio Disk BioSpec Log LogSpec Sim Fs Usr CacheSim.

Definition lsim {A B} (w : world) (m1 : M astate A) (m2 : M (bst fsx) B) (Q : world -> A -> B -> Prop) : Prop :=
  sim cache_rel cache_free (fun _ => True) w m1 m2 Q.

Lemma lsim_bind {A A' B B'} w (m1 : M astate A) (m2 : M (bst fsx) B) (f1 : A -> M astate A') (f2 : B -> M (bst fsx) B') Q Q' :
  lsim w m1 m2 Q -> (forall w' a b, Q w' a b -> lsim w' (f1 a) (f2 b) Q') -> lsim w (bind m1 f1) (bind m2 f2) Q'.
Proof.
  intros H1 H2. apply (sim_bind _ _ (fun _ _ => True) (fun _ => True) ltac:(done) _ _ _ _ _ Q); [exact H1|done|exact H2].
Qed.

Lemma lsim_for_each {X} w (l : list X) (b1 : X -> M astate unit) (b2 : X -> M (bst fsx) unit) :
  (forall x, x ∈ l -> lsim w (b1 x) (b2 x) (fun w' _ _ => w' = w)) ->
  lsim w (for_each l b1) (for_each l b2) (fun w' _ _ => w' = w).
Proof.
  intros H. apply (sim_conseq _ _ _ _ _ _ (same w)); [|by intros ? ? ? [-> _]].
  apply (sim_for_each _ _ (fun _ _ => True)); [by split|done|done|]. intros x Hx. eapply sim_conseq; [by apply H|].
  by intros w' [] [] ->.
Qed.

Lemma lsim_for_each_at {X} (v : nat -> world) (b1 : X -> M astate unit) (b2 : X -> M (bst fsx) unit) (l : list X) :
  (forall i x, l !! i = Some x -> lsim (v i) (b1 x) (b2 x) (fun w' _ _ => w' = v (S i))) ->
  lsim (v 0%nat) (for_each l b1) (for_each l b2) (fun w' _ _ => w' = v (length l)).
Proof. intros H. apply (sim_for_each_at cache_rel cache_free (fun _ _ => True)); [by split|done|done|exact H]. Qed.

(** ** Worlds *)

Lemma set_open_twice n i st j st' w : set_open n j st' (set_open n i st w) = set_open n j st' w.
Proof. destruct w. unfold set_open. simpl. f_equal. apply insert_insert_eq. Qed.

Ltac open_eq :=
  unfold set_open, del_open, del_pin, add_pin; match goal with w : world |- _ => destruct w end; simpl in *; f_equal;
  apply map_eq; intros ?m; repeat (rewrite lookup_delete || rewrite lookup_insert); repeat case_decide; subst; by simplify_map_eq.

(** ** Statements *)

Lemma lsim_bread w dev n :
  dev = ROOTDEV -> 0 <= n -> (w_size w < NBUF)%nat ->
  lsim w (bd_bread dev n) (bd_bread dev n)
    (fun w' b1 b2 => b1 = Z.to_nat n /\ w' = set_open n b2 BKept w /\ w_open w !! n = None).
Proof.
  intros -> H0 Hsz t a s b t' a' HT C E _. cbn in E. destruct (a_locked a n) eqn:El; [done|]. injection E as <- <- <-.
  rewrite (cr_locked _ _ _ C) in El.
  destruct (bread_rel w a s t C HT n H0 El Hsz) as (i & s' & E & C').
  exists (set_open n i BKept w), i, s'. split; [exact E|]. split; [exact C'|]. split; [|exact HT].
  split_and!; auto. by apply opened_none.
Qed.

Lemma lsim_brelse w n i st :
  w_open w !! n = Some (i, st) -> st <> BDirty ->
  lsim w (bd_brelse (Z.to_nat n)) (bd_brelse i) (fun w' _ _ => w' = del_open n w).
Proof.
  intros Ho Hst t a s b t' a' HT C E _. destruct (cr_open _ _ _ C n i st Ho) as (_ & _ & H0 & _).
  assert (El : a_locked a n = true) by (rewrite (cr_locked _ _ _ C); by eapply opened_some).
  rewrite brelse_a in E by auto. injection E as <- <- <-.
  destruct (brelse_rel w a s t C HT n i st Ho Hst) as (s' & E & C'). exists (del_open n w), tt, s'. by split_and!.
Qed.

Lemma lsim_bwrite w n i st :
  w_open w !! n = Some (i, st) ->
  lsim w (bd_bwrite (Z.to_nat n)) (bd_bwrite i) (fun w' _ _ => w' = set_open n i BSync w).
Proof.
  intros Ho t a s b t' a' HT C E _. destruct (cr_open _ _ _ C n i st Ho) as (_ & _ & H0 & _).
  assert (El : a_locked a n = true) by (rewrite (cr_locked _ _ _ C); by eapply opened_some).
  rewrite bwrite_a in E by auto. injection E as <- <- <-.
  destruct (bwrite_rel w a s t C HT n i st Ho) as (s' & E & C'). exists (set_open n i BSync w), tt, s'. by split_and!.
Qed.

Lemma lsim_bunpin w n i :
  w_open w !! n = Some (i, BSync) -> n ∈ w_pins w ->
  lsim w (bd_bunpin (Z.to_nat n)) (bd_bunpin i) (fun w' _ _ => w' = del_pin n w).
Proof.
  intros Ho Hp t a s b t' a' HT C E _. destruct (cr_open _ _ _ C n i _ Ho) as (_ & _ & H0 & _).
  cbn in E. unfold modify in E. rewrite Z2Nat.id in E by exact H0. injection E as <- <- <-.
  destruct (bunpin_rel w a s t C HT n i Ho Hp) as (s' & E & C'). exists (del_pin n w), tt, s'. by split_and!.
Qed.

Lemma cr_bd_data w a s n i st : cache_rel w a s -> w_open w !! n = Some (i, st) ->
  bd_data (Z.to_nat n) a = a_buf a n /\ bd_data i s = a_buf a n.
Proof.
  intros C Ho. destruct (open_facts w a s C n i st Ho) as (_ & _ & H0 & _ & _ & _ & _ & _ & Hd & _).
  split; [cbn; by rewrite Z2Nat.id|exact Hd].
Qed.

Lemma lsim_set w n i st (g : mem -> mem) :
  w_open w !! n = Some (i, st) ->
  lsim w (modify (fun s => bd_set (Z.to_nat n) (g (bd_data (Z.to_nat n) s)) s)) (modify (fun s => bd_set i (g (bd_data i s)) s))
    (fun w' _ _ => w' = set_open n i BDirty w).
Proof.
  intros Ho. apply sim_modify. intros a s C. destruct (cr_bd_data w a s n i st C Ho) as [-> ->].
  destruct (cr_open _ _ _ C n i st Ho) as (_ & _ & H0 & _).
  change (bd_set (Z.to_nat n) ?m a) with (a <| a_buf := upd (a_buf a) (Z.of_nat (Z.to_nat n)) m |>).
  rewrite Z2Nat.id by exact H0. by eapply set_rel.
Qed.

Lemma lsim_data w n i st :
  w_open w !! n = Some (i, st) -> lsim w (gets (bd_data (Z.to_nat n))) (gets (bd_data i)) (same w).
Proof. intros Ho. apply sim_gets. intros a s C. by destruct (cr_bd_data w a s n i st C Ho) as [-> ->]. Qed.

Lemma lsim_copy w n i st n' i' st' :
  w_open w !! n = Some (i, st) -> w_open w !! n' = Some (i', st') ->
  lsim w (copy_data (Z.to_nat n) (Z.to_nat n')) (copy_data i i') (fun w' _ _ => w' = set_open n i BDirty w).
Proof.
  intros Ho Ho'. unfold copy_data. eapply lsim_bind; [by eapply lsim_data|]. intros w' m m' [-> ->].
  by apply (lsim_set w n i st (copy_block m')).
Qed.

Lemma lsim_hget w : lsim w hget hget (fun w' l1 l2 => w' = w /\ l1 = w_log w /\ l2 = w_log w).
Proof.
  intros t a s l t' a' HT C [= <- <- <-] _. exists w, (w_log w), s. split; [|by rewrite <- (cr_log _ _ _ C)].
  unfold hget, gets. simpl. by rewrite (cr_ext _ _ _ C).
Qed.

Lemma lsim_lmod w f : lsim w (lmod f) (lmod f) (fun w' _ _ => w' = w <| w_log ::= f |>).
Proof. apply sim_modify. intros a s C. by apply (hmod_rel w a s C f). Qed.

Lemma lsim_range w : lsim w lh_range lh_range (fun w' l1 l2 => w' = w /\ l1 = seq 0 (Z.to_nat (lh_n (w_log w))) /\ l2 = l1).
Proof.
  unfold lh_range, lget_. eapply lsim_bind; [apply lsim_hget|]. intros w' l1 l2 (-> & -> & ->).
  apply sim_ret. by split_and!.
Qed.

(** ** Functions *)

(** The log names blocks, and the cache has room beside the pinned ones. *)
Record log_ready (w : world) : Prop := {
  lr_open : w_open w = ∅;
  lr_start : 0 <= log_start (w_log w);
  lr_dev : log_dev (w_log w) = ROOTDEV;
  lr_blocks : forall i, (i < Z.to_nat (lh_n (w_log w)))%nat -> 0 <= lh_block (w_log w) !!! i;
  lr_room : (size (w_pins w) + 2 <= NBUF)%nat;
}.

Lemma size_room w n i st : log_ready w -> (w_size w < NBUF)%nat /\ (w_size (set_open n i st w) < NBUF)%nat.
Proof.
  intros [Ho _ _ _ Hr]. unfold w_size. simpl. rewrite Ho, map_size_empty, insert_empty, map_size_singleton. lia.
Qed.

Lemma lsim_write_log w : log_ready w -> lsim w write_log write_log (fun w' _ _ => w' = w).
Proof.
  intros L. unfold write_log. eapply lsim_bind; [apply lsim_range|]. intros w' r1 r2 (-> & -> & ->).
  apply lsim_for_each. intros k Hk. apply elem_of_seq in Hk. pose proof (lr_blocks _ L k ltac:(lia)) as Hb. pose proof (lr_start _ L) as Hst.
  eapply lsim_bind; [apply lsim_hget|]. intros w' l1 l2 (-> & -> & ->). set (l := w_log w) in *.
  set (n1 := log_start l + Z.of_nat k + 1). set (n2 := lh_block l !!! k) in *.
  eapply lsim_bind; [apply lsim_bread; [apply L|lia|apply (size_room w 0 0 BKept L)]|]. intros w' b1 i1 (-> & -> & _).
  eapply lsim_bind; [apply lsim_bread; [apply L|exact Hb|by apply size_room]|]. intros w' b2 i2 (-> & -> & Hn2).
  assert (Hne : n1 <> n2). { intros E. rewrite E in Hn2. unfold set_open in Hn2. simpl in Hn2. by rewrite lookup_insert_eq in Hn2. }
  eapply lsim_bind; [apply (lsim_copy _ n1 i1 BKept n2 i2 BKept); unfold set_open; simpl; by simplify_map_eq|]. intros w' _ _ ->.
  eapply lsim_bind; [apply (lsim_bwrite _ n1 i1 BDirty); unfold set_open; simpl; by simplify_map_eq|]. intros w' _ _ ->.
  eapply lsim_bind; [apply (lsim_brelse _ n2 i2 BKept); [unfold set_open; simpl; by simplify_map_eq|done]|]. intros w' _ _ ->.
  eapply sim_conseq; [apply (lsim_brelse _ n1 i1 BSync); [unfold set_open, del_open; simpl; by simplify_map_eq|done]|].
  intros w' _ _ ->. pose proof (lr_open _ L) as Ho. clearbody n1 n2 l. clear -Hne Ho. open_eq.
Qed.

Lemma del_set_open n i st w : w_open w !! n = None -> del_open n (set_open n i st w) = w.
Proof. intros H. destruct w. unfold set_open, del_open. simpl in *. f_equal. by apply delete_insert_id. Qed.

Lemma lsim_write_head w :
  w_open w = ∅ -> 0 <= log_start (w_log w) -> log_dev (w_log w) = ROOTDEV -> (size (w_pins w) + 2 <= NBUF)%nat ->
  lsim w write_head write_head (fun w' _ _ => w' = w).
Proof.
  intros Ho Hst Hd Hr. unfold write_head. eapply lsim_bind; [apply lsim_hget|]. intros w' l1 l2 (-> & -> & ->).
  set (l := w_log w) in *. set (n := log_start l) in *.
  eapply lsim_bind; [apply lsim_bread; [exact Hd|exact Hst|unfold w_size; rewrite Ho, map_size_empty; lia]|].
  intros w' b1 i (-> & -> & Hn).
  eapply lsim_bind; [apply (lsim_set _ n i BKept (store32 0 (lh_n l))); unfold set_open; simpl; by simplify_map_eq|].
  intros w' _ _ ->. rewrite set_open_twice. set (w1 := set_open n i BDirty w).
  assert (Hw1 : w_open w1 !! n = Some (i, BDirty)) by apply lookup_insert_eq.
  eapply lsim_bind; [apply lsim_range|]. intros w' r1 r2 (-> & -> & ->).
  eapply lsim_bind.
  { apply lsim_for_each. intros k _.
    eapply sim_conseq; [apply (lsim_set w1 n i BDirty (store32 (4 + 4 * Z.of_nat k) (lh_block l !!! k)) Hw1)|].
    intros w' _ _ ->. apply set_open_twice. }
  intros w' _ _ ->. eapply lsim_bind; [by apply (lsim_bwrite w1 n i BDirty)|].
  intros w' _ _ ->. unfold w1. rewrite set_open_twice.
  eapply sim_conseq; [apply (lsim_brelse _ n i BSync); [apply lookup_insert_eq|done]|].
  intros w' _ _ ->. by apply del_set_open.
Qed.

(** The pins left when [install_trans] has installed [bs]. *)
Definition drop_pins (recovering : bool) (bs : list Z) (w : world) : world :=
  if recovering then w else w <| w_pins ::= (fun p => p ∖ list_to_set bs) |>.

Lemma drop_pins_snoc bs b w : del_pin b (drop_pins false bs w) = drop_pins false (bs ++ [b]) w.
Proof.
  destruct w. unfold del_pin, drop_pins. simpl. f_equal. apply set_eq. intros x. set_solver.
Qed.

(** The turn of [install_trans] for the block that [tail] names. *)
Lemma lsim_install_turn recovering w k :
  let n2 := lh_block (w_log w) !!! k in
  log_ready w -> (k < Z.to_nat (lh_n (w_log w)))%nat -> (recovering = false -> n2 ∈ w_pins w) ->
  let body S `{BlockDev S} `{Has S logst} : M S unit :=
    (let* l := hget in
     let* lbuf := bd_bread (log_dev l) (log_start l + Z.of_nat k + 1) in
     let* dbuf := bd_bread (log_dev l) (lh_block l !!! k) in
     copy_data dbuf lbuf ;; bd_bwrite dbuf ;; when (negb recovering) (bd_bunpin dbuf) ;;
     bd_brelse lbuf ;; bd_brelse dbuf) in
  lsim w (body astate) (body (bst fsx)) (fun w' _ _ => w' = if recovering then w else del_pin n2 w).
Proof.
  intros n2 L Hk Hp body. unfold body. pose proof (lr_blocks _ L k Hk) as Hb. pose proof (lr_start _ L) as Hst.
  eapply lsim_bind; [apply lsim_hget|]. intros w' l1 l2 (-> & -> & ->). fold n2 in Hb |- *.
  set (n1 := log_start (w_log w) + Z.of_nat k + 1).
  eapply lsim_bind; [apply lsim_bread; [apply L|lia|apply (size_room w 0 0 BKept L)]|]. intros w' b1 i1 (-> & -> & _).
  eapply lsim_bind; [apply lsim_bread; [apply L|exact Hb|by apply size_room]|]. intros w' b2 i2 (-> & -> & Hn2).
  assert (Hne : n1 <> n2). { intros E. rewrite E in Hn2. unfold set_open in Hn2. simpl in Hn2. by rewrite lookup_insert_eq in Hn2. }
  pose proof (lr_open _ L) as Ho. clearbody n1 n2.
  eapply lsim_bind; [apply (lsim_copy _ n2 i2 BKept n1 i1 BKept); unfold set_open; simpl; by simplify_map_eq|]. intros w' _ _ ->.
  eapply lsim_bind; [apply (lsim_bwrite _ n2 i2 BDirty); unfold set_open; simpl; by simplify_map_eq|]. intros w' _ _ ->.
  rewrite !set_open_twice. set (w3 := set_open n2 i2 BSync _).
  eapply (lsim_bind w3 _ _ _ _ (fun w' _ _ => w' = if recovering then w3 else del_pin n2 w3)).
  { destruct recovering; [by apply sim_ret|]. apply (lsim_bunpin w3 n2 i2); [apply lookup_insert_eq|by apply Hp]. }
  intros w' _ _ ->.
  eapply lsim_bind; [apply (lsim_brelse _ n1 i1 BKept); [unfold w3, set_open, del_pin; destruct recovering; simpl; by simplify_map_eq|done]|].
  intros w' _ _ ->.
  eapply sim_conseq; [apply (lsim_brelse _ n2 i2 BSync);
    [unfold w3, set_open, del_open, del_pin; destruct recovering; simpl; by simplify_map_eq|done]|].
  intros w' _ _ ->. unfold w3. clear -Hne Ho. destruct recovering; open_eq.
Qed.

Lemma lsim_install recovering w bs :
  log_ready w -> logged (w_log w) bs -> (recovering = false -> list_to_set bs ⊆ w_pins w) ->
  lsim w (install_trans recovering) (install_trans recovering) (fun w' _ _ => w' = drop_pins recovering bs w).
Proof.
  intros L Hlg Hp. unfold install_trans. eapply lsim_bind; [apply lsim_range|]. intros w' r1 r2 (-> & -> & ->).
  rewrite (lg_n _ _ Hlg), Nat2Z.id. set (v k := drop_pins recovering (take k bs) w).
  assert (Hv0 : v 0%nat = w).
  { unfold v, drop_pins. rewrite take_0. destruct recovering; [done|]. destruct w. simpl. f_equal. set_solver. }
  replace (lsim w) with (@lsim unit unit (v 0%nat)) by (by rewrite Hv0).
  eapply sim_conseq; [apply (lsim_for_each_at v)|].
  2:{ intros w' _ _ ->. unfold v. by rewrite take_ge by (rewrite length_seq; lia). }
  intros k x Hx. apply lookup_seq in Hx as [-> Hk]. simpl.
  destruct (lookup_lt_is_Some_2 bs k Hk) as [b Hb]. pose proof (lg_bs _ _ Hlg k b Hb) as Eb.
  assert (Hl : w_log (v k) = w_log w) by (unfold v, drop_pins; by destruct recovering).
  eapply sim_conseq; [apply (lsim_install_turn recovering (v k) k)|].
  - destruct L as [L1 L2 L3 L4 L5]. split; rewrite ?Hl; auto; unfold v, drop_pins; destruct recovering; auto.
    simpl. pose proof (subseteq_size (w_pins w ∖ list_to_set (take k bs)) (w_pins w)). set_solver by lia.
  - rewrite Hl, (lg_n _ _ Hlg). lia.
  - rewrite Hl, Eb. intros ->. unfold v, drop_pins. simpl. apply elem_of_difference. split.
    + apply (Hp eq_refl), elem_of_list_to_set. by eapply list_elem_of_lookup_2.
    + rewrite elem_of_list_to_set. intros Hin. apply list_elem_of_lookup in Hin as [j Hj].
      apply lookup_take_Some in Hj as [Hj Hlt]. pose proof (NoDup_lookup _ _ _ _ (lg_nodup _ _ Hlg) Hj Hb). lia.
  - intros w' [] [] ->. rewrite Hl, Eb. unfold v. rewrite (take_S_r bs k b Hb).
    destruct recovering; [done|]. apply drop_pins_snoc.
Qed.

Lemma lsim_for_each_inv {X} (I : world -> Prop) (l : list X) (b1 : X -> M astate unit) (b2 : X -> M (bst fsx) unit) :
  (forall x w, I w -> lsim w (b1 x) (b2 x) (fun w' _ _ => I w')) ->
  forall w, I w -> lsim w (for_each l b1) (for_each l b2) (fun w' _ _ => I w').
Proof.
  intros H. induction l as [|x l IH]; intros w Hw; simpl; [by apply sim_ret|].
  eapply lsim_bind; [by apply H|]. intros w' a b Hw'. by apply IH.
Qed.

(** [log.lh] is read anew, the rest of the log stays. *)
Definition reread (w w' : world) : Prop :=
  exists n blk, length blk = length (lh_block (w_log w)) /\ w' = w <| w_log ::= (fun l => l <| lh_n := n |> <| lh_block := blk |>) |>.

Lemma lsim_read_head w :
  w_open w = ∅ -> 0 <= log_start (w_log w) -> log_dev (w_log w) = ROOTDEV -> (size (w_pins w) + 2 <= NBUF)%nat ->
  lsim w read_head read_head (fun w' _ _ => reread w w').
Proof.
  intros Ho Hst Hd Hr. unfold read_head. eapply lsim_bind; [apply lsim_hget|]. intros w' l1 l2 (-> & -> & ->).
  set (n := log_start (w_log w)) in *.
  eapply lsim_bind; [apply lsim_bread; [exact Hd|exact Hst|unfold w_size; rewrite Ho, map_size_empty; lia]|].
  intros w' b1 i (-> & -> & Hn). set (w1 := set_open n i BKept w).
  assert (Hw1 : w_open w1 !! n = Some (i, BKept)) by apply lookup_insert_eq.
  eapply lsim_bind; [by apply (lsim_data w1 n i BKept)|]. intros w' m m' [-> ->].
  eapply lsim_bind; [apply lsim_lmod|]. intros w' _ _ ->. eapply lsim_bind; [apply lsim_range|]. intros w' r1 r2 (-> & -> & ->).
  eapply lsim_bind; [apply (lsim_for_each_inv (reread w1))|].
  - intros k w' (x & blk & Hl & ->). destruct (k <? Z.to_nat LOGBLOCKS)%nat; [|apply sim_panic].
    eapply sim_conseq; [apply lsim_lmod|]. intros w' _ _ ->. exists x, (<[k := hd_block m' k]> blk).
    rewrite length_insert. by split.
  - exists (hd_n m'), (lh_block (w_log w1)). by split.
  - intros w' _ _ (x & blk & Hl & ->). eapply sim_conseq; [by apply (lsim_brelse _ n i BKept)|].
    intros w' _ _ ->. exists x, blk. split; [exact Hl|].
    by rewrite <- (del_set_open n i BKept w Hn).
Qed.

(** ** Transactions *)

Definition committed_world (bs : list Z) (w : world) : world :=
  (drop_pins false bs w) <| w_log ::= (fun l => l <| lh_n := 0 |>) |>.

Lemma lsim_commit w bs :
  log_ready w -> logged (w_log w) bs -> bs <> [] -> list_to_set bs ⊆ w_pins w ->
  lsim w commit commit (fun w' _ _ => w' = committed_world bs w).
Proof.
  intros L Hlg Hne Hp. unfold commit, lget_. destruct L as [L1 L2 L3 L4 L5] eqn:EL.
  eapply lsim_bind; [eapply lsim_bind; [apply lsim_hget|]|].
  { intros w' l1 l2 (-> & -> & ->). apply (sim_ret _ _ _ w (lh_n (w_log w)) (lh_n (w_log w)) (fun w' a b => w' = w /\ a = b /\ a = lh_n (w_log w))).
    by split_and!. }
  intros w' n _ (-> & <- & ->). rewrite (lg_n _ _ Hlg). destruct bs as [|b0 bs0]; [done|]. set (bs := b0 :: bs0) in *.
  destruct (0 <? Z.of_nat (length bs)) eqn:E0; [|unfold bs in E0; simpl in E0; lia]. cbn [when].
  eapply lsim_bind; [by apply lsim_write_log|]. intros w' _ _ ->.
  eapply lsim_bind; [by apply lsim_write_head|]. intros w' _ _ ->.
  eapply lsim_bind; [by apply (lsim_install false w bs)|]. intros w' _ _ ->.
  eapply lsim_bind; [apply lsim_lmod|]. intros w' _ _ ->.
  apply lsim_write_head; auto. simpl. pose proof (subseteq_size (w_pins w ∖ list_to_set bs) (w_pins w)). set_solver by lia.
Qed.

(** The cache when nobody holds a buffer and the log has pinned its blocks. *)
Record tx_world (w : world) (bs : list Z) : Prop := {
  tw_ready : log_ready w;
  tw_logged : logged (w_log w) bs;
  tw_pins : w_pins w = list_to_set bs;
}.

Lemma tx_at_rest w a s bs :
  cache_rel w a s -> tx_world w bs -> at_rest a (log_start (w_log w)) /\ forall b, b ∈ bs -> 0 < a_ref a b.
Proof.
  intros C [L G P]. assert (Ho : forall n, opened w n = false).
  { intros n. unfold opened. rewrite (lr_open _ L), lookup_empty. by apply bool_decide_eq_false_2; intros [? ?]. }
  split; [split|].
  - intros n. by rewrite (cr_locked _ _ _ C).
  - intros n Hn. rewrite (cr_ref _ _ _ C). unfold refs. rewrite Ho, P, bool_decide_eq_false_2; [done|].
    rewrite elem_of_list_to_set. intros Hin. by apply (lg_out _ _ G) in Hin as [_ Hin].
  - intros b Hb. rewrite (cr_ref _ _ _ C). unfold refs. rewrite Ho, P, bool_decide_eq_true_2; [done|].
    by rewrite elem_of_list_to_set.
Qed.

Lemma commit_cache w a s t bs a' :
  cache_rel w a s -> cache_free t -> tx_world w bs -> bs <> [] -> commit t a = ORet tt t a' ->
  exists s', commit t s = ORet tt t s' /\ cache_rel (committed_world bs w) a' s'.
Proof.
  intros C HT [L G P] Hne E.
  destruct (lsim_commit w bs L G Hne ltac:(by rewrite P) t a s tt t a' HT C E I) as (w' & [] & s' & E' & C' & -> & _). eauto.
Qed.

(** ** Recovery *)

(** A log after [initlog]: empty, at [start]. *)
Record log_idle (start : Z) (l : logst) : Prop := {
  li_start : log_start l = start;
  li_dev : log_dev l = ROOTDEV;
  li_n : lh_n l = 0;
  li_outstanding : log_outstanding l = 0;
  li_committing : log_committing l = 0;
  li_len : length (lh_block l) = Z.to_nat LOGBLOCKS;
}.

(** The world of a machine that just started. *)
Definition boot_world (f : fsst) (u : usr) : world := World ∅ ∅ zero_log f u.

Lemma initlog_cache d start bs f u t s a' :
  cache_rel (boot_world f u) (crash d) s -> cache_free t -> loggable start bs ->
  is_header (d start) (Z.of_nat (length bs)) (fun i => bs !!! i) -> initlog ROOTDEV start t (crash d) = ORet tt t a' ->
  exists l s', initlog ROOTDEV start t s = ORet tt t s' /\ cache_rel (World ∅ ∅ l f u) a' s' /\ log_idle start l.
Proof.
  intros C HT Hla Hh E. pose proof (la_start _ _ Hla) as Hs0. unfold initlog in E |- *. change (BSIZE <=? sizeof_logheader) with false in E |- *. cbn iota in E |- *.
  erewrite bind_ret in E by reflexivity. cbv beta in E. set (a0 := lput _ _ (crash d)) in E.
  erewrite bind_ret by reflexivity. cbv beta. set (s0 := lput _ _ s).
  pose proof (hmod_rel _ _ _ C (fun l => l <| log_start := start |> <| log_dev := ROOTDEV |>)) as C0.
  set (w0 := (boot_world f u) <| w_log ::= _ |>) in C0.
  change (cache_rel w0 a0 s0) in C0. unfold recover_from_log in *.
  assert (Hsz : (size (w_pins w0) + 2 <= NBUF)%nat) by (apply (bool_decide_unpack _); reflexivity).
  destruct (read_head_run t a0 bs) as (a1 & E1 & _ & _ & _ & _ & _ & L1); auto.
  rewrite (bind_ret _ _ _ _ _ _ _ E1) in E.
  destruct (lsim_read_head w0 eq_refl Hs0 eq_refl Hsz t a0 s0 tt t a1 HT C0 E1 I)
    as (w1 & [] & s1 & E1' & C1 & (n & blk & Hl & ->) & _). kstep E1'.
  set (w1 := w0 <| w_log ::= _ |>) in C1. rewrite (cr_log _ _ _ C1) in L1.
  assert (R1 : log_ready w1).
  { split; auto. intros k Hk. apply (logged_small _ _ L1). exact Hk. }
  apply bind_inv in E as ([] & t2 & a2 & E2 & E).
  destruct (lsim_install true w1 bs R1 L1 ltac:(done) t a1 s1 tt t2 a2 HT C1 E2 I) as (w2 & [] & s2 & E2' & C2 & -> & HT2).
  kstep E2'. apply bind_inv in E as ([] & t3 & a3 & E3 & E).
  destruct (lsim_lmod w1 (fun l => l <| lh_n := 0 |>) t2 a2 s2 tt t3 a3 HT2 C2 E3 I) as (w3 & [] & s3 & E3' & C3 & -> & HT3).
  kstep E3'. set (w3 := w1 <| w_log ::= _ |>) in C3.
  destruct (lsim_write_head w3 eq_refl Hs0 eq_refl Hsz t3 a3 s3 tt t a' HT3 C3 E I) as (w4 & [] & s4 & E4' & C4 & -> & _).
  exists (w_log w3), s4. split; [exact E4'|]. split; [exact C4|]. by split.
Qed.

(** ** [log_write] *)

(** The log with block [n] added, if it was not there. *)
Definition log_written (n : Z) (l : logst) : logst :=
  let l' := l <| lh_block ::= <[log_slot l n := n]> |> in
  if Z.of_nat (log_slot l n) =? lh_n l then l' <| lh_n ::= (fun x => x + 1) |> else l'.

Lemma log_written_same n l : log_start (log_written n l) = log_start l /\ log_dev (log_written n l) = log_dev l /\
  log_outstanding (log_written n l) = log_outstanding l /\ log_committing (log_written n l) = log_committing l /\
  length (lh_block (log_written n l)) = length (lh_block l).
Proof. unfold log_written. destruct (_ =? _); simpl; by rewrite length_insert. Qed.

Lemma cache_free_lock t lk : lk = LLog \/ (exists i, lk = LSleep (SLinode i)) \/ lk = LItable ->
  cache_free t -> cache_free (Tls (lk :: held t) (me t)).
Proof.
  intros Hl [H1 H2]. split; simpl; [|intros i]; rewrite elem_of_cons; intros [E|E];
    try (by apply H1 in E); try (by apply H2 in E); destruct Hl as [->|[[j ->]| ->]]; discriminate.
Qed.

Lemma remove_lock_sub lk l x : x ∈ remove_lock lk l -> x ∈ l.
Proof.
  induction l as [|y l IH]; simpl; [done|]. case_decide; [intros; by apply list_elem_of_further|].
  rewrite !elem_of_cons. tauto.
Qed.

Lemma cache_free_unlock t lk : cache_free t -> cache_free (Tls (remove_lock lk (held t)) (me t)).
Proof. intros [H1 H2]. split; simpl; [|intros i]; intros H; apply remove_lock_sub in H; eauto. by apply (H2 i). Qed.

Lemma lsim_blockno w n i st :
  w_open w !! n = Some (i, st) -> lsim w (gets (bd_blockno (Z.to_nat n))) (gets (bd_blockno i)) (fun w' a b => w' = w /\ a = n /\ b = n).
Proof.
  intros Ho t a s x t' a' HT C [= <- <- <-] _.
  destruct (open_facts w a s C n i st Ho) as (_ & _ & H0 & _ & _ & _ & _ & _ & _ & _ & _ & Hb).
  exists w, n, s. split; [unfold gets; cbn; by f_equal|]. cbn. by rewrite Z2Nat.id.
Qed.

Lemma lsim_bpin w n i st :
  w_open w !! n = Some (i, st) -> n ∉ w_pins w ->
  lsim w (bd_bpin (Z.to_nat n)) (bd_bpin i) (fun w' _ _ => w' = add_pin n (set_open n i BKept w)).
Proof.
  intros Ho Hp t a s b t' a' HT C E _. destruct (cr_open _ _ _ C n i _ Ho) as (_ & _ & H0 & _).
  cbn in E. unfold modify in E. rewrite Z2Nat.id in E by exact H0. injection E as <- <- <-.
  destruct (bpin_rel w a s t C HT n i st Ho Hp) as (s' & E & C'). exists (add_pin n (set_open n i BKept w)), tt, s'. by split_and!.
Qed.

Lemma lsim_kept w n i st :
  w_open w !! n = Some (i, st) -> n ∈ w_pins w ->
  lsim w (ret tt) (ret tt) (fun w' _ _ => w' = add_pin n (set_open n i BKept w)).
Proof.
  intros Ho Hp t a s b t' a' HT C [= <- <- <-] _. exists (add_pin n (set_open n i BKept w)), tt, s. split_and!; auto.
  replace (add_pin n (set_open n i BKept w)) with (set_open n i BKept w); [by eapply kept_rel|].
  destruct w. unfold add_pin, set_open. simpl in *. f_equal. set_solver.
Qed.

Lemma lsim_log_write w n i st (l := w_log w) :
  w_open w !! n = Some (i, st) -> (Z.of_nat (log_slot l n) = lh_n l <-> n ∉ w_pins w) ->
  lsim w (log_write (Z.to_nat n)) (log_write i)
    (fun w' _ _ => w' = (add_pin n (set_open n i BKept w)) <| w_log ::= log_written n |>).
Proof.
  intros Ho Hp. unfold log_write.
  eapply lsim_bind; [apply sim_acquire; intros; apply cache_free_lock; eauto|]. intros w' _ _ [-> _].
  eapply lsim_bind; [apply lsim_hget|]. intros w' l1 l2 (-> & -> & ->). fold l.
  destruct (LOGBLOCKS <=? lh_n l); [apply sim_panic|]. destruct (log_outstanding l <? 1); [apply sim_panic|].
  eapply lsim_bind; [by apply (lsim_blockno w n i st)|]. intros w' x y (-> & -> & ->). cbv zeta.
  eapply lsim_bind; [apply lsim_lmod|]. intros w' _ _ ->. set (w1 := w <| w_log ::= _ |>).
  eapply (lsim_bind _ _ _ _ _ (fun w' _ _ => w' = (add_pin n (set_open n i BKept w)) <| w_log ::= log_written n |>)).
  - unfold log_written. fold l. destruct (Z.of_nat (log_slot l n) =? lh_n l) eqn:E; cbn [when].
    + eapply lsim_bind; [apply (lsim_bpin w1 n i st Ho); apply Hp; lia|]. intros w' _ _ ->.
      eapply sim_conseq; [apply lsim_lmod|]. intros w' _ _ ->. unfold w1. destruct w. unfold add_pin, set_open, update. simpl. unfold l in *. simpl in E. by rewrite E.
    + eapply sim_conseq; [apply (lsim_kept w1 n i st Ho)|].
      * apply dec_stable. intros Hn. apply Hp in Hn. lia.
      * intros w' _ _ ->. unfold w1. destruct w. unfold add_pin, set_open, update. simpl. unfold l in *. simpl in E. by rewrite E.
  - intros w' _ _ ->. eapply sim_conseq; [apply sim_release; intros; by apply cache_free_unlock|]. by intros w' _ _ [-> _].
Qed.
