(* ===== verification/Exec.v ===== *)
(** * Trapframes, fork, exit and exec (kernel/proc.c, kernel/exec.c)

    The operations on processes that need the file system: [userinit],
    [kfork], [kexit] and [kexec].  The user registers of a process are saved
    in its trapframe page, at the offsets of [struct trapframe]. *)

From S2P Require Import Prelude Kmonad Mem Riscv Kalloc Cstring Vm Proc Iface Sleeplock Bio Log Fs Uart Printf Console Pipe File.

(** ** [struct trapframe] (kernel/proc.h) *)
Definition TF_kernel_satp : Z := 0.
Definition TF_kernel_sp : Z := 8.
Definition TF_kernel_trap : Z := 16.
Definition TF_epc : Z := 24.
Definition TF_kernel_hartid : Z := 32.
Definition TF_sp : Z := 48.
(** [a0] to [a7] *)
Definition TF_a (n : Z) : Z := 112 + 8 * n.
Definition sizeof_trapframe : Z := 288.

(** ** ELF files (kernel/elf.h) *)
Definition ELF_MAGIC : Z := 0x464C457F.
Definition ELF_PROG_LOAD : Z := 1.
Definition sizeof_elfhdr : Z := 64.
Definition sizeof_proghdr : Z := 56.

Record elfhdr := Elfhdr { e_magic : Z; e_entry : Z; e_phoff : Z; e_phnum : Z }.
Record proghdr := Proghdr { ph_type : Z; ph_flags : Z; ph_off : Z; ph_vaddr : Z; ph_filesz : Z; ph_memsz : Z }.

(** The fields that [kexec] uses, from the bytes of the header. *)
Definition elfhdr_of (l : list Z) : elfhdr :=
  let m := mwrite 0 l (fun _ => 0) in
  Elfhdr (load32 0 m) (load64 24 m) (load64 32 m) (mload 2 56 m).
Definition proghdr_of (l : list Z) : proghdr :=
  let m := mwrite 0 l (fun _ => 0) in
  Proghdr (load32 0 m) (load32 4 m) (load64 8 m) (load64 16 m) (load64 32 m) (load64 40 m).

Definition flags2perm (flags : Z) : Z :=
  let perm := if negb (Z.land flags 0x1 =? 0) then PTE_X else 0 in
  if negb (Z.land flags 0x2 =? 0) then Z.lor perm PTE_W else perm.

(** The last element of a path: [for(last=s=path; *s; s++) if( *s == '/')
    last = s+1;] *)
Fixpoint last_elem (last s : list Z) : list Z :=
  match s with
  | [] => last
  | c :: s' => last_elem (if c =? SLASH then s' else last) s'
  end.

(** [safestrcpy(name, src, 16)] on the array [p->name]. *)
Definition set_name (src name : list Z) : list Z :=
  let m := mwrite 0 name (mwrite 16 src (fun _ => 0)) in
  bytes_at (safestrcpy 0 16 16 m) 0 16.

(** [uint64]s as bytes. *)
Definition words (l : list Z) : list Z := concat ((fun w => bytes_at (store64 0 w (fun _ => 0)) 0 8) <$> l).

Section Exec.
Context {S : Type} `{Has S filest} `{Has S fsst} `{Has S pst} `{Has S consst} `{Has S uartst}
  `{BlockDev S} `{LogOps S} `{SleepOps S} `{KillOps S} `{UserOps S} `{UartDev} `{Fuel} {L : LinkMap}.

Definition vm {A} (m : M vmst A) : M S A := inpart (invm m).

(** The current process, and an assignment to its fields. *)
Definition thisproc : M S proc := inpart (let* i := myproc in getp i).
Definition modthis (f : proc -> proc) : M S unit := inpart (let* i := myproc in modp i f).

(** A field of the current process's trapframe. *)
Definition tf_get (off : Z) : M S Z :=
  let* p := thisproc in vm (gets (fun s => load64 (pr_trapframe p + off) (phys s))).
Definition tf_set (off v : Z) : M S unit :=
  let* p := thisproc in vm (modify (on_phys (store64 (pr_trapframe p + off) v))).

(** ** The first process *)

(** [p->cwd = namei("/")] runs outside a process: the path is absolute. *)
Definition userinit : M S unit :=
  let* p := inpart allocproc in
  hmod (fun s : pst => s <| initproc := p |>) ;;
  let* p := deref p in
  let* cwd := namei (chars "/") in
  inpart (modp p (fun q => q <| pr_cwd := cwd |> <| pr_state := RUNNABLE |>)) ;;
  release (LProc p).

(** ** Fork *)

Definition kfork : M S Z :=
  let* p := inpart myproc in
  let* np := inpart allocproc in
  match np with
  | None => ret (-1)
  | Some np =>
      let* pp := inpart (getp p) in
      let* c := inpart (getp np) in
      let* r := vm (uvmcopy (pr_pagetable pp) (pr_pagetable c) (pr_sz pp)) in
      if r <? 0 then inpart (freeproc np) ;; release (LProc np) ;; ret (-1)
      else
        inpart (modp np (fun c => c <| pr_sz := pr_sz pp |>)) ;;
        vm (modify (on_phys (mmove (pr_trapframe c) (pr_trapframe pp) sizeof_trapframe))) ;;
        vm (modify (on_phys (store64 (pr_trapframe c + TF_a 0) 0))) ;;
        for_each (seq 0 NOFILE)
          (fun i =>
             match pr_ofile pp !!! i with
             | Some f =>
                 let* f := filedup f in
                 inpart (modp np (fun c => c <| pr_ofile ::= <[i := Some f]> |>))
             | None => ret tt
             end) ;;
        let* cwd := deref (pr_cwd pp) in
        let* cwd := idup cwd in
        inpart (modp np (fun c => c <| pr_cwd := Some cwd |> <| pr_name ::= set_name (ctake (pr_name pp)) |>)) ;;
        let pid := pr_pid c in
        release (LProc np) ;;
        acquire LWait ;;
        inpart (modp np (fun c => c <| pr_parent := Some p |>)) ;;
        release LWait ;;
        acquire (LProc np) ;;
        inpart (modp np (fun c => c <| pr_state := RUNNABLE |>)) ;;
        release (LProc np) ;;
        ret pid
  end.

(** ** Exit *)

Definition kexit {A} (status : Z) : M S A :=
  let* p := inpart myproc in
  let* st := hget in
  if bool_decide (initproc st = Some p) then panic "init exiting"
  else
    for_each (seq 0 NOFILE)
      (fun fd =>
         let* pr := inpart (getp p) in
         match pr_ofile pr !!! fd with
         | Some f =>
             fileclose f ;;
             inpart (modp p (fun q => q <| pr_ofile ::= <[fd := None]> |>))
         | None => ret tt
         end) ;;
    op_begin ;;
    let* pr := inpart (getp p) in
    let* cwd := deref (pr_cwd pr) in
    iput cwd ;;
    op_end ;;
    inpart (modp p (fun q => q <| pr_cwd := None |>)) ;;
    acquire LWait ;;
    inpart (reparent p) ;;
    let* pr := inpart (getp p) in
    inpart (wakeup (match pr_parent pr with Some k => CProc k | None => CNull end)) ;;
    acquire (LProc p) ;;
    inpart (modp p (fun q => q <| pr_xstate := status |> <| pr_state := ZOMBIE |>)) ;;
    release LWait ;;
    inpart sched ;;
    panic "zombie exit".

(** ** Exec *)

(** [loadseg(pagetable, va, ip, offset, sz)] *)
Definition loadseg (pagetable va : Z) (ip : nat) (offset sz : Z) : M S Z :=
  loop (Z.to_nat (sz / PGSIZE + 2))
    (fun i =>
       if i <? sz then
         let* pa := vm (walkaddr pagetable (u64 (va + i))) in
         if pa =? 0 then panic "loadseg: address should exist"
         else
           let n := if u32 (sz - i) <? PGSIZE then u32 (sz - i) else PGSIZE in
           let* '(r, _) := readi ip (DKern pa) (u32 (offset + i)) n in
           if negb (r =? n) then ret (inr (-1)) else ret (inl (u32 (i + PGSIZE)))
       else ret (inr 0))
    0.

(** The loop of [kexec] over the program headers: the new size, or the size
    at the point of failure. *)
Definition load_segments (pagetable : Z) (ip : nat) (elf : elfhdr) : M S (Z + Z) :=
  loop (Datatypes.S (Z.to_nat (e_phnum elf)))
    (fun x => let '(i, off, sz) := x in
       if i <? e_phnum elf then
         let* '(r, l) := readi ip DVar (u32 off) sizeof_proghdr in
         let ph := proghdr_of l in
         let next := (i + 1, i32 (off + sizeof_proghdr)) in
         if negb (r =? sizeof_proghdr) then ret (inr (inr sz))
         else if negb (ph_type ph =? ELF_PROG_LOAD) then ret (inl (next, sz))
         else if ph_memsz ph <? ph_filesz ph then ret (inr (inr sz))
         else if u64 (ph_vaddr ph + ph_memsz ph) <? ph_vaddr ph then ret (inr (inr sz))
         else if negb (ph_vaddr ph mod PGSIZE =? 0) then ret (inr (inr sz))
         else
           let* sz1 := vm (uvmalloc pagetable sz (u64 (ph_vaddr ph + ph_memsz ph)) (flags2perm (ph_flags ph))) in
           if sz1 =? 0 then ret (inr (inr sz))
           else
             let* r := loadseg pagetable (ph_vaddr ph) ip (u32 (ph_off ph)) (u32 (ph_filesz ph)) in
             if r <? 0 then ret (inr (inr sz1)) else ret (inl (next, sz1))
       else ret (inr (inl sz)))
    (0, i32 (e_phoff elf), 0).

(** The loop of [kexec] that pushes the argument strings: the stack pointer
    and [ustack[0..argc)], or [None] for [goto bad]. *)
Fixpoint push_args (pagetable stackbase : Z) (argv : list (list Z)) (sp : Z) (ustack : list Z) :
    M S (option (Z * list Z)) :=
  match argv with
  | [] => ret (Some (sp, ustack))
  | arg :: argv' =>
      if (MAXARG <=? length ustack)%nat then ret None
      else
        let sp := u64 (sp - (Z.of_nat (length arg) + 1)) in
        let sp := sp - sp mod 16 in
        if sp <? stackbase then ret None
        else
          let* r := inpart (pcopyout pagetable sp (arg ++ [0])) in
          if r <? 0 then ret None
          else push_args pagetable stackbase argv' sp (ustack ++ [sp])
  end.

(** The second half of [kexec]: the stack and the commit, from the size the
    segments left.  [inr sz] is [goto bad]. *)
Definition exec_stack (path : list Z) (argv : list (list Z)) (pagetable sz : Z) (elf : elfhdr) : M S (Z + Z) :=
  let* p := thisproc in
  let oldsz := pr_sz p in
  let sz := PGROUNDUP sz in
  let* sz1 := vm (uvmalloc pagetable sz (u64 (sz + (USERSTACK + 1) * PGSIZE)) PTE_W) in
  if sz1 =? 0 then ret (inr sz)
  else
    let sz := sz1 in
    vm (uvmclear pagetable (u64 (sz - (USERSTACK + 1) * PGSIZE))) ;;
    let stackbase := u64 (sz - USERSTACK * PGSIZE) in
    let* r := push_args pagetable stackbase argv sz [] in
    match r with
    | None => ret (inr sz)
    | Some (sp, ustack) =>
        let argc := Z.of_nat (length ustack) in
        let sp := u64 (sp - (argc + 1) * 8) in
        let sp := sp - sp mod 16 in
        if sp <? stackbase then ret (inr sz)
        else
          let* r := inpart (pcopyout pagetable sp (words (ustack ++ [0]))) in
          if r <? 0 then ret (inr sz)
          else
            tf_set (TF_a 1) sp ;;
            let* p := thisproc in
            modthis (fun p => p <| pr_name ::= set_name (last_elem path path) |>) ;;
            modthis (fun p => p <| pr_pagetable := pagetable |> <| pr_sz := sz |>) ;;
            tf_set TF_epc (e_entry elf) ;;
            tf_set TF_sp sp ;;
            vm (proc_freepagetable (pr_pagetable p) oldsz) ;;
            ret (inl argc)
    end.

Definition kexec (path : list Z) (argv : list (list Z)) : M S Z :=
  (* bad: before the page table exists, after, and after the inode is gone *)
  let bad_ip ip := iunlockput ip ;; op_end ;; ret (-1) in
  op_begin ;;
  let* ip := namei path in
  match ip with
  | None => op_end ;; ret (-1)
  | Some ip =>
      ilock ip ;;
      let* '(r, l) := readi ip DVar 0 sizeof_elfhdr in
      let elf := elfhdr_of l in
      if negb (r =? sizeof_elfhdr) then bad_ip ip
      else if negb (e_magic elf =? ELF_MAGIC) then bad_ip ip
      else
        let* p := thisproc in
        let* pagetable := vm (proc_pagetable (pr_trapframe p)) in
        if pagetable =? 0 then bad_ip ip
        else
          let* r := load_segments pagetable ip elf in
          match r with
          | inr sz => vm (proc_freepagetable pagetable sz) ;; bad_ip ip
          | inl sz =>
              iunlockput ip ;;
              op_end ;;
              let* r := exec_stack path argv pagetable sz elf in
              match r with
              | inr sz => vm (proc_freepagetable pagetable sz) ;; ret (-1)
              | inl argc => ret argc
              end
          end
  end.

End Exec.
