(* ===== verification/Sysproc.v ===== *)
(** * System call arguments and the process system calls
      (kernel/syscall.c, kernel/sysproc.c)

    A handler returns the value that [syscall] stores in [a0]; an [int] or a
    [uint] result is converted to [uint64]. *)

From S2P Require Import Prelude Kmonad Mem Riscv Kalloc Cstring Vm Proc Iface Sleeplock Bio Log Fs Uart Printf Console Pipe File Exec.

Definition SBRK_EAGER : Z := 1.
Definition SBRK_LAZY : Z := 2.

(** The variable [ticks] of kernel/trap.c. *)
Record tickst := Tickst { ticks : Z }.

Section Sysproc.
Context {S : Type} `{Has S tickst} `{Has S filest} `{Has S fsst} `{Has S pst} `{Has S consst} `{Has S uartst}
  `{BlockDev S} `{LogOps S} `{SleepOps S} `{KillOps S} `{UserOps S} `{UartDev} `{Fuel} {L : LinkMap}.

(** ** Arguments *)

(** [fetchaddr(addr, ip)]: the return value and [*ip]. *)
Definition fetchaddr (addr : Z) : M S (Z * Z) :=
  let* p := thisproc in
  if (pr_sz p <=? addr) || (pr_sz p <? u64 (addr + 8)) then ret (-1, 0)
  else
    let* '(r, l) := inpart (pcopyin (pr_pagetable p) addr 8) in
    if negb (r =? 0) then ret (-1, 0)
    else ret (0, load64 0 (mwrite 0 l (fun _ => 0))).

(** [fetchstr(addr, buf, max)]: the return value and the string in [buf]. *)
Definition fetchstr (addr : Z) (max : nat) : M S (Z * list Z) :=
  let* p := thisproc in
  let* '(r, l) := vm (copyinstr (pr_pagetable p) addr max) in
  if r <? 0 then ret (-1, l)
  else ret (Z.of_nat (length (ctake l)), ctake l).

Definition argraw (n : Z) : M S Z :=
  if (0 <=? n) && (n <=? 5) then tf_get (TF_a n) else panic "argraw".
Definition argint (n : Z) : M S Z := let* v := argraw n in ret (i32 v).
Definition argaddr (n : Z) : M S Z := argraw n.
Definition argstr (n : Z) (max : nat) : M S (Z * list Z) :=
  let* addr := argaddr n in fetchstr addr max.

(** ** kernel/sysproc.c *)

Definition sys_exit : M S Z := let* n := argint 0 in kexit n.

Definition sys_getpid : M S Z := let* p := thisproc in ret (u64 (pr_pid p)).

Definition sys_fork : M S Z := let* r := kfork in ret (u64 r).

Definition sys_wait : M S Z :=
  let* p := argaddr 0 in
  let* r := inpart (kwait fuel p) in
  ret (u64 r).

Definition sys_sbrk : M S Z :=
  let* n := argint 0 in
  let* t := argint 1 in
  let* p := thisproc in
  let addr := pr_sz p in
  if (t =? SBRK_EAGER) || (n <? 0) then
    let* r := inpart (growproc n) in
    if r <? 0 then ret (u64 (-1)) else ret addr
  else if u64 (addr + n) <? addr then ret (u64 (-1))
  else
    modthis (fun p => p <| pr_sz ::= (fun sz => u64 (sz + n)) |>) ;;
    ret addr.

Definition sys_pause : M S Z :=
  let* n := argint 0 in
  let n := if n <? 0 then 0 else n in
  acquire LTicks ;;
  let* ticks0 := (let* t := hget in ret (ticks t)) in
  loop fuel
    (fun _ : unit =>
       let* t := hget in
       if u32 (ticks t - ticks0) <? n then
         let* k := op_killed in
         if negb (k =? 0) then release LTicks ;; ret (inr (u64 (-1)))
         else op_sleep CTicks LTicks ;; ret (inl tt)
       else release LTicks ;; ret (inr 0))
    tt.

Definition sys_kill : M S Z :=
  let* pid := argint 0 in
  let* r := inpart (kkill pid) in
  ret (u64 r).

Definition sys_uptime : M S Z :=
  acquire LTicks ;;
  let* t := hget in
  release LTicks ;;
  ret (u64 (ticks t)).

End Sysproc.
