(* ===== verification/SbrkSpec.v ===== *)
(** * Lazy [sbrk] past the end of user memory (kernel/sysproc.c: [sys_sbrk])

    [sys_sbrk] with [SBRK_LAZY] checks only that the new size does not wrap
    around.  A process can so get a size above [MAXVA], and the first access
    to an address from [MAXVA] on makes [vmfault] panic in [walk]. *)

From S2P Require Import Prelude Kmonad Mem Riscv Kalloc Vm PageTable Proc Iface Exec Sysproc.

Section SbrkSpec.
Context {L : LinkMap} (i : nat).

Lemma thisproc_ok t (s : pst) : me t = Some i -> thisproc t s = ORet (procs s !!! i) t s.
Proof. intros Hme. unfold thisproc, inpart, zoom. unfold bind, myproc. rewrite Hme. by destruct s. Qed.

Lemma modthis_ok f t (s : pst) :
  me t = Some i -> modthis f t s = ORet tt t (s <| procs ::= (fun l => <[i := f (l !!! i)]> l) |>).
Proof. intros Hme. unfold modthis, inpart, zoom. unfold bind, myproc. rewrite Hme. reflexivity. Qed.

(** Argument [k] of the system call. *)
Definition arg (s : pst) (k : Z) : Z := load64 (pr_trapframe (procs s !!! i) + TF_a k) (phys (p_vm s)).

Lemma argint_ok k t (s : pst) : me t = Some i -> 0 <= k <= 5 -> argint k t s = ORet (i32 (arg s k)) t s.
Proof.
  intros Hme Hk. unfold argint, argraw. rewrite (proj2 (andb_true_iff _ _)) by lia. unfold tf_get.
  unfold bind at 1. kstep (thisproc_ok t s Hme). by destruct s.
Qed.

(** From [MAXVA] on every fault is a panic. *)
Lemma vmfault_panics psz root va t s : MAXVA <= va < psz -> vmfault psz root root va t s = OPanic "walk".
Proof.
  intros Hva. unfold vmfault. rewrite (proj2 (Z.leb_gt _ _)) by lia. apply bind_panic. unfold ismapped. apply bind_panic.
  unfold walk. rewrite (proj2 (Z.leb_le _ _)); [reflexivity|].
  rewrite PGROUNDDOWN_eq by lia. change MAXVA with (67108864 * 4096) in *. dlia.
Qed.

(** C39: [sys_sbrk] lets a process grow past the end of the address space.
    Called with [SBRK_LAZY] and a non-negative increment, it returns the old
    size and only adds the increment to [p->sz], also when the result is above
    [MAXVA]; after that, a page fault at any address between [MAXVA] and the
    new size makes [vmfault] panic, so a user program can stop the kernel. *)
Theorem sbrk_lazy_overrun (n : Z) (t : tls) (s : pst)
    (Hme : me t = Some i) (Hlen : (i < length (procs s))%nat)
    (Harg0 : arg s 0 = n) (Harg1 : arg s 1 = SBRK_LAZY) (Hn : 0 <= n < 2147483648)
    (Hsz : 0 <= pr_sz (procs s !!! i)) (Hmax : MAXVA < pr_sz (procs s !!! i) + n < 18446744073709551616) :
  exists s', sys_sbrk t s = ORet (pr_sz (procs s !!! i)) t s' /\ p_vm s' = p_vm s /\
    pr_sz (procs s' !!! i) = pr_sz (procs s !!! i) + n /\
    forall va root, MAXVA <= va < pr_sz (procs s !!! i) + n ->
      vmfault (pr_sz (procs s' !!! i)) root root va t (p_vm s') = OPanic "walk".
Proof.
  unfold sys_sbrk. kstep (argint_ok 0 t s Hme ltac:(lia)). kstep (argint_ok 1 t s Hme ltac:(lia)).
  kstep (thisproc_ok t s Hme). rewrite Harg0, Harg1, (i32_small n) by lia. change (i32 SBRK_LAZY =? SBRK_EAGER) with false.
  rewrite (proj2 (Z.ltb_ge n 0)) by lia. cbn [orb]. rewrite u64_small by lia. rewrite (proj2 (Z.ltb_ge _ _)) by lia.
  eexists. kstep (modthis_ok (fun p => p <| pr_sz ::= (fun sz => u64 (sz + n)) |>) t s Hme).
  split; [reflexivity|]. split; [reflexivity|]. simpl. rewrite list_lookup_total_insert_eq by exact Hlen. simpl.
  rewrite u64_small by lia. split; [reflexivity|]. intros va root Hva. by apply vmfault_panics.
Qed.
End SbrkSpec.

(** A process of [MAXVA - 4096] bytes that asks for two pages more. *)
Definition demo_grown : pst :=
  Pst (Vmst (store64 112 8192 (store64 120 SBRK_LAZY (fun _ => 0))) 0)
      [zero_proc <| pr_sz := MAXVA - 4096 |>] 1 None.

#[local] Existing Instance demo_link.

Lemma sbrk_lazy_overrun_witness : exists s',
  @sys_sbrk pst _ _ (Tls [] (Some 0%nat)) demo_grown = ORet (MAXVA - 4096) (Tls [] (Some 0%nat)) s' /\
  vmfault (MAXVA + 4096) 0 0 MAXVA (Tls [] (Some 0%nat)) (p_vm s') = OPanic "walk".
Proof.
  destruct (sbrk_lazy_overrun 0 8192 (Tls [] (Some 0%nat)) demo_grown) as (s' & E & _ & Hsz & Hf);
    [reflexivity|simpl; lia|vm_compute; reflexivity|vm_compute; reflexivity|lia|simpl; klia|simpl; klia|].
  exists s'. split; [exact E|]. rewrite Hsz in Hf. apply (Hf MAXVA 0). simpl. klia.
Defined.
