(* ===== verification/Sysfile.v ===== *)
(** * The file system calls (kernel/sysfile.c) and the system call table
      (kernel/syscall.c) *)

From S2P Require Import Prelude Kmonad Mem Riscv Kalloc Cstring Vm Proc Iface Sleeplock Bio Log Fs Uart Printf Console Pipe File Exec Sysproc.

(** kernel/fcntl.h *)
Definition O_RDONLY : Z := 0x000.
Definition O_WRONLY : Z := 0x001.
Definition O_RDWR : Z := 0x002.
Definition O_CREATE : Z := 0x200.
Definition O_TRUNC : Z := 0x400.

Definition has_flag (omode flag : Z) : bool := negb (Z.land omode flag =? 0).

Section Sysfile.
Context {S : Type} `{Has S tickst} `{Has S filest} `{Has S fsst} `{Has S pst} `{Has S consst} `{Has S uartst}
  `{BlockDev S} `{LogOps S} `{SleepOps S} `{KillOps S} `{UserOps S} `{UartDev} `{Fuel} {L : LinkMap}.

(** The value -1 as [uint64]. *)
Definition err : Z := u64 (-1).
Definition path_max : nat := Z.to_nat MAXPATH.
Definition no_name : list Z := replicate (Z.to_nat DIRSIZ) 0.

(** [argfd(n, pfd, pf)]: the descriptor and the file. *)
Definition argfd (n : Z) : M S (option (nat * nat)) :=
  let* fd := argint n in
  if (fd <? 0) || (Z.of_nat NOFILE <=? fd) then ret None
  else
    let* p := thisproc in
    ret (f ← pr_ofile p !!! Z.to_nat fd; Some (Z.to_nat fd, f)).

Definition set_fd (fd : nat) (f : option nat) : M S unit :=
  modthis (fun p => p <| pr_ofile ::= <[fd := f]> |>).

Definition fdalloc (f : nat) : M S (option nat) :=
  let* p := thisproc in
  match list_find (fun x => x = None) (pr_ofile p) with
  | Some (fd, _) => set_fd fd (Some f) ;; ret (Some fd)
  | None => ret None
  end.

Definition sys_dup : M S Z :=
  let* a := argfd 0 in
  match a with
  | None => ret err
  | Some (_, f) =>
      let* fd := fdalloc f in
      match fd with
      | None => ret err
      | Some fd => let* _ := filedup f in ret (Z.of_nat fd)
      end
  end.

Definition sys_read : M S Z :=
  let* p := argaddr 1 in
  let* n := argint 2 in
  let* a := argfd 0 in
  match a with None => ret err | Some (_, f) => let* r := fileread f p n in ret (u64 r) end.

Definition sys_write : M S Z :=
  let* p := argaddr 1 in
  let* n := argint 2 in
  let* a := argfd 0 in
  match a with None => ret err | Some (_, f) => let* r := filewrite f p n in ret (u64 r) end.

Definition sys_close : M S Z :=
  let* a := argfd 0 in
  match a with
  | None => ret err
  | Some (fd, f) => set_fd fd None ;; fileclose f ;; ret 0
  end.

Definition sys_fstat (pad : list Z) : M S Z :=
  let* st := argaddr 1 in
  let* a := argfd 0 in
  match a with None => ret err | Some (_, f) => let* r := filestat pad f st in ret (u64 r) end.

(** A change to [ip->nlink], a [short], and its write to disk. *)
Definition add_nlink (ip : nat) (d : Z) : M S unit :=
  modi ip (fun x => x <| i_nlink ::= (fun n => i16 (n + d)) |>) ;;
  iupdate ip.

Definition sys_link : M S Z :=
  let* '(r, old) := argstr 0 path_max in
  if r <? 0 then ret err
  else
    let* '(r, new) := argstr 1 path_max in
    if r <? 0 then ret err
    else
      op_begin ;;
      let* ip := namei old in
      match ip with
      | None => op_end ;; ret err
      | Some ip =>
          ilock ip ;;
          let* x := geti ip in
          if i_type x =? T_DIR then iunlockput ip ;; op_end ;; ret err
          else
            add_nlink ip 1 ;;
            iunlock ip ;;
            let bad := ilock ip ;; add_nlink ip (-1) ;; iunlockput ip ;; op_end ;; ret err in
            let* '(dp, name) := nameiparent new no_name in
            match dp with
            | None => bad
            | Some dp =>
                ilock dp ;;
                let* d := geti dp in
                let* x := geti ip in
                let* r := (if negb (i_dev d =? i_dev x) then ret (-1) else dirlink dp name (i_inum x)) in
                if r <? 0 then iunlockput dp ;; bad
                else iunlockput dp ;; iput ip ;; op_end ;; ret 0
            end
      end.

Definition isdirempty (dp : nat) : M S bool :=
  let* ip := geti dp in
  loop (Z.to_nat (i_size ip / sizeof_dirent + 2))
    (fun off =>
       let* ip := geti dp in
       if off <? i_size ip then
         let* '(r, de) := readi dp DVar off sizeof_dirent in
         if negb (r =? sizeof_dirent) then panic "isdirempty: readi"
         else if negb (de_inum de =? 0) then ret (inr false) else ret (inl (off + sizeof_dirent))
       else ret (inr true))
    (2 * sizeof_dirent).

Definition sys_unlink : M S Z :=
  let* '(r, path) := argstr 0 path_max in
  if r <? 0 then ret err
  else
    op_begin ;;
    let* '(dp, name) := nameiparent path no_name in
    match dp with
    | None => op_end ;; ret err
    | Some dp =>
        let bad := iunlockput dp ;; op_end ;; ret err in
        ilock dp ;;
        if (namecmp name (chars ".") =? 0) || (namecmp name (chars "..") =? 0) then bad
        else
          let* r := dirlookup dp name in
          match r with
          | None => bad
          | Some (ip, off) =>
              ilock ip ;;
              let* x := geti ip in
              if i_nlink x <? 1 then panic "unlink: nlink < 1"
              else
                let* nonempty := (if i_type x =? T_DIR then let* e := isdirempty ip in ret (negb e) else ret false) in
                if nonempty : bool then iunlockput ip ;; bad
                else
                  let* w := writei dp (SVar (replicate (Z.to_nat sizeof_dirent) 0)) off sizeof_dirent in
                  if negb (w =? sizeof_dirent) then panic "unlink: writei"
                  else
                    let* x := geti ip in
                    when (i_type x =? T_DIR) (add_nlink dp (-1)) ;;
                    iunlockput dp ;;
                    add_nlink ip (-1) ;;
                    iunlockput ip ;;
                    op_end ;;
                    ret 0
          end
    end.

(** [create(path, type, major, minor)]: a locked inode, or 0. *)
Definition create (path : list Z) (type major minor : Z) : M S (option nat) :=
  let* '(dp, name) := nameiparent path no_name in
  match dp with
  | None => ret None
  | Some dp =>
      ilock dp ;;
      let* r := dirlookup dp name in
      match r with
      | Some (ip, _) =>
          iunlockput dp ;;
          ilock ip ;;
          let* x := geti ip in
          if (type =? T_FILE) && ((i_type x =? T_FILE) || (i_type x =? T_DEVICE)) then ret (Some ip)
          else iunlockput ip ;; ret None
      | None =>
          let* d := geti dp in
          let* ip := ialloc (i_dev d) type in
          match ip with
          | None => iunlockput dp ;; ret None
          | Some ip =>
              let fail :=
                modi ip (fun x => x <| i_nlink := 0 |>) ;;
                iupdate ip ;;
                iunlockput ip ;;
                iunlockput dp ;;
                ret None in
              ilock ip ;;
              modi ip (fun x => x <| i_major := major |> <| i_minor := minor |> <| i_nlink := 1 |>) ;;
              iupdate ip ;;
              let* x := geti ip in
              let* r := (if type =? T_DIR then
                           let* r := dirlink ip (chars ".") (i_inum x) in
                           if r <? 0 then ret r
                           else let* d := geti dp in dirlink ip (chars "..") (i_inum d)
                         else ret 0) in
              if r <? 0 then fail
              else
                let* r := dirlink dp name (i_inum x) in
                if r <? 0 then fail
                else
                  when (type =? T_DIR) (add_nlink dp 1) ;;
                  iunlockput dp ;;
                  ret (Some ip)
          end
      end
  end.

(** The part of [sys_open] up to the locked inode: [None] after [end_op]. *)
Definition open_inode (path : list Z) (omode : Z) : M S (option nat) :=
  if has_flag omode O_CREATE then
    let* ip := create path T_FILE 0 0 in
    match ip with None => op_end ;; ret None | Some ip => ret (Some ip) end
  else
    let* ip := namei path in
    match ip with
    | None => op_end ;; ret None
    | Some ip =>
        ilock ip ;;
        let* x := geti ip in
        if (i_type x =? T_DIR) && negb (omode =? O_RDONLY) then iunlockput ip ;; op_end ;; ret None
        else ret (Some ip)
    end.

Definition sys_open : M S Z :=
  let* omode := argint 1 in
  let* '(r, path) := argstr 0 path_max in
  if r <? 0 then ret err
  else
    op_begin ;;
    let* ip := open_inode path omode in
    match ip with
    | None => ret err
    | Some ip =>
        let fail := iunlockput ip ;; op_end ;; ret err in
        let* x := geti ip in
        if (i_type x =? T_DEVICE) && ((i_major x <? 0) || (NDEV <=? i_major x)) then fail
        else
          let* f := filealloc in
          match f with
          | None => fail
          | Some f =>
              let* fd := fdalloc f in
              match fd with
              | None => fileclose f ;; fail
              | Some fd =>
                  (if i_type x =? T_DEVICE
                   then modf f (fun y => y <| f_type := FD_DEVICE |> <| f_major := i_major x |>)
                   else modf f (fun y => y <| f_type := FD_INODE |> <| f_off := 0 |>)) ;;
                  modf f (fun y => y <| f_ip := Some ip |> <| f_readable := negb (has_flag omode O_WRONLY) |>
                                     <| f_writable := has_flag omode O_WRONLY || has_flag omode O_RDWR |>) ;;
                  when (has_flag omode O_TRUNC && (i_type x =? T_FILE)) (itrunc ip) ;;
                  iunlock ip ;;
                  op_end ;;
                  ret (Z.of_nat fd)
              end
          end
    end.

Definition sys_mkdir : M S Z :=
  op_begin ;;
  let* '(r, path) := argstr 0 path_max in
  let* ip := (if r <? 0 then ret None else create path T_DIR 0 0) in
  match ip with
  | None => op_end ;; ret err
  | Some ip => iunlockput ip ;; op_end ;; ret 0
  end.

Definition sys_mknod : M S Z :=
  op_begin ;;
  let* major := argint 1 in
  let* minor := argint 2 in
  let* '(r, path) := argstr 0 path_max in
  let* ip := (if r <? 0 then ret None else create path T_DEVICE (i16 major) (i16 minor)) in
  match ip with
  | None => op_end ;; ret err
  | Some ip => iunlockput ip ;; op_end ;; ret 0
  end.

Definition sys_chdir : M S Z :=
  op_begin ;;
  let* '(r, path) := argstr 0 path_max in
  let* ip := (if r <? 0 then ret None else namei path) in
  match ip with
  | None => op_end ;; ret err
  | Some ip =>
      ilock ip ;;
      let* x := geti ip in
      if negb (i_type x =? T_DIR) then iunlockput ip ;; op_end ;; ret err
      else
        iunlock ip ;;
        let* p := thisproc in
        let* cwd := deref (pr_cwd p) in
        iput cwd ;;
        op_end ;;
        modthis (fun p => p <| pr_cwd := Some ip |>) ;;
        ret 0
  end.

(** The loop of [sys_exec] that fetches the arguments: the pages allocated,
    with the strings in them, and whether it reached the end of [argv]. *)
Definition fetch_args (uargv : Z) : M S (bool * list (Z * list Z)) :=
  loop (Datatypes.S MAXARG)
    (fun argv =>
       let i := length argv in
       if (MAXARG <=? i)%nat then ret (inr (false, argv))
       else
         let* '(r, uarg) := fetchaddr (u64 (uargv + 8 * Z.of_nat i)) in
         if r <? 0 then ret (inr (false, argv))
         else if uarg =? 0 then ret (inr (true, argv))
         else
           let* page := vm kalloc in
           if page =? 0 then ret (inr (false, argv))
           else
             let* '(r, s) := fetchstr uarg (Z.to_nat PGSIZE) in
             vm (modify (on_phys (mwrite page (if r <? 0 then s else s ++ [0])))) ;;
             if r <? 0 then ret (inr (false, argv ++ [(page, s)]))
             else ret (inl (argv ++ [(page, s)])))
    [].

Definition sys_exec : M S Z :=
  let* uargv := argaddr 1 in
  let* '(r, path) := argstr 0 path_max in
  if r <? 0 then ret err
  else
    let* '(ok, argv) := fetch_args uargv in
    let* r := (if ok : bool then kexec path (snd <$> argv) else ret (-1)) in
    for_each argv (fun a => vm (kfree (fst a))) ;;
    ret (u64 r).

(** An [int] as bytes. *)
Definition int_bytes (z : Z) : list Z := bytes_at (store32 0 z (fun _ => 0)) 0 4.

Definition sys_pipe : M S Z :=
  let* fdarray := argaddr 0 in
  let* r := pipealloc in
  match r with
  | None => ret err
  | Some (rf, wf) =>
      let* fd0 := fdalloc rf in
      let* fd1 := (match fd0 with Some _ => fdalloc wf | None => ret None end) in
      match fd0, fd1 with
      | Some fd0, Some fd1 =>
          let* p := thisproc in
          let* r := inpart (pcopyout (pr_pagetable p) fdarray (int_bytes (Z.of_nat fd0))) in
          let* r := (if r <? 0 then ret r
                     else inpart (pcopyout (pr_pagetable p) (u64 (fdarray + 4)) (int_bytes (Z.of_nat fd1)))) in
          if r <? 0 then
            set_fd fd0 None ;; set_fd fd1 None ;; fileclose rf ;; fileclose wf ;; ret err
          else ret 0
      | _, _ =>
          match fd0 with Some fd0 => set_fd fd0 None | None => ret tt end ;;
          fileclose rf ;; fileclose wf ;; ret err
      end
  end.

(** ** [syscall()] *)

Inductive sysno :=
| SYS_fork | SYS_exit | SYS_wait | SYS_pipe | SYS_read | SYS_kill | SYS_exec | SYS_fstat | SYS_chdir
| SYS_dup | SYS_getpid | SYS_sbrk | SYS_pause | SYS_uptime | SYS_open | SYS_write | SYS_mknod
| SYS_unlink | SYS_link | SYS_mkdir | SYS_close.

(** The numbers of kernel/syscall.h: 1 to 21 in this order. *)
Definition sysnos : list sysno :=
  [SYS_fork; SYS_exit; SYS_wait; SYS_pipe; SYS_read; SYS_kill; SYS_exec; SYS_fstat; SYS_chdir;
   SYS_dup; SYS_getpid; SYS_sbrk; SYS_pause; SYS_uptime; SYS_open; SYS_write; SYS_mknod;
   SYS_unlink; SYS_link; SYS_mkdir; SYS_close].

(** The table [syscalls[]]; [pad] is for [sys_fstat]. *)
Definition syscalls (pad : list Z) (n : sysno) : M S Z :=
  match n with
  | SYS_fork => sys_fork | SYS_exit => sys_exit | SYS_wait => sys_wait | SYS_pipe => sys_pipe
  | SYS_read => sys_read | SYS_kill => sys_kill | SYS_exec => sys_exec | SYS_fstat => sys_fstat pad
  | SYS_chdir => sys_chdir | SYS_dup => sys_dup | SYS_getpid => sys_getpid | SYS_sbrk => sys_sbrk
  | SYS_pause => sys_pause | SYS_uptime => sys_uptime | SYS_open => sys_open | SYS_write => sys_write
  | SYS_mknod => sys_mknod | SYS_unlink => sys_unlink | SYS_link => sys_link | SYS_mkdir => sys_mkdir
  | SYS_close => sys_close
  end.

Definition syscall (pad : list Z) : M S unit :=
  let* a7 := tf_get (TF_a 7) in
  let num := i32 a7 in
  match (if 0 <? num then sysnos !! Z.to_nat (num - 1) else None) with
  | Some n => let* r := syscalls pad n in tf_set (TF_a 0) r
  | None =>
      let* p := thisproc in
      printf "%d %s: unknown sys call %d
" [PInt (pr_pid p); PStr (Some (ctake (pr_name p))); PInt num] ;;
      tf_set (TF_a 0) err
  end.

End Sysfile.
