(* ===== verification/Trap.v ===== *)
(** * Traps, interrupts and startup (kernel/trap.c, kernel/plic.c,
      kernel/start.c, [forkret] of kernel/proc.c)

    The control and status registers of one hart are state; what the hardware
    writes to them on a trap ([scause], [sepc], [stval], [SSTATUS_SPP]) is
    there when a handler starts.  The clock, and what the PLIC returns for a
    claim, are functions of what was written to the devices before. *)

From S2P Require Import Prelude Kmonad Mem Riscv Kalloc Cstring Vm Proc Iface Sleeplock Bio Virtio Log Fs Uart Printf Console Pipe File Exec Sysproc Sysfile.

(** ** Registers (kernel/riscv.h) *)

Definition MSTATUS_MPP_MASK : Z := Z.shiftl 3 11.
Definition MSTATUS_MPP_S : Z := Z.shiftl 1 11.
Definition SSTATUS_SPP : Z := Z.shiftl 1 8.
Definition SSTATUS_SPIE : Z := Z.shiftl 1 5.
Definition SSTATUS_SIE : Z := Z.shiftl 1 1.
Definition SIE_SEIE : Z := Z.shiftl 1 9.
Definition SIE_STIE : Z := Z.shiftl 1 5.
Definition MIE_STIE : Z := Z.shiftl 1 5.

Record csrs := Csrs {
  mstatus : Z;
  mepc : Z;
  medeleg : Z;
  mideleg : Z;
  mie : Z;
  menvcfg : Z;
  mcounteren : Z;
  pmpaddr0 : Z;
  pmpcfg0 : Z;
  sstatus : Z;
  sie : Z;
  stvec : Z;
  sepc : Z;
  scause : Z;
  stval : Z;
  satp : Z;
  stimecmp : Z;
  time : Z;
  mhartid : Z;
  tp : Z;
}.
#[global] Instance eta_csrs : Eta csrs := fun r =>
  Csrs (mstatus r) (mepc r) (medeleg r) (mideleg r) (mie r) (menvcfg r) (mcounteren r) (pmpaddr0 r) (pmpcfg0 r)
    (sstatus r) (sie r) (stvec r) (sepc r) (scause r) (stval r) (satp r) (stimecmp r) (time r) (mhartid r) (tp r).

(** The writes to the PLIC, the variable [first] of [forkret], and
    [kernel_pagetable] of kernel/vm.c. *)
Record trapst := Trapst { plic_out : list (Z * Z); first : bool; kernel_pagetable : Z }.
#[global] Instance eta_trapst : Eta trapst := fun r => Trapst (plic_out r) (first r) (kernel_pagetable r).

(** The PLIC: the value of a register after the writes so far. *)
Class PlicDev := plic_read : Z -> list (Z * Z) -> Z.

(** ** kernel/start.c

    [start] runs in machine mode, before there is any other state; [main_addr]
    is the address of [main]. *)

Definition timerinit (c : csrs) : csrs :=
  c <| mie := Z.lor (mie c) MIE_STIE |>
    <| menvcfg := Z.lor (menvcfg c) (Z.shiftl 1 63) |>
    <| mcounteren := Z.lor (mcounteren c) 2 |>
    <| stimecmp := u64 (time c + 1000000) |>.

Definition start (main_addr : Z) (c : csrs) : csrs :=
  let x := Z.lor (Z.land (mstatus c) (Z.lnot MSTATUS_MPP_MASK)) MSTATUS_MPP_S in
  let c := c <| mstatus := x |> <| mepc := main_addr |> <| satp := 0 |> <| medeleg := 0xffff |>
             <| mideleg := 0xffff |> <| sie := Z.lor (Z.lor (sie c) SIE_SEIE) SIE_STIE |>
             <| pmpaddr0 := 0x3fffffffffffff |> <| pmpcfg0 := 0xf |> in
  let c := timerinit c in
  c <| tp := mhartid c |>.

Section Trap.
Context {S : Type} `{Has S csrs} `{Has S trapst} `{Has S tickst} `{Has S filest} `{Has S fsst} `{Has S pst}
  `{Has S consst} `{Has S uartst} `{Has S vdisk} `{Has S bufs} `{BlockDev S} `{LogOps S} `{SleepOps S}
  `{KillOps S} `{UserOps S} `{UartDev} `{PlicDev} `{Fuel} {L : LinkMap}.
Context (virtio_read : Z -> list (Z * Z) -> Z).

Definition csr {A} (f : csrs -> A) : M S A := let* c := hget in ret (f c).
Definition csrw (f : csrs -> csrs) : M S unit := hmod f.
Definition intr_on : M S unit := csrw (fun c => c <| sstatus ::= (fun x => Z.lor x SSTATUS_SIE) |>).
Definition intr_off : M S unit := csrw (fun c => c <| sstatus ::= (fun x => Z.land x (Z.lnot SSTATUS_SIE)) |>).
Definition intr_get : M S bool := csr (fun c => negb (Z.land (sstatus c) SSTATUS_SIE =? 0)).
(** [cpuid()] of kernel/proc.c *)
Definition cpuid : M S Z := csr (fun c => i32 (tp c)).

(** ** kernel/plic.c *)

Definition plic_write (a v : Z) : M S unit := hmod (fun t : trapst => t <| plic_out ::= cons (a, u32 v) |>).

Definition plicinit : M S unit :=
  plic_write (PLIC + UART0_IRQ * 4) 1 ;;
  plic_write (PLIC + VIRTIO0_IRQ * 4) 1.

Definition plicinithart : M S unit :=
  let* hart := cpuid in
  plic_write (PLIC_SENABLE hart) (Z.lor (Z.shiftl 1 UART0_IRQ) (Z.shiftl 1 VIRTIO0_IRQ)) ;;
  plic_write (PLIC_SPRIORITY hart) 0.

Definition plic_claim : M S Z :=
  let* hart := cpuid in
  let* t := hget in
  ret (i32 (plic_read (PLIC_SCLAIM hart) (plic_out t))).

Definition plic_complete (irq : Z) : M S unit :=
  let* hart := cpuid in
  plic_write (PLIC_SCLAIM hart) irq.

(** ** kernel/vm.c: [kvminit] and [kvminithart] *)

Definition kvminit : M S unit :=
  let* pt := vm kvmmake in
  hmod (fun t : trapst => t <| kernel_pagetable := pt |>).

Definition kvminithart : M S unit :=
  let* t := hget in
  csrw (fun c => c <| satp := MAKE_SATP (kernel_pagetable t) |>).

(** ** Interrupts *)

Definition trapinithart : M S unit := csrw (fun c => c <| stvec := sym_kernelvec |>).

Definition clockintr : M S unit :=
  let* id := cpuid in
  when (id =? 0)
    (acquire LTicks ;;
     hmod (fun t : tickst => Tickst (u32 (ticks t + 1))) ;;
     op_wakeup CTicks ;;
     release LTicks) ;;
  csrw (fun c => c <| stimecmp := u64 (time c + 1000000) |>).

(** The values of [scause] for an external and for a timer interrupt. *)
Definition SCAUSE_EXT : Z := 0x8000000000000009.
Definition SCAUSE_TIMER : Z := 0x8000000000000005.

Definition devintr : M S Z :=
  let* sc := csr scause in
  if sc =? SCAUSE_EXT then
    let* irq := plic_claim in
    (if irq =? UART0_IRQ then uartintr
     else if irq =? VIRTIO0_IRQ then virtio_disk_intr virtio_read
     else when (negb (irq =? 0)) (printf "unexpected interrupt irq=%d
" [PInt irq])) ;;
    when (negb (irq =? 0)) (plic_complete irq) ;;
    ret 1
  else if sc =? SCAUSE_TIMER then clockintr ;; ret 2
  else ret 0.

(** ** Traps from user space *)

Definition prepare_return : M S unit :=
  let* p := thisproc in
  intr_off ;;
  csrw (fun c => c <| stvec := TRAMPOLINE + (sym_uservec - sym_trampoline) |>) ;;
  let* c := hget in
  tf_set TF_kernel_satp (satp c) ;;
  tf_set TF_kernel_sp (pr_kstack p + PGSIZE) ;;
  tf_set TF_kernel_trap sym_usertrap ;;
  tf_set TF_kernel_hartid (tp c) ;;
  csrw (fun c => c <| sstatus ::= (fun x => Z.lor (Z.land x (Z.lnot SSTATUS_SPP)) SSTATUS_SPIE) |>) ;;
  let* epc := tf_get TF_epc in
  csrw (fun c => c <| sepc := epc |>).

(** [vmfault(p->pagetable, va, read)] for the current process; [read] is not
    used. *)
Definition user_fault (va : Z) : M S Z :=
  let* p := thisproc in vm (vmfault (pr_sz p) (pr_pagetable p) (pr_pagetable p) va).

(** [usertrap()]; the result is the user's [satp]. *)
Definition usertrap (pad : list Z) : M S Z :=
  let* st := csr sstatus in
  if negb (Z.land st SSTATUS_SPP =? 0) then panic "usertrap: not from user mode"
  else
    csrw (fun c => c <| stvec := sym_kernelvec |>) ;;
    let* epc := csr sepc in
    tf_set TF_epc epc ;;
    let* sc := csr scause in
    let* which_dev :=
      (if sc =? 8 then
         let* k := op_killed in
         when (negb (k =? 0)) (kexit (-1)) ;;
         let* epc := tf_get TF_epc in
         tf_set TF_epc (u64 (epc + 4)) ;;
         intr_on ;;
         syscall pad ;;
         ret 0
       else
         let* dev := devintr in
         if negb (dev =? 0) then ret dev
         else
           let* sc := csr scause in
           let* va := csr stval in
           let* pa := (if (sc =? 15) || (sc =? 13) then user_fault va else ret 0) in
           if negb (pa =? 0) then ret 0
           else
             let* p := thisproc in
             let* epc := csr sepc in
             printf "usertrap(): unexpected scause 0x%lx pid=%d
" [PInt sc; PInt (pr_pid p)] ;;
             printf "            sepc=0x%lx stval=0x%lx
" [PInt epc; PInt va] ;;
             inpart (let* i := myproc in setkilled i) ;;
             ret 0) in
    let* k := op_killed in
    when (negb (k =? 0)) (kexit (-1)) ;;
    when (which_dev =? 2) (inpart yield) ;;
    prepare_return ;;
    let* p := thisproc in
    ret (MAKE_SATP (pr_pagetable p)).

(** ** Traps from the kernel *)

Definition kerneltrap : M S unit :=
  let* c := hget in
  if Z.land (sstatus c) SSTATUS_SPP =? 0 then panic "kerneltrap: not from supervisor mode"
  else
    let* on := intr_get in
    if on : bool then panic "kerneltrap: interrupts enabled"
    else
      let* which_dev := devintr in
      if which_dev =? 0 then
        let* now := hget in
        printf "scause=0x%lx sepc=0x%lx stval=0x%lx
" [PInt (scause c); PInt (sepc now); PInt (stval now)] ;;
        panic "kerneltrap"
      else
        let* p := curproc in
        when ((which_dev =? 2) && bool_decide (p <> None)) (inpart yield) ;;
        csrw (fun r => r <| sepc := sepc c |> <| sstatus := sstatus c |>).

(** ** The first run of a process: [forkret] of kernel/proc.c

    The result is the [satp] passed to [userret] in the trampoline. *)
Definition forkret : M S Z :=
  let* i := inpart myproc in
  release (LProc i) ;;
  let* t := hget in
  when (first t)
    (fsinit ROOTDEV ;;
     hmod (fun t : trapst => t <| first := false |>) ;;
     let* r := kexec (chars "/init") [chars "/init"] in
     tf_set (TF_a 0) (u64 r) ;;
     let* a0 := tf_get (TF_a 0) in
     if a0 =? u64 (-1) then panic "exec" else ret tt) ;;
  prepare_return ;;
  let* p := thisproc in
  ret (MAKE_SATP (pr_pagetable p)).

End Trap.
