(* ===== verification/Kernel.v ===== *)
(** * The whole kernel

    All components in one state, with the instances that connect each to the
    ones below, and [main] of kernel/main.c.  This is the state in which a
    kernel thread of xv6 runs; the theorems about a component are proved on
    smaller states. *)

From S2P Require Import Prelude Kmonad Mem Riscv Kalloc Cstring Vm Proc Iface Sleeplock Bio Virtio Log Fs Uart Printf Console Pipe File Exec Sysproc Sysfile Trap.

Record kstate := Kstate {
  k_proc : pst;
  k_bufs : bufs;
  k_disk : vdisk;
  k_log : logst;
  k_fs : fsst;
  k_files : filest;
  k_cons : consst;
  k_uart : uartst;
  k_ticks : tickst;
  k_trap : trapst;
  k_csrs : csrs;
  k_started : bool;
}.
#[global] Instance eta_kstate : Eta kstate := fun r =>
  Kstate (k_proc r) (k_bufs r) (k_disk r) (k_log r) (k_fs r) (k_files r) (k_cons r) (k_uart r) (k_ticks r)
    (k_trap r) (k_csrs r) (k_started r).

#[global] Instance k_has_proc : Has kstate pst := Lens k_proc (fun x s => s <| k_proc := x |>).
#[global] Instance k_has_vm : Has kstate vmst :=
  Lens (fun s => p_vm (k_proc s)) (fun v s => s <| k_proc ::= (fun p => p <| p_vm := v |>) |>).
#[global] Instance k_has_bufs : Has kstate bufs := Lens k_bufs (fun x s => s <| k_bufs := x |>).
#[global] Instance k_has_disk : Has kstate vdisk := Lens k_disk (fun x s => s <| k_disk := x |>).
#[global] Instance k_has_log : Has kstate logst := Lens k_log (fun x s => s <| k_log := x |>).
#[global] Instance k_has_fs : Has kstate fsst := Lens k_fs (fun x s => s <| k_fs := x |>).
#[global] Instance k_has_files : Has kstate filest := Lens k_files (fun x s => s <| k_files := x |>).
#[global] Instance k_has_cons : Has kstate consst := Lens k_cons (fun x s => s <| k_cons := x |>).
#[global] Instance k_has_uart : Has kstate uartst := Lens k_uart (fun x s => s <| k_uart := x |>).
#[global] Instance k_has_ticks : Has kstate tickst := Lens k_ticks (fun x s => s <| k_ticks := x |>).
#[global] Instance k_has_trap : Has kstate trapst := Lens k_trap (fun x s => s <| k_trap := x |>).
#[global] Instance k_has_csrs : Has kstate csrs := Lens k_csrs (fun x s => s <| k_csrs := x |>).

Section Kernel.
Context {L : LinkMap} `{Fuel} `{UartDev} `{PlicDev}.
Context (virtio_read : Z -> list (Z * Z) -> Z).

(** The disk below the buffer cache is the virtio driver. *)
#[local] Instance k_disk_ops : DiskOps kstate := virtio_rw.

(** [main()] on the boot hart, up to the call of [scheduler]. *)
Definition main_boot : M kstate unit :=
  consoleinit ;;
  console_devsw ;;
  printf "
" [] ;;
  printf "xv6 kernel is booting
" [] ;;
  printf "
" [] ;;
  vm kinit ;;
  kvminit ;;
  kvminithart ;;
  inpart procinit ;;
  trapinithart ;;
  plicinit ;;
  plicinithart ;;
  binit ;;
  iinit ;;
  virtio_disk_init virtio_read ;;
  userinit ;;
  modify (fun s => s <| k_started := true |>).

(** [main()] on the other harts. *)
Definition main_other : M kstate unit :=
  let* s := get in
  if negb (k_started s) then outoffuel
  else
    let* id := cpuid in
    printf "hart %d starting
" [PInt id] ;;
    kvminithart ;;
    trapinithart ;;
    plicinithart.

(** [n] turns of [scheduler()]. *)
Definition scheduler (n : nat) : M kstate unit :=
  set_curproc None ;;
  for_each (seq 0 n) (fun _ => intr_on ;; intr_off ;; let* _ := inpart scheduler_pass in ret tt).

Definition main (n : nat) : M kstate unit :=
  let* id := cpuid in
  (if id =? 0 then main_boot else main_other) ;;
  scheduler n.

(** The trap handlers in this state. *)
Definition k_usertrap (pad : list Z) : M kstate Z := usertrap virtio_read pad.
Definition k_kerneltrap : M kstate unit := kerneltrap virtio_read.
Definition k_forkret : M kstate Z := forkret.

End Kernel.
