(* ===== verification/Asm.v ===== *)
(** * The assembly code (kernel/entry.S, swtch.S, trampoline.S, kernelvec.S and
      the system call stubs of user/usys.pl)

    A hart has 31 registers and the control registers that this code uses; a
    block of instructions runs until it leaves for other code: a call, a
    return, [sret] or [ecall].  Memory is physical, and an access goes through
    the address space that [satp] selects.  The theorems say what survives
    the code: all user registers through a trap, the callee-saved ones and the
    stack through [swtch], all registers but [tp] through an interrupt in the
    kernel. *)

From S2P Require Import Prelude Kmonad Mem Riscv Kalloc Vm Proc Iface Exec.

Inductive reg :=
| ZERO | RA | SP | GP | TP | T0 | T1 | T2 | S0 | S1 | A0 | A1 | A2 | A3 | A4 | A5 | A6 | A7
| S2 | S3 | S4 | S5 | S6 | S7 | S8 | S9 | S10 | S11 | T3 | T4 | T5 | T6.
#[global] Instance reg_eq_dec : EqDecision reg.
Proof. solve_decision. Defined.

Inductive csr_name := SSCRATCH | SATP | MHARTID.

(** The instructions that occur; [la], [li], [call] and [ret] as the
    assembler's pseudo-instructions.  [Call] has the address of the
    function. *)
Inductive instr :=
| Li (rd : reg) (imm : Z)
| La (rd : reg) (sym : Z)
| Addi (rd rs : reg) (imm : Z)
| Add (rd r1 r2 : reg)
| Mul (rd r1 r2 : reg)
| Sd (rs : reg) (off : Z) (base : reg)
| Ld (rd : reg) (off : Z) (base : reg)
| Csrr (rd : reg) (c : csr_name)
| Csrw (c : csr_name) (rs : reg)
| Sfence_vma
| Jalr (rs : reg)
| Call (f : Z)
| Ret
| Sret
| Ecall.

Record hart := Hart {
  h_reg : reg -> Z;
  h_mem : mem;
  h_sscratch : Z;
  h_satp : Z;
  h_mhartid : Z;
}.
#[global] Instance eta_hart : Eta hart := fun r => Hart (h_reg r) (h_mem r) (h_sscratch r) (h_satp r) (h_mhartid r).

(** Register [zero] reads as 0. *)
Definition rd_ (h : hart) (r : reg) : Z := if decide (r = ZERO) then 0 else h_reg h r.
Definition upd_reg (f : reg -> Z) (r : reg) (v : Z) : reg -> Z := fun x => if decide (x = r) then v else f x.
Definition wr_ (r : reg) (v : Z) (h : hart) : hart := h <| h_reg ::= (fun f => upd_reg f r v) |>.

(** Where a block ends: [XCall f rest]: at a call of [f], with [rest] behind
    the return address; [XJump pc]: at a jump; [XEcall rest]: at [ecall]. *)
Inductive exit_ := XEnd | XCall (f : Z) (rest : list instr) | XJump (pc : Z) | XSret | XEcall (rest : list instr).

Section Asm.
(** [tr satp va] is the physical address of [va] in the address space
    [satp]; [addr_of c] is the address the linker gave to the code [c]. *)
Context (tr : Z -> Z -> Z) (addr_of : list instr -> Z).

Definition ea (h : hart) (base : reg) (off : Z) : Z := tr (h_satp h) (u64 (rd_ h base + off)).

Definition exec1 (i : instr) (h : hart) : hart :=
  match i with
  | Li rd imm => wr_ rd (u64 imm) h
  | La rd sym => wr_ rd (u64 sym) h
  | Addi rd rs imm => wr_ rd (u64 (rd_ h rs + imm)) h
  | Add rd r1 r2 => wr_ rd (u64 (rd_ h r1 + rd_ h r2)) h
  | Mul rd r1 r2 => wr_ rd (u64 (rd_ h r1 * rd_ h r2)) h
  | Sd rs off base => h <| h_mem ::= store64 (ea h base off) (rd_ h rs) |>
  | Ld rd off base => wr_ rd (load64 (ea h base off) (h_mem h)) h
  | Csrr rd SSCRATCH => wr_ rd (h_sscratch h) h
  | Csrr rd SATP => wr_ rd (h_satp h) h
  | Csrr rd MHARTID => wr_ rd (h_mhartid h) h
  | Csrw SSCRATCH rs => h <| h_sscratch := rd_ h rs |>
  | Csrw SATP rs => h <| h_satp := rd_ h rs |>
  | _ => h
  end.

Fixpoint run (c : list instr) (h : hart) : hart * exit_ :=
  match c with
  | [] => (h, XEnd)
  | Jalr rs :: c' => (wr_ RA (u64 (addr_of c')) h, XCall (rd_ h rs) c')
  | Call f :: c' => (wr_ RA (u64 (addr_of c')) h, XCall f c')
  | Ret :: _ => (h, XJump (rd_ h RA))
  | Sret :: _ => (h, XSret)
  | Ecall :: c' => (h, XEcall c')
  | i :: c' => run c' (exec1 i h)
  end.

(** ** kernel/entry.S *)

Definition _entry (stack0 start : Z) : list instr :=
  [La SP stack0; Li A0 (1024 * 4); Csrr A1 MHARTID; Addi A1 A1 1; Mul A0 A0 A1; Add SP SP A0; Call start].

(** ** kernel/swtch.S *)

Definition swtch_S : list instr :=
  [Sd RA 0 A0; Sd SP 8 A0; Sd S0 16 A0; Sd S1 24 A0; Sd S2 32 A0; Sd S3 40 A0; Sd S4 48 A0; Sd S5 56 A0;
   Sd S6 64 A0; Sd S7 72 A0; Sd S8 80 A0; Sd S9 88 A0; Sd S10 96 A0; Sd S11 104 A0;
   Ld RA 0 A1; Ld SP 8 A1; Ld S0 16 A1; Ld S1 24 A1; Ld S2 32 A1; Ld S3 40 A1; Ld S4 48 A1; Ld S5 56 A1;
   Ld S6 64 A1; Ld S7 72 A1; Ld S8 80 A1; Ld S9 88 A1; Ld S10 96 A1; Ld S11 104 A1;
   Ret].

(** ** kernel/trampoline.S *)

Definition userret : list instr :=
  [Sfence_vma; Csrw SATP A0; Sfence_vma;
   Li A0 TRAPFRAME;
   Ld RA 40 A0; Ld SP 48 A0; Ld GP 56 A0; Ld TP 64 A0; Ld T0 72 A0; Ld T1 80 A0; Ld T2 88 A0; Ld S0 96 A0;
   Ld S1 104 A0; Ld A1 120 A0; Ld A2 128 A0; Ld A3 136 A0; Ld A4 144 A0; Ld A5 152 A0; Ld A6 160 A0; Ld A7 168 A0;
   Ld S2 176 A0; Ld S3 184 A0; Ld S4 192 A0; Ld S5 200 A0; Ld S6 208 A0; Ld S7 216 A0; Ld S8 224 A0; Ld S9 232 A0;
   Ld S10 240 A0; Ld S11 248 A0; Ld T3 256 A0; Ld T4 264 A0; Ld T5 272 A0; Ld T6 280 A0;
   Ld A0 112 A0;
   Sret].

(** [usertrap()] returns to [userret]. *)
Definition uservec : list instr :=
  [Csrw SSCRATCH A0;
   Li A0 TRAPFRAME;
   Sd RA 40 A0; Sd SP 48 A0; Sd GP 56 A0; Sd TP 64 A0; Sd T0 72 A0; Sd T1 80 A0; Sd T2 88 A0; Sd S0 96 A0;
   Sd S1 104 A0; Sd A1 120 A0; Sd A2 128 A0; Sd A3 136 A0; Sd A4 144 A0; Sd A5 152 A0; Sd A6 160 A0; Sd A7 168 A0;
   Sd S2 176 A0; Sd S3 184 A0; Sd S4 192 A0; Sd S5 200 A0; Sd S6 208 A0; Sd S7 216 A0; Sd S8 224 A0; Sd S9 232 A0;
   Sd S10 240 A0; Sd S11 248 A0; Sd T3 256 A0; Sd T4 264 A0; Sd T5 272 A0; Sd T6 280 A0;
   Csrr T0 SSCRATCH; Sd T0 112 A0;
   Ld SP 8 A0; Ld TP 32 A0; Ld T0 16 A0; Ld T1 0 A0;
   Sfence_vma; Csrw SATP T1; Sfence_vma;
   Jalr T0] ++ userret.

(** ** kernel/kernelvec.S *)

Definition kernelvec (kerneltrap : Z) : list instr :=
  [Addi SP SP (-256);
   Sd RA 0 SP; Sd GP 16 SP; Sd TP 24 SP; Sd T0 32 SP; Sd T1 40 SP; Sd T2 48 SP; Sd A0 72 SP; Sd A1 80 SP;
   Sd A2 88 SP; Sd A3 96 SP; Sd A4 104 SP; Sd A5 112 SP; Sd A6 120 SP; Sd A7 128 SP; Sd T3 216 SP; Sd T4 224 SP;
   Sd T5 232 SP; Sd T6 240 SP;
   Call kerneltrap;
   Ld RA 0 SP; Ld GP 16 SP; Ld T0 32 SP; Ld T1 40 SP; Ld T2 48 SP; Ld A0 72 SP; Ld A1 80 SP;
   Ld A2 88 SP; Ld A3 96 SP; Ld A4 104 SP; Ld A5 112 SP; Ld A6 120 SP; Ld A7 128 SP; Ld T3 216 SP; Ld T4 224 SP;
   Ld T5 232 SP; Ld T6 240 SP;
   Addi SP SP 256;
   Sret].

(** ** user/usys.pl: the stub of system call [n] *)

Definition usys_entry (n : Z) : list instr := [Li A7 n; Ecall; Ret].
End Asm.

(** ** Registers and memory *)

Lemma upd_reg_eq f r v : upd_reg f r v r = v.
Proof. unfold upd_reg. by rewrite decide_True. Qed.
Lemma upd_reg_ne f r v x : x <> r -> upd_reg f r v x = f x.
Proof. intros. unfold upd_reg. by rewrite decide_False. Qed.

Lemma rd_reg h r : r <> ZERO -> rd_ h r = h_reg h r.
Proof. intros. unfold rd_. by rewrite decide_False. Qed.

(** A register file is a 64-bit word per register. *)
Definition word (v : Z) : Prop := 0 <= v < 18446744073709551616.
Record words (h : hart) : Prop := {
  w_reg : forall r, word (h_reg h r);
  w_sscratch : word (h_sscratch h);
  w_satp : word (h_satp h);
  w_mhartid : word (h_mhartid h);
}.

Lemma u64_word z : word (u64 z).
Proof. apply Z.mod_pos_bound. lia. Qed.
Lemma load64_word a m : word (load64 a m).
Proof. apply load64_range. Qed.

Create HintDb asm.
#[export] Hint Resolve u64_word load64_word w_reg w_sscratch w_satp w_mhartid : asm.

Lemma rd_word h r : words h -> word (rd_ h r).
Proof. intros W. unfold rd_. case_decide; [done|apply (w_reg _ W)]. Qed.
#[export] Hint Resolve rd_word : asm.

Lemma wr_words h r v : words h -> word v -> words (wr_ r v h).
Proof. intros [W1 W2 W3 W4] Hv. split; auto. intros x. simpl. unfold upd_reg. case_decide; auto. Qed.
#[export] Hint Resolve wr_words : asm.

(** ** Runs of stores and of loads

    Most of the code saves registers at offsets from a base register, or loads
    them back. *)
Definition slots := list (reg * Z).
Definition saves (l : slots) (b : reg) : list instr := (fun x => Sd x.1 x.2 b) <$> l.
Definition loads (l : slots) (b : reg) : list instr := (fun x => Ld x.1 x.2 b) <$> l.

Fixpoint save_mem (pa : Z) (l : slots) (f : reg -> Z) (m : mem) : mem :=
  match l with [] => m | x :: l' => save_mem pa l' f (store64 (pa + x.2) (f x.1) m) end.
Fixpoint load_regs (pa : Z) (l : slots) (m : mem) (f : reg -> Z) : reg -> Z :=
  match l with [] => f | x :: l' => load_regs pa l' m (upd_reg f x.1 (load64 (pa + x.2) m)) end.

(** No register and no offset occurs twice, and the offsets are aligned. *)
Record slots_ok (l : slots) : Prop := {
  sl_regs : NoDup l.*1;
  sl_offs : NoDup l.*2;
  sl_align : Forall (fun o => o mod 8 = 0) l.*2;
}.

Lemma slots_ok_cons x l : slots_ok (x :: l) -> (x.1 ∉ l.*1) /\ (x.2 ∉ l.*2) /\ x.2 mod 8 = 0 /\ slots_ok l.
Proof.
  intros [H1 H2 H3]. rewrite !fmap_cons in *. apply NoDup_cons in H1 as [? ?], H2 as [? ?]. apply Forall_cons in H3 as [? ?].
  repeat split; auto.
Qed.

Lemma load_regs_out pa l m f r : r ∉ l.*1 -> load_regs pa l m f r = f r.
Proof.
  revert f. induction l as [|x l IH]; intros f H; [done|]. rewrite fmap_cons in H. cbn [save_mem load_regs].
  rewrite IH by set_solver. apply upd_reg_ne. set_solver.
Qed.

Lemma load_regs_in pa l m f r o : slots_ok l -> (r, o) ∈ l -> load_regs pa l m f r = load64 (pa + o) m.
Proof.
  revert f. induction l as [|x l IH]; intros f Hok Hin; [set_solver|].
  destruct (slots_ok_cons _ _ Hok) as (Hx & _ & _ & Hl). apply elem_of_cons in Hin as [<-|Hin].
  - cbn [save_mem load_regs]. rewrite load_regs_out by exact Hx. apply upd_reg_eq.
  - cbn [save_mem load_regs]. by apply IH.
Qed.

Lemma save_mem_out pa l f m x : (forall o, o ∈ l.*2 -> ~ (pa + o <= x < pa + o + 8)) -> save_mem pa l f m x = m x.
Proof.
  revert m. induction l as [|y l IH]; intros m H; [done|]. rewrite fmap_cons in H. cbn [save_mem load_regs].
  rewrite IH by set_solver.
  apply mstore_out. apply H. set_solver.
Qed.

Lemma save_mem_ext pa l f g m : (forall r o, (r, o) ∈ l -> f r = g r) -> save_mem pa l f m = save_mem pa l g m.
Proof.
  revert m. induction l as [|[r o] l IH]; intros m H; [done|]. cbn [save_mem]. simpl.
  rewrite (H r o) by apply list_elem_of_here. apply IH. intros. eapply H. by apply list_elem_of_further.
Qed.

(** A slot that is not written keeps its value. *)
Lemma save_mem_other pa l f m o :
  Forall (fun o => o mod 8 = 0) l.*2 -> o mod 8 = 0 -> o ∉ l.*2 ->
  load64 (pa + o) (save_mem pa l f m) = load64 (pa + o) m.
Proof.
  intros Hal Ho Hin. apply mload_agree. intros x Hx. apply save_mem_out. intros o' Ho'.
  pose proof (Forall_elem _ _ _ Hal Ho') as Ha. assert (o <> o') by (intros ->; done). simpl in Ha. dlia.
Qed.

Lemma save_mem_in pa l f m r o :
  slots_ok l -> word (f r) -> (r, o) ∈ l -> load64 (pa + o) (save_mem pa l f m) = f r.
Proof.
  revert m. induction l as [|x l IH]; intros m Hok Hw Hin; [set_solver|].
  destruct (slots_ok_cons _ _ Hok) as (_ & Hx & Ha & Hl). apply elem_of_cons in Hin as [<-|Hin].
  - cbn [save_mem load_regs]. rewrite save_mem_other; [|apply Hl|exact Ha|exact Hx].
    by apply load64_store64.
  - cbn [save_mem load_regs]. by apply IH.
Qed.

Section Run.
Context (tr : Z -> Z -> Z) (addr_of : list instr -> Z).
#[local] Abbreviation run := (run tr addr_of).

(** Instructions that fall through. *)
Definition straight (i : instr) : bool :=
  match i with Jalr _ | Call _ | Ret | Sret | Ecall => false | _ => true end.

Lemma run_cons i c h : straight i = true -> run (i :: c) h = run c (exec1 tr i h).
Proof. by destruct i. Qed.

Lemma run_saves l b h c pa :
  (forall o, o ∈ l.*2 -> tr (h_satp h) (u64 (rd_ h b + o)) = pa + o) ->
  run (saves l b ++ c) h = run c (h <| h_mem := save_mem pa l (rd_ h) (h_mem h) |>).
Proof.
  revert h. induction l as [|x l IH]; intros h Ht; [by destruct h|]. rewrite fmap_cons in Ht.
  cbn. unfold ea. rewrite Ht by set_solver. rewrite IH; [reflexivity|]. intros o Ho. apply (Ht o). set_solver.
Qed.

Lemma run_loads l b h c pa :
  b ∉ l.*1 -> (forall o, o ∈ l.*2 -> tr (h_satp h) (u64 (rd_ h b + o)) = pa + o) ->
  run (loads l b ++ c) h = run c (h <| h_reg := load_regs pa l (h_mem h) (h_reg h) |>).
Proof.
  revert h. induction l as [|x l IH]; intros h Hb Ht; [by destruct h|]. rewrite fmap_cons in Hb. rewrite fmap_cons in Ht.
  assert (Hrd : forall v, rd_ (wr_ x.1 v h) b = rd_ h b).
  { intros v. unfold rd_. case_decide; [done|]. apply upd_reg_ne. set_solver. }
  cbn. unfold ea. rewrite Ht by set_solver. rewrite IH; [reflexivity|set_solver|].
  intros o Ho. rewrite Hrd. apply (Ht o). set_solver.
Qed.

(** Every block keeps the registers in range. *)
Lemma exec1_words i h : words h -> words (exec1 tr i h).
Proof.
  intros W. pose proof (rd_word h) as Hr. destruct i as [| | | | | | |?[]|[]| | | | | |]; simpl; auto with asm;
    split; simpl; auto with asm.
Qed.
End Run.

#[global] Arguments save_mem : simpl never.
#[global] Arguments load_regs : simpl never.

(** ** Tables of the saved registers *)

(** [struct trapframe]: all registers but [a0], which needs two steps. *)
Definition tf_slots : slots :=
  [(RA, 40); (SP, 48); (GP, 56); (TP, 64); (T0, 72); (T1, 80); (T2, 88); (S0, 96); (S1, 104); (A1, 120); (A2, 128);
   (A3, 136); (A4, 144); (A5, 152); (A6, 160); (A7, 168); (S2, 176); (S3, 184); (S4, 192); (S5, 200); (S6, 208);
   (S7, 216); (S8, 224); (S9, 232); (S10, 240); (S11, 248); (T3, 256); (T4, 264); (T5, 272); (T6, 280)].
Definition tf_regs : slots := (A0, TF_a 0) :: tf_slots.

(** [struct context] *)
Definition ctx_slots : slots :=
  [(RA, 0); (SP, 8); (S0, 16); (S1, 24); (S2, 32); (S3, 40); (S4, 48); (S5, 56); (S6, 64); (S7, 72); (S8, 80);
   (S9, 88); (S10, 96); (S11, 104)].

(** The frame of [kernelvec], with [tp] apart. *)
Definition kv_slots : slots :=
  [(RA, 0); (GP, 16); (T0, 32); (T1, 40); (T2, 48); (A0, 72); (A1, 80); (A2, 88); (A3, 96); (A4, 104); (A5, 112);
   (A6, 120); (A7, 128); (T3, 216); (T4, 224); (T5, 232); (T6, 240)].

Ltac slots_tac := split; [apply (bool_decide_unpack _); vm_compute; exact I
  |apply (bool_decide_unpack _); vm_compute; exact I|repeat constructor].

Ltac slot_in := repeat first [apply list_elem_of_here|apply list_elem_of_further].

Lemma tf_slots_ok : slots_ok tf_slots.
Proof. slots_tac. Qed.
Lemma tf_regs_ok : slots_ok tf_regs.
Proof. slots_tac. Qed.
Lemma ctx_slots_ok : slots_ok ctx_slots.
Proof. slots_tac. Qed.
Lemma kv_slots_ok : slots_ok kv_slots.
Proof. slots_tac. Qed.

(** The offsets lie in the structure. *)
Lemma tf_regs_range o : o ∈ tf_regs.*2 -> 40 <= o /\ o + 8 <= 288.
Proof. revert o. apply Forall_forall. repeat constructor; vm_compute; discriminate. Qed.
Lemma tf_slots_range o : o ∈ tf_slots.*2 -> 40 <= o /\ o + 8 <= 288.
Proof. intros Ho. apply tf_regs_range. by right. Qed.
Lemma ctx_slots_range o : o ∈ ctx_slots.*2 -> 0 <= o /\ o + 8 <= 112.
Proof. revert o. apply Forall_forall. repeat constructor; vm_compute; discriminate. Qed.
Lemma kv_slots_range o : o ∈ kv_slots.*2 -> 0 <= o /\ o + 8 <= 248.
Proof. revert o. apply Forall_forall. repeat constructor; vm_compute; discriminate. Qed.

(** Every register of the user is in the trapframe. *)
Lemma tf_regs_all r : r <> ZERO -> exists o, (r, o) ∈ tf_regs.
Proof. intros Hr. destruct r; [done|..]; eexists; slot_in. Qed.

Lemma tf_slots_ne r o : (r, o) ∈ tf_slots -> r <> A0 /\ r <> ZERO.
Proof.
  assert (H : Forall (fun x => x.1 <> A0 /\ x.1 <> ZERO) tf_slots) by (repeat constructor; discriminate).
  intros Hin. exact (Forall_elem _ _ _ H Hin).
Qed.

Lemma elem_of_snd (r : reg) (o : Z) l : (r, o) ∈ l -> o ∈ l.*2.
Proof. intros H. apply list_elem_of_fmap. by exists (r, o). Qed.

(** The slot of [a0] is at 112; no other one is between 104 and 120. *)
Lemma tf_regs_not_a0 r o : (r, o) ∈ tf_regs -> r <> A0 -> o <= 104 \/ 120 <= o.
Proof.
  assert (H : Forall (fun x => x.1 = A0 \/ x.2 <= 104 \/ 120 <= x.2) tf_regs)
    by (apply (bool_decide_unpack _); vm_compute; exact I).
  intros Hin Hr. destruct (Forall_elem _ _ _ H Hin); tauto.
Qed.

(** The registers of arguments and results. *)
Definition areg (n : Z) : reg := nth (Z.to_nat n) [A0; A1; A2; A3; A4; A5; A6; A7] ZERO.

Lemma areg_slot n : 0 <= n < 8 -> (areg n, TF_a n) ∈ tf_regs.
Proof.
  intros Hn. assert (n = 0 \/ n = 1 \/ n = 2 \/ n = 3 \/ n = 4 \/ n = 5 \/ n = 6 \/ n = 7) as Hc by lia.
  repeat destruct Hc as [->|Hc]; [..|subst n]; slot_in.
Qed.

(** What [uservec] does after the user registers are saved. *)
Definition kernel_slots : slots := [(SP, 8); (TP, 32); (T0, 16); (T1, 0)].
Definition uservec_enter : list instr :=
  loads kernel_slots A0 ++ [Sfence_vma; Csrw SATP T1; Sfence_vma; Jalr T0] ++ userret.

Lemma uservec_eq :
  uservec = Csrw SSCRATCH A0 :: Li A0 TRAPFRAME :: saves tf_slots A0 ++ [Csrr T0 SSCRATCH; Sd T0 112 A0] ++
    uservec_enter.
Proof. reflexivity. Qed.

(** ** The trampoline *)
Section Trampoline.
Context (tr : Z -> Z -> Z) (addr_of : list instr -> Z) (us tf : Z).
#[local] Abbreviation run := (run tr addr_of).

(** The user page table maps TRAPFRAME to the trapframe of the process. *)
Hypothesis tr_trapframe : forall o, 0 <= o < PGSIZE -> tr us (TRAPFRAME + o) = tf + o.

Lemma tr_tf h o :
  h_satp h = us -> h_reg h A0 = TRAPFRAME -> 0 <= o < 288 -> tr (h_satp h) (u64 (rd_ h A0 + o)) = tf + o.
Proof.
  intros -> Ha Ho. rewrite rd_reg, Ha by done. rewrite u64_small by klia. apply tr_trapframe. klia.
Qed.

Lemma userret_ok h :
  h_reg h A0 = us ->
  exists h', run userret h = (h', XSret) /\ h_satp h' = us /\ h_mem h' = h_mem h /\
    forall r o, (r, o) ∈ tf_regs -> h_reg h' r = load64 (tf + o) (h_mem h).
Proof.
  intros Ha.
  assert (E : run userret h =
    run (loads tf_slots A0 ++ [Ld A0 112 A0; Sret]) (wr_ A0 TRAPFRAME (h <| h_satp := rd_ h A0 |>))) by reflexivity.
  rewrite rd_reg, Ha in E by done. set (h1 := wr_ A0 TRAPFRAME (h <| h_satp := us |>)) in *.
  assert (Ht : forall o, 0 <= o < 288 -> tr (h_satp h1) (u64 (rd_ h1 A0 + o)) = tf + o)
    by (intros o Ho; by apply tr_tf).
  rewrite run_loads with (pa := tf) in E.
  2: { apply (bool_decide_unpack _). vm_compute. exact I. }
  2: { intros o Ho. apply tf_slots_range in Ho. apply Ht. lia. }
  set (h2 := h1 <| h_reg := _ |>) in E.
  assert (Hea : ea tr h2 A0 112 = tf + 112).
  { apply tr_tf; [done| |lia]. etransitivity; [apply load_regs_out|apply upd_reg_eq].
    apply (bool_decide_unpack _). vm_compute. exact I. }
  eexists. split; [rewrite E; cbn; rewrite Hea; reflexivity|]. split; [done|]. split; [done|].
  intros r o [[= -> ->]|Hin]%elem_of_cons; [apply upd_reg_eq|].
  destruct (tf_slots_ne r o Hin) as [Hr _].
  transitivity (h_reg h2 r); [by apply upd_reg_ne|]. exact (load_regs_in tf _ (h_mem h) _ r o tf_slots_ok Hin).
Qed.

Lemma saved_slot (f : reg -> Z) m r o :
  (forall r, word (f r)) -> (r, o) ∈ tf_regs ->
  load64 (tf + o) (store64 (tf + TF_a 0) (f A0) (save_mem tf tf_slots f m)) = f r.
Proof.
  intros Hw [[= -> ->]|Hin]%elem_of_cons; [apply load64_store64, Hw|]. rewrite mload_mstore_other.
  - apply save_mem_in; [apply tf_slots_ok|apply Hw|exact Hin].
  - change (TF_a 0) with 112. destruct (slots_ok_cons (A0, 112) tf_slots tf_regs_ok) as (_ & Ho & _ & _).
    assert (Hi : o ∈ tf_slots.*2) by (apply list_elem_of_fmap; by exists (r, o)).
    pose proof (Forall_elem _ _ _ (sl_align _ tf_slots_ok) Hi) as Hm. cbv beta in Hm.
    assert (o <> 112) by (intros ->; exact (Ho Hi)). dlia.
Qed.

Lemma uservec_saves h :
  words h -> h_satp h = us ->
  exists h', run uservec h = run uservec_enter h' /\ h_satp h' = us /\ h_reg h' A0 = TRAPFRAME /\
    (forall r o, (r, o) ∈ tf_regs -> load64 (tf + o) (h_mem h') = h_reg h r) /\
    forall x, ~ (tf + 40 <= x < tf + 288) -> h_mem h' x = h_mem h x.
Proof.
  intros W Hs. rewrite uservec_eq, !run_cons by done.
  change (exec1 tr (Li A0 TRAPFRAME) _) with (wr_ A0 TRAPFRAME (h <| h_sscratch := rd_ h A0 |>)).
  rewrite rd_reg by done. set (h1 := wr_ A0 TRAPFRAME (h <| h_sscratch := h_reg h A0 |>)).
  assert (Ht : forall o, 0 <= o < 288 -> tr (h_satp h1) (u64 (rd_ h1 A0 + o)) = tf + o)
    by (intros o Ho; by apply tr_tf).
  rewrite run_saves with (pa := tf) by (intros o Ho; apply tf_slots_range in Ho; apply Ht; lia).
  assert (Hsave : save_mem tf tf_slots (rd_ h1) (h_mem h1) = save_mem tf tf_slots (h_reg h) (h_mem h)).
  { apply save_mem_ext. intros r o Hin. destruct (tf_slots_ne r o Hin). rewrite rd_reg by done. by apply upd_reg_ne. }
  rewrite Hsave. pose proof (saved_slot (h_reg h) (h_mem h)) as Hslot.
  assert (Hf : forall x, ~ (tf + 40 <= x < tf + 288) -> save_mem tf tf_slots (h_reg h) (h_mem h) x = h_mem h x).
  { intros x Hx. apply save_mem_out. intros o Ho. apply tf_slots_range in Ho. lia. }
  revert Hslot Hf. generalize (save_mem tf tf_slots (h_reg h) (h_mem h)). clear Hsave. intros m1 Hslot Hf.
  exists (wr_ T0 (h_reg h A0) (h1 <| h_mem := store64 (tf + TF_a 0) (h_reg h A0) m1 |>)).
  split; [|split; [exact Hs|split; [done|split]]].
  - cbn [app]. rewrite !run_cons by done. f_equal.
    transitivity (wr_ T0 (h_reg h A0) (h1 <| h_mem := store64 (tr (h_satp h1) (u64 (rd_ h1 A0 + 112))) (h_reg h A0) m1 |>));
      [reflexivity|]. by rewrite (Ht 112) by lia.
  - intros r o Hin. apply Hslot; [apply (w_reg _ W)|exact Hin].
  - intros x Hx. simpl. rewrite mstore_out by (change (TF_a 0) with 112; lia). by apply Hf.
Qed.

Lemma uservec_enters h :
  h_satp h = us -> h_reg h A0 = TRAPFRAME ->
  exists h', run uservec_enter h = (h', XCall (load64 (tf + TF_kernel_trap) (h_mem h)) userret) /\
    h_mem h' = h_mem h /\
    h_reg h' SP = load64 (tf + TF_kernel_sp) (h_mem h) /\
    h_reg h' TP = load64 (tf + TF_kernel_hartid) (h_mem h) /\
    h_reg h' RA = u64 (addr_of userret) /\
    h_satp h' = load64 (tf + TF_kernel_satp) (h_mem h).
Proof.
  intros Hs Ha. unfold uservec_enter. rewrite run_loads with (pa := tf).
  2: { apply (bool_decide_unpack _). vm_compute. exact I. }
  2: { intros o Ho. apply tr_tf; [done..|]. revert o Ho. apply Forall_forall. repeat constructor; vm_compute; congruence. }
  assert (Hl : forall r o, (r, o) ∈ kernel_slots ->
    load_regs tf kernel_slots (h_mem h) (h_reg h) r = load64 (tf + o) (h_mem h)).
  { intros r o Hin. apply load_regs_in; [slots_tac|exact Hin]. }
  revert Hl. generalize (load_regs tf kernel_slots (h_mem h) (h_reg h)). intros f Hl.
  assert (HT : f T0 = load64 (tf + 16) (h_mem h)) by (apply (Hl T0 16); slot_in).
  cbn [app]. rewrite !run_cons by done. eexists. split.
  { cbn [run exec1]. rewrite !rd_reg by done. f_equal. f_equal. exact HT. }
  split; [done|]. split; [apply (Hl SP 8); slot_in|]. split; [apply (Hl TP 32); slot_in|].
  split; [done|]. apply (Hl T1 0). slot_in.
Qed.

(** C14: A trap is invisible to the user program but for [a0].  [uservec]
    saves all 31 registers in the trapframe, where the C code finds the
    arguments of a system call at [TF_a], changes no other memory, and calls
    [usertrap()] on the kernel stack, with the kernel page table and the hart
    number that the trapframe holds.  Whatever the kernel does in between, if
    it leaves the saved registers alone except for a new [a0], [userret]
    switches back to the user page table and restores every register. *)
Theorem user_trap_roundtrip (h : hart) (W : words h) (Hs : h_satp h = us) :
  exists h1, run uservec h = (h1, XCall (load64 (tf + TF_kernel_trap) (h_mem h)) userret) /\
    h_reg h1 SP = load64 (tf + TF_kernel_sp) (h_mem h) /\
    h_reg h1 TP = load64 (tf + TF_kernel_hartid) (h_mem h) /\
    h_reg h1 RA = u64 (addr_of userret) /\
    h_satp h1 = load64 (tf + TF_kernel_satp) (h_mem h) /\
    (forall n, 0 <= n < 8 -> load64 (tf + TF_a n) (h_mem h1) = h_reg h (areg n)) /\
    (forall x, ~ (tf + 40 <= x < tf + 288) -> h_mem h1 x = h_mem h x) /\
    forall h2, h_reg h2 A0 = us ->
      agree (h_mem h1) (h_mem h2) (tf + 40) 72 -> agree (h_mem h1) (h_mem h2) (tf + 120) 168 ->
      exists h3, run userret h2 = (h3, XSret) /\ h_satp h3 = us /\ h_mem h3 = h_mem h2 /\
        h_reg h3 A0 = load64 (tf + TF_a 0) (h_mem h2) /\
        forall r, r <> ZERO -> r <> A0 -> h_reg h3 r = h_reg h r.
Proof.
  destruct (uservec_saves h W Hs) as (h0 & E0 & Hs0 & Ha0 & Hslot & Hf).
  destruct (uservec_enters h0 Hs0 Ha0) as (h1 & E1 & Em & Hsp & Htp & Hra & Hsatp).
  assert (Hk : forall o, o + 8 <= 40 -> load64 (tf + o) (h_mem h0) = load64 (tf + o) (h_mem h)).
  { intros o Ho. apply mload_agree. intros x Hx. apply Hf. lia. }
  rewrite Hk in * by (compute; congruence). rewrite <- Em in *. exists h1. rewrite E0.
  split; [exact E1|]. do 4 (split; [assumption|]). split; [|split; [exact Hf|]].
  - intros n Hn. apply Hslot, areg_slot, Hn.
  - intros h2 Ha Hg1 Hg2. destruct (userret_ok h2 Ha) as (h3 & E3 & Hs3 & Hm3 & Hr3).
    exists h3. split; [exact E3|]. split; [exact Hs3|]. split; [exact Hm3|]. split; [apply Hr3; slot_in|].
    intros r Hz Hna. destruct (tf_regs_all r Hz) as [o Ho]. rewrite (Hr3 r o Ho), <- (Hslot r o Ho). symmetry.
    pose proof (tf_regs_range o (elem_of_snd _ _ _ Ho)). pose proof (tf_regs_not_a0 r o Ho Hna).
    apply mload_agree. destruct (decide (o < 112)).
    + apply (agree_sub _ _ _ _ _ _ Hg1); lia.
    + apply (agree_sub _ _ _ _ _ _ Hg2); lia.
Qed.
End Trampoline.

(** A hart in user mode, with the trapframe at the start of a page of RAM. *)
Definition demo_tr (satp va : Z) : Z := if satp =? 1 then va - TRAPFRAME + 0x87000000 else va.
Definition demo_hart : hart := Hart (fun r => if decide (r = A7) then 16 else 7) (fun _ => 0) 0 1 0.

Lemma demo_words : words demo_hart.
Proof. split; [|done..]. intros r. unfold word, demo_hart. simpl. case_decide; lia. Qed.

Lemma user_trap_roundtrip_witness :
  exists h1, run demo_tr (fun _ => 0) uservec demo_hart = (h1, XCall 0 userret) /\ load64 (0x87000000 + TF_a 7) (h_mem h1) = 16.
Proof.
  assert (Ht : forall o, 0 <= o < PGSIZE -> demo_tr 1 (TRAPFRAME + o) = 0x87000000 + o).
  { intros o _. unfold demo_tr. simpl. lia. }
  destruct (user_trap_roundtrip demo_tr (fun _ => 0) 1 0x87000000 Ht demo_hart demo_words eq_refl)
    as (h1 & E & _ & _ & _ & _ & Ha & _).
  exists h1. split; [exact E|]. apply (Ha 7). lia.
Defined.

(** A system call from its stub on: the number and the arguments reach the
    trapframe. *)
Lemma syscall_enters tr addr_of us tf n h :
  (forall o, 0 <= o < PGSIZE -> tr us (TRAPFRAME + o) = tf + o) -> words h -> h_satp h = us -> word n ->
  exists h1 h2, run tr addr_of (usys_entry n) h = (h1, XEcall [Ret]) /\
    run tr addr_of uservec h1 = (h2, XCall (load64 (tf + TF_kernel_trap) (h_mem h)) userret) /\
    load64 (tf + TF_a 7) (h_mem h2) = n /\
    forall k, 0 <= k <= 5 -> load64 (tf + TF_a k) (h_mem h2) = h_reg h (areg k).
Proof.
  intros Ht W Hs Hn. set (h1 := wr_ A7 (u64 n) h). assert (W1 : words h1) by (by apply wr_words; [|apply u64_word]).
  destruct (uservec_saves tr addr_of us tf Ht h1 W1 Hs) as (h0 & E0 & Hs0 & Ha0 & Hslot & Hf).
  destruct (uservec_enters tr addr_of us tf Ht h0 Hs0 Ha0) as (h2 & E1 & Em & _).
  exists h1, h2. split; [reflexivity|]. rewrite Em. split; [|split].
  - rewrite E0, E1. do 2 f_equal. apply mload_agree. intros x Hx. apply Hf. unfold TF_kernel_trap in Hx. lia.
  - rewrite (Hslot _ _ (areg_slot 7 ltac:(lia))). apply u64_small, Hn.
  - intros k Hk. rewrite (Hslot _ _ (areg_slot k ltac:(lia))). apply upd_reg_ne.
    assert (k = 0 \/ k = 1 \/ k = 2 \/ k = 3 \/ k = 4 \/ k = 5) as Hc by lia.
    repeat destruct Hc as [->|Hc]; [..|subst k]; vm_compute; congruence.
Qed.

(** ** Context switches *)

(** [struct context] in memory, and the one that [swtch] saves. *)
Definition ctx_at (m : mem) (a : Z) : context :=
  Context (load64 a m) (load64 (a + 8) m) ((fun j => load64 (a + 16 + 8 * Z.of_nat j) m) <$> seq 0 12).
Definition ctx_of (f : reg -> Z) : context :=
  Context (f RA) (f SP) (f <$> [S0; S1; S2; S3; S4; S5; S6; S7; S8; S9; S10; S11]).

(** The table describes [struct context]. *)
Lemma ctx_eq m a f : (forall r o, (r, o) ∈ ctx_slots -> f r = load64 (a + o) m) <-> ctx_of f = ctx_at m a.
Proof.
  unfold ctx_of, ctx_at. cbn -[Z.mul Z.add]. split.
  - intros H. f_equal; [rewrite (H RA 0) by slot_in; f_equal; lia|apply (H SP 8); slot_in|].
    rewrite (H S0 16), (H S1 24), (H S2 32), (H S3 40), (H S4 48), (H S5 56), (H S6 64), (H S7 72), (H S8 80),
      (H S9 88), (H S10 96), (H S11 104) by slot_in.
    repeat (apply f_equal2; [f_equal; lia|]). reflexivity.
  - intros [= H1 H2 H3 H4 H5 H6 H7 H8 H9 H10 H11 H12 H13 H14] r o.
    unfold ctx_slots. rewrite !elem_of_cons, elem_of_nil.
    intros Hc. repeat destruct Hc as [[= -> ->]|Hc]; [..|done]; (etransitivity; [eassumption|f_equal; lia]).
Qed.

Section Swtch.
Context (tr : Z -> Z -> Z) (addr_of : list instr -> Z).
#[local] Abbreviation run := (run tr addr_of).

(** The kernel maps the contexts, which are in its data, at their own address. *)
Definition direct (satp a n : Z) : Prop := forall o, 0 <= o < n -> tr satp (u64 (a + o)) = a + o.

Lemma swtch_ok h old new :
  words h -> h_reg h A0 = old -> h_reg h A1 = new ->
  direct (h_satp h) old 112 -> direct (h_satp h) new 112 -> old + 112 <= new \/ new + 112 <= old ->
  exists h', run swtch_S h = (h', XJump (ctx_ra (ctx_at (h_mem h) new))) /\
    ctx_of (h_reg h') = ctx_at (h_mem h) new /\ ctx_of (h_reg h) = ctx_at (h_mem h') old /\
    (forall x, ~ (old <= x < old + 112) -> h_mem h' x = h_mem h x) /\
    (forall r, r ∉ ctx_slots.*1 -> h_reg h' r = h_reg h r).
Proof.
  intros W Ho Hn Do Dn Hd. change swtch_S with (saves ctx_slots A0 ++ loads ctx_slots A1 ++ [Ret]).
  rewrite run_saves with (pa := old)
    by (intros o Hin; apply ctx_slots_range in Hin; rewrite rd_reg, Ho by done; apply Do; lia).
  assert (Hsave : save_mem old ctx_slots (rd_ h) (h_mem h) = save_mem old ctx_slots (h_reg h) (h_mem h)).
  { apply save_mem_ext. intros r o Hin. apply rd_reg. intros ->. revert Hin. apply (bool_decide_unpack _). vm_compute. exact I. }
  rewrite Hsave. set (m1 := save_mem old ctx_slots (h_reg h) (h_mem h)).
  assert (Hin : forall r o, (r, o) ∈ ctx_slots -> h_reg h r = load64 (old + o) m1).
  { intros r o Hin. symmetry. apply save_mem_in; [apply ctx_slots_ok|apply (w_reg _ W)|exact Hin]. }
  assert (Hf : forall x, ~ (old <= x < old + 112) -> m1 x = h_mem h x).
  { intros x Hx. apply save_mem_out. intros o Hi. apply ctx_slots_range in Hi. lia. }
  clearbody m1. clear Hsave.
  rewrite run_loads with (pa := new).
  2: { apply (bool_decide_unpack _). vm_compute. exact I. }
  2: { intros o Hi. apply ctx_slots_range in Hi. change (rd_ _ A1) with (h_reg h A1). rewrite Hn. apply Dn. lia. }
  assert (Hl : forall r o, (r, o) ∈ ctx_slots -> load_regs new ctx_slots m1 (h_reg h) r = load64 (new + o) (h_mem h)).
  { intros r o Hi. rewrite (load_regs_in new ctx_slots m1 (h_reg h) r o ctx_slots_ok Hi).
    apply elem_of_snd, ctx_slots_range in Hi. apply mload_agree. intros x Hx. apply Hf. lia. }
  pose proof (load_regs_out new ctx_slots m1 (h_reg h)) as Hout. simpl h_mem. simpl h_reg.
  revert Hl Hout. generalize (load_regs new ctx_slots m1 (h_reg h)). intros f Hl Hout.
  exists (h <| h_mem := m1 |> <| h_reg := f |>). split; [|split; [apply ctx_eq, Hl|split; [apply ctx_eq, Hin|split; [exact Hf|exact Hout]]]].
  cbn [run]. do 2 f_equal. change (f RA = load64 new (h_mem h)). rewrite (Hl RA 0) by slot_in. f_equal. lia.
Qed.

(** C15: A context switch keeps both threads.  [swtch(old, new)] saves the
    return address, stack pointer and callee-saved registers in [old], loads
    those of [new] and continues at the return address stored there.  Any
    later [swtch(cur, old)], on this hart or another, with [old] as it was
    left, continues where the first one was called, with the same
    callee-saved registers and stack. *)
Theorem swtch_roundtrip (h : hart) (old new : Z) (W : words h)
    (Ho : h_reg h A0 = old) (Hn : h_reg h A1 = new) (Hd : old + 112 <= new \/ new + 112 <= old)
    (Do : direct (h_satp h) old 112) (Dn : direct (h_satp h) new 112) :
  exists h1, run swtch_S h = (h1, XJump (ctx_ra (ctx_at (h_mem h) new))) /\
    ctx_of (h_reg h1) = ctx_at (h_mem h) new /\
    (forall x, ~ (old <= x < old + 112) -> h_mem h1 x = h_mem h x) /\
    forall h2 cur, words h2 -> h_reg h2 A0 = cur -> h_reg h2 A1 = old -> cur + 112 <= old \/ old + 112 <= cur ->
      direct (h_satp h2) cur 112 -> direct (h_satp h2) old 112 -> agree (h_mem h1) (h_mem h2) old 112 ->
      exists h3, run swtch_S h2 = (h3, XJump (h_reg h RA)) /\ ctx_of (h_reg h3) = ctx_of (h_reg h).
Proof.
  destruct (swtch_ok h old new W Ho Hn Do Dn Hd) as (h1 & E1 & Hc1 & Hs1 & Hf1 & _).
  exists h1. split; [exact E1|]. split; [exact Hc1|]. split; [exact Hf1|].
  intros h2 cur W2 Ho2 Hn2 Hd2 Dc2 Do2 Hg.
  destruct (swtch_ok h2 cur old W2 Ho2 Hn2 Dc2 Do2 Hd2) as (h3 & E3 & Hc3 & _).
  assert (Hctx : ctx_at (h_mem h2) old = ctx_of (h_reg h)).
  { symmetry. apply ctx_eq. intros r o Hin. rewrite <- ctx_eq in Hs1. rewrite (Hs1 r o Hin).
    apply elem_of_snd, ctx_slots_range in Hin. apply mload_agree, (agree_sub _ _ _ _ _ _ Hg); lia. }
  exists h3. rewrite E3, Hc3, Hctx. done.
Qed.
End Swtch.

Lemma swtch_roundtrip_witness :
  exists h1, run (fun _ va => va) (fun _ => 0) swtch_S (demo_hart <| h_reg := upd_reg (h_reg demo_hart) A1 4096 |>) =
    (h1, XJump 0).
Proof.
  set (h := demo_hart <| h_reg := upd_reg (h_reg demo_hart) A1 4096 |>).
  assert (W : words h) by (apply (wr_words _ A1 4096 demo_words); done).
  assert (D : forall a, 0 <= a < 8192 -> direct (fun _ va => va) (h_satp h) a 112).
  { intros a Ha o Ho. apply u64_small. lia. }
  destruct (swtch_roundtrip (fun _ va => va) (fun _ => 0) h 7 4096 W eq_refl eq_refl) as (h1 & E & _);
    [left; lia|apply D; lia|apply D; lia|].
  exists h1. exact E.
Defined.

(** ** Interrupts in the kernel *)

Definition kv_saves : slots := (RA, 0) :: (GP, 16) :: (TP, 24) :: drop 2 kv_slots.
Definition kv_restore : list instr := loads kv_slots SP ++ [Addi SP SP 256; Sret].

Lemma kernelvec_eq kt : kernelvec kt = Addi SP SP (-256) :: saves kv_saves SP ++ Call kt :: kv_restore.
Proof. reflexivity. Qed.

Lemma kv_saves_ok : slots_ok kv_saves.
Proof. slots_tac. Qed.
Lemma kv_saves_range o : o ∈ kv_saves.*2 -> 0 <= o /\ o + 8 <= 248.
Proof. revert o. apply Forall_forall. repeat constructor; vm_compute; discriminate. Qed.

Lemma kv_saved r o : (r, o) ∈ kv_slots -> (r, o) ∈ kv_saves /\ r <> SP /\ r <> ZERO.
Proof.
  assert (H : Forall (fun x => x ∈ kv_saves /\ x.1 <> SP /\ x.1 <> ZERO) kv_slots)
    by (apply (bool_decide_unpack _); vm_compute; exact I).
  intros Hin. exact (Forall_elem _ _ _ H Hin).
Qed.

(** The registers that a C function preserves. *)
Definition callee_saved : list reg := [SP; S0; S1; S2; S3; S4; S5; S6; S7; S8; S9; S10; S11].

(** Every register but [tp] is in the frame or preserved by C code. *)
Lemma kv_all r : r <> ZERO -> r <> TP -> (exists o, (r, o) ∈ kv_slots) \/ ((r ∈ callee_saved) /\ (r ∉ kv_slots.*1)).
Proof.
  intros Hz Ht. destruct r; try done;
    first [left; eexists; slot_in; fail|right; split; apply (bool_decide_unpack _); vm_compute; exact I].
Qed.

Section Kernelvec.
Context (tr : Z -> Z -> Z) (addr_of : list instr -> Z).
#[local] Abbreviation run := (run tr addr_of).

Lemma kv_enter kt h pa :
  words h -> 256 <= h_reg h SP ->
  (forall o, 0 <= o < 256 -> tr (h_satp h) (h_reg h SP - 256 + o) = pa + o) ->
  exists h1, run (kernelvec kt) h = (h1, XCall kt kv_restore) /\ h_reg h1 SP = h_reg h SP - 256 /\ h_satp h1 = h_satp h /\
    (forall r, r <> SP -> r <> RA -> h_reg h1 r = h_reg h r) /\
    (forall r o, (r, o) ∈ kv_slots -> load64 (pa + o) (h_mem h1) = h_reg h r) /\
    (forall x, ~ (pa <= x < pa + 256) -> h_mem h1 x = h_mem h x).
Proof.
  intros W Hsp Ht. pose proof (w_reg _ W SP) as Hw. unfold word in Hw.
  rewrite kernelvec_eq, run_cons by done.
  change (exec1 tr (Addi SP SP (-256)) h) with (wr_ SP (u64 (h_reg h SP + -256)) h).
  replace (u64 (h_reg h SP + -256)) with (h_reg h SP - 256) by (rewrite u64_small; lia).
  set (h0 := wr_ SP (h_reg h SP - 256) h). assert (E0 : h_reg h0 SP = h_reg h SP - 256) by apply upd_reg_eq.
  rewrite run_saves with (pa := pa).
  2: { intros o Ho. apply kv_saves_range in Ho. rewrite rd_reg, E0, u64_small by (done || lia). apply Ht. lia. }
  set (m1 := save_mem pa kv_saves (rd_ h0) (h_mem h0)).
  assert (Hm : forall r o, (r, o) ∈ kv_slots -> load64 (pa + o) m1 = h_reg h r).
  { intros r o Hin. destruct (kv_saved r o Hin) as (Hi & Hs & Hz).
    assert (Hr : rd_ h0 r = h_reg h r) by (rewrite rd_reg by done; by apply upd_reg_ne).
    rewrite <- Hr. apply save_mem_in; [apply kv_saves_ok|rewrite Hr; apply (w_reg _ W)|exact Hi]. }
  assert (Hf : forall x, ~ (pa <= x < pa + 256) -> m1 x = h_mem h x).
  { intros x Hx. apply save_mem_out. intros o Ho. apply kv_saves_range in Ho. lia. }
  clearbody m1. exists (wr_ RA (u64 (addr_of kv_restore)) (h0 <| h_mem := m1 |>)).
  split; [reflexivity|]. split; [exact E0|]. split; [reflexivity|]. split; [|split; [exact Hm|exact Hf]].
  intros r H1 H2. simpl. rewrite upd_reg_ne by done. by apply upd_reg_ne.
Qed.

Lemma kv_leave h pa sp :
  word sp -> 256 <= sp -> h_reg h SP = sp - 256 -> (forall o, 0 <= o < 256 -> tr (h_satp h) (sp - 256 + o) = pa + o) ->
  exists h', run kv_restore h = (h', XSret) /\ h_mem h' = h_mem h /\ h_reg h' SP = sp /\
    (forall r o, (r, o) ∈ kv_slots -> h_reg h' r = load64 (pa + o) (h_mem h)) /\
    (forall r, r <> SP -> r ∉ kv_slots.*1 -> h_reg h' r = h_reg h r).
Proof.
  intros Hw Hsp E Ht. unfold word in Hw. unfold kv_restore. rewrite run_loads with (pa := pa).
  2: { apply (bool_decide_unpack _). vm_compute. exact I. }
  2: { intros o Ho. apply kv_slots_range in Ho. rewrite rd_reg, E, u64_small by (done || lia). apply Ht. lia. }
  assert (Hin : forall r o, (r, o) ∈ kv_slots -> load_regs pa kv_slots (h_mem h) (h_reg h) r = load64 (pa + o) (h_mem h)).
  { intros r o. apply load_regs_in, kv_slots_ok. }
  pose proof (load_regs_out pa kv_slots (h_mem h) (h_reg h)) as Hout.
  revert Hin Hout. generalize (load_regs pa kv_slots (h_mem h) (h_reg h)). intros f Hin Hout.
  assert (Ef : f SP = sp - 256) by (rewrite Hout; [exact E|]; apply (bool_decide_unpack _); vm_compute; exact I).
  exists (wr_ SP sp (h <| h_reg := f |>)). split; [|split; [done|split; [apply upd_reg_eq|split]]].
  - rewrite run_cons by done. cbn [run]. f_equal.
    change (wr_ SP (u64 (f SP + 256)) (h <| h_reg := f |>) = wr_ SP sp (h <| h_reg := f |>)).
    rewrite Ef, u64_small by lia. f_equal. lia.
  - intros r o Hi. simpl. rewrite upd_reg_ne by apply (kv_saved r o Hi). by apply Hin.
  - intros r Hr Hn. simpl. rewrite upd_reg_ne by done. by apply Hout.
Qed.

(** C16: Kernel code that is interrupted does not notice.  [kernelvec] calls
    [kerneltrap()] with a frame of 256 bytes below the stack pointer and
    changes no other memory; if [kerneltrap()] keeps the frame, the stack
    pointer and the callee-saved registers, as compiled C code does, then at
    [sret] every register is as it was at the interrupt, except for [tp],
    which names the hart that the thread runs on now. *)
Theorem kernelvec_transparent (h : hart) (kt pa : Z) (W : words h) (Hsp : 256 <= h_reg h SP)
    (Ht : forall o, 0 <= o < 256 -> tr (h_satp h) (h_reg h SP - 256 + o) = pa + o) :
  exists h1 rest, run (kernelvec kt) h = (h1, XCall kt rest) /\ h_reg h1 SP = h_reg h SP - 256 /\
    (forall x, ~ (pa <= x < pa + 256) -> h_mem h1 x = h_mem h x) /\
    forall h2, (forall r, r ∈ callee_saved -> h_reg h2 r = h_reg h1 r) -> h_satp h2 = h_satp h1 ->
      agree (h_mem h1) (h_mem h2) pa 256 ->
      exists h3, run rest h2 = (h3, XSret) /\ h_mem h3 = h_mem h2 /\ h_reg h3 TP = h_reg h2 TP /\
        forall r, r <> ZERO -> r <> TP -> h_reg h3 r = h_reg h r.
Proof.
  destruct (kv_enter kt h pa W Hsp Ht) as (h1 & E1 & Hsp1 & Hsa1 & Hr1 & Hm1 & Hf1).
  exists h1, kv_restore. split; [exact E1|]. split; [exact Hsp1|]. split; [exact Hf1|].
  intros h2 Hcs Hsa2 Hg.
  destruct (kv_leave h2 pa (h_reg h SP) (w_reg _ W SP) Hsp) as (h3 & E3 & Hm3 & Hsp3 & Hin3 & Hout3).
  { rewrite Hcs by slot_in. exact Hsp1. }
  { by rewrite Hsa2, Hsa1. }
  exists h3. split; [exact E3|]. split; [exact Hm3|]. split.
  - apply Hout3; [done|]. apply (bool_decide_unpack _). vm_compute. exact I.
  - intros r Hz Htp. destruct (kv_all r Hz Htp) as [[o Ho]|[Hc Hn]].
    + rewrite (Hin3 r o Ho), <- (Hm1 r o Ho). symmetry. apply elem_of_snd, kv_slots_range in Ho.
      apply mload_agree, (agree_sub _ _ _ _ _ _ Hg); lia.
    + destruct (decide (r = SP)) as [->|Hs]; [exact Hsp3|]. rewrite Hout3, Hcs by done. apply Hr1; [done|].
      intros ->. revert Hc. apply (bool_decide_unpack _). vm_compute. exact I.
Qed.
End Kernelvec.

Lemma kernelvec_transparent_witness :
  exists h1 rest, run (fun _ va => va) (fun _ => 0) (kernelvec 100) (wr_ SP 8192 demo_hart) = (h1, XCall 100 rest) /\
    h_reg h1 SP = 7936.
Proof.
  assert (W : words (wr_ SP 8192 demo_hart)) by (apply wr_words; [apply demo_words|done]).
  destruct (kernelvec_transparent (fun _ va => va) (fun _ => 0) (wr_ SP 8192 demo_hart) 100 7936 W) as (h1 & rest & E & H & _);
    [vm_compute; congruence|intros o _; change (8192 - 256 + o = 7936 + o); lia|].
  exists h1, rest. split; [exact E|exact H].
Defined.

(** ** Booting: each hart gets a page of [stack0] of its own. *)
Lemma entry_stack tr addr_of stack0 start h :
  words h -> 0 <= stack0 -> stack0 + 4096 * Z.of_nat NCPU < 18446744073709551616 -> h_mhartid h < Z.of_nat NCPU ->
  exists h', run tr addr_of (_entry stack0 start) h = (h', XCall start []) /\
    h_reg h' SP = stack0 + 4096 * (h_mhartid h + 1) /\ h_mem h' = h_mem h.
Proof.
  intros W H0 H1 H2. pose proof (w_mhartid _ W) as [Hh _]. change (Z.of_nat NCPU) with 8 in *.
  eexists. split; [reflexivity|]. split; [|reflexivity].
  transitivity (u64 (u64 stack0 + u64 (4096 * u64 (h_mhartid h + 1)))); [reflexivity|].
  rewrite (u64_small (h_mhartid h + 1)), (u64_small stack0) by lia.
  rewrite (u64_small (4096 * _)), u64_small by lia. reflexivity.
Qed.

(** Registers are 64-bit words: whatever instructions run, from a state
    in which all registers hold values below [2^64] no instruction produces
    a value outside, so that every value fits the 8 bytes it is saved in. *)
Theorem run_words (tr : Z -> Z -> Z) (addr_of : list instr -> Z) (c : list instr) (h : hart) (W : words h) :
  words (run tr addr_of c h).1.
Proof.
  revert h W. induction c as [|i c IH]; intros h W; [exact W|].
  destruct (straight i) eqn:Hs; [rewrite run_cons by exact Hs; by apply IH, exec1_words|].
  destruct i; try done; cbn; auto using wr_words, u64_word.
Qed.

