(* ===== verification/FsDev.v ===== *)
(** * A file system on an ideal disk

    The state on which the theorems about kernel/fs.c are proved: blocks are
    named by their number and always in memory, a buffer is locked from
    [bread] to [brelse], and [log_write] records the block as part of the
    transaction.  Beside the disk there are the processes and the open files.
    A block that is not of the file system is a panic.  A single
    thread runs: to lock a locked buffer or inode is a deadlock, and shows as a
    panic. *)

From S2P Require Import Prelude Kmonad Mem Riscv Kalloc Cstring Vm Proc Iface Sleeplock Bio Log Fs Usr.

Record dstate := Dstate {
  d_blk : Z -> mem;
  d_locked : gset Z;
  d_dirty : gset Z;
  d_fs : fsst;
  d_usr : usr;
}.
#[global] Instance eta_dstate : Eta dstate := fun r => Dstate (d_blk r) (d_locked r) (d_dirty r) (d_fs r) (d_usr r).

(** [f] with the value at [n] replaced. *)
Definition blk_set (f : Z -> mem) (n : Z) (m : mem) : Z -> mem := fun x => if decide (x = n) then m else f x.

Definition lockb (n : Z) (s : dstate) : dstate := s <| d_locked ::= (fun l => {[n]} ∪ l) |>.
Definition unlockb (n : Z) (s : dstate) : dstate := s <| d_locked ::= (fun l => l ∖ {[n]}) |>.
Definition setb (n : Z) (m : mem) (s : dstate) : dstate := s <| d_blk ::= (fun f => blk_set f n m) |>.
Definition dirtyb (n : Z) (s : dstate) : dstate := s <| d_dirty ::= (fun l => {[n]} ∪ l) |>.

(** The blocks a transaction may use: on the only disk, behind the boot block
    and the superblock, and not in the area of the log. *)
Definition served (dev n : Z) (s : dstate) : Prop :=
  dev = ROOTDEV /\ 2 <= n < 2147483648 /\ ~ in_log (sb_logstart (fs_sb (d_fs s))) n.
#[global] Instance served_dec dev n s : Decision (served dev n s).
Proof. unfold served, in_log. apply _. Defined.

#[global] Instance d_block_dev : BlockDev dstate := {|
  bd_bread dev n := fun t s =>
    if decide (n ∈ d_locked s) then OPanic "deadlock"
    else if decide (served dev n s) then ORet (Z.to_nat n) t (lockb n s)
    else OPanic "bad block";
  bd_bwrite _ := panic "bwrite";
  bd_brelse b := fun t s =>
    if decide (Z.of_nat b ∈ d_locked s) then ORet tt t (unlockb (Z.of_nat b) s) else OPanic "brelse";
  bd_bpin _ := ret tt;
  bd_bunpin _ := ret tt;
  bd_blockno b _ := Z.of_nat b;
  bd_data b s := d_blk s (Z.of_nat b);
  bd_set b m s := setb (Z.of_nat b) m s;
|}.

#[global] Instance d_log_ops : LogOps dstate := {|
  op_begin := ret tt;
  op_end := ret tt;
  op_log_write b := modify (dirtyb (Z.of_nat b));
  op_initlog _ _ := ret tt;
|}.

#[global] Instance d_sleep_ops : SleepOps dstate := {|
  op_sleep _ _ := panic "deadlock";
  op_wakeup _ := ret tt;
  op_pid := ret 1;
|}.

#[global] Instance d_has_fs : Has dstate fsst := Lens d_fs (fun x s => s <| d_fs := x |>).
#[global] Instance d_fuel : Fuel := 1%nat.

#[global] Instance d_has_usr : Has dstate usr := Lens d_usr (fun x s => s <| d_usr := x |>).

(** Copies to and from the memory of the process that runs, as the kernel does
    them.  One case is left out: when a copy into a block fails half way, the
    kernel has changed the buffer and does not log it, so what later reads
    give depends on when the buffer is recycled.  Like the other misuses of
    the disk it shows as a panic. *)
#[global] Instance d_user_ops {L : LinkMap} : UserOps dstate := {|
  op_copyout d l := inpart (either_copyout d l);
  op_copyin src n :=
    let* a := inpart (either_copyin src n) in
    if (fst a =? -1) && (0 <? length (snd a))%nat then panic "torn copy" else ret a;
  op_cwd := inpart (let* i := myproc in let* p := getp i in ret (pr_cwd p));
|}.

(** Kernel variables are copied as they are. *)
Lemma put_usr (s : dstate) : lput (has : lens dstate usr) (lget has s) s = s.
Proof. by destruct s. Qed.
Lemma put_proc (s : dstate) : lput (has : lens dstate pst) (lget has s) s = s.
Proof. destruct s as [f l d fs u]. by destruct u. Qed.

Lemma copyin_var {L : LinkMap} l n t (s : dstate) : op_copyin (SVar l) n t s = ORet (0, take n l) t s.
Proof. destruct s as [f lk d fs u]. by destruct u. Qed.
Lemma copyout_var {L : LinkMap} l t (s : dstate) : op_copyout DVar l t s = ORet 0 t s.
Proof. destruct s as [f lk d fs u]. by destruct u. Qed.

(** ** One buffer *)

Lemma blk_set_eq f n m : blk_set f n m n = m.
Proof. unfold blk_set. by rewrite decide_True. Qed.
Lemma blk_set_ne f n m x : x <> n -> blk_set f n m x = f x.
Proof. intros. unfold blk_set. by rewrite decide_False. Qed.

Lemma unlock_lock n s : n ∉ d_locked s -> unlockb n (lockb n s) = s.
Proof.
  intros Hn. destruct s as [f l d fs u]. unfold unlockb, lockb. simpl in *. f_equal.
  apply leibniz_equiv. intros x. rewrite elem_of_difference, elem_of_union, elem_of_singleton.
  destruct (decide (x = n)) as [->|]; tauto.
Qed.

Lemma lockb_in n s : n ∈ d_locked (lockb n s).
Proof. apply elem_of_union_l, elem_of_singleton_2. reflexivity. Qed.

Lemma in_lockb n b s : b ∈ d_locked (lockb n s) <-> b = n \/ b ∈ d_locked s.
Proof. unfold lockb. cbn. by rewrite elem_of_union, elem_of_singleton. Qed.

Lemma bread_d dev n t s :
  n ∉ d_locked s -> served dev n s -> bd_bread dev n t s = ORet (Z.to_nat n) t (lockb n s).
Proof. intros Hn Hs. cbn. by rewrite decide_False, decide_True. Qed.

Lemma brelse_d n t s :
  0 <= n -> n ∈ d_locked s -> bd_brelse (Z.to_nat n) t s = ORet tt t (unlockb n s).
Proof. intros H0 Hn. cbn. rewrite Z2Nat.id, decide_True by auto. reflexivity. Qed.

Lemma data_d n s : 0 <= n -> bd_data (Z.to_nat n) s = d_blk s n.
Proof. intros H0. cbn. by rewrite Z2Nat.id. Qed.

Lemma set_data_d n g t s :
  0 <= n -> set_data (Z.to_nat n) g t s = ORet tt t (setb n (g (d_blk s n)) s).
Proof. intros H0. unfold set_data, modify. cbn. by rewrite Z2Nat.id. Qed.

Lemma log_write_d n t s :
  0 <= n -> op_log_write (Z.to_nat n) t s = ORet tt t (dirtyb n s).
Proof. intros H0. cbn. by rewrite Z2Nat.id. Qed.

(** Read block [n], change it by [g], log it and release it. *)
Definition edit (n : Z) (g : mem -> mem) (s : dstate) : dstate := dirtyb n (setb n (g (d_blk s n)) s).

#[global] Arguments edit : simpl never.

Lemma edit_blk n g s : d_blk (edit n g s) = blk_set (d_blk s) n (g (d_blk s n)).
Proof. reflexivity. Qed.

Lemma edit_locked n g t s :
  0 <= n -> n ∉ d_locked s ->
  (set_data (Z.to_nat n) g ;; op_log_write (Z.to_nat n) ;; bd_brelse (Z.to_nat n)) t (lockb n s) =
  ORet tt t (edit n g s).
Proof.
  intros H0 Hn. kstep (set_data_d n g t (lockb n s) H0).
  kstep (log_write_d n t (setb n (g (d_blk (lockb n s) n)) (lockb n s)) H0).
  rewrite brelse_d; [|exact H0|apply (lockb_in n s)].
  f_equal. rewrite <- (unlock_lock n (edit n g s)) by exact Hn. reflexivity.
Qed.

(** The same in front of more code. *)
Lemma edit_locked_bind {A} n g t s (k : M dstate A) :
  0 <= n -> n ∉ d_locked s ->
  (set_data (Z.to_nat n) g ;; op_log_write (Z.to_nat n) ;; bd_brelse (Z.to_nat n) ;; k) t (lockb n s) =
  k t (edit n g s).
Proof.
  intros H0 Hn. pose proof (edit_locked n g t s H0 Hn) as E. revert E.
  rewrite (bind_ret _ _ _ _ _ _ _ (set_data_d n g t (lockb n s) H0)).
  rewrite (bind_ret _ _ _ _ _ _ _ (set_data_d n g t (lockb n s) H0)).
  rewrite !(bind_ret _ _ _ _ _ _ _ (log_write_d n t (setb n (g (d_blk (lockb n s) n)) (lockb n s)) H0)).
  intros E. by rewrite (bind_ret _ _ _ _ _ _ _ E).
Qed.
