(* ===== verification/FsSim.v ===== *)
(** * The file system on the buffer cache and the log

    The code of fs.c inside a transaction, on the buffer cache of Bio.v with
    the log of Log.v, does what it does on the ideal disk of FsDev.v: the
    blocks have the contents of the ideal blocks, the log holds exactly the
    blocks the ideal transaction has changed, and the results are the same.
    An operation has room when it changes at most [MAXOPBLOCKS] blocks. *)

From S2P Require Import Prelude Kmonad Mem Riscv Kalloc Cstring Vm Proc Iface Sleeplock Bio Disk BioSpec Log LogSpec Sim Fs Usr CacheSim LogSim FsDev.

(** ** The relation *)

(** The buffers the thread has locked. *)
Abbreviation opens := (gmap Z (nat * bstatus)).

(** The blocks of the file system with a log at [start]. *)
Definition fs_block (start n : Z) : Prop := 2 <= n < 2147483648 /\ ~ in_log start n.

(** What the kernel sees of block [n]. *)
Definition seen (w : world) (a : astate) (n : Z) : mem := if refs w n =? 0 then dsk a n else a_buf a n.

Record in_tx (sb : superblock) (w : world) (a : astate) (bs : list Z) (s1 : dstate) : Prop := {
  it_fs : w_fs w = d_fs s1;
  it_usr : w_usr w = d_usr s1;
  it_logged : logged (w_log w) bs;
  it_start : log_start (w_log w) = sb_logstart sb;
  it_sb : fs_sb (d_fs s1) = sb;
  it_dev : log_dev (w_log w) = ROOTDEV;
  it_len : length (lh_block (w_log w)) = Z.to_nat LOGBLOCKS;
  it_outstanding : log_outstanding (w_log w) = 1;
  it_committing : log_committing (w_log w) = 0;
  it_bs : forall b, b ∈ bs -> fs_block (log_start (w_log w)) b;
  it_pins : w_pins w = list_to_set bs;
  it_dirty : d_dirty s1 = list_to_set bs;
  it_locked : d_locked s1 = dom (w_open w);
  it_open : forall n, n ∈ dom (w_open w) -> fs_block (log_start (w_log w)) n;
  it_blk : forall n, fs_block (log_start (w_log w)) n -> beq (d_blk s1 n) (seen w a n);
}.

Definition fs_free (t : tls) : Prop := cache_free t /\ LLog ∉ held t.
Definition dirty_le (s s' : dstate) : Prop := d_dirty s ⊆ d_dirty s'.
Definition fits (s : dstate) : Prop := (size (d_dirty s) <= Z.to_nat MAXOPBLOCKS)%nat.

#[global] Instance dirty_le_preorder : PreOrder dirty_le.
Proof. split; unfold dirty_le; [intros s; done|intros s1 s2 s3; set_solver]. Qed.

Lemma fits_le s s' : dirty_le s s' -> fits s' -> fits s.
Proof. unfold dirty_le, fits. intros H%subseteq_size. lia. Qed.

(** ** What a transaction changed stays changed *)

Lemma dirty_same s s' : d_dirty s' = d_dirty s -> dirty_le s s'.
Proof. unfold dirty_le. by intros ->. Qed.

Create HintDb fgrows.

Abbreviation fgrows m := (grows dirty_le m).

(** Go through the statements; the calls are in the hint database. *)
Ltac fgrow :=
  cbv zeta;
  lazymatch goal with
  | |- forall _, _ => intro; fgrow
  | |- fgrows (bind _ _) => apply grows_bind; [apply _|fgrow|fgrow]
  | |- fgrows (ret _) => apply grows_ret; apply _
  | |- fgrows (panic _) => apply grows_panic
  | |- fgrows (gets _) => apply grows_gets; apply _
  | |- fgrows (acquire _) => apply grows_acquire; apply _
  | |- fgrows (release _) => apply grows_release; apply _
  | |- fgrows (when _ _) => apply grows_when; [apply _|fgrow]
  | |- fgrows (for_each _ _) => apply grows_for_each; [apply _|fgrow]
  | |- fgrows (for_find _ _) => apply grows_for_find; [apply _|fgrow]
  | |- fgrows (loop _ _ _) => apply grows_loop; [apply _|fgrow]
  | |- fgrows (match ?x with _ => _ end) => destruct x; fgrow
  | |- _ => solve [auto with fgrows]
  end.

Lemma fgrows_bread dev n : fgrows (bd_bread dev n : M dstate nat).
Proof.
  intros t s a t' s' E. cbn in E. destruct (decide _); [done|]. destruct (decide _); [|done]. injection E as <- <- <-. by apply dirty_same.
Qed.
Lemma fgrows_brelse b : fgrows (bd_brelse b : M dstate unit).
Proof. intros t s a t' s' E. cbn in E. destruct (decide _); [|done]. injection E as <- <- <-. by apply dirty_same. Qed.
Lemma fgrows_set b g : fgrows (set_data b g : M dstate unit).
Proof. apply grows_modify. intros s. by apply dirty_same. Qed.
Lemma fgrows_log_write b : fgrows (op_log_write b : M dstate unit).
Proof. apply grows_modify. intros s. unfold dirty_le. simpl. set_solver. Qed.
Lemma fgrows_hget : fgrows (hget : M dstate fsst).
Proof. apply grows_gets. apply _. Qed.
Lemma fgrows_hmod (f : fsst -> fsst) : fgrows (hmod f : M dstate unit).
Proof. apply grows_modify. intros s. by apply dirty_same. Qed.
Lemma fgrows_inpart {A} (m : M pst A) : fgrows (inpart m : M dstate A).
Proof.
  intros t s a t' s'. unfold inpart, zoom. destruct (m t _); try discriminate. intros [= <- <- <-]. by apply dirty_same.
Qed.
#[export] Hint Resolve fgrows_inpart : fgrows.
Lemma fgrows_copyout {L : LinkMap} d l : fgrows (op_copyout d l : M dstate Z).
Proof. apply fgrows_inpart. Qed.
Lemma fgrows_copyin {L : LinkMap} src n : fgrows (op_copyin src n : M dstate (Z * list Z)).
Proof. cbn [op_copyin d_user_ops]. fgrow. Qed.
Lemma fgrows_cwd {L : LinkMap} : fgrows (op_cwd : M dstate (option nat)).
Proof. apply fgrows_inpart. Qed.
Lemma fgrows_sleep c lk : fgrows (op_sleep c lk : M dstate unit).
Proof. apply grows_panic. Qed.
Lemma fgrows_wakeup c : fgrows (op_wakeup c : M dstate unit).
Proof. apply grows_ret. apply _. Qed.
Lemma fgrows_pid : fgrows (op_pid : M dstate Z).
Proof. apply grows_ret. apply _. Qed.
#[export] Hint Resolve fgrows_bread fgrows_brelse fgrows_set fgrows_log_write fgrows_hget fgrows_hmod fgrows_copyout
  fgrows_copyin fgrows_cwd fgrows_sleep fgrows_wakeup fgrows_pid : fgrows.

Lemma fgrows_getsb : fgrows (getsb : M dstate _).
Proof. unfold getsb. fgrow. Qed.
Lemma fgrows_geti i : fgrows (geti i : M dstate _).
Proof. unfold geti. fgrow. Qed.
Lemma fgrows_modi i g : fgrows (modi i g : M dstate _).
Proof. unfold modi. fgrow. Qed.
#[export] Hint Resolve fgrows_getsb fgrows_geti fgrows_modi : fgrows.

Lemma fgrows_lput (i : nat) x : fgrows (modify (fun s : dstate => lput (inode_lock i) x s)).
Proof. apply grows_modify. intros s. by apply dirty_same. Qed.
#[export] Hint Resolve fgrows_lput : fgrows.
Lemma fgrows_acquiresleep i : fgrows (acquiresleep (inode_lock i) (SLinode i) : M dstate unit).
Proof. unfold acquiresleep. fgrow. Qed.
Lemma fgrows_releasesleep i : fgrows (releasesleep (inode_lock i) (SLinode i) : M dstate unit).
Proof. unfold releasesleep. fgrow. Qed.
Lemma fgrows_holdingsleep i : fgrows (holdingsleep (inode_lock i) (SLinode i) : M dstate bool).
Proof. unfold holdingsleep. fgrow. Qed.
#[export] Hint Resolve fgrows_acquiresleep fgrows_releasesleep fgrows_holdingsleep : fgrows.

Lemma fgrows_bzero dev b : fgrows (bzero dev b : M dstate unit).
Proof. unfold bzero. fgrow. Qed.
#[export] Hint Resolve fgrows_bzero : fgrows.
Lemma fgrows_balloc dev : fgrows (balloc dev : M dstate Z).
Proof. unfold balloc. fgrow. Qed.
Lemma fgrows_bfree dev b : fgrows (bfree dev b : M dstate unit).
Proof. unfold bfree. fgrow. Qed.
Lemma fgrows_iget dev inum : fgrows (iget dev inum : M dstate nat).
Proof. unfold iget. fgrow. Qed.
Lemma fgrows_idup i : fgrows (idup i : M dstate nat).
Proof. unfold idup. fgrow. Qed.
Lemma fgrows_iupdate i : fgrows (iupdate i : M dstate unit).
Proof. unfold iupdate. fgrow. Qed.
Lemma fgrows_ilock i : fgrows (ilock i : M dstate unit).
Proof. unfold ilock. fgrow. Qed.
Lemma fgrows_iunlock i : fgrows (iunlock i : M dstate unit).
Proof. unfold iunlock. fgrow. Qed.
#[export] Hint Resolve fgrows_balloc fgrows_bfree fgrows_iget fgrows_idup fgrows_iupdate fgrows_ilock fgrows_iunlock : fgrows.

Lemma fgrows_ialloc dev type : fgrows (ialloc dev type : M dstate (option nat)).
Proof. unfold ialloc. fgrow. Qed.
Lemma fgrows_addr i j : fgrows (addr_or_alloc i j : M dstate Z).
Proof. unfold addr_or_alloc. fgrow. Qed.
#[export] Hint Resolve fgrows_ialloc fgrows_addr : fgrows.
Lemma fgrows_bmap i bn : fgrows (bmap i bn : M dstate Z).
Proof. unfold bmap. fgrow. Qed.
Lemma fgrows_itrunc i : fgrows (itrunc i : M dstate unit).
Proof. unfold itrunc. fgrow. Qed.
#[export] Hint Resolve fgrows_bmap fgrows_itrunc : fgrows.
Lemma fgrows_iput i : fgrows (iput i : M dstate unit).
Proof. unfold iput. fgrow. Qed.
#[export] Hint Resolve fgrows_iput : fgrows.
Lemma fgrows_iunlockput i : fgrows (iunlockput i : M dstate unit).
Proof. unfold iunlockput. fgrow. Qed.
Lemma fgrows_readi {L : LinkMap} i dst off n : fgrows (readi i dst off n : M dstate _).
Proof. unfold readi. fgrow. Qed.
Lemma fgrows_writei {L : LinkMap} i src off n : fgrows (writei i src off n : M dstate Z).
Proof. unfold writei. fgrow. Qed.
#[export] Hint Resolve fgrows_iunlockput fgrows_readi fgrows_writei : fgrows.
Lemma fgrows_dir_scan {L : LinkMap} {A} msg dp (stop : Z -> list Z -> option A) : fgrows (dir_scan msg dp stop : M dstate _).
Proof. unfold dir_scan. fgrow. Qed.
#[export] Hint Resolve fgrows_dir_scan : fgrows.
Lemma fgrows_dirlookup {L : LinkMap} dp name : fgrows (dirlookup dp name : M dstate _).
Proof. unfold dirlookup. fgrow. Qed.
#[export] Hint Resolve fgrows_dirlookup : fgrows.
Lemma fgrows_dirlink {L : LinkMap} dp name inum : fgrows (dirlink dp name inum : M dstate Z).
Proof. unfold dirlink. fgrow. Qed.
Lemma fgrows_namex {L : LinkMap} path b name : fgrows (namex path b name : M dstate _).
Proof. unfold namex, deref. fgrow. Qed.
#[export] Hint Resolve fgrows_dirlink fgrows_namex : fgrows.

Section FsSim.
(** The disk does not change within the transaction. *)
Context (sb : superblock) (base : disk) (tr : list (Z * mem)).

Definition disk_rel (o : opens) (s1 : dstate) (s2 : bst fsx) : Prop :=
  exists w a bs, cache_rel w a s2 /\ w_open w = o /\ a_base a = base /\ a_trace a = tr /\ in_tx sb w a bs s1.

Definition fsim {A B} (o : opens) (m1 : M dstate A) (m2 : M (bst fsx) B) (Q : opens -> A -> B -> Prop) : Prop :=
  sim disk_rel fs_free fits o m1 m2 Q.

Lemma fsim_bind {A A' B B'} o (m1 : M dstate A) (m2 : M (bst fsx) B) (f1 : A -> M dstate A') (f2 : B -> M (bst fsx) B') Q Q' :
  fsim o m1 m2 Q -> (forall a, grows dirty_le (f1 a)) -> (forall o' a b, Q o' a b -> fsim o' (f1 a) (f2 b) Q') ->
  fsim o (bind m1 f1) (bind m2 f2) Q'.
Proof. apply sim_bind. exact fits_le. Qed.

Lemma fsim_bind_same {A A' B'} o (m1 : M dstate A) (m2 : M (bst fsx) A) (f1 : A -> M dstate A') (f2 : A -> M (bst fsx) B') Q' :
  fsim o m1 m2 (same o) -> (forall a, grows dirty_le (f1 a)) -> (forall a, fsim o (f1 a) (f2 a) Q') ->
  fsim o (bind m1 f1) (bind m2 f2) Q'.
Proof. apply sim_bind_same. exact fits_le. Qed.

(** ** Buffers *)

Lemma dirty_length w a bs s1 : in_tx sb w a bs s1 -> size (d_dirty s1) = length bs.
Proof. intros I. rewrite (it_dirty _ _ _ _ _ I). apply size_list_to_set, (lg_nodup _ _ (it_logged _ _ _ _ _ I)). Qed.

Lemma opened_dom w n : opened w n = bool_decide (n ∈ dom (w_open w)).
Proof. unfold opened. apply bool_decide_ext. by rewrite elem_of_dom. Qed.

Lemma fsim_bread o dev n :
  (size o <= 1)%nat ->
  fsim o (bd_bread dev n) (bd_bread dev n)
    (fun o' b1 b2 => b1 = Z.to_nat n /\ o' = <[n := (b2, BKept)]> o /\ o !! n = None).
Proof.
  intros Ho t s1 s2 b t' s1' [HT HL] (w & a & bs & C & <- & Hb & Ht & I) E HF. cbn in E.
  destruct (decide (n ∈ d_locked s1)) as [|Hn]; [done|]. destruct (decide (served dev n s1)) as [[-> [Hr Hl]]|]; [|done].
  injection E as <- <- <-. rewrite (it_locked _ _ _ _ _ I) in Hn.
  assert (Hop : opened w n = false) by (rewrite opened_dom; by apply bool_decide_eq_false_2).
  destruct (bread_rel w a s2 t C HT n ltac:(lia) Hop) as (i & s' & E' & C').
  { unfold fits in HF. simpl in HF. rewrite (dirty_length _ _ _ _ I) in HF. unfold w_size. rewrite (it_pins _ _ _ _ _ I).
    pose proof (lg_nodup _ _ (it_logged _ _ _ _ _ I)). rewrite size_list_to_set by done. unfold NBUF.
    change (Z.to_nat MAXOPBLOCKS) with 10%nat in HF. lia. }
  exists (<[n := (i, BKept)]> (w_open w)), i, s'. split; [exact E'|]. split; [|split; [|by split]].
  2:{ split_and!; auto. by apply not_elem_of_dom. }
  exists (set_open n i BKept w), (rd n a), bs. split_and!; auto. destruct I as [I1 Iu I2 I3 Isb I4 I5 I6 I7 Ibs I8 I9 I10 I11 I12].
  rewrite Isb, <- I3 in Hl. split; auto.
  - simpl. by rewrite I10, dom_insert_L.
  - intros m. simpl. rewrite dom_insert_L, elem_of_union, elem_of_singleton. intros [->|Hm]; [by split|by apply I11].
  - intros m Hm. specialize (I12 m Hm). unfold seen in *. rewrite refs_set by exact Hop. pose proof (refs_range w m).
    simpl d_blk. change (dsk (rd n a)) with (dsk a). simpl a_buf. rewrite (cr_ref _ _ _ C).
    destruct (Z.eq_dec m n) as [->|Hne].
    + rewrite Z.eqb_refl, (proj2 (Z.eqb_neq (refs w n + 1) 0)) by lia. destruct (refs w n =? 0); [by rewrite upd_eq|exact I12].
    + rewrite (proj2 (Z.eqb_neq m n) Hne), Z.add_0_r. destruct (refs w n =? 0); [by rewrite upd_ne|exact I12].
Qed.

Lemma fsim_brelse o n i st :
  o !! n = Some (i, st) -> st <> BDirty ->
  fsim o (bd_brelse (Z.to_nat n)) (bd_brelse i) (fun o' _ _ => o' = delete n o).
Proof.
  intros Ho Hst t s1 s2 b t' s1' [HT HL] (w & a & bs & C & <- & Hb & Ht & I) E HF.
  destruct (open_facts w a s2 C n i st Ho) as (_ & _ & H0 & Hs & Hop & _).
  assert (Hin : n ∈ d_locked s1) by (rewrite (it_locked _ _ _ _ _ I), elem_of_dom; eauto).
  rewrite brelse_d in E by auto. injection E as <- <- <-.
  destruct (brelse_rel w a s2 t C HT n i st Ho Hst) as (s' & E' & C').
  exists (delete n (w_open w)), tt, s'. split; [exact E'|]. split; [|by split].
  exists (del_open n w), (rel n a), bs. split_and!; auto. destruct I as [I1 Iu I2 I3 Isb I4 I5 I6 I7 Ibs I8 I9 I10 I11 I12]. split; auto.
  - simpl. by rewrite I10, dom_delete_L.
  - intros m. simpl. rewrite dom_delete_L, elem_of_difference. intros [Hm _]. by apply I11.
  - intros m Hm. specialize (I12 m Hm). unfold seen in *. rewrite refs_del by exact Hop.
    change (dsk (rel n a)) with (dsk a). simpl a_buf. simpl d_blk.
    destruct (Z.eq_dec m n) as [->|Hne]; [|by rewrite (proj2 (Z.eqb_neq m n) Hne), Z.sub_0_r].
    rewrite Z.eqb_refl. unfold refs in *. rewrite Hop in *. destruct (bool_decide_reflect (n ∈ w_pins w)) as [Hp|Hp]; [exact I12|].
    simpl in *. destruct st; [|done|by rewrite <- Hs]. destruct Hs as [Hs|Hs]; [done|by rewrite <- Hs].
Qed.

(** The data of a locked buffer on the two sides. *)
Lemma rel_data o s1 s2 n i st :
  disk_rel o s1 s2 -> o !! n = Some (i, st) -> beq (bd_data (Z.to_nat n) s1) (bd_data i s2).
Proof.
  intros (w & a & bs & C & <- & _ & _ & I) Ho.
  destruct (open_facts w a s2 C n i st Ho) as (_ & _ & H0 & _ & Hop & Hr & _ & _ & Hd & _).
  rewrite data_d by exact H0. change (bd_data i s2) with (b_data (bb s2 i)). rewrite Hd.
  pose proof (it_blk _ _ _ _ _ I n) as Hb. unfold seen in Hb. rewrite (proj2 (Z.eqb_neq (refs w n) 0)) in Hb by lia.
  apply Hb, (it_open _ _ _ _ _ I). rewrite elem_of_dom. eauto.
Qed.

Lemma fsim_data o n i st :
  o !! n = Some (i, st) ->
  fsim o (gets (bd_data (Z.to_nat n))) (gets (bd_data i)) (fun o' m1 m2 => o' = o /\ beq m1 m2).
Proof.
  intros Ho t s1 s2 b t' s1' HT HR [= <- <- <-] _. exists o, (bd_data i s2), s2.
  split; [done|]. split; [exact HR|]. split; [|exact HT]. split; [done|]. by eapply rel_data.
Qed.

Lemma fsim_read {A} o n i st (f : mem -> A) :
  o !! n = Some (i, st) -> (forall m m', beq m m' -> f m = f m') ->
  fsim o (gets (fun s => f (bd_data (Z.to_nat n) s))) (gets (fun s => f (bd_data i s))) (same o).
Proof. intros Ho Hf. apply sim_gets. intros s1 s2 HR. eapply Hf, rel_data; eauto. Qed.

Lemma fsim_set o n i st g :
  o !! n = Some (i, st) -> (forall m m', beq m m' -> beq (g m) (g m')) ->
  fsim o (set_data (Z.to_nat n) g) (set_data i g) (fun o' _ _ => o' = <[n := (i, BDirty)]> o).
Proof.
  intros Ho Hg t s1 s2 b t' s1' HT HR E HF. pose proof (rel_data o s1 s2 n i st HR Ho) as Hbd.
  destruct HR as (w & a & bs & C & <- & Hb & Ht & I).
  destruct (open_facts w a s2 C n i st Ho) as (_ & _ & H0 & _ & Hop & Hr & _ & _ & Hd & _).
  rewrite set_data_d in E by exact H0. injection E as <- <- <-. rewrite data_d in Hbd by exact H0.
  exists (<[n := (i, BDirty)]> (w_open w)), tt, (bd_set i (g (bd_data i s2)) s2). split; [done|]. split; [|by split].
  exists (set_open n i BDirty w), (a <| a_buf := upd (a_buf a) n (g (bd_data i s2)) |>), bs.
  split; [by eapply set_rel|]. split_and!; auto. destruct I as [I1 Iu I2 I3 Isb I4 I5 I6 I7 Ibs I8 I9 I10 I11 I12].
  assert (Hdom : dom (<[n:=(i, BDirty)]> (w_open w)) = dom (w_open w)).
  { rewrite dom_insert_L. assert (n ∈ dom (w_open w)) by (rewrite elem_of_dom; eauto). set_solver. }
  split; auto.
  - simpl. by rewrite Hdom.
  - intros m. simpl. rewrite Hdom. apply I11.
  - intros m Hm. specialize (I12 m Hm). unfold seen in *. rewrite refs_again by exact Hop. simpl.
    destruct (Z.eq_dec m n) as [->|Hne].
    + rewrite blk_set_eq, upd_eq, (proj2 (Z.eqb_neq (refs w n) 0)) by lia. by apply Hg.
    + rewrite blk_set_ne, upd_ne by exact Hne. exact I12.
Qed.

Lemma logged_pins w a bs s1 n (l := w_log w) :
  in_tx sb w a bs s1 -> Z.of_nat (log_slot l n) = lh_n l <-> n ∉ w_pins w.
Proof.
  intros I. pose proof (it_logged _ _ _ _ _ I) as G. rewrite (it_pins _ _ _ _ _ I), elem_of_list_to_set. unfold l.
  rewrite (lg_n _ _ G). destruct (decide (n ∈ bs)) as [Hin|Hin].
  - pose proof Hin as [k Hk]%list_elem_of_lookup. rewrite (log_slot_in _ _ _ _ G (it_len _ _ _ _ _ I) Hk).
    apply lookup_lt_Some in Hk. split; [lia|done].
  - by rewrite (log_slot_out _ _ _ G (it_len _ _ _ _ _ I) Hin).
Qed.

Lemma fsim_log_write o n i st :
  o !! n = Some (i, st) ->
  fsim o (op_log_write (Z.to_nat n)) (op_log_write i) (fun o' _ _ => o' = <[n := (i, BKept)]> o).
Proof.
  intros Ho t s1 s2 b t' s1' [HT HL] (w & a & bs & C & <- & Hb & Ht & I) E HF.
  destruct (open_facts w a s2 C n i st Ho) as (_ & _ & H0 & _ & Hop & Hr & _).
  rewrite log_write_d in E by exact H0. injection E as <- <- <-.
  assert (Hblk : fs_block (log_start (w_log w)) n) by (apply (it_open _ _ _ _ _ I); rewrite elem_of_dom; eauto).
  assert (Hlen : (length bs <= 10)%nat).
  { rewrite <- (dirty_length _ _ _ _ I). apply (fits_le _ (dirtyb n s1)); [unfold dirty_le; simpl; set_solver|exact HF]. }
  pose proof (it_logged _ _ _ _ _ I) as G. pose proof (cr_log _ _ _ C) as El.
  destruct (log_write_ok t a bs n 1 []) as (a' & E' & Hbase & T' & B' & H); rewrite ?El; auto.
  { apply (it_len _ _ _ _ _ I). }
  { split; [rewrite (it_outstanding _ _ _ _ _ I); done|]. split; [repeat constructor; unfold MAXOPBLOCKS; lia|].
    rewrite (lg_n _ _ G). unfold LOGBLOCKS, MAXOPBLOCKS. simpl. lia. }
  { lia. }
  { destruct Hblk. lia. }
  { apply Hblk. }
  destruct (lsim_log_write w n i st Ho (logged_pins _ _ _ _ n I) t a s2 tt t a' HT C E' Logic.I)
    as (w' & [] & s' & E2 & C' & -> & _). set (w' := _ <| w_log ::= log_written n |>) in C'.
  exists (w_open w'), tt, s'. split; [exact E2|]. split; [|done].
  set (bs' := if bool_decide (n ∈ bs) then bs else bs ++ [n]).
  assert (G' : logged (w_log w') bs').
  { rewrite <- (cr_log _ _ _ C'). unfold bs'. destruct (bool_decide (n ∈ bs)); apply H. }
  assert (Hset : list_to_set bs' = {[n]} ∪ (list_to_set bs : gset Z)).
  { unfold bs'. case_bool_decide; set_solver. }
  destruct (log_written_same n (w_log w)) as (W1 & W2 & W3 & W4 & W5).
  exists w', a', bs'. split; [exact C'|]. split; [done|].
  split; [by rewrite Hbase|]. split; [by rewrite T'|].
  assert (Hdsk : dsk a' = dsk a) by (unfold dsk; by rewrite Hbase, T').
  assert (Hseen : forall m, seen w' a' m = seen w a m).
  { intros m. unfold seen. rewrite Hdsk, B'. assert ((refs w' m =? 0) = (refs w m =? 0)) as ->; [|done].
    change (refs w' m) with (refs (add_pin n (set_open n i BKept w)) m). destruct (decide (n ∈ w_pins w)) as [Hp|Hp].
    - replace (add_pin n (set_open n i BKept w)) with (set_open n i BKept w); [by rewrite refs_again|].
      destruct w. unfold add_pin, set_open. simpl in *. f_equal. set_solver.
    - rewrite refs_pin, refs_again by auto. destruct (Z.eq_dec m n) as [->|]; [rewrite Z.eqb_refl; lia|].
      by rewrite (proj2 (Z.eqb_neq m n)), Z.add_0_r. }
  assert (Hdom : dom (w_open w') = dom (w_open w)).
  { unfold w'. simpl. rewrite dom_insert_L. assert (n ∈ dom (w_open w)) by (rewrite elem_of_dom; eauto). set_solver. }
  destruct I as [I1 Iu I2 I3 Isb I4 I5 I6 I7 Ibs I8 I9 I10 I11 I12].
  split; auto; try (unfold w'; simpl; rewrite ?W1, ?W2, ?W3, ?W4, ?W5; done).
  - intros b Hb'. unfold w'. simpl. rewrite W1. unfold bs' in Hb'. case_bool_decide; [by apply Ibs|].
    apply elem_of_app in Hb' as [Hb'|Hb']; [by apply Ibs|]. by apply list_elem_of_singleton in Hb' as ->.
  - rewrite Hset. unfold w'. simpl. by rewrite I8.
  - rewrite Hset. simpl. by rewrite I9.
  - rewrite Hdom. exact I10.
  - intros m. rewrite Hdom. unfold w'. simpl. rewrite W1. apply I11.
  - intros m. unfold w' at 1. simpl. rewrite W1, Hseen. apply I12.
Qed.

(** ** Variables and locks *)

(** Code of the processes that gives back its locks does the same on both
    sides. *)
Lemma fsim_inpart {A} o (m : M pst A) :
  steady m -> fsim o (inpart m : M dstate A) (inpart m) (same o).
Proof.
  intros Hm t s1 s2 x t' s1' HT (w & a & bs & C & Ho & Hb & Ht & I) E HF.
  assert (Eu : lget (has : lens dstate pst) s1 = lget (has : lens (bst fsx) pst) s2).
  { cbn. by rewrite (cr_ext _ _ _ C), <- (it_usr _ _ _ _ _ I). }
  unfold inpart, zoom in E |- *. rewrite Eu in E. destruct (m t _) as [y t1 p| | |] eqn:Em; try discriminate.
  simpl in E |- *. injection E as <- <- <-. pose proof (Hm _ _ _ _ _ Em) as ->.
  eexists o, y, _. split; [reflexivity|]. split; [|done].
  exists (w <| w_usr ::= (fun u => u <| u_proc := p |>) |>), a, bs.
  split; [exact (usr_rel w a s2 C (fun u => u <| u_proc := p |>))|]. split_and!; auto.
  destruct I as [I1 Iu I2 I3 Isb I4 I5 I6 I7 Ibs I8 I9 I10 I11 I12]. split; auto. simpl. by rewrite Iu.
Qed.

Lemma fsim_hget o : fsim o (hget : M dstate fsst) hget (same o).
Proof.
  apply sim_gets. intros s1 s2 (w & a & bs & C & _ & _ & _ & I). simpl. by rewrite (cr_ext _ _ _ C), <- (it_fs _ _ _ _ _ I).
Qed.

Lemma fsim_modify o f1 f2 :
  (forall s1 s2, disk_rel o s1 s2 -> disk_rel o (f1 s1) (f2 s2)) -> fsim o (modify f1) (modify f2) (same o).
Proof. intros H. eapply sim_conseq; [by apply sim_modify|]. by intros o' [] [] ->. Qed.

Lemma fsim_hmod o (f : fsst -> fsst) :
  (forall x, fs_sb (f x) = fs_sb x) -> fsim o (hmod f) (hmod f) (same o).
Proof.
  intros Hf. apply fsim_modify. intros s1 s2 (w & a & bs & C & Ho & Hb & Ht & I). exists (w <| w_fs ::= f |>), a, bs.
  split; [by apply (fs_rel w a s2 C f)|]. split_and!; auto. destruct I as [I1 Iu I2 I3 Isb I4 I5 I6 I7 Ibs I8 I9 I10 I11 I12].
  split; auto; simpl; [by rewrite I1|by rewrite Hf].
Qed.

Lemma fsim_getsb o : fsim o getsb getsb (same o).
Proof.
  apply fsim_bind_same; [apply fsim_hget|intros; apply grows_ret; apply _|]. intros f. by apply sim_ret.
Qed.

Lemma fsim_geti o i : fsim o (geti i) (geti i) (same o).
Proof.
  apply fsim_bind_same; [apply fsim_hget|intros; apply grows_ret; apply _|]. intros f. by apply sim_ret.
Qed.

Lemma fsim_modi o i g : fsim o (modi i g) (modi i g) (same o).
Proof. by apply fsim_hmod. Qed.

(** The locks of the file system itself. *)
Definition fs_lock (lk : lockid) : Prop := (exists i, lk = LSleep (SLinode i)) \/ lk = LItable.

Lemma fsim_acquire o lk : fs_lock lk -> fsim o (acquire lk) (acquire lk) (same o).
Proof.
  intros Hlk. apply sim_acquire. intros t [HT HL]. split; [apply cache_free_lock; [by right|exact HT]|].
  simpl. rewrite elem_of_cons. intros [E|E]; [|done]. destruct Hlk as [[i ->]| ->]; discriminate.
Qed.

Lemma fsim_release o lk : fsim o (release lk) (release lk) (same o).
Proof.
  apply sim_release. intros t [HT HL]. split; [by apply cache_free_unlock|]. simpl. intros H. by apply remove_lock_sub in H.
Qed.
End FsSim.
