(* ===== verification/FsBlock.v ===== *)
(** * The free-block bitmap (kernel/fs.c: [balloc], [bfree])

    The bitmap blocks hold one bit per block of the disk.  [balloc] takes the
    first free block, marks exactly it and clears its contents; [bfree] gives
    back exactly one block, and panics on a free one. *)

From S2P Require Import Prelude Kmonad Mem Riscv Kalloc Cstring Vm Proc Iface Sleeplock Bio Log Fs Usr FsDev.

(** ** Bits of a block *)

Lemma bit_used_testbit m bi :
  0 <= bi -> bit_used m bi = Z.testbit (byte_at m (bi / 8)) (bi mod 8).
Proof.
  intros H0. unfold bit_used, bit_mask. set (x := byte_at m (bi / 8)). set (k := bi mod 8).
  assert (Hk : 0 <= k) by (apply Z.mod_pos_bound; lia).
  rewrite Z.shiftl_1_l. destruct (Z.testbit x k) eqn:E.
  - apply negb_true_iff, Z.eqb_neq. intros Hz.
    assert (Hb : Z.testbit (Z.land x (2 ^ k)) k = true).
    { rewrite Z.land_spec, E, Z.pow2_bits_true by auto. reflexivity. }
    rewrite Hz, Z.bits_0 in Hb. discriminate.
  - apply negb_false_iff, Z.eqb_eq. apply Z.bits_inj'. intros j Hj.
    rewrite Z.land_spec, Z.bits_0. destruct (Z.eq_dec j k) as [->|Hne].
    + by rewrite E.
    + rewrite Z.pow2_bits_false by lia. apply andb_false_r.
Qed.

Lemma testbit_u8 x k : 0 <= k < 8 -> Z.testbit (u8 x) k = Z.testbit x k.
Proof. intros Hk. unfold u8. change 256 with (2 ^ 8). apply Z.mod_pow2_bits_low. lia. Qed.

Lemma byte_bit bi bj : 0 <= bi -> 0 <= bj -> bi / 8 = bj / 8 -> bi mod 8 = bj mod 8 -> bi = bj.
Proof. intros. dlia. Qed.

(** Marking bit [bi] changes that bit and no other. *)
Lemma bit_set m bi bj :
  0 <= bi -> 0 <= bj ->
  bit_used (mstore 1 (bi / 8) (Z.lor (byte_at m (bi / 8)) (bit_mask bi)) m) bj =
  if decide (bj = bi) then true else bit_used m bj.
Proof.
  intros Hi Hj. rewrite !bit_used_testbit by auto. rewrite byte_at_mstore1.
  pose proof (Z.mod_pos_bound bi 8). pose proof (Z.mod_pos_bound bj 8).
  destruct (decide (bj / 8 = bi / 8)) as [E|E].
  - rewrite testbit_u8, Z.lor_spec by lia. unfold bit_mask. rewrite Z.shiftl_1_l.
    case_decide as Hd.
    + subst. rewrite Z.pow2_bits_true by lia. apply orb_true_r.
    + rewrite Z.pow2_bits_false by (intros Hm; apply Hd; symmetry; by apply byte_bit).
      by rewrite orb_false_r, E.
  - by rewrite decide_False by congruence.
Qed.

Lemma bit_clear m bi bj :
  0 <= bi -> 0 <= bj ->
  bit_used (mstore 1 (bi / 8) (Z.land (byte_at m (bi / 8)) (Z.lnot (bit_mask bi))) m) bj =
  if decide (bj = bi) then false else bit_used m bj.
Proof.
  intros Hi Hj. rewrite !bit_used_testbit by auto. rewrite byte_at_mstore1.
  pose proof (Z.mod_pos_bound bi 8). pose proof (Z.mod_pos_bound bj 8).
  destruct (decide (bj / 8 = bi / 8)) as [E|E].
  - rewrite testbit_u8, Z.land_spec, Z.lnot_spec by lia. unfold bit_mask. rewrite Z.shiftl_1_l.
    case_decide as Hd.
    + subst. rewrite Z.pow2_bits_true by lia. apply andb_false_r.
    + rewrite Z.pow2_bits_false by (intros Hm; apply Hd; symmetry; by apply byte_bit).
      by rewrite andb_true_r, E.
  - by rewrite decide_False by congruence.
Qed.

(** ** The bitmap of the disk *)

(** Block [b] is marked in use. *)
Definition used (blk : Z -> mem) (sb : superblock) (b : Z) : bool :=
  bit_used (blk (BBLOCK b sb)) (b mod BPB).

(** The layout that mkfs makes: everything below [data_start] (boot block,
    superblock, log, inodes and bitmap) is marked in use, and the bitmap has a
    bit for each block. *)
Definition data_start (sb : superblock) : Z := sb_bmapstart sb + (sb_size sb + BPB - 1) / BPB.

Record geometry (sb : superblock) : Prop := Geometry {
  geo_size : data_start sb <= sb_size sb < 2 ^ 31;
  geo_log : 2 <= sb_logstart sb /\ sb_logstart sb + LOGBLOCKS < sb_inodestart sb;
  geo_inodes : sb_inodestart sb + sb_ninodes sb / IPB < sb_bmapstart sb;
  geo_ninodes : 0 <= sb_ninodes sb;
}.

Definition meta_used (blk : Z -> mem) (sb : superblock) : Prop :=
  forall b, 0 <= b < data_start sb -> used blk sb b = true.

Lemma IPB_eq : IPB = 16.
Proof. reflexivity. Qed.
Lemma BPB_eq : BPB = 8192.
Proof. reflexivity. Qed.

Lemma geometry_pos sb : geometry sb -> 32 < sb_inodestart sb <= sb_bmapstart sb /\ sb_bmapstart sb < data_start sb <= sb_size sb.
Proof. intros [G1 G2 G3 G4]. unfold data_start in *. rewrite IPB_eq, BPB_eq in *. change LOGBLOCKS with 30 in *. dlia. Qed.

Lemma BBLOCK_eq sb b :
  geometry sb -> 0 <= b < sb_size sb -> BBLOCK b sb = sb_bmapstart sb + b / BPB.
Proof.
  intros G Hb. unfold BBLOCK. rewrite u32_small; [lia|].
  destruct G as [G1 G2 G3 G4]. unfold data_start in *. rewrite IPB_eq, BPB_eq in *.
  change (2 ^ 31) with 2147483648 in *. change LOGBLOCKS with 30 in *. dlia.
Qed.

Lemma BBLOCK_meta sb b :
  geometry sb -> 0 <= b < sb_size sb -> sb_inodestart sb <= BBLOCK b sb < data_start sb.
Proof.
  intros G Hb. rewrite BBLOCK_eq by auto.
  destruct G as [G1 G2 G3 G4]. unfold data_start in *. rewrite IPB_eq, BPB_eq in *.
  change LOGBLOCKS with 30 in *. dlia.
Qed.

(** The blocks after the log are served. *)
Lemma area_served dev n s :
  geometry (fs_sb (d_fs s)) -> dev = ROOTDEV ->
  sb_inodestart (fs_sb (d_fs s)) <= n < sb_size (fs_sb (d_fs s)) -> served dev n s.
Proof.
  intros [G1 G2 G3 G4] -> Hn. unfold served, in_log. change (2 ^ 31) with 2147483648 in *. change LOGBLOCKS with 30 in *.
  split; [done|]. split; lia.
Qed.

(** ** Allocation *)

Lemma first_free_some m n bi :
  first_free m n = Some bi ->
  (bi < n)%nat /\ bit_used m (Z.of_nat bi) = false /\
  forall j, (j < bi)%nat -> bit_used m (Z.of_nat j) = true.
Proof.
  unfold first_free. intros H. apply fmap_Some in H as ([i x] & H & ->).
  apply list_find_Some in H as (Hx & Hb & Hmin). simpl.
  apply lookup_seq in Hx as [-> Hlt]. split; [lia|]. split; [exact Hb|].
  intros j Hj. apply not_false_iff_true. apply (Hmin j j); [|lia].
  apply lookup_seq. lia.
Qed.

Lemma first_free_none m n :
  first_free m n = None -> forall j, (j < n)%nat -> bit_used m (Z.of_nat j) = true.
Proof.
  unfold first_free. intros H j Hj.
  destruct (list_find _ (seq 0 n)) as [[i x]|] eqn:E; [discriminate|].
  apply list_find_None in E. apply not_false_iff_true.
  apply (Forall_elem _ _ j E), elem_of_seq. lia.
Qed.

(** The state after block [b] was taken. *)
Definition take_block (sb : superblock) (b : Z) (s : dstate) : dstate :=
  edit b (mset 0 0 BSIZE)
    (edit (BBLOCK b sb)
       (fun m => mstore 1 (b mod BPB / 8) (Z.lor (byte_at m (b mod BPB / 8)) (bit_mask (b mod BPB))) m) s).

#[global] Arguments take_block : simpl never.

Lemma dirty_edit n g s x : x ∈ d_dirty (edit n g s) -> x = n \/ x ∈ d_dirty s.
Proof. unfold edit, dirtyb. simpl. set_solver. Qed.

Lemma dirty_take_block sb b s x : x ∈ d_dirty (take_block sb b s) -> x ∈ d_dirty s \/ x = b \/ x = BBLOCK b sb.
Proof. intros [->|[->|H]%dirty_edit]%dirty_edit; auto. Qed.

(** What a caller of [balloc] ensures: the metadata is marked in use, the
    bitmap is not locked, and neither is any free block. *)
Record bmap_ok (s : dstate) : Prop := BmapOk {
  bm_geo : geometry (fs_sb (d_fs s));
  bm_meta : meta_used (d_blk s) (fs_sb (d_fs s));
  bm_unlocked : forall b, 0 <= b < sb_size (fs_sb (d_fs s)) -> BBLOCK b (fs_sb (d_fs s)) ∉ d_locked s;
  bm_locked : forall b, b ∈ d_locked s -> used (d_blk s) (fs_sb (d_fs s)) b = true;
}.

Lemma bzero_d dev b t s :
  b ∉ d_locked s -> served dev b s -> bzero dev b t s = ORet tt t (edit b (mset 0 0 BSIZE) s).
Proof.
  intros Hb Hs. unfold bzero. kstep (bread_d dev b t s Hb Hs). apply edit_locked; [destruct Hs; lia|exact Hb].
Qed.

(** The two block changes of [balloc] are at different blocks, neither
    locked. *)
Lemma balloc_group dev t s g :
  let sb := fs_sb (d_fs s) in
  let b0 := Z.of_nat g * BPB in
  dev = ROOTDEV -> bmap_ok s -> b0 < sb_size sb ->
  let body :=
    let* bp := bd_bread dev (BBLOCK b0 sb) in
    let* m := gets (bd_data bp) in
    match first_free m (Z.to_nat (Z.min BPB (sb_size sb - b0))) with
    | Some bi =>
        set_data bp (fun m => mstore 1 (Z.of_nat bi / 8) (Z.lor (byte_at m (Z.of_nat bi / 8)) (bit_mask (Z.of_nat bi))) m) ;;
        op_log_write bp ;;
        bd_brelse bp ;;
        bzero dev (b0 + Z.of_nat bi) ;;
        ret (Some (b0 + Z.of_nat bi))
    | None => bd_brelse bp ;; ret None
    end in
  (exists b, b0 <= b < b0 + BPB /\ b < sb_size sb /\ used (d_blk s) sb b = false /\
     (forall b', b0 <= b' < b -> used (d_blk s) sb b' = true) /\
     body t s = ORet (Some b) t (take_block sb b s)) \/
  ((forall b', b0 <= b' < b0 + BPB -> b' < sb_size sb -> used (d_blk s) sb b' = true) /\
   body t s = ORet None t s).
Proof.
  intros sb b0 Hdev [G Hmeta Hul Hlk] Hb0. fold sb in G, Hmeta, Hul, Hlk. cbv zeta.
  assert (Eb0 : b0 = Z.of_nat g * 8192) by reflexivity. clearbody b0.
  assert (H0 : 0 <= b0) by lia.
  assert (Hbit : forall j, (Z.of_nat j < BPB) -> b0 + Z.of_nat j < sb_size sb ->
    used (d_blk s) sb (b0 + Z.of_nat j) = bit_used (d_blk s (BBLOCK b0 sb)) (Z.of_nat j)).
  { intros j Hj Hs. unfold used. rewrite !BBLOCK_eq by (auto; lia). rewrite BPB_eq in *.
    f_equal; [f_equal; f_equal|]; dlia. }
  pose proof (BBLOCK_meta sb b0 G ltac:(lia)) as Hbm. pose proof (geometry_pos sb G) as Gp.
  assert (Hn : BBLOCK b0 sb ∉ d_locked s) by (apply Hul; lia).
  kstep (bread_d dev (BBLOCK b0 sb) t s Hn ltac:(apply area_served; auto; fold sb; lia)). unfold gets. erewrite bind_ret by reflexivity. cbv beta.
  rewrite data_d by lia. change (d_blk (lockb (BBLOCK b0 sb) s)) with (d_blk s).
  destruct (first_free (d_blk s (BBLOCK b0 sb)) _) as [bi|] eqn:Eff.
  - left. apply first_free_some in Eff as (Hlt & Hfree & Hmin).
    assert (Hbi : Z.of_nat bi < BPB /\ b0 + Z.of_nat bi < sb_size sb) by lia.
    exists (b0 + Z.of_nat bi). split; [lia|]. split; [lia|].
    assert (Hu : used (d_blk s) sb (b0 + Z.of_nat bi) = false) by (rewrite Hbit by lia; exact Hfree).
    assert (Hds : data_start sb <= b0 + Z.of_nat bi) by (apply Z.nlt_ge; intros Hlt'; rewrite Hmeta in Hu by lia; done).
    split; [exact Hu|]. split.
    { intros b' Hb'. replace b' with (b0 + Z.of_nat (Z.to_nat (b' - b0))) by lia.
      rewrite Hbit by lia. apply Hmin. lia. }
    rewrite edit_locked_bind by (auto; lia). kstep (bzero_d dev (b0 + Z.of_nat bi) t
      (edit (BBLOCK b0 sb) (fun m => mstore 1 (Z.of_nat bi / 8)
        (Z.lor (byte_at m (Z.of_nat bi / 8)) (bit_mask (Z.of_nat bi))) m) s)
      ltac:(intros Hin; apply Hlk in Hin; congruence) ltac:(apply (area_served _ _ s); auto; fold sb; lia)).
    unfold ret. f_equal. unfold take_block.
    replace ((b0 + Z.of_nat bi) mod BPB) with (Z.of_nat bi) by (rewrite BPB_eq in *; dlia).
    replace (BBLOCK (b0 + Z.of_nat bi) sb) with (BBLOCK b0 sb); [reflexivity|].
    rewrite !BBLOCK_eq by (auto; lia). rewrite BPB_eq in *. f_equal. dlia.
  - right. split.
    + intros b' Hb' Hs. replace b' with (b0 + Z.of_nat (Z.to_nat (b' - b0))) by lia.
      rewrite Hbit by lia. apply (first_free_none _ _ Eff). lia.
    + erewrite bind_ret by (apply brelse_d; [lia|apply lockb_in]). cbv beta.
      unfold ret. by rewrite unlock_lock.
Qed.

(** [balloc] returns the first free block, or 0 when there is none. *)
Lemma balloc_ok dev t s :
  let sb := fs_sb (d_fs s) in
  dev = ROOTDEV -> bmap_ok s ->
  (exists b, data_start sb <= b < sb_size sb /\ used (d_blk s) sb b = false /\
     (forall b', 0 <= b' < b -> used (d_blk s) sb b' = true) /\
     balloc dev t s = ORet b t (take_block sb b s)) \/
  ((forall b, 0 <= b < sb_size sb -> used (d_blk s) sb b = true) /\ balloc dev t s = ORet 0 t s).
Proof.
  intros sb Hdev Hok. pose proof Hok as [G Hmeta _ _]. fold sb in G, Hmeta.
  unfold balloc, getsb. erewrite bind_ret by reflexivity. cbv beta. change (fs_sb (d_fs s)) with sb.
  match goal with |- context [for_find _ ?b] => set (body := b) end.
  assert (Hloop : forall k g, (g + k)%nat = Z.to_nat ((sb_size sb + BPB - 1) / BPB) ->
    (forall b', 0 <= b' < Z.of_nat g * BPB -> b' < sb_size sb -> used (d_blk s) sb b' = true) ->
    (exists b, Z.of_nat g * BPB <= b < sb_size sb /\ used (d_blk s) sb b = false /\
       (forall b', 0 <= b' < b -> used (d_blk s) sb b' = true) /\
       for_find (seq g k) body t s = ORet (Some b) t (take_block sb b s)) \/
    ((forall b, 0 <= b < sb_size sb -> used (d_blk s) sb b = true) /\
     for_find (seq g k) body t s = ORet None t s)).
  { induction k as [|k IH]; intros g Hg Hlow.
    - right. split; [|reflexivity]. intros b Hb. apply Hlow; [|lia].
      rewrite BPB_eq in *. destruct G as [G1 _ _ _]. dlia.
    - cbn [seq for_find].
      destruct (balloc_group dev t s g Hdev Hok) as [(b & Hb1 & Hb2 & Hu & Hmin & E)|(Hall & E)].
      { fold sb. rewrite BPB_eq in *. destruct G as [G1 _ _ _]. dlia. }
      + left. exists b. fold sb in Hb2, Hu, Hmin, E. split; [lia|]. split; [exact Hu|]. split.
        { intros b' Hb'. destruct (Z.lt_ge_cases b' (Z.of_nat g * BPB)); [apply Hlow|apply Hmin]; lia. }
        rewrite (bind_ret _ _ _ _ _ _ _ E). reflexivity.
      + fold sb in Hall, E. rewrite (bind_ret _ _ _ _ _ _ _ E).
        destruct (IH (Datatypes.S g)) as [(b & Hb & Hu & Hmin & E2)|(Hall2 & E2)]; [lia| | |].
        { intros b' Hb' Hs. destruct (Z.lt_ge_cases b' (Z.of_nat g * BPB)); [apply Hlow|apply Hall]; lia. }
        * left. exists b. split; [rewrite BPB_eq in *; lia|]. auto.
        * right. auto. }
  destruct (Hloop (Z.to_nat ((sb_size sb + BPB - 1) / BPB)) O) as [(b & Hb & Hu & Hmin & E)|(Hall & E)];
    [reflexivity|lia| |].
  - left. exists b. split; [|rewrite (bind_ret _ _ _ _ _ _ _ E); auto].
    split; [|lia]. apply Z.nlt_ge. intros Hlt. rewrite (Hmeta b) in Hu by lia. discriminate.
  - right. rewrite (bind_ret _ _ _ _ _ _ _ E). auto.
Qed.

(** ** The bitmap after an allocation or release *)

Lemma used_setb_other blk sb n m b : BBLOCK b sb <> n -> used (blk_set blk n m) sb b = used blk sb b.
Proof. intros Hn. unfold used. by rewrite blk_set_ne. Qed.

Lemma used_edit_bit blk sb b b' v f :
  geometry sb -> 0 <= b < sb_size sb -> 0 <= b' < sb_size sb ->
  (forall m bi bj, 0 <= bi -> 0 <= bj ->
     bit_used (mstore 1 (bi / 8) (f m bi) m) bj = if decide (bj = bi) then v else bit_used m bj) ->
  used (blk_set blk (BBLOCK b sb)
          (mstore 1 (b mod BPB / 8) (f (blk (BBLOCK b sb)) (b mod BPB)) (blk (BBLOCK b sb)))) sb b' =
  if decide (b' = b) then v else used blk sb b'.
Proof.
  intros G Hb Hb' Hf. unfold used, blk_set. rewrite BPB_eq.
  pose proof (Z.mod_pos_bound b 8192). pose proof (Z.mod_pos_bound b' 8192).
  destruct (decide (BBLOCK b' sb = BBLOCK b sb)) as [E|E].
  - rewrite Hf by lia. rewrite E. rewrite !BBLOCK_eq, BPB_eq in E by auto.
    destruct (decide (b' = b)) as [->|Hne]; [by rewrite decide_True|].
    rewrite decide_False; [reflexivity|]. intros Hm. apply Hne. dlia.
  - by rewrite decide_False by congruence.
Qed.

Lemma used_take_block s b b' :
  let sb := fs_sb (d_fs s) in
  geometry sb -> data_start sb <= b < sb_size sb -> 0 <= b' < sb_size sb ->
  used (d_blk (take_block sb b s)) sb b' = if decide (b' = b) then true else used (d_blk s) sb b'.
Proof.
  intros sb G Hb Hb'. unfold take_block. rewrite !edit_blk.
  pose proof (geometry_pos sb G). pose proof (BBLOCK_meta sb b' G Hb'). pose proof (BBLOCK_meta sb b G ltac:(lia)).
  rewrite used_setb_other by lia.
  apply (used_edit_bit (d_blk s) sb b b' true
    (fun m bi => Z.lor (byte_at m (bi / 8)) (bit_mask bi))); [auto|lia|lia|].
  intros. by apply bit_set.
Qed.

(** The state after block [b] was given back. *)
Definition drop_block (sb : superblock) (b : Z) (s : dstate) : dstate :=
  edit (BBLOCK b sb)
    (fun m => mstore 1 (b mod BPB / 8) (Z.land (byte_at m (b mod BPB / 8)) (Z.lnot (bit_mask (b mod BPB)))) m) s.

Lemma used_drop_block s b b' :
  let sb := fs_sb (d_fs s) in
  geometry sb -> 0 <= b < sb_size sb -> 0 <= b' < sb_size sb ->
  used (d_blk (drop_block sb b s)) sb b' = if decide (b' = b) then false else used (d_blk s) sb b'.
Proof.
  intros sb G Hb Hb'. unfold drop_block. rewrite edit_blk.
  apply (used_edit_bit (d_blk s) sb b b' false
    (fun m bi => Z.land (byte_at m (bi / 8)) (Z.lnot (bit_mask bi)))); auto.
  intros. by apply bit_clear.
Qed.

Lemma bfree_ok dev b t s :
  let sb := fs_sb (d_fs s) in
  dev = ROOTDEV -> bmap_ok s -> 0 <= b < sb_size sb ->
  bfree dev b t s =
  if used (d_blk s) sb b then ORet tt t (drop_block sb b s) else OPanic "freeing free block".
Proof.
  intros sb Hdev [G _ Hul _] Hb. fold sb in G, Hul. unfold bfree, getsb.
  erewrite bind_ret by reflexivity. cbv beta. change (fs_sb (d_fs s)) with sb.
  pose proof (BBLOCK_meta sb b G Hb). pose proof (geometry_pos sb G). specialize (Hul b Hb).
  kstep (bread_d dev (BBLOCK b sb) t s Hul ltac:(apply area_served; auto; fold sb; lia)). unfold gets. erewrite bind_ret by reflexivity. cbv beta.
  rewrite data_d by lia. fold (used (d_blk s) sb b).
  change (d_blk (lockb (BBLOCK b sb) s)) with (d_blk s). fold (used (d_blk s) sb b).
  destruct (used (d_blk s) sb b); simpl negb; cbv iota; [|reflexivity].
  apply edit_locked; [lia|exact Hul].
Qed.

(** ** Claims *)

Lemma bmap_ok_unlocked s :
  geometry (fs_sb (d_fs s)) -> meta_used (d_blk s) (fs_sb (d_fs s)) -> d_locked s = ∅ -> bmap_ok s.
Proof.
  intros G Hm Hl. split; [exact G|exact Hm| |]; rewrite Hl; [intros b _|intros b Hb].
  - apply not_elem_of_empty.
  - by apply not_elem_of_empty in Hb.
Qed.

Lemma take_block_blk s sb b n :
  n <> b -> n <> BBLOCK b sb -> d_blk (take_block sb b s) n = d_blk s n.
Proof. intros H1 H2. unfold take_block. by rewrite !edit_blk, !blk_set_ne. Qed.

Lemma take_block_zero s sb b x :
  0 <= x < BSIZE -> byte_at (d_blk (take_block sb b s) b) x = 0.
Proof.
  intros Hx. unfold take_block. rewrite edit_blk, blk_set_eq. unfold byte_at.
  rewrite mset_in by lia. reflexivity.
Qed.

(** C32: [balloc] hands out each block at most once.  It returns the first
    block that the bitmap shows as free, never a block of the boot block,
    superblock, log, inodes or bitmap; afterwards exactly that block is
    marked, its contents are zero, and no block but it and its bitmap block
    changed.  When every block is in use it returns 0 and changes nothing. *)
Theorem balloc_spec t s (Hok : bmap_ok s) :
  let sb := fs_sb (d_fs s) in
  exists r s', balloc ROOTDEV t s = ORet r t s' /\ d_fs s' = d_fs s /\ d_locked s' = d_locked s /\
    ((r = 0 /\ s' = s /\ forall b, 0 <= b < sb_size sb -> used (d_blk s) sb b = true) \/
     (data_start sb <= r < sb_size sb /\ used (d_blk s) sb r = false /\
      (forall b, 0 <= b < sb_size sb ->
         used (d_blk s') sb b = if decide (b = r) then true else used (d_blk s) sb b) /\
      (forall x, 0 <= x < BSIZE -> byte_at (d_blk s' r) x = 0) /\
      (forall n, n <> r -> n <> BBLOCK r sb -> d_blk s' n = d_blk s n))).
Proof.
  intros sb. pose proof (bm_geo s Hok) as G.
  destruct (balloc_ok ROOTDEV t s eq_refl Hok) as [(b & Hb & Hu & _ & E)|(Hall & E)]; fold sb in G, E.
  - exists b, (take_block sb b s). split; [exact E|]. split; [reflexivity|]. split; [reflexivity|]. right.
    split; [exact Hb|]. split; [exact Hu|]. split; [intros; by apply used_take_block|].
    split; [intros; by apply take_block_zero|intros; by apply take_block_blk].
  - exists 0, s. split; [exact E|]. split; [reflexivity|]. split; [reflexivity|]. left. auto.
Qed.

(** [bfree] gives back exactly the block it is told to: no other bit and
    no block but that of the bit changes.
    Freeing a block that is already free panics. *)
Theorem bfree_spec b t s (Hok : bmap_ok s) (Hb : 0 <= b < sb_size (fs_sb (d_fs s))) :
  let sb := fs_sb (d_fs s) in
  if used (d_blk s) sb b then
    exists s', bfree ROOTDEV b t s = ORet tt t s' /\ d_fs s' = d_fs s /\ d_locked s' = d_locked s /\
      (forall b', 0 <= b' < sb_size sb ->
         used (d_blk s') sb b' = if decide (b' = b) then false else used (d_blk s) sb b') /\
      (forall n, n <> BBLOCK b sb -> d_blk s' n = d_blk s n)
  else bfree ROOTDEV b t s = OPanic "freeing free block".
Proof.
  intros sb. rewrite (bfree_ok ROOTDEV b t s eq_refl Hok Hb). fold sb.
  destruct (used (d_blk s) sb b); [|reflexivity].
  exists (drop_block sb b s). split; [reflexivity|]. split; [reflexivity|]. split; [reflexivity|]. split.
  - intros b' Hb'. apply used_drop_block; [apply (bm_geo s Hok)|exact Hb|exact Hb'].
  - intros n Hn. unfold drop_block. by rewrite edit_blk, blk_set_ne.
Qed.

(** ** A disk as mkfs lays it out

    Boot block, superblock, 31 log blocks, 13 inode blocks and one bitmap
    block come before the data of a disk of [FSSIZE] blocks. *)
Definition demo_sb : superblock := Superblock FSMAGIC FSSIZE (FSSIZE - 47) 200 31 2 33 46.
Definition demo_bitmap : mem := fun x => if x <? 5 then 255 else if x =? 5 then 127 else 0.
Definition demo_super : mem :=
  store32 0 FSMAGIC (store32 4 FSSIZE (store32 8 (FSSIZE - 47) (store32 12 200
    (store32 16 31 (store32 20 2 (store32 24 33 (store32 28 46 (fun _ => 0)))))))).
Definition demo_fs_state : dstate :=
  Dstate (fun n => if n =? 46 then demo_bitmap else if n =? 1 then demo_super else fun _ => 0) ∅ ∅ (Fsst demo_sb (replicate NINODE zero_inode)) demo_usr.

Lemma demo_bmap_ok : bmap_ok demo_fs_state.
Proof.
  apply bmap_ok_unlocked; [split; vm_compute; intuition congruence|..|reflexivity].
  intros b Hb. change (data_start (fs_sb (d_fs demo_fs_state))) with 47 in Hb.
  assert (H : forallb (fun i => used (d_blk demo_fs_state) demo_sb (Z.of_nat i)) (seq 0 47) = true) by reflexivity.
  rewrite forallb_forall in H. specialize (H (Z.to_nat b)). rewrite Z2Nat.id in H by lia.
  apply H, in_seq. lia.
Qed.

Lemma balloc_spec_witness :
  exists r s', balloc 1 thread0 demo_fs_state = ORet r thread0 s' /\
    d_fs s' = d_fs demo_fs_state /\ d_locked s' = d_locked demo_fs_state /\
    ((r = 0 /\ s' = demo_fs_state /\ forall b, 0 <= b < sb_size demo_sb -> used (d_blk demo_fs_state) demo_sb b = true) \/
     (data_start demo_sb <= r < sb_size demo_sb /\ used (d_blk demo_fs_state) demo_sb r = false /\
      (forall b, 0 <= b < sb_size demo_sb ->
         used (d_blk s') demo_sb b = if decide (b = r) then true else used (d_blk demo_fs_state) demo_sb b) /\
      (forall x, 0 <= x < BSIZE -> byte_at (d_blk s' r) x = 0) /\
      (forall n, n <> r -> n <> BBLOCK r demo_sb -> d_blk s' n = d_blk demo_fs_state n))).
Proof. apply (balloc_spec thread0 demo_fs_state), demo_bmap_ok. Defined.

