(* ===== verification/FsOps.v ===== *)
(** * Every operation of the file system runs on the cache

    For each function of fs.c that runs inside a transaction: what it does on
    the ideal disk it does on the buffer cache and the log. *)

From Stdlib Require Import FunctionalExtensionality.
From S2P Require Import Prelude Kmonad Mem Riscv Kalloc Cstring Vm Proc Iface Sleeplock Bio Disk BioSpec Log LogSpec Sim Fs Usr CacheSim LogSim FsDev FsSim FsBlock.

(** ** Blocks with the same bytes *)

Create HintDb beq.

Lemma beq_mload n m m' o : beq m m' -> 0 <= o -> o + Z.of_nat n <= BSIZE -> mload n o m = mload n o m'.
Proof.
  intros H. revert o. induction n as [|n IH]; intros o H0 H1; [done|].
  change (byte_at m o + 256 * mload n (o + 1) m = byte_at m' o + 256 * mload n (o + 1) m').
  rewrite (H o) by lia. rewrite IH by lia. done.
Qed.

Lemma beq_bytes_at n m m' o : beq m m' -> 0 <= o -> o + Z.of_nat n <= BSIZE -> bytes_at m o n = bytes_at m' o n.
Proof.
  intros H. revert o. induction n as [|n IH]; intros o H0 H1; [done|]. cbn [bytes_at].
  rewrite (H o) by lia. rewrite IH by lia. done.
Qed.

Lemma beq_bit m m' bi : beq m m' -> 0 <= bi < BPB -> bit_used m bi = bit_used m' bi.
Proof. intros H Hb. unfold bit_used. rewrite (H (bi / 8)); [done|]. change BPB with 8192 in Hb. unfold BSIZE. dlia. Qed.

Lemma beq_first_free m m' n : beq m m' -> Z.of_nat n <= BPB -> first_free m n = first_free m' n.
Proof.
  intros H Hn. unfold first_free. f_equal.
  assert (Ha : forall bi, bi ∈ seq 0 n -> bit_used m (Z.of_nat bi) = bit_used m' (Z.of_nat bi)).
  { intros bi Hb. apply elem_of_seq in Hb. apply beq_bit; [exact H|]. lia. }
  revert Ha. generalize (seq 0 n). intros l. induction l as [|x l IH]; intros Ha; [done|]. cbn [list_find].
  rewrite IH by (intros y Hy; apply Ha; by apply list_elem_of_further).
  pose proof (Ha x (list_elem_of_here _ _)) as Hx. rewrite (decide_ext _ (bit_used m' (Z.of_nat x) = false)); [done|]. by rewrite Hx.
Qed.

Lemma dinode_off_range inum : 0 <= dinode_off inum <= BSIZE - 64.
Proof. unfold dinode_off, sizeof_dinode, BSIZE. change IPB with 16. dlia. Qed.

Lemma beq_dinode m m' inum : beq m m' -> dinode_at m (dinode_off inum) = dinode_at m' (dinode_off inum).
Proof.
  intros H. pose proof (dinode_off_range inum). unfold dinode_at. rewrite !(beq_mload _ m m' _ H) by lia. f_equal.
  unfold addrs_at. apply list_fmap_ext. intros i j Hj. apply lookup_seq in Hj as [-> Hj]. apply beq_mload; [exact H|lia|].
  change (Z.to_nat (NDIRECT + 1)) with 13%nat in Hj. lia.
Qed.

Lemma beq_mstore n a v m m' : beq m m' -> beq (mstore n a v m) (mstore n a v m').
Proof. intros H x Hx. unfold byte_at, mstore. destruct (_ && _); [done|]. by apply H. Qed.
Lemma beq_mset a c n m m' : beq m m' -> beq (mset a c n m) (mset a c n m').
Proof. intros H x Hx. unfold byte_at, mset. destruct (_ && _); [done|]. by apply H. Qed.
Lemma beq_mwrite a l m m' : beq m m' -> beq (mwrite a l m) (mwrite a l m').
Proof. intros H x Hx. unfold byte_at, mwrite. destruct (_ && _); [done|]. by apply H. Qed.
#[export] Hint Resolve beq_mstore beq_mset beq_mwrite : beq.
Lemma beq_store_addrs l : forall o m m', beq m m' -> beq (store_addrs o l m) (store_addrs o l m').
Proof. induction l as [|a l IH]; intros o m m' H; simpl; auto with beq. Qed.
#[export] Hint Resolve beq_store_addrs : beq.
Lemma beq_put_dinode o d m m' : beq m m' -> beq (put_dinode o d m) (put_dinode o d m').
Proof. intros H. unfold put_dinode. auto 10 with beq. Qed.
#[export] Hint Resolve beq_put_dinode : beq.

(** A byte changed to a value that depends on it. *)
Lemma beq_modbyte a (f : Z -> Z) m m' :
  0 <= a < BSIZE -> beq m m' -> beq (mstore 1 a (f (byte_at m a)) m) (mstore 1 a (f (byte_at m' a)) m').
Proof. intros Ha H. rewrite (H a Ha). by apply beq_mstore. Qed.

Section FsOps.
Context {L : LinkMap}.
Context (sb : superblock) (base : disk) (tr : list (Z * mem)).
Abbreviation fsim := (fsim sb base tr).

(** A statement that gives the same on both sides, and the rest. *)
Tactic Notation "fstep" uconstr(H) := eapply fsim_bind_same; [eapply H|fgrow|].
(** A statement after which the thread holds other buffers. *)
Tactic Notation "fopen" uconstr(H) := eapply fsim_bind; [eapply H|fgrow|].

Lemma fsim_ret {A} o (a : A) : fsim o (ret a) (ret a) (same o).
Proof. by apply sim_ret. Qed.

(** Change, log and release a buffer just read. *)
Lemma fsim_edit {A B} o n i (g : mem -> mem) (k1 : M dstate A) (k2 : M (bst fsx) B) Q :
  o !! n = None -> (forall m m', beq m m' -> beq (g m) (g m')) -> fgrows k1 -> fsim o k1 k2 Q ->
  fsim (<[n := (i, BKept)]> o)
    (set_data (Z.to_nat n) g ;; op_log_write (Z.to_nat n) ;; bd_brelse (Z.to_nat n) ;; k1)
    (set_data i g ;; op_log_write i ;; bd_brelse i ;; k2) Q.
Proof.
  intros Hn Hg Hk H.
  fopen (fsim_set sb base tr _ n i BKept g); [apply lookup_insert_eq|exact Hg|]. intros o' _ _ ->. rewrite insert_insert_eq.
  fopen (fsim_log_write sb base tr _ n i BDirty); [apply lookup_insert_eq|]. intros o' _ _ ->. rewrite insert_insert_eq.
  fopen (fsim_brelse sb base tr _ n i BKept); [apply lookup_insert_eq|done|]. intros o' _ _ ->. by rewrite delete_insert_id.
Qed.

Lemma fsim_edit_last o n i (g : mem -> mem) :
  o !! n = None -> (forall m m', beq m m' -> beq (g m) (g m')) ->
  fsim (<[n := (i, BKept)]> o)
    (set_data (Z.to_nat n) g ;; op_log_write (Z.to_nat n) ;; bd_brelse (Z.to_nat n))
    (set_data i g ;; op_log_write i ;; bd_brelse i) (same o).
Proof.
  intros Hn Hg.
  fopen (fsim_set sb base tr _ n i BKept g); [apply lookup_insert_eq|exact Hg|]. intros o' _ _ ->. rewrite insert_insert_eq.
  fopen (fsim_log_write sb base tr _ n i BDirty); [apply lookup_insert_eq|]. intros o' _ _ ->. rewrite insert_insert_eq.
  eapply sim_conseq; [apply (fsim_brelse sb base tr _ n i BKept); [apply lookup_insert_eq|done]|].
  intros o' [] [] ->. by rewrite delete_insert_id.
Qed.

(** Release a buffer that was only read. *)
Lemma fsim_close {A B} o n i (k1 : M dstate A) (k2 : M (bst fsx) B) Q :
  o !! n = None -> fgrows k1 -> fsim o k1 k2 Q ->
  fsim (<[n := (i, BKept)]> o) (bd_brelse (Z.to_nat n) ;; k1) (bd_brelse i ;; k2) Q.
Proof.
  intros Hn Hk H. fopen (fsim_brelse sb base tr _ n i BKept); [apply lookup_insert_eq|done|]. intros o' _ _ ->.
  by rewrite delete_insert_id.
Qed.

Lemma fsim_for_each {X} o (l : list X) (b1 : X -> M dstate unit) (b2 : X -> M (bst fsx) unit) :
  (forall x, fgrows (b1 x)) -> (forall x, x ∈ l -> fsim o (b1 x) (b2 x) (same o)) ->
  fsim o (for_each l b1) (for_each l b2) (same o).
Proof. apply sim_for_each; [apply _|exact fits_le]. Qed.
Lemma fsim_for_find {X A} o (l : list X) (b1 : X -> M dstate (option A)) (b2 : X -> M (bst fsx) (option A)) :
  (forall x, fgrows (b1 x)) -> (forall x, x ∈ l -> fsim o (b1 x) (b2 x) (same o)) ->
  fsim o (for_find l b1) (for_find l b2) (same o).
Proof. apply sim_for_find; [apply _|exact fits_le]. Qed.
Lemma fsim_loop {X A} o n (b1 : X -> M dstate (X + A)) (b2 : X -> M (bst fsx) (X + A)) x :
  (forall x, fgrows (b1 x)) -> (forall x, fsim o (b1 x) (b2 x) (same o)) -> fsim o (loop n b1 x) (loop n b2 x) (same o).
Proof. apply sim_loop; [apply _|exact fits_le]. Qed.

(** Read block [n] and go on with its buffer. *)
Lemma fsim_open {A B} o dev n (k1 : nat -> M dstate A) (k2 : nat -> M (bst fsx) B) Q :
  (size o <= 1)%nat -> (forall b, fgrows (k1 b)) ->
  (forall i, o !! n = None -> fsim (<[n := (i, BKept)]> o) (k1 (Z.to_nat n)) (k2 i) Q) ->
  fsim o (let* bp := bd_bread dev n in k1 bp) (let* bp := bd_bread dev n in k2 bp) Q.
Proof.
  intros Ho Hg H. fopen (fsim_bread sb base tr o dev n); [exact Ho|]. intros o' b i (-> & -> & Hn). by apply H.
Qed.

(** ... after a look at its data. *)
Lemma fsim_look {A B} o n i st (k1 : mem -> M dstate A) (k2 : mem -> M (bst fsx) B) Q :
  o !! n = Some (i, st) -> (forall m, fgrows (k1 m)) -> (forall m m', beq m m' -> fsim o (k1 m) (k2 m') Q) ->
  fsim o (let* m := gets (bd_data (Z.to_nat n)) in k1 m) (let* m := gets (bd_data i) in k2 m) Q.
Proof.
  intros Ho Hg H. fopen (fsim_data sb base tr o n i st Ho). intros o' m m' [-> Hm]. by apply H.
Qed.

(** ** Blocks *)

Lemma fsim_bzero o dev b : (size o <= 1)%nat -> fsim o (bzero dev b) (bzero dev b) (same o).
Proof.
  intros Ho. apply fsim_open; [exact Ho|fgrow|]. intros i Hn. apply fsim_edit_last; auto with beq.
Qed.

Lemma fsim_balloc o dev : (size o <= 1)%nat -> fsim o (balloc dev) (balloc dev) (same o).
Proof.
  intros Ho. fstep fsim_getsb. intros sb0. eapply fsim_bind_same; [|fgrow|intros r; apply fsim_ret].
  apply fsim_for_find; [fgrow|]. intros g _. cbv zeta. apply fsim_open; [exact Ho|fgrow|]. intros i Hn.
  apply (fsim_look _ _ i BKept); [apply lookup_insert_eq|fgrow|]. intros m m' Hm.
  rewrite (beq_first_free m m') by (auto; change BPB with 8192; lia). destruct (first_free m' _) as [bi|] eqn:Ef.
  - apply fsim_edit; [exact Hn| |fgrow|].
    + intros x x' Hx. apply (beq_modbyte _ (fun v => Z.lor v _)); [|exact Hx].
      apply first_free_some in Ef as [Hlt _]. unfold BSIZE. change BPB with 8192 in Hlt. dlia.
    + fstep fsim_bzero; [exact Ho|]. intros _. apply fsim_ret.
  - apply fsim_close; [exact Hn|fgrow|apply fsim_ret].
Qed.

Lemma fsim_bfree o dev b : (size o <= 1)%nat -> fsim o (bfree dev b) (bfree dev b) (same o).
Proof.
  intros Ho. fstep fsim_getsb. intros sb0. apply fsim_open; [exact Ho|fgrow|]. intros i Hn.
  apply (fsim_look _ _ i BKept); [apply lookup_insert_eq|fgrow|]. intros m m' Hm.
  assert (Hb : 0 <= b mod BPB < BPB) by (apply Z.mod_pos_bound; reflexivity).
  rewrite (beq_bit m m') by auto. destruct (negb _); [apply sim_panic|].
  apply fsim_edit_last; [exact Hn|]. intros x x' Hx. apply (beq_modbyte _ (fun v => Z.land v _)); [|exact Hx].
  unfold BSIZE. change BPB with 8192 in *. dlia.
Qed.

(** ** Inodes *)

Lemma itable_lock : fs_lock LItable.
Proof. by right. Qed.
Lemma inode_lock_fs i : fs_lock (LSleep (SLinode i)).
Proof. left. eauto. Qed.

Lemma fsim_iget o dev inum : fsim o (iget dev inum) (iget dev inum) (same o).
Proof.
  fstep fsim_acquire; [apply itable_lock|]. intros _. fstep fsim_hget. intros f.
  destruct (iget_scan dev inum (itable f) 0 None) as [ip|[ip|]].
  - fstep fsim_modi. intros _. fstep fsim_release. intros _. apply fsim_ret.
  - fstep fsim_modi. intros _. fstep fsim_release. intros _. apply fsim_ret.
  - apply sim_panic.
Qed.

Lemma fsim_ialloc o dev type : (size o <= 1)%nat -> fsim o (ialloc dev type) (ialloc dev type) (same o).
Proof.
  intros Ho. fstep fsim_getsb. intros sb0. apply fsim_for_find; [fgrow|]. intros inum _. cbv zeta.
  apply fsim_open; [exact Ho|fgrow|]. intros i Hn.
  apply (fsim_look _ _ i BKept); [apply lookup_insert_eq|fgrow|]. intros m m' Hm. rewrite (beq_dinode m m') by exact Hm.
  destruct (di_type _ =? 0).
  - apply fsim_edit; [exact Hn|auto with beq|fgrow|]. fstep fsim_iget. intros ip. apply fsim_ret.
  - apply fsim_close; [exact Hn|fgrow|apply fsim_ret].
Qed.

Lemma fsim_iupdate o i : (size o <= 1)%nat -> fsim o (iupdate i) (iupdate i) (same o).
Proof.
  intros Ho. fstep fsim_geti. intros ip. fstep fsim_getsb. intros sb0. apply fsim_open; [exact Ho|fgrow|].
  intros b Hn. apply fsim_edit_last; auto with beq.
Qed.

Lemma fsim_idup o i : fsim o (idup i) (idup i) (same o).
Proof.
  fstep fsim_acquire; [apply itable_lock|]. intros _. fstep fsim_modi. intros _. fstep fsim_release. intros _. apply fsim_ret.
Qed.

Lemma fsim_lock_get o i : fsim o (gets (lget (inode_lock i))) (gets (lget (inode_lock i))) (same o).
Proof.
  apply sim_gets. intros s1 s2 (w & a & bs & C & _ & _ & _ & I). simpl. by rewrite (cr_ext _ _ _ C), <- (it_fs _ _ _ _ _ I).
Qed.
Lemma fsim_lock_put o i x : fsim o (modify (fun s => lput (inode_lock i) x s)) (modify (fun s => lput (inode_lock i) x s)) (same o).
Proof. by apply (fsim_hmod sb base tr o (fun f => f <| itable := <[i := (itable f !!! i) <| i_lock := x |>]> (itable f) |>)). Qed.
Lemma fsim_pid o : fsim o op_pid op_pid (same o).
Proof. apply fsim_ret. Qed.
Lemma fsim_wakeup o c : fsim o (op_wakeup c) (op_wakeup c) (same o).
Proof. apply fsim_ret. Qed.

Lemma fsim_acquiresleep o i : fsim o (acquiresleep (inode_lock i) (SLinode i)) (acquiresleep (inode_lock i) (SLinode i)) (same o).
Proof.
  fstep fsim_acquire; [apply inode_lock_fs|]. intros _. fstep fsim_loop; [fgrow| |].
  { intros _. fstep fsim_lock_get. intros l. destruct (negb _); [|apply fsim_ret]. apply fsim_bind_same; [apply sim_panic|fgrow|intros _; apply fsim_ret]. }
  intros _. fstep fsim_pid. intros pid. fstep fsim_lock_put. intros _. apply fsim_release.
Qed.
Lemma fsim_releasesleep o i : fsim o (releasesleep (inode_lock i) (SLinode i)) (releasesleep (inode_lock i) (SLinode i)) (same o).
Proof.
  fstep fsim_acquire; [apply inode_lock_fs|]. intros _. fstep fsim_lock_put. intros _. fstep fsim_wakeup. intros _. apply fsim_release.
Qed.
Lemma fsim_holdingsleep o i : fsim o (holdingsleep (inode_lock i) (SLinode i)) (holdingsleep (inode_lock i) (SLinode i)) (same o).
Proof.
  fstep fsim_acquire; [apply inode_lock_fs|]. intros _. fstep fsim_lock_get. intros l.
  eapply fsim_bind_same; [|fgrow|].
  { destruct (negb _); [|apply fsim_ret]. fstep fsim_pid. intros pid. apply fsim_ret. }
  intros r. fstep fsim_release. intros _. apply fsim_ret.
Qed.

Lemma fsim_ilock o i : (size o <= 1)%nat -> fsim o (ilock i) (ilock i) (same o).
Proof.
  intros Ho. fstep fsim_geti. intros ip. destruct (i_ref ip <? 1); [apply sim_panic|].
  fstep fsim_acquiresleep. intros _. fstep fsim_geti. intros ip'. apply sim_when.
  fstep fsim_getsb. intros sb0. apply fsim_open; [exact Ho|fgrow|]. intros b Hn.
  apply (fsim_look _ _ b BKept); [apply lookup_insert_eq|fgrow|]. intros m m' Hm. cbv zeta. rewrite (beq_dinode m m') by exact Hm.
  fstep fsim_modi. intros _. apply fsim_close; [exact Hn|fgrow|]. fstep fsim_modi. intros _.
  destruct (di_type _ =? 0); [apply sim_panic|apply fsim_ret].
Qed.

Lemma fsim_iunlock o i : fsim o (iunlock i) (iunlock i) (same o).
Proof.
  fstep fsim_holdingsleep. intros h. fstep fsim_geti. intros ip. destruct (_ || _); [apply sim_panic|apply fsim_releasesleep].
Qed.

(** ** The blocks of a file *)

Lemma fsim_addr_or_alloc o i j : (size o <= 1)%nat -> fsim o (addr_or_alloc i j) (addr_or_alloc i j) (same o).
Proof.
  intros Ho. fstep fsim_geti. intros ip. cbv zeta. destruct (_ =? 0); [|apply fsim_ret].
  fstep fsim_balloc; [exact Ho|]. intros addr. destruct (addr =? 0); [apply fsim_ret|].
  fstep fsim_modi. intros _. apply fsim_ret.
Qed.

Lemma fsim_bmap i bn : fsim ∅ (bmap i bn) (bmap i bn) (same ∅).
Proof.
  assert (H0 : (size (∅ : opens) <= 1)%nat) by (rewrite map_size_empty; lia).
  unfold bmap. destruct (bn <? NDIRECT) eqn:E1; [by apply fsim_addr_or_alloc|]. cbv zeta.
  destruct (bn - NDIRECT <? NINDIRECT) eqn:E2; [|apply sim_panic].
  fstep fsim_addr_or_alloc; [exact H0|]. intros addr. destruct (addr =? 0); [apply fsim_ret|].
  fstep fsim_geti. intros ip. apply fsim_open; [exact H0|fgrow|]. intros b Hn.
  apply (fsim_look _ _ b BKept); [apply lookup_insert_eq|fgrow|]. intros m m' Hm.
  rewrite (beq_mload 4 m m') by (auto; change NINDIRECT with 256 in E2; unfold NDIRECT, BSIZE in *; lia).
  set (v := load32 (4 * (bn - NDIRECT)) m'). eapply fsim_bind_same; [|fgrow|].
  - destruct (v =? 0); [|apply fsim_ret]. fstep fsim_balloc.
    { rewrite insert_empty, map_size_singleton. lia. }
    intros a. eapply fsim_bind_same; [|fgrow|intros _; apply fsim_ret]. apply sim_when.
    fopen (fsim_set sb base tr _ addr b BKept); [apply lookup_insert_eq|auto with beq|]. intros o' _ _ ->. rewrite insert_insert_eq.
    eapply sim_conseq; [apply (fsim_log_write sb base tr _ addr b BDirty); apply lookup_insert_eq|].
    intros o' [] [] ->. by rewrite insert_insert_eq.
  - intros a. apply fsim_close; [exact Hn|fgrow|apply fsim_ret].
Qed.

Lemma empty_small : (size (∅ : opens) <= 1)%nat.
Proof. rewrite map_size_empty. lia. Qed.
Hint Resolve empty_small : core.

Lemma fsim_itrunc i : fsim ∅ (itrunc i) (itrunc i) (same ∅).
Proof.
  fstep fsim_for_each; [fgrow| |].
  { intros j _. fstep fsim_geti. intros ip. apply sim_when. fstep fsim_bfree; [auto|]. intros _. apply fsim_modi. }
  intros _. fstep fsim_geti. intros ip. set (addr := i_addrs ip !!! Z.to_nat NDIRECT). eapply fsim_bind_same; [|fgrow|].
  - apply sim_when. apply fsim_open; [auto|fgrow|]. intros b Hn.
    fstep fsim_for_each; [fgrow| |].
    { intros j Hj. apply elem_of_seq in Hj. apply (fsim_look _ _ b BKept); [apply lookup_insert_eq|fgrow|]. intros m m' Hm. cbv zeta.
      rewrite (beq_mload 4 m m') by (auto; change (Z.to_nat NINDIRECT) with 256%nat in Hj; unfold BSIZE; lia).
      apply sim_when, fsim_bfree. rewrite insert_empty, map_size_singleton. lia. }
    intros _. apply fsim_close; [exact Hn|fgrow|]. fstep fsim_bfree; [auto|]. intros _. apply fsim_modi.
  - intros _. fstep fsim_modi. intros _. by apply fsim_iupdate.
Qed.

Lemma fsim_iput i : fsim ∅ (iput i) (iput i) (same ∅).
Proof.
  fstep fsim_acquire; [apply itable_lock|]. intros _. fstep fsim_geti. intros ip. eapply fsim_bind_same; [|fgrow|].
  - apply sim_when. fstep fsim_acquiresleep. intros _. fstep fsim_release. intros _. fstep fsim_itrunc. intros _.
    fstep fsim_modi. intros _. fstep fsim_iupdate; [auto|]. intros _. fstep fsim_modi. intros _.
    fstep fsim_releasesleep. intros _. apply fsim_acquire, itable_lock.
  - intros _. fstep fsim_modi. intros _. apply fsim_release.
Qed.

Lemma fsim_iunlockput i : fsim ∅ (iunlockput i) (iunlockput i) (same ∅).
Proof. fstep fsim_iunlock. intros _. apply fsim_iput. Qed.

Lemma fsim_stati i : fsim ∅ (stati i) (stati i) (same ∅).
Proof. fstep fsim_geti. intros ip. apply fsim_ret. Qed.

(** ** Contents *)

Lemma fsim_copyout o d l : fsim o (op_copyout d l) (op_copyout d l) (same o).
Proof. apply fsim_inpart. auto with steady. Qed.

Lemma fsim_readi i dst off n : fsim ∅ (readi i dst off n) (readi i dst off n) (same ∅).
Proof.
  fstep fsim_geti. intros ip. destruct (_ || _); [apply fsim_ret|]. cbv zeta. apply fsim_loop; [fgrow|].
  intros [[[tot off'] dst'] acc]. destruct (tot <? _) eqn:Et; [|apply fsim_ret].
  fstep fsim_bmap. intros addr. destruct (addr =? 0); [apply fsim_ret|]. apply fsim_open; [auto|fgrow|]. intros b Hn. cbv zeta.
  set (m := Z.min _ (BSIZE - off' mod BSIZE)).
  fstep (fsim_read sb base tr _ addr b BKept (fun x => bytes_at x (off' mod BSIZE) (Z.to_nat m))); [apply lookup_insert_eq| |].
  { intros x x' Hx. pose proof (Z.mod_pos_bound off' BSIZE ltac:(reflexivity)). apply beq_bytes_at; [exact Hx|lia|].
    unfold m. unfold BSIZE in *. lia. }
  intros l. fstep fsim_copyout. intros r. destruct (r =? -1); (apply fsim_close; [exact Hn|fgrow|apply fsim_ret]).
Qed.

(** A change that changes nothing. *)
Lemma fsim_set_id o n i g :
  o !! n = Some (i, BKept) -> (forall m, g m = m) -> fsim o (set_data (Z.to_nat n) g) (set_data i g) (same o).
Proof.
  intros Ho Hg t s1 s2 b t' s1' HT HR E _. exists o, tt, s2. pose proof HR as (w & a & bs & C & <- & _).
  destruct (open_facts w a s2 C n i BKept Ho) as (_ & _ & H0 & _ & _ & _ & _ & _ & _ & Hi & _).
  rewrite set_data_d, Hg in E by exact H0. injection E as <- <- <-.
  assert (Hs1 : setb n (d_blk s1 n) s1 = s1).
  { destruct s1 as [f l d x u]. unfold setb. simpl. f_equal. apply functional_extensionality. intros y. unfold blk_set.
    by case_decide; subst. }
  assert (Hs2 : bd_set i (bd_data i s2) s2 = s2).
  { destruct (cr_inv _ _ _ C) as [order I]. pose proof (bi_len _ _ I) as Hlen. destruct s2 as [bf ba tr' x]. unfold bd_set, bd_data. simpl in *.
    f_equal. apply list_insert_id. rewrite list_lookup_lookup_total_lt by lia. by destruct (bf !!! i). }
  rewrite Hs1. split; [unfold set_data, modify; by rewrite Hg, Hs2|]. by split_and!.
Qed.

Lemma fsim_copyin o src n :
  fsim o (op_copyin src n) (op_copyin src n) (fun o' a b => o' = o /\ a = b /\ (fst a = -1 -> snd a = [])).
Proof.
  intros t s1 s2 x t' s1' HT HR E HF. cbn [op_copyin d_user_ops] in E. apply bind_inv in E as (y & t1 & u1 & E1 & E2).
  destruct ((fst y =? -1) && _) eqn:Ht; [discriminate|]. injection E2 as -> -> ->.
  destruct (fsim_inpart sb base tr o (either_copyin src n) ltac:(auto with steady) _ _ _ _ _ _ HT HR E1 HF)
    as (o' & b & s2' & E' & HR' & [-> <-] & HT').
  exists o, x, s2'. split; [exact E'|]. split; [exact HR'|]. split; [|exact HT']. split_and!; auto.
  intros Ex. rewrite Ex in Ht. destruct (snd x); [done|discriminate].
Qed.

Lemma mwrite_nil o m : mwrite o [] m = m.
Proof. apply functional_extensionality. intros x. unfold mwrite. simpl. destruct (_ && _) eqn:E; [lia|done]. Qed.

Lemma fsim_writei i src off n : fsim ∅ (writei i src off n) (writei i src off n) (same ∅).
Proof.
  fstep fsim_geti. intros ip. destruct (_ || _); [apply fsim_ret|]. destruct (_ <? _); [apply fsim_ret|].
  fstep fsim_loop; [fgrow| |].
  - intros [[tot off'] src']. destruct (tot <? n); [|apply fsim_ret].
    fstep fsim_bmap. intros addr. destruct (addr =? 0); [apply fsim_ret|]. apply fsim_open; [auto|fgrow|]. intros b Hn. cbv zeta.
    fopen fsim_copyin. intros o' [r l] [r' l'] (-> & [= <- <-] & Hl). simpl in Hl. destruct (r =? -1) eqn:Er.
    + rewrite Hl by lia. fstep fsim_set_id; [apply lookup_insert_eq|apply mwrite_nil|]. intros _.
      apply fsim_close; [exact Hn|fgrow|apply fsim_ret].
    + apply fsim_edit; [exact Hn|auto with beq|fgrow|apply fsim_ret].
  - intros [tot off']. fstep fsim_geti. intros ip'. eapply fsim_bind_same; [|fgrow|].
    + apply sim_when, fsim_modi.
    + intros _. fstep fsim_iupdate; [auto|]. intros _. apply fsim_ret.
Qed.

(** ** Directories and paths *)

Lemma fsim_dir_scan {A} msg dp (stop : Z -> list Z -> option A) : fsim ∅ (dir_scan msg dp stop) (dir_scan msg dp stop) (same ∅).
Proof.
  fstep fsim_geti. intros ip. apply fsim_loop; [fgrow|]. intros off. fstep fsim_geti. intros ip'.
  destruct (off <? i_size ip'); [|apply fsim_ret]. fstep fsim_readi. intros [r de].
  destruct (negb _); [apply sim_panic|]. destruct (stop off de); apply fsim_ret.
Qed.

Lemma fsim_dirlookup dp name : fsim ∅ (dirlookup dp name) (dirlookup dp name) (same ∅).
Proof.
  fstep fsim_geti. intros ip. destruct (negb _); [apply sim_panic|]. fstep fsim_dir_scan.
  intros [[off inum]|off]; [|apply fsim_ret]. fstep fsim_iget. intros ip'. apply fsim_ret.
Qed.

Lemma fsim_dirlink dp name inum : fsim ∅ (dirlink dp name inum) (dirlink dp name inum) (same ∅).
Proof.
  fstep fsim_dirlookup. intros [[ip off]|].
  - fstep fsim_iput. intros _. apply fsim_ret.
  - fstep fsim_dir_scan. intros r. cbv zeta. fstep fsim_writei. intros x. destruct (negb _); apply fsim_ret.
Qed.

Lemma fsim_namex path parent name : fsim ∅ (namex path parent name) (namex path parent name) (same ∅).
Proof.
  unfold namex, deref. eapply fsim_bind_same; [|fgrow|].
  { destruct (bool_decide _); [apply fsim_iget|]. apply fsim_bind_same; [apply fsim_inpart; auto with steady|fgrow|]. intros cwd.
    apply fsim_bind_same; [destruct cwd; [apply fsim_ret|apply sim_panic]|fgrow|]. intros c. apply fsim_idup. }
  intros ip0. apply fsim_loop; [fgrow|]. intros [[ip path'] name']. destruct (skipelem path' name') as [[path2 name2]|].
  - fstep fsim_ilock; [auto|]. intros _. fstep fsim_geti. intros dp. destruct (negb _).
    { fstep fsim_iunlockput. intros _. apply fsim_ret. }
    destruct (_ && _). { fstep fsim_iunlock. intros _. apply fsim_ret. }
    fstep fsim_dirlookup. intros [[next off]|]; fstep fsim_iunlockput; intros _; apply fsim_ret.
  - destruct parent; [|apply fsim_ret]. fstep fsim_iput. intros _. apply fsim_ret.
Qed.
End FsOps.
