(* ===== verification/FsFile.v ===== *)
(** * File contents (kernel/fs.c: [bmap], [readi], [writei])

    The contents of a file are a function from offsets to bytes, read through
    the direct and indirect block addresses.  [bmap] never changes them, even
    when it allocates; [readi] returns them; [writei] changes exactly the
    bytes it is given and grows the file without leaving holes. *)

From S2P Require Import Prelude Kmonad Mem Riscv Kalloc Cstring Vm Proc Iface Sleeplock Bio Log Fs Usr FsDev FsBlock.

(** ** Where a file keeps block addresses *)

Inductive aslot := Dir (j : nat) | Ind (k : nat).
#[global] Instance aslot_eq_dec : EqDecision aslot.
Proof. solve_decision. Defined.

Definition slot_ok (sl : aslot) : Prop :=
  match sl with Dir j => (j <= 12)%nat | Ind k => (k < 256)%nat end.

Definition iaddr (ip : inode) : Z := i_addrs ip !!! 12%nat.

Definition sval (blk : Z -> mem) (ip : inode) (sl : aslot) : Z :=
  match sl with
  | Dir j => i_addrs ip !!! j
  | Ind k => if iaddr ip =? 0 then 0 else load32 (4 * Z.of_nat k) (blk (iaddr ip))
  end.

(** The slot of the [bn]-th block of the file. *)
Definition slot_of (bn : Z) : aslot :=
  if bn <? NDIRECT then Dir (Z.to_nat bn) else Ind (Z.to_nat (bn - NDIRECT)).

(** The contents; a block that was never allocated reads as zeros. *)
Definition fbyte (blk : Z -> mem) (ip : inode) (off : Z) : Z :=
  let a := sval blk ip (slot_of (off / BSIZE)) in
  if a =? 0 then 0 else byte_at (blk a) (off mod BSIZE).

(** The inode in entry [i] of the table. *)
Definition ino (s : dstate) (i : nat) : inode := itable (d_fs s) !!! i.

(** A well-formed file: its blocks are data blocks that are marked in use, and
    no block appears twice. *)
Record file_ok (blk : Z -> mem) (sb : superblock) (ip : inode) : Prop := FileOk {
  fo_len : length (i_addrs ip) = 13%nat;
  fo_range : forall sl, slot_ok sl -> sval blk ip sl <> 0 ->
    data_start sb <= sval blk ip sl < sb_size sb /\ used blk sb (sval blk ip sl) = true;
  fo_inj : forall sl sl', slot_ok sl -> slot_ok sl' -> sval blk ip sl <> 0 ->
    sval blk ip sl = sval blk ip sl' -> sl = sl';
  fo_inum : 0 <= i_inum ip < sb_ninodes sb;
  fo_dev : i_dev ip = ROOTDEV;
}.

Record fs_ok (s : dstate) (i : nat) : Prop := FsOk {
  fs_entry : (i < length (itable (d_fs s)))%nat;
  fs_geo : geometry (fs_sb (d_fs s));
  fs_meta : meta_used (d_blk s) (fs_sb (d_fs s));
  fs_file : file_ok (d_blk s) (fs_sb (d_fs s)) (ino s i);
}.

(** The data blocks are served. *)
Lemma data_served s i dev n :
  fs_ok s i -> dev = ROOTDEV -> data_start (fs_sb (d_fs s)) <= n < sb_size (fs_sb (d_fs s)) -> served dev n s.
Proof.
  intros [_ G _ _] Hd Hn. pose proof (geometry_pos _ G). apply area_served; auto. lia.
Qed.

Lemma fs_dev s i : fs_ok s i -> i_dev (ino s i) = ROOTDEV.
Proof. intros [_ _ _ F]. apply (fo_dev _ _ _ F). Qed.

(** Block [n] is written because of block [a] of a file: it is [a], or the
    block of the bitmap that marks [a] used, if [a] is new. *)
Definition writes_for (sb : superblock) (new : Prop) (a n : Z) : Prop := a <> 0 /\ (n = a \/ new /\ n = BBLOCK a sb).

Lemma writes_for_new sb (P Q : Prop) a n : writes_for sb P a n -> (P -> Q) -> writes_for sb Q a n.
Proof. intros [H [->|[HP ->]]] HQ; split; auto. Qed.

(** What allocating block [b] for slot [sl] of file [i] does. *)
Record grow (s s' : dstate) (i : nat) (sl : aslot) (b : Z) : Prop := Grow {
  gr_sb : fs_sb (d_fs s') = fs_sb (d_fs s);
  gr_len : length (itable (d_fs s')) = length (itable (d_fs s));
  gr_ino : exists a, ino s' i = (ino s i) <| i_addrs := a |> /\ length a = length (i_addrs (ino s i));
  gr_others : forall j, j <> i -> ino s' j = ino s j;
  gr_locked : d_locked s' = d_locked s;
  gr_sval : forall sl', slot_ok sl' ->
    sval (d_blk s') (ino s' i) sl' = if decide (sl' = sl) then b else sval (d_blk s) (ino s i) sl';
  gr_zero : forall x, 0 <= x < BSIZE -> byte_at (d_blk s' b) x = 0;
  gr_used : forall b', 0 <= b' < sb_size (fs_sb (d_fs s)) ->
    used (d_blk s') (fs_sb (d_fs s)) b' = if decide (b' = b) then true else used (d_blk s) (fs_sb (d_fs s)) b';
  gr_frame : forall n, n <> b -> n <> BBLOCK b (fs_sb (d_fs s)) -> n <> iaddr (ino s' i) -> d_blk s' n = d_blk s n;
  gr_dirty : forall n, n ∈ d_dirty s' ->
    n ∈ d_dirty s \/ writes_for (fs_sb (d_fs s)) False (iaddr (ino s' i)) n \/ writes_for (fs_sb (d_fs s)) True b n;
  gr_usr : d_usr s' = d_usr s;
}.

Lemma slot_of_ok bn : 0 <= bn < MAXFILE -> slot_ok (slot_of bn).
Proof.
  intros Hbn. change MAXFILE with 268 in Hbn. unfold slot_of, NDIRECT.
  destruct (bn <? 12) eqn:E; simpl; lia.
Qed.

Lemma slot_of_dir12 bn : 0 <= bn -> slot_of bn <> Dir 12.
Proof. intros H0. unfold slot_of, NDIRECT. destruct (bn <? 12) eqn:E; [|discriminate]. intros [= Hd]. lia. Qed.

(** A free block belongs to no slot. *)
Lemma free_not_sval blk sb ip b sl :
  file_ok blk sb ip -> used blk sb b = false -> slot_ok sl -> b <> 0 -> sval blk ip sl <> b.
Proof.
  intros F Hu Hs H0 E. destruct (fo_range _ _ _ F sl Hs) as [_ H]; [congruence|]. rewrite E in H. congruence.
Qed.

(** Growing keeps the file well-formed and its contents. *)
Lemma grow_ok s s' i sl b :
  fs_ok s i -> grow s s' i sl b -> slot_ok sl -> sval (d_blk s) (ino s i) sl = 0 ->
  data_start (fs_sb (d_fs s)) <= b < sb_size (fs_sb (d_fs s)) -> used (d_blk s) (fs_sb (d_fs s)) b = false ->
  fs_ok s' i.
Proof.
  intros [Hi G Hm F] Gr Hsl Hz Hb Hu. set (sb := fs_sb (d_fs s)) in *.
  pose proof (geometry_pos sb G) as Gp.
  destruct (gr_ino _ _ _ _ _ Gr) as (a & Ea & Hla).
  split; rewrite ?(gr_sb _ _ _ _ _ Gr); fold sb.
  - rewrite (gr_len _ _ _ _ _ Gr). exact Hi.
  - exact G.
  - intros b' Hb'. rewrite (gr_used _ _ _ _ _ Gr) by (fold sb; destruct G; lia). fold sb.
    case_decide; [reflexivity|]. by apply Hm.
  - split.
    + rewrite Ea. simpl. rewrite Hla. apply (fo_len _ _ _ F).
    + intros sl' Hs' Hne. rewrite (gr_sval _ _ _ _ _ Gr) in * by auto.
      case_decide as Hd; [subst; split; [lia|]|].
      * rewrite (gr_used _ _ _ _ _ Gr) by (fold sb; lia). by rewrite decide_True.
      * destruct (fo_range _ _ _ F sl' Hs' Hne) as [H1 H2]. split; [exact H1|].
        rewrite (gr_used _ _ _ _ _ Gr) by (fold sb; lia).
        case_decide; auto.
    + intros sl1 sl2 Hs1 Hs2. rewrite !(gr_sval _ _ _ _ _ Gr) by auto.
      destruct (decide (sl1 = sl)) as [->|]; destruct (decide (sl2 = sl)) as [->|]; intros Hne E; auto.
      * exfalso. by apply (free_not_sval _ _ _ b sl2 F Hu Hs2 ltac:(lia)).
      * exfalso. by apply (free_not_sval _ _ _ b sl1 F Hu Hs1 ltac:(lia)).
      * by apply (fo_inj _ _ _ F).
    + rewrite Ea. apply (fo_inum _ _ _ F).
    + rewrite Ea. apply (fo_dev _ _ _ F).
Qed.

Lemma sval_data blk sb ip sl :
  geometry sb -> file_ok blk sb ip -> slot_ok sl -> sval blk ip sl <> 0 ->
  forall b, 0 <= b < sb_size sb -> sval blk ip sl <> BBLOCK b sb.
Proof.
  intros G F Hs Hne b Hb. destruct (fo_range _ _ _ F sl Hs Hne) as [Hr _].
  pose proof (BBLOCK_meta sb b G Hb). lia.
Qed.

Lemma grow_fbyte s s' i sl b off :
  fs_ok s i -> grow s s' i sl b -> slot_ok sl -> sval (d_blk s) (ino s i) sl = 0 ->
  data_start (fs_sb (d_fs s)) <= b < sb_size (fs_sb (d_fs s)) -> used (d_blk s) (fs_sb (d_fs s)) b = false ->
  0 <= off < MAXFILE * BSIZE ->
  fbyte (d_blk s') (ino s' i) off = fbyte (d_blk s) (ino s i) off.
Proof.
  intros [Hi G Hm F] Gr Hsl Hz Hb Hu Hoff. set (sb := fs_sb (d_fs s)) in *.
  pose proof (geometry_pos sb G) as Gp. unfold fbyte.
  assert (Hs : slot_ok (slot_of (off / BSIZE))).
  { apply slot_of_ok. change MAXFILE with 268 in *. unfold BSIZE in *. dlia. }
  assert (Hn12 : slot_of (off / BSIZE) <> Dir 12).
  { apply slot_of_dir12. unfold BSIZE. dlia. }
  rewrite (gr_sval _ _ _ _ _ Gr) by exact Hs.
  set (sl' := slot_of (off / BSIZE)) in *. case_decide as Hd.
  - rewrite Hd, Hz. destruct (b =? 0) eqn:E; [lia|]. simpl.
    apply (gr_zero _ _ _ _ _ Gr). unfold BSIZE. dlia.
  - set (a := sval (d_blk s) (ino s i) sl') in *. destruct (a =? 0) eqn:E; [reflexivity|].
    rewrite (gr_frame _ _ _ _ _ Gr); [reflexivity| | |].
    + by apply (free_not_sval _ _ _ b sl' F Hu Hs ltac:(lia)).
    + apply (sval_data _ _ _ sl' G F Hs); lia.
    + intros Ea. change (iaddr (ino s' i)) with (sval (d_blk s') (ino s' i) (Dir 12)) in Ea.
      rewrite (gr_sval _ _ _ _ _ Gr) in Ea by (simpl; lia). case_decide.
      * by apply (free_not_sval _ _ _ b sl' F Hu Hs ltac:(lia)).
      * apply Hn12. apply (fo_inj _ _ _ F); auto; [simpl; lia|]. fold a. lia.
Qed.

(** ** The two ways of growing *)

Definition upd_ino (i : nat) (g : inode -> inode) (s : dstate) : dstate :=
  s <| d_fs ::= (fun f => f <| itable := <[i := g (itable f !!! i)]> (itable f) |>) |>.

Lemma modi_d i g t s : modi i g t s = ORet tt t (upd_ino i g s).
Proof. reflexivity. Qed.

Lemma geti_d i t s : geti i t s = ORet (ino s i) t s.
Proof. reflexivity. Qed.

Lemma ino_upd i g s : (i < length (itable (d_fs s)))%nat -> ino (upd_ino i g s) i = g (ino s i).
Proof. intros Hi. unfold ino, upd_ino. cbn. by rewrite list_lookup_total_insert_eq. Qed.

Lemma ino_upd_ne i g s j : j <> i -> ino (upd_ino i g s) j = ino s j.
Proof. intros Hj. unfold ino, upd_ino. cbn. by rewrite list_lookup_total_insert_ne. Qed.

Lemma load32_zero_block s sb b k : (k < 256)%nat -> load32 (4 * Z.of_nat k) (d_blk (take_block sb b s) b) = 0.
Proof.
  intros Hk. unfold take_block. rewrite edit_blk, blk_set_eq. apply mload_mset_zero; unfold BSIZE; lia.
Qed.

Lemma grow_dir s i j b :
  fs_ok s i -> (j <= 12)%nat -> i_addrs (ino s i) !!! j = 0 ->
  data_start (fs_sb (d_fs s)) <= b < sb_size (fs_sb (d_fs s)) -> used (d_blk s) (fs_sb (d_fs s)) b = false ->
  grow s (upd_ino i (fun ip => ip <| i_addrs ::= <[j := b]> |>) (take_block (fs_sb (d_fs s)) b s)) i (Dir j) b.
Proof.
  intros [Hi G Hm F] Hj Hz Hb Hu. set (sb := fs_sb (d_fs s)) in *.
  pose proof (geometry_pos sb G) as Gp. set (s1 := take_block sb b s).
  assert (Hi1 : (i < length (itable (d_fs s1)))%nat) by exact Hi.
  pose proof (fo_len _ _ _ F) as Hlen.
  split; fold sb; change (d_blk (upd_ino _ _ s1)) with (d_blk s1).
  - reflexivity.
  - cbn. apply length_insert.
  - exists (<[j := b]> (i_addrs (ino s i))). rewrite ino_upd by exact Hi1.
    split; [reflexivity|apply length_insert].
  - intros k Hk. by rewrite ino_upd_ne.
  - reflexivity.
  - intros sl' Hs'. rewrite ino_upd by exact Hi1. change (ino s1 i) with (ino s i).
    destruct sl' as [j'|k]; simpl in Hs'.
    + simpl. destruct (decide (j' = j)) as [->|Hne].
      * rewrite decide_True by reflexivity. by rewrite list_lookup_total_insert_eq by lia.
      * rewrite decide_False by congruence. by rewrite list_lookup_total_insert_ne by congruence.
    + rewrite decide_False by discriminate. unfold sval, iaddr.
      change (i_addrs ((ino s i) <| i_addrs ::= <[j := b]> |>)) with (<[j := b]> (i_addrs (ino s i))).
      destruct (decide (j = 12%nat)) as [->|Hne].
      * rewrite list_lookup_total_insert_eq by lia. rewrite Hz, Z.eqb_refl.
        destruct (b =? 0) eqn:E; [lia|]. by apply load32_zero_block.
      * rewrite list_lookup_total_insert_ne by congruence.
        destruct (i_addrs (ino s i) !!! 12%nat =? 0) eqn:E; [reflexivity|].
        unfold s1. rewrite take_block_blk; [reflexivity| |].
        -- apply (free_not_sval _ _ _ b (Dir 12) F Hu); simpl; lia.
        -- apply (sval_data _ _ _ (Dir 12) G F); simpl; lia.
  - intros x Hx. by apply take_block_zero.
  - intros b' Hb'. by apply used_take_block.
  - intros n H1 H2 _. by apply take_block_blk.
  - intros n Hn. apply dirty_take_block in Hn as [Hn|[->| ->]]; auto; right; right; split; auto; lia.
  - reflexivity.
Qed.

Lemma iaddr_range s i :
  fs_ok s i -> iaddr (ino s i) <> 0 ->
  data_start (fs_sb (d_fs s)) <= iaddr (ino s i) < sb_size (fs_sb (d_fs s)) /\
  used (d_blk s) (fs_sb (d_fs s)) (iaddr (ino s i)) = true.
Proof. intros [_ _ _ F] Hne. exact (fo_range _ _ _ F (Dir 12) ltac:(simpl; lia) Hne). Qed.

Lemma load32_store32_slot b m k k' :
  0 <= b < 2 ^ 31 ->
  load32 (4 * Z.of_nat k') (store32 (4 * Z.of_nat k) b m) =
  if decide (k' = k) then b else load32 (4 * Z.of_nat k') m.
Proof.
  intros Hb. case_decide as Hd.
  - subst. change 4 with (Z.of_nat 4) at 2. rewrite mload_mstore_same. apply Z.mod_small.
    change (2 ^ 31) with 2147483648 in Hb. change (256 ^ Z.of_nat 4) with 4294967296. lia.
  - apply mload_mstore_other. lia.
Qed.

Lemma grow_ind s i k b :
  fs_ok s i -> (k < 256)%nat -> iaddr (ino s i) <> 0 ->
  data_start (fs_sb (d_fs s)) <= b < sb_size (fs_sb (d_fs s)) -> used (d_blk s) (fs_sb (d_fs s)) b = false ->
  grow s (edit (iaddr (ino s i)) (store32 (4 * Z.of_nat k) b) (take_block (fs_sb (d_fs s)) b s)) i (Ind k) b.
Proof.
  intros Hok Hk Ha Hb Hu. pose proof Hok as [Hi G Hm F]. set (sb := fs_sb (d_fs s)) in *.
  pose proof (geometry_pos sb G) as Gp. destruct (iaddr_range s i Hok Ha) as [Har Hau]. fold sb in Har, Hau.
  set (a := iaddr (ino s i)) in *. set (s1 := take_block sb b s).
  pose proof (BBLOCK_meta sb b G ltac:(lia)) as Hbb.
  assert (Hab : a <> b) by (intros ->; congruence).
  assert (Ea : d_blk s1 a = d_blk s a) by (apply take_block_blk; lia).
  assert (Hino : forall j, ino (edit a (store32 (4 * Z.of_nat k) b) s1) j = ino s j) by reflexivity.
  split; fold sb; rewrite ?Hino, ?edit_blk, ?Ea.
  - reflexivity.
  - reflexivity.
  - exists (i_addrs (ino s i)). split; [|reflexivity]. by destruct (ino s i).
  - intros j _. reflexivity.
  - reflexivity.
  - intros sl' Hs'. destruct sl' as [j|k']; simpl sval at 1.
    + by rewrite decide_False.
    + fold a. destruct (a =? 0) eqn:E; [lia|]. rewrite blk_set_eq, load32_store32_slot.
      2:{ destruct G as [G1 _ _ _]. lia. }
      simpl. fold a. rewrite E. destruct (decide (k' = k)) as [->|]; [by rewrite decide_True|].
      by rewrite decide_False by congruence.
  - intros x Hx. rewrite blk_set_ne by congruence. by apply take_block_zero.
  - intros b' Hb'. pose proof (BBLOCK_meta sb b' G Hb').
    rewrite used_setb_other by lia. by apply used_take_block.
  - intros n H1 H2 H3. rewrite blk_set_ne by (fold a in H3; exact H3). by apply take_block_blk.
  - intros n Hn. apply dirty_edit in Hn as [->|Hn]; [right; left; by split; [|left]|].
    apply dirty_take_block in Hn as [Hn|[->| ->]]; auto; right; right; split; auto; lia.
  - reflexivity.
Qed.

(** ** [bmap] *)

(** What [bmap] and [writei] leave alone in any case. *)
Record same_but (s s' : dstate) (i : nat) : Prop := SameBut {
  sm_sb : fs_sb (d_fs s') = fs_sb (d_fs s);
  sm_others : forall j, j <> i -> ino s' j = ino s j;
  sm_locked : d_locked s' = d_locked s;
  sm_ino : exists a, ino s' i = (ino s i) <| i_addrs := a |>;
  sm_used : forall b, 0 <= b < sb_size (fs_sb (d_fs s)) ->
    used (d_blk s) (fs_sb (d_fs s)) b = true -> used (d_blk s') (fs_sb (d_fs s)) b = true;
  sm_sval : forall sl, slot_ok sl -> sval (d_blk s) (ino s i) sl <> 0 ->
    sval (d_blk s') (ino s' i) sl = sval (d_blk s) (ino s i) sl;
  sm_usr : d_usr s' = d_usr s;
}.

Lemma same_but_refl s i : same_but s s i.
Proof. split; auto. exists (i_addrs (ino s i)). by destruct (ino s i). Qed.

Lemma same_but_trans s1 s2 s3 i : same_but s1 s2 i -> same_but s2 s3 i -> same_but s1 s3 i.
Proof.
  intros [A1 A2 A3 (a & A4) A5 A6 A7] [B1 B2 B3 (b & B4) B5 B6 B7]. split; try congruence.
  - intros j Hj. by rewrite B2, A2.
  - exists b. by rewrite B4, A4.
  - intros n Hn Hu. rewrite A1 in B5. apply B5; auto.
  - intros sl Hs Hne. rewrite B6, A6; auto. rewrite A6; auto.
Qed.

Lemma grow_same_but s s' i sl b :
  grow s s' i sl b -> slot_ok sl -> sval (d_blk s) (ino s i) sl = 0 -> same_but s s' i.
Proof.
  intros Gr Hs Hz. destruct (gr_ino _ _ _ _ _ Gr) as (a & Ea & _). split.
  - apply (gr_sb _ _ _ _ _ Gr).
  - apply (gr_others _ _ _ _ _ Gr).
  - apply (gr_locked _ _ _ _ _ Gr).
  - by exists a.
  - intros b' Hb' Hu. rewrite (gr_used _ _ _ _ _ Gr) by exact Hb'. by case_decide.
  - intros sl' Hs' Hne. rewrite (gr_sval _ _ _ _ _ Gr) by exact Hs'. case_decide; congruence.
  - apply (gr_usr _ _ _ _ _ Gr).
Qed.

(** The contents of file [i] are the same. *)
Definition same_bytes (s s' : dstate) (i : nat) : Prop :=
  forall off, 0 <= off < MAXFILE * BSIZE ->
    fbyte (d_blk s') (ino s' i) off = fbyte (d_blk s) (ino s i) off.

(** The disk has no free block. *)
Definition disk_full (s : dstate) : Prop :=
  forall b, 0 <= b < sb_size (fs_sb (d_fs s)) -> used (d_blk s) (fs_sb (d_fs s)) b = true.

(** The outcome of looking up slot [sl], allocating if it is empty. *)
Record mapped (s s' : dstate) (i : nat) (sl : aslot) (r : Z) : Prop := Mapped {
  mp_ok : fs_ok s' i;
  mp_same : same_but s s' i;
  mp_bytes : same_bytes s s' i;
  mp_val : r = sval (d_blk s') (ino s' i) sl;
  mp_hit : sval (d_blk s) (ino s i) sl <> 0 -> s' = s;
  mp_full : r = 0 -> disk_full s';
  mp_dirty : forall n, n ∈ d_dirty s' -> n ∈ d_dirty s \/
    writes_for (fs_sb (d_fs s)) True (iaddr (ino s' i)) n \/
    writes_for (fs_sb (d_fs s)) (sval (d_blk s) (ino s i) sl = 0) r n;
}.

Lemma addr_or_alloc_d i j t s :
  fs_ok s i -> bmap_ok s -> (j <= 12)%nat ->
  exists r s', addr_or_alloc i j t s = ORet r t s' /\ mapped s s' i (Dir j) r.
Proof.
  intros Hok Hbm Hj. unfold addr_or_alloc. kstep (geti_d i t s).
  destruct (i_addrs (ino s i) !!! j =? 0) eqn:E.
  - destruct (balloc_ok (i_dev (ino s i)) t s (fs_dev _ _ Hok) Hbm) as [(b & Hb & Hu & _ & Eb)|(Hall & Eb)].
    + kstep Eb. pose proof (geometry_pos _ (fs_geo _ _ Hok)).
      destruct (b =? 0) eqn:Eb0; [lia|]. kstep (modi_d i (fun ip => ip <| i_addrs ::= <[j := b]> |>) t
        (take_block (fs_sb (d_fs s)) b s)).
      eexists _, _. split; [reflexivity|].
      assert (Gr := grow_dir s i j b Hok Hj ltac:(lia) Hb Hu).
      split.
      * apply (grow_ok s _ i (Dir j) b); auto; simpl; lia.
      * apply (grow_same_but _ _ _ _ _ Gr); simpl; lia.
      * intros off Hoff. apply (grow_fbyte _ _ _ _ _ _ Hok Gr); auto; simpl; lia.
      * rewrite (gr_sval _ _ _ _ _ Gr) by (simpl; lia). by rewrite decide_True.
      * simpl. lia.
      * lia.
      * intros n Hn. apply (gr_dirty _ _ _ _ _ Gr) in Hn as [Hn|[Hn|Hn]]; eauto using writes_for_new.
        right; right. apply (writes_for_new _ _ _ _ _ Hn). simpl. lia.
    + kstep Eb. eexists _, _. split; [reflexivity|].
      split; [exact Hok|apply same_but_refl|intros ? _; reflexivity|simpl; lia|auto|auto|auto].
  - eexists _, _. split; [reflexivity|].
    split; [exact Hok|apply same_but_refl|intros ? _; reflexivity|reflexivity|auto|lia|auto].
Qed.

Lemma same_bytes_trans s1 s2 s3 i : same_bytes s1 s2 i -> same_bytes s2 s3 i -> same_bytes s1 s3 i.
Proof. intros H1 H2 off Hoff. by rewrite H2, H1. Qed.

Lemma fs_bmap_ok s i : fs_ok s i -> d_locked s = ∅ -> bmap_ok s.
Proof. intros [_ G Hm _] Hl. by apply bmap_ok_unlocked. Qed.

(** The bitmap can be used while the indirect block is locked. *)
Lemma lock_iaddr_ok s i :
  fs_ok s i -> d_locked s = ∅ -> iaddr (ino s i) <> 0 -> bmap_ok (lockb (iaddr (ino s i)) s).
Proof.
  intros Hok Hl Ha. destruct (iaddr_range s i Hok Ha) as [Har Hau]. destruct Hok as [_ G Hm _].
  split; [exact G|exact Hm| |].
  - intros b Hb Hin. change (d_fs (lockb _ s)) with (d_fs s) in *.
    apply in_lockb in Hin as [E|Hin]; [|rewrite Hl in Hin; by apply not_elem_of_empty in Hin].
    pose proof (BBLOCK_meta _ b G Hb). lia.
  - intros b Hin. apply in_lockb in Hin as [->|Hin]; [exact Hau|].
    rewrite Hl in Hin. by apply not_elem_of_empty in Hin.
Qed.

(** Growing by an entry of the indirect block, after the indirect block
    itself was found or allocated. *)
Lemma mapped_grow s s1 s2 i k r b :
  mapped s s1 i (Dir 12) r -> grow s1 s2 i (Ind k) b -> (k < 256)%nat ->
  sval (d_blk s1) (ino s1 i) (Ind k) = 0 -> b <> 0 ->
  data_start (fs_sb (d_fs s1)) <= b < sb_size (fs_sb (d_fs s1)) -> used (d_blk s1) (fs_sb (d_fs s1)) b = false ->
  (iaddr (ino s i) <> 0 -> s1 = s) ->
  mapped s s2 i (Ind k) b.
Proof.
  intros [M1 M2 M3 M4 M5 M6 M7] Gr Hk Hz Hb0 Hb Hu Hhit. split.
  - by apply (grow_ok s1 _ i (Ind k) b).
  - apply (same_but_trans _ s1); [exact M2|by apply (grow_same_but _ _ _ _ _ Gr)].
  - apply (same_bytes_trans _ s1); [exact M3|]. intros off Hoff. by apply (grow_fbyte _ _ _ _ _ _ M1 Gr).
  - rewrite (gr_sval _ _ _ _ _ Gr) by exact Hk. by rewrite decide_True.
  - intros Hne. exfalso. assert (E : s1 = s).
    { apply Hhit. intros Hi. apply Hne. simpl. by rewrite Hi. }
    rewrite E in Hz. congruence.
  - congruence.
  - assert (Ei : iaddr (ino s2 i) = iaddr (ino s1 i)).
    { change (sval (d_blk s2) (ino s2 i) (Dir 12) = sval (d_blk s1) (ino s1 i) (Dir 12)).
      rewrite (gr_sval _ _ _ _ _ Gr) by (simpl; lia). by rewrite decide_False. }
    assert (Hz0 : sval (d_blk s) (ino s i) (Ind k) = 0).
    { destruct (decide (sval (d_blk s) (ino s i) (Ind k) = 0)) as [|Hne]; [done|].
      by rewrite (sm_sval _ _ _ M2 (Ind k) Hk Hne) in Hz. }
    rewrite Ei. intros n Hn. pose proof (sm_sb _ _ _ M2) as Esb.
    apply (gr_dirty _ _ _ _ _ Gr) in Hn as [Hn|[Hn|Hn]]; rewrite ?Ei, ?Esb in Hn.
    + apply M7 in Hn as [Hn|[Hn|Hn]]; auto. right; left. rewrite M4 in Hn. by apply (writes_for_new _ _ _ _ _ Hn).
    + right; left. by apply (writes_for_new _ _ _ _ _ Hn).
    + right; right. by apply (writes_for_new _ _ _ _ _ Hn).
Qed.

Lemma mapped_ind s s1 i k r :
  mapped s s1 i (Dir 12) r -> (k < 256)%nat ->
  (sval (d_blk s1) (ino s1 i) (Ind k) = 0 -> disk_full s1) ->
  mapped s s1 i (Ind k) (sval (d_blk s1) (ino s1 i) (Ind k)).
Proof.
  intros [M1 M2 M3 M4 M5 M6 M7] Hk Hfull. split; auto.
  - intros Hne. apply M5. intros Hi. apply Hne. simpl. unfold iaddr. simpl in Hi. by rewrite Hi.
  - intros n Hn. apply M7 in Hn as [Hn|[Hn|Hn]]; auto. right; left. rewrite M4 in Hn. by apply (writes_for_new _ _ _ _ _ Hn).
Qed.

Lemma lock_take_block a sb b s : take_block sb b (lockb a s) = lockb a (take_block sb b s).
Proof. destruct s. reflexivity. Qed.

(** The entry of the indirect block: the second half of [bmap]. *)
Lemma bmap_entry i k a t s s1 :
  mapped s s1 i (Dir 12) a -> a <> 0 -> d_locked s1 = ∅ -> (k < 256)%nat ->
  exists r s',
    (let* ip := geti i in
     let* bp := bd_bread (i_dev ip) a in
     let* m := gets (bd_data bp) in
     let addr := load32 (4 * Z.of_nat k) m in
     let* addr :=
       (if addr =? 0 then
          let* addr := balloc (i_dev ip) in
          when (negb (addr =? 0)) (set_data bp (store32 (4 * Z.of_nat k) addr) ;; op_log_write bp) ;;
          ret addr
        else ret addr) in
     bd_brelse bp ;;
     ret addr) t s1 = ORet r t s' /\ mapped s s' i (Ind k) r.
Proof.
  intros M1 Ha0 Hl1 Hk. pose proof (mp_ok _ _ _ _ _ M1) as Hok1.
  assert (Ha : iaddr (ino s1 i) = a) by (symmetry; exact (mp_val _ _ _ _ _ M1)).
  assert (Hne : iaddr (ino s1 i) <> 0) by lia.
  destruct (iaddr_range s1 i Hok1 Hne) as [Har _]. pose proof (geometry_pos _ (fs_geo _ _ Hok1)).
  assert (Hna : a ∉ d_locked s1) by (rewrite Hl1; apply not_elem_of_empty).
  kstep (geti_d i t s1). kstep (bread_d (i_dev (ino s1 i)) a t s1 Hna
    ltac:(rewrite <- Ha; apply (data_served _ i); auto; by apply fs_dev)).
  unfold gets at 1. erewrite bind_ret by reflexivity. cbv beta zeta.
  rewrite data_d by lia. change (d_blk (lockb a s1)) with (d_blk s1).
  assert (Ev : load32 (4 * Z.of_nat k) (d_blk s1 a) = sval (d_blk s1) (ino s1 i) (Ind k)).
  { unfold sval. rewrite Ha. destruct (a =? 0) eqn:E; [lia|reflexivity]. }
  rewrite Ev. set (v := sval (d_blk s1) (ino s1 i) (Ind k)) in *.
  assert (Hrel : forall t, (bd_brelse (Z.to_nat a) ;; ret v) t (lockb a s1) = ORet v t s1).
  { intros t0. erewrite bind_ret by (apply brelse_d; [lia|apply lockb_in]). cbv beta.
    unfold ret. by rewrite unlock_lock. }
  destruct (v =? 0) eqn:Ez; cycle 1.
  { exists v, s1. split; [apply Hrel|]. apply (mapped_ind s s1 i k a M1 Hk). fold v. lia. }
  assert (Hbm := lock_iaddr_ok s1 i Hok1 Hl1 Hne). rewrite Ha in Hbm.
  destruct (balloc_ok (i_dev (ino s1 i)) t _ (fs_dev _ _ Hok1) Hbm) as [(b & Hb & Hu & _ & Eb)|(Hall & Eb)];
    change (d_fs (lockb a s1)) with (d_fs s1) in *; change (d_blk (lockb a s1)) with (d_blk s1) in *.
  - rewrite lock_take_block in Eb. exists b, (edit a (store32 (4 * Z.of_nat k) b) (take_block (fs_sb (d_fs s1)) b s1)).
    split.
    + assert (Hb0 : negb (b =? 0) = true) by lia.
      pose proof (edit_locked a (store32 (4 * Z.of_nat k) b) t (take_block (fs_sb (d_fs s1)) b s1) ltac:(lia) Hna) as E.
      unfold bind in E |- *. rewrite Eb. cbn [obind]. rewrite Hb0. unfold when.
      unfold bind. revert E. rewrite set_data_d by lia. cbn [obind]. rewrite log_write_d by lia. cbn [obind].
      unfold ret at 1. cbn [obind]. intros ->. reflexivity.
    + rewrite <- Ha. apply (mapped_grow s s1 _ i k a b M1 (grow_ind s1 i k b Hok1 Hk Hne Hb Hu)); auto; try (fold v; lia).
      intros Hi. by apply (mp_hit _ _ _ _ _ M1).
  - exists v, s1. split.
    + replace v with 0 in Hrel |- * by lia. unfold bind at 1 2. rewrite Eb. cbn [obind]. apply Hrel.
    + apply (mapped_ind s s1 i k a M1 Hk). intros _. exact Hall.
Qed.

Lemma bmap_d i bn t s :
  fs_ok s i -> d_locked s = ∅ -> 0 <= bn < MAXFILE ->
  exists r s', bmap i bn t s = ORet r t s' /\ mapped s s' i (slot_of bn) r.
Proof.
  intros Hok Hl Hbn. change MAXFILE with 268 in Hbn. unfold bmap, slot_of.
  destruct (bn <? NDIRECT) eqn:Ed; unfold NDIRECT in *.
  { apply addr_or_alloc_d; [exact Hok|by apply (fs_bmap_ok s i)|lia]. }
  change NINDIRECT with 256. destruct (bn - 12 <? 256) eqn:Ei; [|lia].
  set (k := Z.to_nat (bn - 12)). assert (Hk : (k < 256)%nat) by lia.
  replace (bn - 12) with (Z.of_nat k) by lia. clearbody k. clear bn Hbn Ed Ei.
  destruct (addr_or_alloc_d i 12 t s Hok (fs_bmap_ok s i Hok Hl) ltac:(lia)) as (a & s1 & E1 & M1).
  change (Z.to_nat 12) with 12%nat. kstep E1.
  assert (Hl1 : d_locked s1 = ∅) by (rewrite (sm_locked _ _ _ (mp_same _ _ _ _ _ M1)); exact Hl).
  destruct (a =? 0) eqn:Ea; [|apply (bmap_entry i k a t s s1 M1); auto; lia].
  exists 0, s1. split; [reflexivity|].
  assert (Hz : sval (d_blk s1) (ino s1 i) (Ind k) = 0).
  { simpl. rewrite (mp_val _ _ _ _ _ M1) in Ea. simpl in Ea. unfold iaddr. by rewrite Ea. }
  rewrite <- Hz. apply (mapped_ind s s1 i k a M1 Hk). intros _. apply (mp_full _ _ _ _ _ M1). lia.
Qed.

(** ** [readi] *)

(** Every block below the file's size is allocated. *)
Definition no_holes (blk : Z -> mem) (ip : inode) : Prop :=
  forall bn, 0 <= bn -> bn * BSIZE < i_size ip -> sval blk ip (slot_of bn) <> 0.

(** [n] bytes of the file from [off]. *)
Definition content (blk : Z -> mem) (ip : inode) (off : Z) (n : nat) : list Z :=
  (fun k => fbyte blk ip (off + Z.of_nat k)) <$> seq 0 n.

Lemma length_content blk ip off n : length (content blk ip off n) = n.
Proof. unfold content. by rewrite length_fmap, length_seq. Qed.

Lemma lookup_content blk ip off n k :
  (k < n)%nat -> content blk ip off n !! k = Some (fbyte blk ip (off + Z.of_nat k)).
Proof.
  intros Hk. unfold content. rewrite list_lookup_fmap.
  by rewrite (proj2 (lookup_seq 0 n k k)) by lia.
Qed.

Lemma content_app blk ip off a b :
  content blk ip off (a + b) = content blk ip off a ++ content blk ip (off + Z.of_nat a) b.
Proof.
  unfold content. rewrite seq_app, fmap_app. f_equal. apply list_eq. intros k.
  rewrite !list_lookup_fmap. destruct (decide (k < b)%nat).
  - rewrite (proj2 (lookup_seq (0 + a) b k (0 + a + k))), (proj2 (lookup_seq 0 b k k)) by lia.
    simpl. do 2 f_equal. lia.
  - by rewrite !lookup_ge_None_2 by (rewrite length_seq; lia).
Qed.

Lemma div_in_block off x : off mod BSIZE + x < BSIZE -> 0 <= x -> (off + x) / BSIZE = off / BSIZE.
Proof. unfold BSIZE. intros. dlia. Qed.
Lemma mod_in_block off x : off mod BSIZE + x < BSIZE -> 0 <= x -> (off + x) mod BSIZE = off mod BSIZE + x.
Proof. unfold BSIZE. intros. dlia. Qed.

(** Inside one allocated block the contents are the bytes of the block. *)
Lemma content_block blk ip off m :
  off mod BSIZE + Z.of_nat m <= BSIZE -> sval blk ip (slot_of (off / BSIZE)) <> 0 ->
  bytes_at (blk (sval blk ip (slot_of (off / BSIZE)))) (off mod BSIZE) m = content blk ip off m.
Proof.
  intros Hm Hne. apply list_eq. intros k. destruct (decide (k < m)%nat).
  - rewrite lookup_bytes_at, lookup_content by lia. f_equal. unfold fbyte.
    rewrite div_in_block, mod_in_block by lia.
    destruct (sval _ _ _ =? 0) eqn:E; [lia|reflexivity].
  - by rewrite !lookup_ge_None_2 by (rewrite ?length_bytes_at, ?length_content; lia).
Qed.

(** Turns of the copy loops that are left at offset [off], [rest] bytes before
    the end. *)
Definition turns (off rest : Z) : Z := if rest <=? 0 then 1 else (off + rest - 1) / BSIZE - off / BSIZE + 2.

Lemma turns_start off n : 0 <= off -> 0 <= n -> turns off n <= n / BSIZE + 3.
Proof. intros. unfold turns, BSIZE. destruct (n <=? 0) eqn:E; dlia. Qed.

Lemma turns_step off rest :
  0 <= off -> 0 < rest ->
  let m := Z.min rest (BSIZE - off mod BSIZE) in
  0 < m <= BSIZE - off mod BSIZE /\ turns (off + m) (rest - m) < turns off rest.
Proof.
  intros Ho Hr. cbv zeta. unfold turns, BSIZE.
  destruct (Z.min_spec rest (1024 - off mod 1024)) as [[H1 ->]|[H1 ->]].
  - split; [dlia|]. destruct (rest - rest <=? 0) eqn:E1; [|lia]. destruct (rest <=? 0) eqn:E2; dlia.
  - split; [dlia|]. destruct (rest <=? 0) eqn:E2; [lia|].
    destruct (rest - (1024 - off mod 1024) <=? 0) eqn:E1; dlia.
Qed.

Lemma bmap_hit i bn t s :
  fs_ok s i -> d_locked s = ∅ -> 0 <= bn < MAXFILE -> sval (d_blk s) (ino s i) (slot_of bn) <> 0 ->
  bmap i bn t s = ORet (sval (d_blk s) (ino s i) (slot_of bn)) t s.
Proof.
  intros Hok Hl Hbn Hne. destruct (bmap_d i bn t s Hok Hl Hbn) as (r & s' & E & Mp).
  rewrite E. pose proof (mp_hit _ _ _ _ _ Mp Hne) as ->. by rewrite (mp_val _ _ _ _ _ Mp).
Qed.

Lemma sval_bounds s i sl :
  fs_ok s i -> slot_ok sl -> sval (d_blk s) (ino s i) sl <> 0 ->
  data_start (fs_sb (d_fs s)) <= sval (d_blk s) (ino s i) sl < sb_size (fs_sb (d_fs s)) /\
  2 < data_start (fs_sb (d_fs s)).
Proof.
  intros [_ G _ F] Hs Hne. pose proof (geometry_pos _ G).
  destruct (fo_range _ _ _ F sl Hs Hne). lia.
Qed.

(** The body of the loop of [readi]. *)
Definition readi_body {L : LinkMap} (i : nat) (dev n : Z) (x : Z * Z * kdst * list Z) :
    M dstate (Z * Z * kdst * list Z + Z * list Z) :=
  let '(tot, off, dst, acc) := x in
  if tot <? n then
    let* addr := bmap i (off / BSIZE) in
    if addr =? 0 then ret (inr (tot, acc))
    else
      let* bp := bd_bread dev addr in
      let m := Z.min (n - tot) (BSIZE - off mod BSIZE) in
      let* l := gets (fun s => bytes_at (bd_data bp s) (off mod BSIZE) (Z.to_nat m)) in
      let* r := op_copyout dst l in
      if r =? -1 then bd_brelse bp ;; ret (inr (-1, acc))
      else bd_brelse bp ;; ret (inl (tot + m, u32 (off + m), kdst_shift dst m, acc ++ l))
  else ret (inr (tot, acc)).

(** A turn of the loop copies to the end of the block or of the request. *)
Lemma readi_turn {L : LinkMap} i dev len off tot acc t s :
  dev = ROOTDEV ->
  fs_ok s i -> d_locked s = ∅ -> no_holes (d_blk s) (ino s i) -> i_size (ino s i) <= MAXFILE * BSIZE ->
  0 <= off -> off + len - tot <= i_size (ino s i) -> 0 <= tot < len ->
  let m := Z.min (len - tot) (BSIZE - off mod BSIZE) in
  readi_body i dev len (tot, off, DVar, acc) t s =
  ORet (inl (tot + m, off + m, DVar, acc ++ content (d_blk s) (ino s i) off (Z.to_nat m))) t s.
Proof.
  intros Hdev Hok Hl Hnh Hmax Ho Hlen Ht m. change (MAXFILE * BSIZE) with 274432 in Hmax.
  unfold readi_body. destruct (tot <? len) eqn:Et; [|lia]. set (ip := ino s i) in *.
  assert (Hbn : 0 <= off / BSIZE < MAXFILE /\ off / BSIZE * BSIZE < i_size ip).
  { change MAXFILE with 268. unfold BSIZE. dlia. }
  assert (Hs : slot_ok (slot_of (off / BSIZE))) by (apply slot_of_ok; lia).
  assert (Hne : sval (d_blk s) ip (slot_of (off / BSIZE)) <> 0) by (apply Hnh; lia).
  destruct (sval_bounds s i _ Hok Hs Hne) as [Hr Hr2]. fold ip in Hr.
  kstep (bmap_hit i (off / BSIZE) t s Hok Hl (proj1 Hbn) Hne). fold ip.
  destruct (turns_step off (len - tot)) as [Hm _]; [lia|lia|]. fold m in Hm |- *.
  rewrite <- (content_block (d_blk s) ip off (Z.to_nat m)) by (auto; lia).
  set (a := sval (d_blk s) ip (slot_of (off / BSIZE))) in *. destruct (a =? 0) eqn:Ea; [lia|].
  assert (Hna : a ∉ d_locked s) by (rewrite Hl; apply not_elem_of_empty).
  kstep (bread_d dev a t s Hna (data_served _ _ _ _ Hok Hdev Hr)). cbv zeta. fold m. unfold gets at 1. erewrite bind_ret by reflexivity. cbv beta.
  rewrite data_d by lia. change (d_blk (lockb a s)) with (d_blk s).
  erewrite bind_ret by apply copyout_var. cbv beta. change (0 =? -1) with false. cbv iota.
  erewrite bind_ret by (apply brelse_d; [lia|apply lockb_in]). cbv beta.
  rewrite unlock_lock by exact Hna. unfold ret. rewrite u32_small by lia. reflexivity.
Qed.

Lemma readi_loop {L : LinkMap} i dev len t s off :
  dev = ROOTDEV ->
  fs_ok s i -> d_locked s = ∅ -> no_holes (d_blk s) (ino s i) -> i_size (ino s i) <= MAXFILE * BSIZE ->
  0 <= off -> off + Z.of_nat len <= i_size (ino s i) ->
  forall fuel tot, (tot <= len)%nat ->
    turns (off + Z.of_nat tot) (Z.of_nat (len - tot)) <= Z.of_nat fuel ->
    loop fuel (readi_body i dev (Z.of_nat len))
      (Z.of_nat tot, off + Z.of_nat tot, DVar, content (d_blk s) (ino s i) off tot) t s =
    ORet (Z.of_nat len, content (d_blk s) (ino s i) off len) t s.
Proof.
  intros Hdev Hok Hl Hnh Hmax Ho Hlen. induction fuel as [|fuel IH]; intros tot Ht Hf.
  { unfold turns, BSIZE in Hf. destruct (Z.of_nat (len - tot) <=? 0) eqn:E; dlia. }
  cbn [loop]. destruct (decide (tot = len)) as [->|Hne].
  { unfold bind, readi_body at 1. rewrite Z.ltb_irrefl. reflexivity. }
  destruct (turns_step (off + Z.of_nat tot) (Z.of_nat (len - tot))) as [Hm Hdec]; [lia|lia|].
  kstep (readi_turn i dev (Z.of_nat len) (off + Z.of_nat tot) (Z.of_nat tot)
    (content (d_blk s) (ino s i) off tot) t s Hdev Hok Hl Hnh Hmax ltac:(lia) ltac:(lia) ltac:(lia)).
  rewrite <- content_app. rewrite Nat2Z.inj_sub in Hm, Hdec by lia.
  set (m := Z.min (Z.of_nat len - Z.of_nat tot) _) in *.
  replace (Z.of_nat tot + m) with (Z.of_nat (tot + Z.to_nat m)) by lia.
  replace (off + Z.of_nat tot + m) with (off + Z.of_nat (tot + Z.to_nat m)) in * by lia.
  apply IH; [lia|]. replace (Z.of_nat (len - (tot + Z.to_nat m))) with (Z.of_nat len - Z.of_nat tot - m) by lia.
  rewrite Nat2Z.inj_sub in Hf by lia. lia.
Qed.

Lemma readi_d {L : LinkMap} i off n t s :
  fs_ok s i -> d_locked s = ∅ -> no_holes (d_blk s) (ino s i) -> i_size (ino s i) <= MAXFILE * BSIZE ->
  0 <= off <= i_size (ino s i) -> 0 <= n -> off + n < 2 ^ 32 ->
  let len := Z.to_nat (Z.min n (i_size (ino s i) - off)) in
  readi i DVar off n t s = ORet (Z.of_nat len, content (d_blk s) (ino s i) off len) t s.
Proof.
  intros Hok Hl Hnh Hmax Hoff Hn Hw len. pose proof Hmax as Hmax'. change (MAXFILE * BSIZE) with 274432 in Hmax'.
  change (2 ^ 32) with 4294967296 in Hw.
  unfold readi. kstep (geti_d i t s). set (ip := ino s i) in *.
  destruct ((i_size ip <? off) || (u32 (off + n) <? off)) eqn:E1.
  { rewrite u32_small in E1 by lia. lia. }
  assert (En : (if i_size ip <? u32 (off + n) then u32 (i_size ip - off) else n) = Z.of_nat len).
  { rewrite !u32_small by lia. unfold len. destruct (i_size ip <? off + n) eqn:E2; lia. }
  rewrite En. assert (Hlen : off + Z.of_nat len <= i_size ip) by lia. clearbody len.
  pose proof (readi_loop i (i_dev ip) len t s off (fs_dev _ _ Hok) Hok Hl Hnh Hmax ltac:(lia) Hlen
    (Z.to_nat (Z.of_nat len / BSIZE + 3)) 0) as H. rewrite Z.add_0_r, Nat.sub_0_r in H.
  apply H; [lia|]. pose proof (turns_start off (Z.of_nat len)). unfold BSIZE in *. dlia.
Qed.

(** ** [writei] *)

Definition bytes_ok (l : list Z) : Prop := Forall (fun b => 0 <= b < 256) l.

(** [f] with the bytes [l] at [off]. *)
Definition patch (f : Z -> Z) (off : Z) (l : list Z) (x : Z) : Z :=
  if decide (off <= x < off + Z.of_nat (length l)) then default 0 (l !! Z.to_nat (x - off)) else f x.

Lemma patch_app f off l1 l2 x :
  patch (patch f off l1) (off + Z.of_nat (length l1)) l2 x = patch f off (l1 ++ l2) x.
Proof.
  unfold patch. rewrite length_app, Nat2Z.inj_add.
  destruct (decide (off + Z.of_nat (length l1) <= x < _)) as [H1|H1].
  - rewrite decide_True by lia. rewrite lookup_app_r by lia. do 2 f_equal. lia.
  - destruct (decide (off <= x < off + Z.of_nat (length l1))) as [H2|H2].
    + rewrite decide_True by lia. rewrite lookup_app_l by lia. reflexivity.
    + rewrite decide_False by lia. reflexivity.
Qed.

Lemma patch_ext f g off l x : f x = g x -> patch f off l x = patch g off l x.
Proof. intros H. unfold patch. by case_decide. Qed.

Lemma byte_at_mwrite o l m x :
  bytes_ok l -> byte_at (mwrite o l m) x = patch (byte_at m) o l x.
Proof.
  intros Hl. unfold patch. case_decide as H.
  - unfold byte_at, mwrite. destruct ((o <=? x) && (x <? o + Z.of_nat (length l))) eqn:E; [|lia].
    destruct (lookup_lt_is_Some_2 l (Z.to_nat (x - o))) as [b Eb]; [lia|]. rewrite Eb. simpl.
    apply u8_small. exact (Forall_lookup_1 _ _ _ _ Hl Eb).
  - unfold byte_at. by rewrite mwrite_out.
Qed.

Lemma slot_of_inj bn bn' : 0 <= bn -> 0 <= bn' -> slot_of bn = slot_of bn' -> bn = bn'.
Proof.
  intros H1 H2. unfold slot_of, NDIRECT. destruct (bn <? 12) eqn:E1, (bn' <? 12) eqn:E2; intros [= H]; lia.
Qed.

(** Whether an offset lies in the written part of a block. *)
Lemma patch_in_block f g off l x :
  0 <= off -> 0 <= x -> x / BSIZE = off / BSIZE -> off mod BSIZE + Z.of_nat (length l) <= BSIZE ->
  f (x mod BSIZE) = g x -> patch f (off mod BSIZE) l (x mod BSIZE) = patch g off l x.
Proof.
  intros Ho Hx Hd Hfit Hfg. unfold patch. unfold BSIZE in *.
  destruct (decide (off <= x < off + Z.of_nat (length l))).
  - rewrite decide_True by dlia. do 2 f_equal. dlia.
  - rewrite decide_False by dlia. exact Hfg.
Qed.

Lemma patch_out_block f off l x :
  0 <= off -> 0 <= x -> x / BSIZE <> off / BSIZE -> off mod BSIZE + Z.of_nat (length l) <= BSIZE ->
  patch f off l x = f x.
Proof. intros Ho Hx Hd Hfit. unfold patch. unfold BSIZE in *. rewrite decide_False by dlia. reflexivity. Qed.

(** Storing into an allocated data block of the file. *)
Lemma write_block s i off l :
  let sl := slot_of (off / BSIZE) in
  let a := sval (d_blk s) (ino s i) sl in
  let s' := edit a (mwrite (off mod BSIZE) l) s in
  fs_ok s i -> a <> 0 -> 0 <= off < MAXFILE * BSIZE -> off mod BSIZE + Z.of_nat (length l) <= BSIZE -> bytes_ok l ->
  fs_ok s' i /\ same_but s s' i /\
  (forall sl', slot_ok sl' -> sval (d_blk s') (ino s' i) sl' = sval (d_blk s) (ino s i) sl') /\
  forall x, 0 <= x < MAXFILE * BSIZE ->
    fbyte (d_blk s') (ino s' i) x = patch (fbyte (d_blk s) (ino s i)) off l x.
Proof.
  intros sl a s' Hok Ha Hoff Hfit Hl. pose proof Hok as [Hi G Hm F].
  assert (Hsl : slot_ok sl).
  { apply slot_of_ok. change MAXFILE with 268 in *. unfold BSIZE in *. dlia. }
  assert (Hn12 : sl <> Dir 12) by (apply slot_of_dir12; unfold BSIZE; dlia).
  assert (Hino : forall j, ino s' j = ino s j) by reflexivity.
  assert (Hused : forall b, 0 <= b < sb_size (fs_sb (d_fs s)) ->
    used (d_blk s') (fs_sb (d_fs s)) b = used (d_blk s) (fs_sb (d_fs s)) b).
  { intros b Hb. apply used_setb_other. intros E. symmetry in E. revert E. by apply sval_data. }
  assert (Hsv : forall sl', slot_ok sl' -> sval (d_blk s') (ino s i) sl' = sval (d_blk s) (ino s i) sl').
  { intros [j|k] Hs'; [reflexivity|]. unfold sval. destruct (iaddr (ino s i) =? 0) eqn:E; [reflexivity|].
    unfold s'. rewrite edit_blk, blk_set_ne; [reflexivity|]. intros E2. apply Hn12.
    symmetry. apply (fo_inj _ _ _ F); auto; simpl; [lia|]. unfold iaddr in E. lia. }
  split; [|split; [|split]].
  - split; [exact Hi|exact G| |].
    + intros b Hb. change (fs_sb (d_fs s')) with (fs_sb (d_fs s)) in *. pose proof (geometry_pos _ G).
      rewrite Hused by (destruct G; lia). by apply Hm.
    + change (fs_sb (d_fs s')) with (fs_sb (d_fs s)). rewrite Hino. split.
      * apply (fo_len _ _ _ F).
      * intros sl' Hs'. rewrite Hsv by exact Hs'. intros Hne.
        destruct (fo_range _ _ _ F sl' Hs' Hne) as [H1 H2]. split; [exact H1|].
        pose proof (geometry_pos _ G). by rewrite Hused by lia.
      * intros s1 s2 H1 H2. rewrite !Hsv by auto. by apply (fo_inj _ _ _ F).
      * apply (fo_inum _ _ _ F).
      * apply (fo_dev _ _ _ F).
  - split; auto; [|intros b Hb Hu; by rewrite Hused].
    exists (i_addrs (ino s i)). rewrite Hino. by destruct (ino s i).
  - intros sl' Hs'. rewrite Hino. by apply Hsv.
  - intros x Hx. rewrite Hino. unfold fbyte at 1.
    assert (Hs' : slot_ok (slot_of (x / BSIZE))).
    { apply slot_of_ok. change MAXFILE with 268 in *. unfold BSIZE in *. dlia. }
    rewrite Hsv by exact Hs'. unfold s'. rewrite edit_blk.
    destruct (decide (x / BSIZE = off / BSIZE)) as [E|E].
    + rewrite E. fold sl a. destruct (a =? 0) eqn:Ea; [lia|]. rewrite blk_set_eq, byte_at_mwrite by exact Hl.
      apply patch_in_block; auto; try lia. unfold fbyte. rewrite E. fold sl a. by rewrite Ea.
    + rewrite patch_out_block by (auto; lia). unfold fbyte.
      destruct (sval (d_blk s) (ino s i) (slot_of (x / BSIZE)) =? 0) eqn:Ex; [reflexivity|].
      rewrite blk_set_ne; [reflexivity|]. intros E2. apply E.
      apply slot_of_inj; [unfold BSIZE; dlia..|]. apply (fo_inj _ _ _ F); auto. lia.
Qed.

(** After [tot] bytes of [l] were written at [off], from state [s0]. *)
Record written_upto (s0 s : dstate) (i : nat) (off : Z) (l : list Z) (tot : nat) : Prop := WrittenUpto {
  wu_ok : fs_ok s i;
  wu_same : same_but s0 s i;
  wu_bytes : forall x, 0 <= x < MAXFILE * BSIZE ->
    fbyte (d_blk s) (ino s i) x = patch (fbyte (d_blk s0) (ino s0 i)) off (take tot l) x;
  wu_alloc : forall bn, 0 <= bn < MAXFILE -> bn * BSIZE < Z.max (i_size (ino s0 i)) (off + Z.of_nat tot) ->
    sval (d_blk s) (ino s i) (slot_of bn) <> 0;
  wu_dirty : forall n, n ∈ d_dirty s -> n ∈ d_dirty s0 \/
    writes_for (fs_sb (d_fs s0)) True (iaddr (ino s i)) n \/
    exists bn, off / BSIZE <= bn < MAXFILE /\ bn * BSIZE < off + Z.of_nat (length l) /\
      writes_for (fs_sb (d_fs s0)) (sval (d_blk s0) (ino s0 i) (slot_of bn) = 0) (sval (d_blk s) (ino s i) (slot_of bn)) n;
}.

(** The copies of [writei] from such a source. *)
Lemma gives_copyin {L : LinkMap} t s src l k m :
  gives t (d_usr s) src l -> (k + m <= length l)%nat ->
  op_copyin (ksrc_shift src (Z.of_nat k)) m t s = ORet (0, take m (drop k l)) t s.
Proof.
  intros G Hk. cbn [op_copyin d_user_ops]. unfold inpart, bind, zoom.
  change (lget has s) with (u_proc (d_usr s)). rewrite (gv_copy _ _ _ _ G k m Hk).
  cbn [ozoom obind]. change (u_proc (d_usr s)) with (lget (has : lens dstate pst) s). by rewrite put_proc.
Qed.

(** The body of the loop of [writei]. *)
Definition writei_body {L : LinkMap} (i : nat) (dev n : Z) (x : Z * Z * ksrc) : M dstate (Z * Z * ksrc + Z * Z) :=
  let '(tot, off, src) := x in
  if tot <? n then
    let* addr := bmap i (off / BSIZE) in
    if addr =? 0 then ret (inr (tot, off))
    else
      let* bp := bd_bread dev addr in
      let m := Z.min (n - tot) (BSIZE - off mod BSIZE) in
      let* '(r, l) := op_copyin src (Z.to_nat m) in
      set_data bp (mwrite (off mod BSIZE) l) ;;
      if r =? -1 then bd_brelse bp ;; ret (inr (tot, off))
      else
        op_log_write bp ;;
        bd_brelse bp ;;
        ret (inl (tot + m, u32 (off + m), ksrc_shift src m))
  else ret (inr (tot, off)).

Lemma same_but_locked s0 s i : same_but s0 s i -> d_locked s0 = ∅ -> d_locked s = ∅.
Proof. intros H E. by rewrite (sm_locked _ _ _ H). Qed.

Lemma writes_for_stable s s' i sl sb P n :
  same_but s s' i -> slot_ok sl -> writes_for sb P (sval (d_blk s) (ino s i) sl) n ->
  writes_for sb P (sval (d_blk s') (ino s' i) sl) n.
Proof. intros H Hs W. rewrite (sm_sval _ _ _ H sl Hs); [exact W|apply W]. Qed.

Lemma written_dirty_stable s0 s s' i off l tot n :
  written_upto s0 s i off l tot -> same_but s s' i -> 0 <= off -> n ∈ d_dirty s ->
  n ∈ d_dirty s0 \/ writes_for (fs_sb (d_fs s0)) True (iaddr (ino s' i)) n \/
  exists bn, off / BSIZE <= bn < MAXFILE /\ bn * BSIZE < off + Z.of_nat (length l) /\
    writes_for (fs_sb (d_fs s0)) (sval (d_blk s0) (ino s0 i) (slot_of bn) = 0) (sval (d_blk s') (ino s' i) (slot_of bn)) n.
Proof.
  intros W HS Ho Hn. destruct (wu_dirty _ _ _ _ _ _ W n Hn) as [H|[H|(bn & H1 & H2 & H)]]; [auto|right; left|right; right].
  - exact (writes_for_stable s s' i (Dir 12) _ _ _ HS ltac:(simpl; lia) H).
  - exists bn. split; [exact H1|]. split; [exact H2|]. apply (writes_for_stable _ _ _ _ _ _ _ HS); [|exact H].
    apply slot_of_ok. unfold BSIZE in H1. dlia.
Qed.

(** Looking up a block keeps what was written. *)
Lemma written_mapped s0 s s1 i off l tot bn r :
  written_upto s0 s i off l tot -> mapped s s1 i (slot_of bn) r ->
  0 <= off -> off / BSIZE <= bn < MAXFILE -> bn * BSIZE < off + Z.of_nat (length l) -> written_upto s0 s1 i off l tot.
Proof.
  intros W M1 Ho Hbn Hlt. pose proof W as [_ W2 W3 W4 _]. split.
  - apply (mp_ok _ _ _ _ _ M1).
  - apply (same_but_trans _ s); [exact W2|apply (mp_same _ _ _ _ _ M1)].
  - intros x Hx. rewrite (mp_bytes _ _ _ _ _ M1 x Hx). by apply W3.
  - intros b Hb Hb'. specialize (W4 b Hb Hb').
    rewrite (sm_sval _ _ _ (mp_same _ _ _ _ _ M1)); [exact W4|by apply slot_of_ok|exact W4].
  - assert (Hs : slot_ok (slot_of bn)) by (apply slot_of_ok; unfold BSIZE in Hbn; dlia).
    intros n Hn. apply (mp_dirty _ _ _ _ _ M1) in Hn as [Hn|Hn];
      [by apply (written_dirty_stable _ _ _ _ _ _ _ _ W (mp_same _ _ _ _ _ M1))|].
    rewrite (sm_sb _ _ _ W2) in Hn. destruct Hn as [Hn|Hn]; [auto|]. right; right. exists bn. split_and!; [lia..|].
    rewrite (mp_val _ _ _ _ _ M1) in Hn. apply (writes_for_new _ _ _ _ _ Hn). intros Hz.
    destruct (decide (sval (d_blk s0) (ino s0 i) (slot_of bn) = 0)) as [|Hne]; [done|].
    by rewrite (sm_sval _ _ _ W2 _ Hs Hne) in Hz.
Qed.

(** Storing the next [m] bytes of [l] extends it. *)
Lemma written_more s0 s i off l tot m :
  let o := off + Z.of_nat tot in
  let a := sval (d_blk s) (ino s i) (slot_of (o / BSIZE)) in
  written_upto s0 s i off l tot -> a <> 0 -> bytes_ok l ->
  0 <= off -> off + Z.of_nat (length l) <= MAXFILE * BSIZE -> (tot < length l)%nat -> (tot + m <= length l)%nat ->
  o mod BSIZE + Z.of_nat m <= BSIZE ->
  written_upto s0 (edit a (mwrite (o mod BSIZE) (take m (drop tot l))) s) i off l (tot + m).
Proof.
  intros o a W Ha Hb Ho Hmax Ht Hm Hfit. pose proof W as [W1 W2 W3 W4 _].
  assert (Hlen : length (take m (drop tot l)) = m) by (rewrite length_take, length_drop; lia).
  destruct (write_block s i o (take m (drop tot l)) W1 Ha) as (B1 & B2 & B3 & B4).
  { unfold o. lia. } { rewrite Hlen. exact Hfit. } { by apply Forall_take, Forall_drop. }
  fold a in B1, B2, B3, B4. split.
  - exact B1.
  - by apply (same_but_trans _ s).
  - intros x Hx. rewrite B4 by exact Hx. rewrite <- (take_take_drop l tot m), <- patch_app.
    rewrite length_take, Nat.min_l by lia. apply patch_ext. by apply W3.
  - intros bn Hbn Hlt. rewrite B3 by (by apply slot_of_ok).
    destruct (Z.lt_ge_cases (bn * BSIZE) (Z.max (i_size (ino s0 i)) (off + Z.of_nat tot))) as [H|H]; [by apply W4|].
    replace bn with (o / BSIZE); [exact Ha|]. unfold o, BSIZE in *. dlia.
  - intros n Hn. apply dirty_edit in Hn as [->|Hn]; [|by apply (written_dirty_stable _ _ _ _ _ _ _ _ W B2)].
    right; right. exists (o / BSIZE). assert (Hbn : 0 <= o / BSIZE < MAXFILE).
    { change MAXFILE with 268 in *. unfold o, BSIZE in *. dlia. }
    split; [unfold o, BSIZE in *; dlia|]. split; [unfold o, BSIZE in *; dlia|].
    rewrite B3 by (by apply slot_of_ok). split; [exact Ha|by left].
Qed.

(** A turn of the loop writes to the end of the block or of the request, or
    finds the disk full. *)
Lemma writei_turn {L : LinkMap} i dev src off l tot t s0 s :
  dev = ROOTDEV -> gives t (d_usr s0) src l ->
  written_upto s0 s i off l tot -> d_locked s0 = ∅ -> bytes_ok l ->
  0 <= off -> off + Z.of_nat (length l) <= MAXFILE * BSIZE -> (tot < length l)%nat ->
  let o := off + Z.of_nat tot in
  let n := Z.of_nat (length l) in
  let m := Z.min (n - Z.of_nat tot) (BSIZE - o mod BSIZE) in
  (exists s', writei_body i dev n (Z.of_nat tot, o, ksrc_shift src (Z.of_nat tot)) t s =
     ORet (inl (Z.of_nat tot + m, o + m, ksrc_shift src (Z.of_nat (tot + Z.to_nat m)))) t s' /\
     written_upto s0 s' i off l (tot + Z.to_nat m)) \/
  (exists s', writei_body i dev n (Z.of_nat tot, o, ksrc_shift src (Z.of_nat tot)) t s = ORet (inr (Z.of_nat tot, o)) t s' /\
     written_upto s0 s' i off l tot /\ disk_full s').
Proof.
  intros Hdev Hsrc W Hl0 Hb Ho Hmax Ht o n m. pose proof (same_but_locked _ _ _ (wu_same _ _ _ _ _ _ W) Hl0) as Hl.
  assert (Hbn : 0 <= o / BSIZE < MAXFILE).
  { change MAXFILE with 268 in *. unfold o, BSIZE in *. dlia. }
  destruct (bmap_d i (o / BSIZE) t s (wu_ok _ _ _ _ _ _ W) Hl Hbn) as (r & s1 & E1 & M1).
  destruct (turns_step o (n - Z.of_nat tot)) as [Hm _]; [lia|lia|]. fold m in Hm.
  unfold writei_body. destruct (Z.of_nat tot <? n) eqn:Et; [|lia].
  pose proof (written_mapped _ _ _ _ _ _ _ _ _ W M1 Ho ltac:(unfold o, BSIZE in *; dlia) ltac:(unfold o, BSIZE in *; dlia)) as W1. pose proof (mp_val _ _ _ _ _ M1) as Hv.
  destruct (decide (r = 0)) as [->|Hr].
  { right. exists s1. kstep E1. split; [reflexivity|]. split; [exact W1|]. by apply (mp_full _ _ _ _ _ M1). }
  left. exists (edit r (mwrite (o mod BSIZE) (take (Z.to_nat m) (drop tot l))) s1).
  split; [|rewrite Hv in Hr |- *; apply written_more; auto; fold o; lia].
  destruct (sval_bounds s1 i (slot_of (o / BSIZE)) (wu_ok _ _ _ _ _ _ W1) (slot_of_ok _ Hbn)) as [Hrng _]; [congruence|].
  pose proof (geometry_pos _ (fs_geo _ _ (wu_ok _ _ _ _ _ _ W1))) as Gp. rewrite <- Hv in Hrng.
  pose proof (same_but_locked _ _ _ (wu_same _ _ _ _ _ _ W1) Hl0) as Hl1.
  assert (Hnr : r ∉ d_locked s1) by (rewrite Hl1; apply not_elem_of_empty).
  kstep E1. destruct (r =? 0) eqn:E; [lia|]. kstep (bread_d dev r t s1 Hnr (data_served _ _ _ _ (wu_ok _ _ _ _ _ _ W1) Hdev Hrng)). cbv zeta. fold m.
  erewrite bind_ret; [|apply (gives_copyin t (lockb r s1) src l); [|unfold n in *; lia];
    change (d_usr (lockb r s1)) with (d_usr s1); by rewrite (sm_usr _ _ _ (wu_same _ _ _ _ _ _ W1))]. cbv beta iota.
  pose proof (edit_locked_bind r (mwrite (o mod BSIZE) (take (Z.to_nat m) (drop tot l))) t s1
    (ret (inl (Z.of_nat tot + m, u32 (o + m), ksrc_shift (ksrc_shift src (Z.of_nat tot)) m)) : M dstate (Z * Z * ksrc + Z * Z))
    ltac:(lia) Hnr) as Ee.
  change (0 =? -1) with false. cbv iota. rewrite Ee. unfold ret.
  change (MAXFILE * BSIZE) with 274432 in Hmax. rewrite u32_small by lia.
  rewrite ksrc_shift_add by lia. reflexivity.
Qed.

Lemma writei_loop {L : LinkMap} i dev src off l t s0 :
  dev = ROOTDEV -> gives t (d_usr s0) src l ->
  d_locked s0 = ∅ -> bytes_ok l -> 0 <= off -> off + Z.of_nat (length l) <= MAXFILE * BSIZE ->
  forall fuel tot s, written_upto s0 s i off l tot -> (tot <= length l)%nat ->
    turns (off + Z.of_nat tot) (Z.of_nat (length l - tot)) <= Z.of_nat fuel ->
    exists tot' s', (tot' <= length l)%nat /\
      loop fuel (writei_body i dev (Z.of_nat (length l))) (Z.of_nat tot, off + Z.of_nat tot, ksrc_shift src (Z.of_nat tot)) t s =
      ORet (Z.of_nat tot', off + Z.of_nat tot') t s' /\
      written_upto s0 s' i off l tot' /\ (tot' = length l \/ disk_full s').
Proof.
  intros Hdev Hsrc Hl Hb Ho Hmax. induction fuel as [|fuel IH]; intros tot s W Ht Hf.
  { unfold turns, BSIZE in Hf. destruct (Z.of_nat (length l - tot) <=? 0) eqn:E; dlia. }
  cbn [loop]. destruct (decide (tot = length l)) as [->|Hne].
  { exists (length l), s. split; [lia|]. split; [|auto]. unfold bind, writei_body at 1. rewrite Z.ltb_irrefl. reflexivity. }
  destruct (turns_step (off + Z.of_nat tot) (Z.of_nat (length l - tot))) as [Hm Hdec]; [lia|lia|].
  destruct (writei_turn i dev src off l tot t s0 s Hdev Hsrc W Hl Hb Ho Hmax ltac:(lia)) as [(s1 & E & W1)|(s1 & E & W1 & Hfull)].
  - kstep E. rewrite Nat2Z.inj_sub in Hm, Hdec by lia.
    set (m := Z.min (Z.of_nat (length l) - Z.of_nat tot) _) in *.
    replace (Z.of_nat tot + m) with (Z.of_nat (tot + Z.to_nat m)) by lia.
    replace (off + Z.of_nat tot + m) with (off + Z.of_nat (tot + Z.to_nat m)) in * by lia.
    apply IH; [exact W1|lia|].
    replace (Z.of_nat (length l - (tot + Z.to_nat m))) with (Z.of_nat (length l) - Z.of_nat tot - m) by lia.
    rewrite Nat2Z.inj_sub in Hf by lia. lia.
  - kstep E. exists tot, s1. auto.
Qed.
