(* ===== verification/FsInode.v ===== *)
(** * Inodes on disk, and the contracts of [readi] and [writei]
      (kernel/fs.c)

    [iupdate] writes an inode so that [ilock] reads back the same inode, and
    disturbs neither the bitmap nor any file's contents.  With that, the
    theorems about reading and writing whole ranges of a file. *)

From S2P Require Import Prelude Kmonad Mem Riscv Kalloc Cstring Vm Proc Iface Sleeplock Bio Log Fs Usr FsDev FsBlock FsFile.

(** ** The encoding of an inode *)

Definition short_ok (z : Z) : Prop := -32768 <= z < 32768.
Definition uint_ok (z : Z) : Prop := 0 <= z < 4294967296.

Record dinode_ok (d : dinode) : Prop := DinodeOk {
  dk_type : short_ok (di_type d);
  dk_major : short_ok (di_major d);
  dk_minor : short_ok (di_minor d);
  dk_nlink : short_ok (di_nlink d);
  dk_size : uint_ok (di_size d);
  dk_len : length (di_addrs d) = 13%nat;
  dk_addrs : Forall uint_ok (di_addrs d);
}.

Lemma i16_mod z : short_ok z -> i16 (z mod 65536) = z.
Proof. unfold short_ok, i16. intros H. dlia. Qed.

Lemma mload_store_addrs k b o l m :
  b + Z.of_nat k <= o -> mload k b (store_addrs o l m) = mload k b m.
Proof.
  revert o m. induction l as [|a l IH]; intros o m H; [reflexivity|].
  simpl. rewrite IH by lia. apply mload_mstore_other. lia.
Qed.

Lemma addrs_at_store o l m : Forall uint_ok l -> addrs_at (store_addrs o l m) o (length l) = l.
Proof.
  revert o m. induction l as [|a l IH]; intros o m H; [reflexivity|].
  apply Forall_cons in H as [Ha Hl]. unfold addrs_at. simpl length. cbn [seq fmap list_fmap store_addrs]. f_equal.
  - rewrite Z.mul_0_r, Z.add_0_r. rewrite mload_store_addrs by lia.
    change 4 with (Z.of_nat 4) at 1. rewrite mload_mstore_same. apply Z.mod_small. exact Ha.
  - rewrite <- (IH (o + 4) (store32 o a m) Hl) at 2. unfold addrs_at. rewrite <- seq_shift.
    rewrite <- list_fmap_compose. apply list_fmap_ext. intros k x _. simpl. f_equal. lia.
Qed.

Ltac mload_past := repeat (rewrite mload_mstore_other by lia).

Lemma dinode_roundtrip o d m : dinode_ok d -> dinode_at (put_dinode o d m) o = d.
Proof.
  intros [H1 H2 H3 H4 H5 H6 H7]. destruct d as [ty mj mn nl sz ad]. simpl in *.
  unfold dinode_at, put_dinode. simpl di_addrs. simpl di_size. simpl di_nlink. simpl di_minor. simpl di_major. simpl di_type.
  change (Z.to_nat (NDIRECT + 1)) with 13%nat. rewrite <- H6, addrs_at_store by exact H7.
  rewrite !mload_store_addrs by lia.
  assert (L2 : forall a v m, mload 2 a (mstore 2 a v m) = v mod 65536) by (intros; apply (mload_mstore_same 2)).
  f_equal; [mload_past; rewrite L2; by apply i16_mod ..|].
  etransitivity; [apply (mload_mstore_same 4)|]. by apply Z.mod_small.
Qed.

(** Storing an inode changes only its own bytes of the block. *)
Lemma byte_at_store_addrs o l m x :
  ~ (o <= x < o + 4 * Z.of_nat (length l)) -> byte_at (store_addrs o l m) x = byte_at m x.
Proof.
  revert o m. induction l as [|a l IH]; intros o m H; [reflexivity|].
  simpl length in H. cbn [store_addrs]. rewrite IH by lia. unfold byte_at. by rewrite mstore_out by lia.
Qed.

Lemma put_dinode_frame o d m x :
  length (di_addrs d) = 13%nat -> ~ (o <= x < o + sizeof_dinode) -> byte_at (put_dinode o d m) x = byte_at m x.
Proof.
  intros Hlen Hx. unfold sizeof_dinode in Hx. unfold put_dinode. rewrite byte_at_store_addrs by lia.
  unfold byte_at. by rewrite !mstore_out by lia.
Qed.

(** ** Changes to the inode blocks leave files alone *)

Lemma IBLOCK_range sb inum :
  geometry sb -> 0 <= inum < sb_ninodes sb -> sb_inodestart sb <= IBLOCK inum sb < sb_bmapstart sb.
Proof.
  intros [G1 G2 G3 G4] Hi. unfold IBLOCK, data_start in *. rewrite IPB_eq, BPB_eq in *.
  change (2 ^ 31) with 2147483648 in *. change LOGBLOCKS with 30 in *. rewrite u32_small; dlia.
Qed.

Lemma edit_meta s i n g :
  fs_ok s i -> sb_inodestart (fs_sb (d_fs s)) <= n < sb_bmapstart (fs_sb (d_fs s)) ->
  fs_ok (edit n g s) i /\
  (forall sl, slot_ok sl -> sval (d_blk (edit n g s)) (ino s i) sl = sval (d_blk s) (ino s i) sl) /\
  (forall x, 0 <= x < MAXFILE * BSIZE ->
     fbyte (d_blk (edit n g s)) (ino s i) x = fbyte (d_blk s) (ino s i) x) /\
  (forall b, 0 <= b < sb_size (fs_sb (d_fs s)) ->
     used (d_blk (edit n g s)) (fs_sb (d_fs s)) b = used (d_blk s) (fs_sb (d_fs s)) b).
Proof.
  intros [Hi G Hm F] Hn. pose proof (geometry_pos _ G) as Gp. set (sb := fs_sb (d_fs s)) in *.
  assert (Hused : forall b, 0 <= b < sb_size sb -> used (d_blk (edit n g s)) sb b = used (d_blk s) sb b).
  { intros b Hb. rewrite edit_blk. apply used_setb_other. rewrite BBLOCK_eq by auto. rewrite BPB_eq. dlia. }
  assert (Hblk : forall a, data_start sb <= a -> d_blk (edit n g s) a = d_blk s a).
  { intros a Ha. rewrite edit_blk, blk_set_ne by lia. reflexivity. }
  assert (Hsv : forall sl, slot_ok sl -> sval (d_blk (edit n g s)) (ino s i) sl = sval (d_blk s) (ino s i) sl).
  { intros [j|k] Hs; [reflexivity|]. unfold sval. destruct (iaddr (ino s i) =? 0) eqn:E; [reflexivity|].
    rewrite Hblk; [reflexivity|]. apply (fo_range _ _ _ F (Dir 12)); simpl; [lia|]. unfold iaddr in E. lia. }
  split; [|split; [exact Hsv|split; [|exact Hused]]].
  - split; [exact Hi|exact G| |].
    + intros b Hb. change (fs_sb (d_fs (edit n g s))) with sb in *. destruct G. rewrite Hused by lia. by apply Hm.
    + change (fs_sb (d_fs (edit n g s))) with sb. change (ino (edit n g s) i) with (ino s i). split.
      * apply (fo_len _ _ _ F).
      * intros sl Hs. rewrite Hsv by exact Hs. intros Hne. destruct (fo_range _ _ _ F sl Hs Hne) as [H1 H2].
        split; [exact H1|]. by rewrite Hused by lia.
      * intros s1 s2 H1 H2. rewrite !Hsv by auto. by apply (fo_inj _ _ _ F).
      * apply (fo_inum _ _ _ F).
      * apply (fo_dev _ _ _ F).
  - intros x Hx. unfold fbyte.
    assert (Hs : slot_ok (slot_of (x / BSIZE))).
    { apply slot_of_ok. change MAXFILE with 268 in *. unfold BSIZE in *. dlia. }
    rewrite Hsv by exact Hs. destruct (sval _ _ _ =? 0) eqn:E; [reflexivity|].
    rewrite Hblk; [reflexivity|]. apply (fo_range _ _ _ F); auto. lia.
Qed.

Lemma iupdate_d i t s :
  fs_ok s i -> d_locked s = ∅ ->
  let ip := ino s i in
  iupdate i t s =
  ORet tt t (edit (IBLOCK (i_inum ip) (fs_sb (d_fs s))) (put_dinode (dinode_off (i_inum ip)) (dinode_of ip)) s).
Proof.
  intros [Hi G _ F] Hl ip. unfold iupdate. kstep (geti_d i t s). fold ip.
  unfold getsb. erewrite bind_ret by reflexivity. cbv beta. change (lget has s) with (d_fs s).
  pose proof (IBLOCK_range _ _ G (fo_inum _ _ _ F)) as Hb. fold ip in Hb. pose proof (geometry_pos _ G).
  assert (Hn : IBLOCK (i_inum ip) (fs_sb (d_fs s)) ∉ d_locked s) by (rewrite Hl; apply not_elem_of_empty).
  kstep (bread_d (i_dev ip) _ t s Hn ltac:(apply area_served; [exact G|apply (fo_dev _ _ _ F)|lia])). apply edit_locked; [lia|exact Hn].
Qed.

(** ** Growing the size *)

Lemma upd_size_ok s i sz :
  fs_ok s i -> fs_ok (upd_ino i (fun ip => ip <| i_size := sz |>) s) i.
Proof.
  intros [Hi G Hm F]. split.
  - cbn. by rewrite length_insert.
  - exact G.
  - exact Hm.
  - rewrite ino_upd by exact Hi. by destruct F.
Qed.

(** The inode as [writei] leaves it. *)
Definition short_fields (ip : inode) : Prop :=
  short_ok (i_type ip) /\ short_ok (i_major ip) /\ short_ok (i_minor ip) /\ short_ok (i_nlink ip).

Lemma dinode_of_ok s i :
  fs_ok s i -> short_fields (ino s i) -> uint_ok (i_size (ino s i)) -> dinode_ok (dinode_of (ino s i)).
Proof.
  intros [_ G _ F] (H1 & H2 & H3 & H4) H5. pose proof (geometry_pos _ G) as Gp.
  split; auto; [apply (fo_len _ _ _ F)|].
  apply Forall_lookup_2. intros j a Ha. simpl in Ha.
  pose proof (lookup_lt_Some _ _ _ Ha) as Hj. rewrite (fo_len _ _ _ F) in Hj.
  pose proof (fo_range _ _ _ F (Dir j) ltac:(simpl; lia)) as Hr. simpl in Hr.
  rewrite (list_lookup_total_correct _ _ _ Ha) in Hr.
  destruct (Z.eq_dec a 0) as [->|Hne]; [unfold uint_ok; lia|].
  destruct (Hr Hne) as [Hr2 _]. destruct G as [G1 _ _ _]. change (2 ^ 31) with 2147483648 in G1.
  unfold uint_ok. lia.
Qed.

(** What a successful or cut-short [writei] of [tot] bytes did. *)
Record writei_post (s s' : dstate) (i : nat) (off : Z) (l : list Z) (tot : nat) : Prop := WriteiPost {
  wp_len : (tot <= length l)%nat;
  wp_ok : fs_ok s' i;
  wp_locked : d_locked s' = ∅;
  wp_size : i_size (ino s' i) = Z.max (i_size (ino s i)) (off + Z.of_nat tot);
  wp_ino : exists a sz, ino s' i = (ino s i) <| i_addrs := a |> <| i_size := sz |>;
  wp_holes : no_holes (d_blk s') (ino s' i);
  wp_bytes : forall x, 0 <= x < MAXFILE * BSIZE ->
    fbyte (d_blk s') (ino s' i) x = patch (fbyte (d_blk s) (ino s i)) off (take tot l) x;
  wp_others : forall j, j <> i -> ino s' j = ino s j;
  wp_disk : dinode_at (d_blk s' (IBLOCK (i_inum (ino s i)) (fs_sb (d_fs s)))) (dinode_off (i_inum (ino s i))) =
            dinode_of (ino s' i);
  wp_full : tot = length l \/ disk_full s';
  wp_dirty : forall n, n ∈ d_dirty s' -> n ∈ d_dirty s \/ n = IBLOCK (i_inum (ino s i)) (fs_sb (d_fs s)) \/
    writes_for (fs_sb (d_fs s)) True (iaddr (ino s' i)) n \/
    exists bn, off / BSIZE <= bn < MAXFILE /\ bn * BSIZE < off + Z.of_nat (length l) /\
      writes_for (fs_sb (d_fs s)) (sval (d_blk s) (ino s i) (slot_of bn) = 0) (sval (d_blk s') (ino s' i) (slot_of bn)) n;
  wp_sb : fs_sb (d_fs s') = fs_sb (d_fs s);
  wp_usr : d_usr s' = d_usr s;
}.

(** The state after the end of [writei]: the size, and the inode on disk. *)
Definition set_size (i : nat) (sz : Z) (s : dstate) : dstate :=
  if i_size (ino s i) <? sz then upd_ino i (fun ip => ip <| i_size := sz |>) s else s.

Lemma set_size_ino i sz s :
  (i < length (itable (d_fs s)))%nat ->
  ino (set_size i sz s) i = (ino s i) <| i_size := Z.max (i_size (ino s i)) sz |>.
Proof.
  intros Hi. unfold set_size. destruct (i_size (ino s i) <? sz) eqn:E.
  - rewrite ino_upd by exact Hi. by rewrite Z.max_r by lia.
  - rewrite Z.max_l by lia. by destruct (ino s i).
Qed.

Lemma set_size_frame i sz s :
  d_blk (set_size i sz s) = d_blk s /\ d_dirty (set_size i sz s) = d_dirty s /\ d_locked (set_size i sz s) = d_locked s /\
  fs_sb (d_fs (set_size i sz s)) = fs_sb (d_fs s) /\
  (forall j, j <> i -> ino (set_size i sz s) j = ino s j) /\ (fs_ok s i -> fs_ok (set_size i sz s) i).
Proof.
  unfold set_size. destruct (_ <? _); [|auto 10].
  do 4 (split; [reflexivity|]). split; [intros j Hj; by apply ino_upd_ne|apply upd_size_ok].
Qed.

Lemma writei_finish s0 s i off l tot t :
  written_upto s0 s i off l tot -> d_locked s0 = ∅ -> short_fields (ino s0 i) ->
  0 <= i_size (ino s0 i) <= MAXFILE * BSIZE -> 0 <= off -> off + Z.of_nat (length l) <= MAXFILE * BSIZE ->
  (tot <= length l)%nat -> (tot = length l \/ disk_full s) ->
  exists s',
    (let* ip := geti i in
     when (i_size ip <? off + Z.of_nat tot) (modi i (fun ip => ip <| i_size := off + Z.of_nat tot |>)) ;;
     iupdate i ;;
     ret (Z.of_nat tot)) t s = ORet (Z.of_nat tot) t s' /\ writei_post s0 s' i off l tot.
Proof.
  intros [W1 W2 W3 W4 W5] Hl Hsf Hsz Ho Hmax Ht Hfull.
  pose proof (same_but_locked _ _ _ W2 Hl) as Hls. destruct W2 as [A1 A2 _ (a & A3) A4 A5 A6].
  change (MAXFILE * BSIZE) with 274432 in Hsz, Hmax.
  kstep (geti_d i t s). set (s1 := set_size i (off + Z.of_nat tot) s).
  assert (E1 : when (i_size (ino s i) <? off + Z.of_nat tot)
    (modi i (fun ip => ip <| i_size := off + Z.of_nat tot |>)) t s = ORet tt t s1).
  { unfold when, s1, set_size. destruct (i_size (ino s i) <? off + Z.of_nat tot); reflexivity. }
  kstep E1. destruct (set_size_frame i (off + Z.of_nat tot) s) as (B1 & B0 & B2 & B3 & B4 & B5).
  pose proof (set_size_ino i (off + Z.of_nat tot) s (fs_entry _ _ W1)) as Hino. fold s1 in B0, B1, B2, B3, B4, B5, Hino.
  specialize (B5 W1). rewrite Hls in B2. rewrite A3 in Hino. change (i_size (_ <| i_addrs := a |>)) with (i_size (ino s0 i)) in Hino.
  kstep (iupdate_d i t s1 B5 B2).
  assert (Einum : i_inum (ino s1 i) = i_inum (ino s0 i)) by (by rewrite Hino).
  assert (Esz : i_size (ino s1 i) = Z.max (i_size (ino s0 i)) (off + Z.of_nat tot)) by (by rewrite Hino).
  rewrite B3, A1, Einum. set (n := IBLOCK (i_inum (ino s0 i)) (fs_sb (d_fs s0))).
  assert (Hn : sb_inodestart (fs_sb (d_fs s1)) <= n < sb_bmapstart (fs_sb (d_fs s1))).
  { rewrite B3, A1. apply IBLOCK_range; rewrite <- A1; [apply (fs_geo _ _ W1)|].
    pose proof (fo_inum _ _ _ (fs_file _ _ W1)) as H. by rewrite A3 in H. }
  destruct (edit_meta s1 i n (put_dinode (dinode_off (i_inum (ino s0 i))) (dinode_of (ino s1 i))) B5 Hn)
    as (C1 & C2 & C3 & C4).
  set (s2 := edit n _ s1) in *. exists s2. split; [reflexivity|].
  assert (Esv : forall sl, slot_ok sl -> sval (d_blk s2) (ino s2 i) sl = sval (d_blk s) (ino s i) sl).
  { intros sl Hsl. change (ino s2 i) with (ino s1 i). rewrite C2 by exact Hsl. rewrite B1, Hino, A3. by destruct sl. }
  split; auto.
  - by eexists a, _.
  - intros bn H0 Hlt. change (i_size (ino s2 i)) with (i_size (ino s1 i)) in Hlt. rewrite Esz in Hlt.
    assert (Hbn : 0 <= bn < MAXFILE) by (change MAXFILE with 268; unfold BSIZE in Hlt; lia).
    rewrite Esv by (by apply slot_of_ok). by apply W4.
  - intros x Hx. change (ino s2 i) with (ino s1 i). rewrite C3 by exact Hx. rewrite <- W3 by exact Hx.
    rewrite B1, Hino, A3. reflexivity.
  - intros j Hj. change (ino s2 j) with (ino s1 j). by rewrite B4, A2.
  - unfold s2. rewrite edit_blk, blk_set_eq. apply dinode_roundtrip, (dinode_of_ok s1 i); [exact B5|by rewrite Hino|].
    rewrite Esz. unfold uint_ok. lia.
  - destruct Hfull as [->|Hf]; [by left|right]. intros b Hb. change (fs_sb (d_fs s2)) with (fs_sb (d_fs s1)) in *.
    rewrite C4 by exact Hb. rewrite B1, B3. apply Hf. by rewrite <- B3.
  - intros x Hx. unfold s2 in Hx. apply dirty_edit in Hx as [->|Hx]; [auto|]. rewrite B0 in Hx.
    assert (E12 : iaddr (ino s2 i) = iaddr (ino s i)) by exact (Esv (Dir 12) ltac:(simpl; lia)). rewrite E12.
    destruct (W5 x Hx) as [H|[H|(bn & H1 & H2 & H)]]; auto. right; right; right. exists bn.
    rewrite Esv by (apply slot_of_ok; unfold BSIZE in H1; dlia). auto.
  - by rewrite <- A1, <- B3.
  - rewrite <- A6. change (d_usr s2) with (d_usr s1). unfold s1, set_size. by destruct (_ <? _).
Qed.

(** A request within the bounds. *)
Lemma writei_ok {L : LinkMap} i src off l t s :
  gives t (d_usr s) src l -> fs_ok s i -> d_locked s = ∅ -> no_holes (d_blk s) (ino s i) ->
  short_fields (ino s i) -> 0 <= i_size (ino s i) <= MAXFILE * BSIZE ->
  bytes_ok l -> 0 <= off <= i_size (ino s i) -> off + Z.of_nat (length l) <= MAXFILE * BSIZE ->
  exists tot s', writei i src off (Z.of_nat (length l)) t s = ORet (Z.of_nat tot) t s' /\
    writei_post s s' i off l tot.
Proof.
  intros Hsrc Hok Hl Hnh Hsf Hsz Hb Ho Hmax. unfold writei. kstep (geti_d i t s).
  rewrite !u32_small by (change (MAXFILE * BSIZE) with 274432 in *; lia).
  destruct ((i_size (ino s i) <? off) || (off + Z.of_nat (length l) <? off)) eqn:E1; [lia|].
  destruct (MAXFILE * BSIZE <? off + Z.of_nat (length l)) eqn:E2; [lia|].
  assert (W0 : written_upto s s i off l 0).
  { split; [exact Hok|apply same_but_refl| | |auto].
    - intros x _. unfold patch. simpl. rewrite decide_False by lia. reflexivity.
    - intros bn Hbn Hlt. apply Hnh; lia. }
  destruct (writei_loop i (i_dev (ino s i)) src off l t s (fs_dev _ _ Hok) Hsrc Hl Hb ltac:(lia) Hmax
    (Z.to_nat (Z.of_nat (length l) / BSIZE + 3)) 0 s W0 ltac:(lia)) as (tot & s1 & Ht & Eloop & W & Hfull).
  { rewrite Z.add_0_r, Nat.sub_0_r. pose proof (turns_start off (Z.of_nat (length l))). unfold BSIZE in *. dlia. }
  rewrite Z.add_0_r in Eloop. change (Z.of_nat 0) with 0 in Eloop. rewrite (gv_self _ _ _ _ Hsrc) in Eloop.
  rewrite (bind_ret _ _ _ _ _ _ _ Eloop). cbv beta iota.
  destruct (writei_finish s s1 i off l tot t W Hl Hsf Hsz ltac:(lia) Hmax Ht Hfull) as (s2 & E & P).
  exists tot, s2. split; [exact E|exact P].
Qed.

(** ** Claims *)

(** C8: [writei] writes exactly what it is told to.  Let the source hold the
    bytes [l]: it is a variable of the kernel, or memory of the process that
    runs of which every page is mapped ([gives_user]).  A request that starts
    beyond the end of the file or would exceed the largest file returns -1 and
    changes nothing.  Any other request returns the number of bytes written,
    which is less than asked for only when the disk is full; the file then
    holds those bytes at [off] and all its other bytes as before, its size is
    the old size or the end of the write, it has no holes, its blocks are
    still distinct allocated data blocks, the inode on disk equals the one in
    memory, and no other inode changed. *)
Theorem writei_spec {L : LinkMap} i src off l t s (Hsrc : gives t (d_usr s) src l)
    (Hok : fs_ok s i) (Hl : d_locked s = ∅) (Hnh : no_holes (d_blk s) (ino s i))
    (Hsf : short_fields (ino s i)) (Hsz : 0 <= i_size (ino s i) <= MAXFILE * BSIZE)
    (Hb : bytes_ok l) (Ho : 0 <= off) (Hw : off + Z.of_nat (length l) < 2 ^ 32) :
  if decide (off <= i_size (ino s i) /\ off + Z.of_nat (length l) <= MAXFILE * BSIZE)
  then exists tot s', writei i src off (Z.of_nat (length l)) t s = ORet (Z.of_nat tot) t s' /\
         writei_post s s' i off l tot
  else writei i src off (Z.of_nat (length l)) t s = ORet (-1) t s.
Proof.
  case_decide as Hd; [by apply writei_ok; auto; lia|].
  unfold writei. change (2 ^ 32) with 4294967296 in Hw. kstep (geti_d i t s). rewrite !u32_small by lia.
  destruct ((i_size (ino s i) <? off) || (off + Z.of_nat (length l) <? off)) eqn:E1; [reflexivity|].
  destruct (MAXFILE * BSIZE <? off + Z.of_nat (length l)) eqn:E2; [reflexivity|lia].
Qed.

(** C33: [readi] returns the bytes of the file.  It returns 0 bytes beyond the
    end, and otherwise as many of the requested bytes as the file has, each
    the byte of the file at its offset; nothing changes.  In particular it
    returns what [writei] wrote, for as many bytes as were written. *)
Theorem readi_spec {L : LinkMap} i off n t s
    (Hok : fs_ok s i) (Hl : d_locked s = ∅) (Hnh : no_holes (d_blk s) (ino s i))
    (Hsz : 0 <= i_size (ino s i) <= MAXFILE * BSIZE)
    (Ho : 0 <= off) (Hn : 0 <= n) (Hw : off + n < 2 ^ 32) :
  (let len := Z.to_nat (Z.min n (i_size (ino s i) - off)) in
   readi i DVar off n t s = ORet (Z.of_nat len, content (d_blk s) (ino s i) off len) t s) /\
  (forall s0 l tot, writei_post s0 s i off l tot -> n = Z.of_nat tot -> 0 < n ->
     readi i DVar off n t s = ORet (n, take tot l) t s).
Proof.
  assert (Hread : readi i DVar off n t s =
    ORet (Z.of_nat (Z.to_nat (Z.min n (i_size (ino s i) - off))),
          content (d_blk s) (ino s i) off (Z.to_nat (Z.min n (i_size (ino s i) - off)))) t s).
  { destruct (Z.le_gt_cases off (i_size (ino s i))) as [H|H]; [apply readi_d; auto; lia|].
    unfold readi. kstep (geti_d i t s). destruct (i_size (ino s i) <? off) eqn:E; [|lia]. simpl.
    rewrite Z2Nat.nonpos by lia. reflexivity. }
  split; [exact Hread|]. intros s0 l tot P -> Hpos. rewrite Hread. destruct P as [P1 _ _ P3 _ _ P4 _ _ _ _ _ _].
  rewrite P3. rewrite Z.min_l, Nat2Z.id by lia. f_equal. f_equal. apply list_eq. intros k.
  destruct (decide (k < tot)%nat) as [Hk|Hk].
  - rewrite lookup_content by exact Hk. change (MAXFILE * BSIZE) with 274432 in *. rewrite P4 by lia. unfold patch.
    rewrite length_take, decide_True by lia. rewrite Z.add_simpl_l, Nat2Z.id.
    rewrite lookup_take_lt by exact Hk. destruct (lookup_lt_is_Some_2 l k) as [b ->]; [lia|]. reflexivity.
  - rewrite !lookup_ge_None_2; [reflexivity|rewrite length_take; lia|rewrite length_content; lia].
Qed.


(** ** Witnesses *)

Definition demo_inode : inode :=
  Inode 1 2 1 initsleeplock 1 T_FILE 0 0 1 0 (replicate 13 0).
Definition demo_file : dstate := upd_ino 0 (fun _ => demo_inode) demo_fs_state.

Lemma demo_file_ok : fs_ok demo_file 0.
Proof.
  destruct demo_bmap_ok as [G M _ _]. split; [vm_compute; lia|exact G|exact M|].
  assert (Hz : forall sl, slot_ok sl -> sval (d_blk demo_file) (ino demo_file 0) sl = 0).
  { intros [j|k] H; [|reflexivity]. simpl in H. unfold sval. change (i_addrs (ino demo_file 0)) with (replicate 13 0).
    apply list_lookup_total_correct, lookup_replicate_2. lia. }
  split; [reflexivity|..].
  - intros sl Hs Hne. by rewrite Hz in Hne.
  - intros sl sl' Hs _ Hne. by rewrite Hz in Hne.
  - vm_compute. intuition congruence.
  - reflexivity.
Qed.

Lemma demo_file_holes : no_holes (d_blk demo_file) (ino demo_file 0).
Proof. intros bn H0 H1. change (i_size (ino demo_file 0)) with 0 in H1. unfold BSIZE in H1. lia. Qed.

#[local] Existing Instance demo_link.

(** The "hi" in the memory of the process. *)
Lemma writei_spec_witness :
  exists tot s', writei 0 (SUser 100) 0 2 thread0 demo_file =
    ORet (Z.of_nat tot) thread0 s' /\ writei_post demo_file s' 0 0 [104; 105] tot.
Proof.
  apply (writei_spec 0 (SUser 100) 0 [104; 105] thread0 demo_file demo_gives demo_file_ok eq_refl
    demo_file_holes).
  - unfold short_fields, short_ok. vm_compute. intuition congruence.
  - vm_compute. intuition congruence.
  - repeat constructor; lia.
  - lia.
  - vm_compute. reflexivity.
Defined.


Lemma readi_spec_witness :
  (let len := Z.to_nat (Z.min 2 (i_size (ino demo_file 0) - 0)) in
   readi 0 DVar 0 2 thread0 demo_file =
   ORet (Z.of_nat len, content (d_blk demo_file) (ino demo_file 0) 0 len) thread0 demo_file) /\
  (forall s0 l tot, writei_post s0 demo_file 0 0 l tot -> 2 = Z.of_nat tot -> 0 < 2 ->
     readi 0 DVar 0 2 thread0 demo_file = ORet (2, take tot l) thread0 demo_file).
Proof.
  apply (readi_spec 0 0 2 thread0 demo_file demo_file_ok eq_refl demo_file_holes);
    [vm_compute; intuition congruence|lia|lia|vm_compute; reflexivity].
Defined.
