(* ===== verification/FsTrunc.v ===== *)
(** * Freeing a file (kernel/fs.c: [itrunc])

    [itrunc] gives back every block of the file, the direct ones, the ones the
    indirect block lists and the indirect block itself, each exactly once, and
    no other block; the inode is empty afterwards, in the table and on disk. *)

From S2P Require Import Prelude Kmonad Mem Riscv Kalloc Cstring Vm Proc Iface Sleeplock Bio Log Fs Usr FsDev FsBlock FsFile FsInode.

Section Trunc.
Context (i : nat) (s : dstate) (Hok : fs_ok s i).
Abbreviation sb := (fs_sb (d_fs s)).
Abbreviation val sl := (sval (d_blk s) (ino s i) sl).

(** From [s] to [s'] the blocks of the slots [F] were freed, nothing else. *)
Record cut (s' : dstate) (F : aslot -> Prop) : Prop := {
  ct_sb : fs_sb (d_fs s') = sb;
  ct_freed : forall sl, F sl -> slot_ok sl -> val sl <> 0 -> used (d_blk s') sb (val sl) = false;
  ct_kept : forall b, 0 <= b < sb_size sb -> (forall sl, F sl -> slot_ok sl -> val sl <> 0 -> val sl <> b) ->
    used (d_blk s') sb b = used (d_blk s) sb b;
  ct_frame : forall n, (forall b, 0 <= b < sb_size sb -> n <> BBLOCK b sb) -> d_blk s' n = d_blk s n;
}.

Lemma cut_refl : cut s (fun _ => False).
Proof. split; auto. intros sl []. Qed.

Lemma cut_ext s' (F G : aslot -> Prop) : (forall sl, F sl <-> G sl) -> cut s' F -> cut s' G.
Proof.
  intros H [C1 C2 C3 C4]. split; auto.
  - intros sl HG. by apply C2, H.
  - intros b Hb Hn. apply C3; [exact Hb|]. intros sl HF. by apply Hn, H.
Qed.

(** Locks and the inode table do not matter. *)
Lemma cut_same s1 s2 F : fs_sb (d_fs s2) = fs_sb (d_fs s1) -> d_blk s2 = d_blk s1 -> cut s1 F -> cut s2 F.
Proof. intros E1 E2 [C1 C2 C3 C4]. split; rewrite ?E1, ?E2; auto. Qed.

Lemma val_range sl : slot_ok sl -> val sl <> 0 -> data_start sb <= val sl < sb_size sb /\ used (d_blk s) sb (val sl) = true.
Proof. intros Hs Hn. by apply (fo_range _ _ _ (fs_file _ _ Hok)). Qed.

(** A slot without a block. *)
Lemma cut_skip s' F sl : cut s' F -> val sl = 0 -> cut s' (fun x => F x \/ x = sl).
Proof.
  intros [C1 C2 C3 C4] Hz. split; auto.
  intros x [HF| ->]; [by apply C2|]. intros _ Hn. by rewrite Hz in Hn.
Qed.

(** All blocks of the file. *)
Lemma cut_all s' F : (forall sl, slot_ok sl -> val sl <> 0 -> F sl) -> cut s' F -> cut s' slot_ok.
Proof. intros H [C1 C2 C3 C4]. split; auto. Qed.

(** A block that is not one of [F] is as it was. *)
Lemma cut_used s' F sl : cut s' F -> slot_ok sl -> val sl <> 0 -> ~ F sl -> used (d_blk s') sb (val sl) = true.
Proof.
  intros C Hs Hn HF. destruct (val_range sl Hs Hn) as [Hr Hu]. pose proof (geometry_pos _ (fs_geo _ _ Hok)).
  rewrite (ct_kept _ _ C) by (try lia; intros x Hx Hxs Hxn Heq; apply HF;
    by rewrite <- (fo_inj _ _ _ (fs_file _ _ Hok) x sl Hxs Hs Hxn Heq)). exact Hu.
Qed.

(** The bitmap is consistent in between; only the indirect block may be locked. *)
Lemma cut_bmap s' F : cut s' F -> (forall b, b ∈ d_locked s' -> b = val (Dir 12) /\ b <> 0 /\ ~ F (Dir 12)) -> bmap_ok s'.
Proof.
  intros C Hl. pose proof (fs_geo _ _ Hok) as G. pose proof (geometry_pos _ G) as Gp.
  split; rewrite (ct_sb _ _ C).
  - exact G.
  - intros b Hb. rewrite (ct_kept _ _ C); [by apply (fs_meta _ _ Hok)|destruct G; lia|].
    intros sl _ Hs Hn Heq. destruct (val_range sl Hs Hn) as [Hr _]. lia.
  - intros b Hb Hin. destruct (Hl _ Hin) as (E & Hn & _). pose proof (BBLOCK_meta sb b G Hb).
    rewrite E in Hn. destruct (val_range (Dir 12) ltac:(simpl; lia) Hn). lia.
  - intros b Hin. destruct (Hl _ Hin) as (-> & Hn & HF). apply (cut_used s' F); auto. simpl. lia.
Qed.

(** Free the block of one more slot. *)
Lemma cut_step s' F sl dev t :
  dev = ROOTDEV -> cut s' F -> bmap_ok s' -> slot_ok sl -> ~ F sl -> val sl <> 0 ->
  bfree dev (val sl) t s' = ORet tt t (drop_block sb (val sl) s') /\ cut (drop_block sb (val sl) s') (fun x => F x \/ x = sl).
Proof.
  intros Hdev C B Hs HF Hn. destruct (val_range sl Hs Hn) as [Hr Hu]. pose proof (geometry_pos _ (fs_geo _ _ Hok)) as Gp.
  assert (Hb : 0 <= val sl < sb_size sb) by lia. pose proof (ct_sb _ _ C) as Esb.
  pose proof (bfree_ok dev (val sl) t s' Hdev B) as Ef. cbv zeta in Ef. rewrite Esb in Ef. specialize (Ef Hb).
  rewrite (cut_used s' F sl C Hs Hn HF) in Ef. split; [exact Ef|].
  assert (Hd : forall b, 0 <= b < sb_size sb -> used (d_blk (drop_block sb (val sl) s')) sb b =
    if decide (b = val sl) then false else used (d_blk s') sb b).
  { intros b Hbr. pose proof (used_drop_block s' (val sl) b) as Hx. cbv zeta in Hx. rewrite Esb in Hx. apply Hx; auto. apply (fs_geo _ _ Hok). }
  split.
  - exact Esb.
  - intros x Hx Hxs Hxn. destruct (val_range x Hxs Hxn) as [Hxr _]. rewrite Hd by lia. case_decide as Hc; [done|].
    destruct Hx as [Hx| ->]; [by apply (ct_freed _ _ C)|done].
  - intros b Hbr Hno. rewrite Hd by exact Hbr. rewrite decide_False.
    + apply (ct_kept _ _ C); [exact Hbr|]. intros x Hx. apply Hno. by left.
    + intros ->. by apply (Hno sl (or_intror eq_refl) Hs Hn).
  - intros n Hno. unfold drop_block. rewrite edit_blk, blk_set_ne by (by apply Hno). by apply (ct_frame _ _ C).
Qed.

(** ** The direct blocks *)

Abbreviation addrs := (i_addrs (ino s i)).
Definition cleared (j : nat) : list Z := replicate j 0 ++ drop j addrs.

Lemma cleared_S j : (j < 13)%nat -> <[j := 0]> (cleared j) = cleared (S j) /\ cleared j !!! j = addrs !!! j.
Proof.
  intros Hj. pose proof (fo_len _ _ _ (fs_file _ _ Hok)) as Hlen.
  assert (Hd : drop j addrs = addrs !!! j :: drop (S j) addrs).
  { apply drop_S. apply list_lookup_lookup_total_lt. lia. }
  unfold cleared. rewrite Hd. split.
  - pose proof (insert_app_r (replicate j 0) (addrs !!! j :: drop (S j) addrs) 0 0) as E.
    rewrite length_replicate, Nat.add_0_r in E. rewrite E, replicate_S_end, <- app_assoc. reflexivity.
  - rewrite lookup_total_app_r by (rewrite length_replicate; lia). rewrite length_replicate, Nat.sub_diag. reflexivity.
Qed.

Lemma cleared_skip j : (j < 13)%nat -> val (Dir j) = 0 -> cleared (S j) = cleared j.
Proof.
  intros Hj Hz. destruct (cleared_S j Hj) as [<- Hl]. change (addrs !!! j) with (val (Dir j)) in Hl.
  apply list_insert_id. rewrite <- Hz, <- Hl. apply list_lookup_lookup_total_lt.
  unfold cleared. rewrite length_app, length_replicate, length_drop, (fo_len _ _ _ (fs_file _ _ Hok)). lia.
Qed.

Definition dirs (j : nat) (sl : aslot) : Prop := exists k, sl = Dir k /\ (k < j)%nat.

Lemma dirs_S j sl : dirs j sl \/ sl = Dir j <-> dirs (S j) sl.
Proof.
  split.
  - intros [(k & -> & Hk)| ->]; [exists k|exists j]; split; auto; lia.
  - intros (k & -> & Hk). destruct (decide (k = j)) as [->|]; [by right|]. left. exists k. split; auto. lia.
Qed.

(** The file system state with another inode in entry [i]. *)
Definition with_inode (ip : inode) : fsst := (d_fs s) <| itable ::= <[i := ip]> |>.

Record trunc_at (j : nat) (F : aslot -> Prop) (s' : dstate) : Prop := {
  tr_cut : cut s' F;
  tr_locked : d_locked s' = ∅;
  tr_fs : d_fs s' = with_inode ((ino s i) <| i_addrs := cleared j |>);
}.

Lemma ino_with s' ip : d_fs s' = with_inode ip -> ino s' i = ip.
Proof. intros E. unfold ino. rewrite E. apply list_lookup_total_insert_eq. apply (fs_entry _ _ Hok). Qed.

Lemma with_upd s' ip g : d_fs s' = with_inode ip -> d_fs (upd_ino i g s') = with_inode (g ip).
Proof.
  intros E. unfold upd_ino. cbn. rewrite E. unfold with_inode. cbn. f_equal.
  rewrite list_lookup_total_insert_eq by apply (fs_entry _ _ Hok). apply list_insert_insert_eq.
Qed.

Lemma trunc_bmap j F s' : trunc_at j F s' -> bmap_ok s'.
Proof. intros [C Hl _]. apply (cut_bmap s' F C). intros b Hb. rewrite Hl in Hb. by apply not_elem_of_empty in Hb. Qed.

Definition trunc_direct (j : nat) : M dstate unit :=
  let* ip := geti i in
  when (negb (i_addrs ip !!! j =? 0))
    (bfree (i_dev ip) (i_addrs ip !!! j) ;;
     modi i (fun ip => ip <| i_addrs ::= <[j := 0]> |>)).

Lemma trunc_direct_ok j F s' t : (j < 13)%nat -> ~ F (Dir j) -> trunc_at j F s' ->
  exists s2, trunc_direct j t s' = ORet tt t s2 /\ trunc_at (S j) (fun x => F x \/ x = Dir j) s2.
Proof.
  intros Hj HF T. destruct (cleared_S j Hj) as [Hc Hl]. pose proof (ino_with _ _ (tr_fs _ _ _ T)) as Ei.
  unfold trunc_direct. kstep (geti_d i t s'). rewrite Ei. cbn [i_addrs update]. rewrite Hl.
  change (addrs !!! j) with (val (Dir j)). destruct (val (Dir j) =? 0) eqn:Ez; cbn [negb when].
  - exists s'. split; [reflexivity|]. destruct T as [T1 T2 T3]. split; [apply cut_skip; [exact T1|lia]|exact T2|].
    by rewrite cleared_skip by (auto; lia).
  - destruct (cut_step s' F (Dir j) (i_dev (ino s i)) t (fs_dev _ _ Hok) (tr_cut _ _ _ T) (trunc_bmap _ _ _ T)) as [E C]; [simpl; lia|exact HF|lia|].
    kstep E. rewrite modi_d. eexists. split; [reflexivity|]. destruct T as [T1 T2 T3]. split; [by eapply cut_same; [| |exact C]|exact T2|].
    erewrite with_upd by exact T3. simpl. by rewrite Hc.
Qed.

(** ** The indirect blocks *)

Definition inds (k : nat) (sl : aslot) : Prop := dirs 12 sl \/ exists k', sl = Ind k' /\ (k' < k)%nat.

Lemma inds_S k sl : inds k sl \/ sl = Ind k <-> inds (S k) sl.
Proof.
  split.
  - intros [[Hd|(k' & -> & Hk)]| ->]; [by left|right; exists k'; split; auto; lia|right; exists k; split; auto; lia].
  - intros [Hd|(k' & -> & Hk)]; [left; by left|]. destruct (decide (k' = k)) as [->|]; [by right|].
    left. right. exists k'. split; auto. lia.
Qed.

Lemma not_inds k : ~ inds k (Ind k) /\ ~ inds k (Dir 12).
Proof.
  split; intros [(j & E & Hj)|(k' & E & Hk)]; try discriminate; injection E as <-; lia.
Qed.

Definition trunc_ind (dev : Z) (bp : nat) (k : nat) : M dstate unit :=
  let* m := gets (bd_data bp) in
  let a := load32 (4 * Z.of_nat k) m in
  when (negb (a =? 0)) (bfree dev a).

Record ind_at (f : fsst) (k : nat) (s' : dstate) : Prop := {
  in_cut : cut s' (inds k);
  in_locked : d_locked s' = {[ val (Dir 12) ]};
  in_fs : d_fs s' = f;
}.

Lemma trunc_ind_ok f dev k s' t : dev = ROOTDEV -> (k < 256)%nat -> val (Dir 12) <> 0 -> ind_at f k s' ->
  exists s2, trunc_ind dev (Z.to_nat (val (Dir 12))) k t s' = ORet tt t s2 /\ ind_at f (S k) s2.
Proof.
  intros Hdev Hk Ha [C Hl Hf]. destruct (val_range (Dir 12) ltac:(simpl; lia) Ha) as [Hr _].
  pose proof (fs_geo _ _ Hok) as G. pose proof (geometry_pos _ G) as Gp.
  unfold trunc_ind, gets. unfold bind at 1. cbn [obind]. rewrite data_d by lia.
  assert (Eb : d_blk s' (val (Dir 12)) = d_blk s (val (Dir 12))).
  { apply (ct_frame _ _ C). intros b Hb. pose proof (BBLOCK_meta _ b G Hb). lia. }
  assert (Ev : load32 (4 * Z.of_nat k) (d_blk s' (val (Dir 12))) = val (Ind k)).
  { rewrite Eb. unfold sval. change (iaddr (ino s i)) with (val (Dir 12)). by rewrite (proj2 (Z.eqb_neq _ 0)). }
  rewrite Ev. destruct (val (Ind k) =? 0) eqn:Ez; cbn [negb when].
  - exists s'. split; [reflexivity|]. split; [|exact Hl|exact Hf]. eapply cut_ext; [intros x; apply inds_S|].
    apply cut_skip; [exact C|lia].
  - assert (B : bmap_ok s').
    { apply (cut_bmap s' (inds k) C). intros b Hb. rewrite Hl in Hb. apply elem_of_singleton in Hb as ->. split; [done|].
      split; [exact Ha|apply not_inds]. }
    destruct (cut_step s' (inds k) (Ind k) dev t Hdev C B) as [E C2]; [simpl; lia|apply not_inds|lia|].
    eexists. split; [exact E|]. split; [|exact Hl|exact Hf]. eapply cut_ext; [intros x; apply inds_S|exact C2].
Qed.

(** ** The whole of [itrunc] *)

Definition trunc_indirect : M dstate unit :=
  let* ip := geti i in
  when (negb (i_addrs ip !!! Z.to_nat NDIRECT =? 0))
    (let* bp := bd_bread (i_dev ip) (i_addrs ip !!! Z.to_nat NDIRECT) in
     for_each (seq 0 (Z.to_nat NINDIRECT)) (trunc_ind (i_dev ip) bp) ;;
     bd_brelse bp ;;
     bfree (i_dev ip) (i_addrs ip !!! Z.to_nat NDIRECT) ;;
     modi i (fun ip => ip <| i_addrs ::= <[Z.to_nat NDIRECT := 0]> |>)).

Lemma trunc_dirs_ok t : d_locked s = ∅ ->
  exists s', for_each (seq 0 (Z.to_nat NDIRECT)) trunc_direct t s = ORet tt t s' /\ trunc_at 12 (dirs 12) s'.
Proof.
  intros Hl. apply (for_each_seq (fun j s' => trunc_at j (dirs j) s') trunc_direct t 12 0 s).
  - intros j s' Hj T. destruct (trunc_direct_ok j (dirs j) s' t) as (s2 & E & T2); [lia| |exact T|].
    { intros (k & [= <-] & Hk). lia. }
    exists s2. split; [exact E|]. destruct T2 as [T1 T2 T3]. split; [|exact T2|exact T3].
    eapply cut_ext; [intros x; apply dirs_S|exact T1].
  - split; [|exact Hl|].
    + eapply cut_ext; [|apply cut_refl]. intros x. split; [done|]. intros (k & _ & Hk). lia.
    + unfold with_inode, cleared. simpl. destruct (d_fs s) as [sb0 l] eqn:E. unfold ino. rewrite E. simpl. f_equal. symmetry.
      apply list_insert_id. pose proof (fs_entry _ _ Hok) as Hi. rewrite E in Hi. simpl in Hi.
      rewrite (list_lookup_lookup_total_lt l i Hi). f_equal. by destruct (l !!! i).
Qed.

Lemma trunc_indirect_ok s' t : trunc_at 12 (dirs 12) s' ->
  exists s2, trunc_indirect t s' = ORet tt t s2 /\ trunc_at 13 slot_ok s2.
Proof.
  intros T. destruct (cleared_S 12 ltac:(lia)) as [Hc Hlk]. pose proof (ino_with _ _ (tr_fs _ _ _ T)) as Ei.
  unfold trunc_indirect. kstep (geti_d i t s'). rewrite Ei. cbn [i_addrs update]. change (Z.to_nat NDIRECT) with 12%nat. rewrite Hlk.
  change (addrs !!! 12%nat) with (val (Dir 12)). destruct (val (Dir 12) =? 0) eqn:Ez; cbn [negb when].
  - exists s'. split; [reflexivity|]. destruct T as [T1 T2 T3]. split; [|exact T2|by rewrite cleared_skip by lia].
    apply (cut_all s' (dirs 12)); [|exact T1]. intros [j|k] Hs Hn.
    + exists j. split; [done|]. simpl in Hs. destruct (decide (j = 12)%nat) as [->|]; [|lia]. apply Z.eqb_eq in Ez. done.
    + unfold sval in Hn. change (iaddr (ino s i)) with (val (Dir 12)) in Hn. by rewrite Ez in Hn.
  - assert (Ha : val (Dir 12) <> 0) by lia. destruct (val_range (Dir 12) ltac:(simpl; lia) Ha) as [Hr _].
    pose proof (geometry_pos _ (fs_geo _ _ Hok)) as Gp. destruct T as [T1 T2 T3].
    assert (Hnl : val (Dir 12) ∉ d_locked s') by (rewrite T2; apply not_elem_of_empty).
    kstep (bread_d (i_dev (ino s i)) (val (Dir 12)) t s' Hnl
      ltac:(apply area_served; rewrite ?(ct_sb _ _ T1); [apply (fs_geo _ _ Hok)|by apply fs_dev|lia])).
    destruct (for_each_seq (fun k x => ind_at (d_fs s') k x) (trunc_ind (i_dev (ino s i)) (Z.to_nat (val (Dir 12)))) t 256 0 (lockb (val (Dir 12)) s'))
      as (s3 & E3 & [C3 Hl3 Hf3]).
    { intros k x Hk I. apply trunc_ind_ok; [by apply fs_dev|lia|exact Ha|exact I]. }
    { split; [|simpl; rewrite T2; apply union_empty_r_L|reflexivity]. apply (cut_same s'); [reflexivity|reflexivity|].
      eapply cut_ext; [|exact T1]. intros x. split; [by left|]. intros [Hd|(k' & _ & Hk)]; [exact Hd|lia]. }
    change (Z.to_nat NINDIRECT) with 256%nat. kstep E3.
    assert (Hin : val (Dir 12) ∈ d_locked s3) by (rewrite Hl3; by apply elem_of_singleton).
    kstep (brelse_d (val (Dir 12)) t s3 ltac:(lia) Hin). set (s4 := unlockb (val (Dir 12)) s3).
    assert (Hl4 : d_locked s4 = ∅) by (unfold s4; simpl; rewrite Hl3; apply difference_diag_L).
    assert (C4 : cut s4 (inds 256)) by (eapply cut_same; [| |exact C3]; reflexivity).
    assert (B4 : bmap_ok s4) by (apply (cut_bmap s4 _ C4); intros b Hb; rewrite Hl4 in Hb; by apply not_elem_of_empty in Hb).
    destruct (cut_step s4 _ (Dir 12) (i_dev (ino s i)) t (fs_dev _ _ Hok) C4 B4) as [E5 C5]; [simpl; lia|apply not_inds|exact Ha|].
    kstep E5. rewrite modi_d. eexists. split; [reflexivity|]. split; [|exact Hl4|].
    + apply (cut_same (drop_block sb (val (Dir 12)) s4)); [reflexivity|reflexivity|]. eapply cut_all; [|exact C5].
      intros [j|k] Hs _; simpl in Hs; [|left; right; by exists k].
      destruct (decide (j = 12)%nat) as [->|]; [by right|]. left. left. exists j. split; [done|lia].
    + erewrite with_upd by (rewrite <- T3; exact Hf3). rewrite <- Hc. reflexivity.
Qed.

(** The blocks in use afterwards. *)
Lemma cut_used_iff s' b : cut s' slot_ok -> 0 <= b < sb_size sb ->
  used (d_blk s') sb b = true <->
  used (d_blk s) sb b = true /\ forall sl, slot_ok sl -> val sl <> 0 -> val sl <> b.
Proof.
  intros C Hb. split.
  - intros Hu. assert (Hno : forall sl, slot_ok sl -> val sl <> 0 -> val sl <> b).
    { intros sl Hs Hn <-. by rewrite (ct_freed _ _ C sl Hs Hs Hn) in Hu. }
    split; [|exact Hno]. rewrite (ct_kept _ _ C) in Hu; auto.
  - intros [Hu Hno]. rewrite (ct_kept _ _ C); auto.
Qed.

(** An inode without blocks is a well-formed file. *)
Lemma empty_file_ok blk sb0 ip : i_addrs ip = replicate 13 0 -> 0 <= i_inum ip < sb_ninodes sb0 -> i_dev ip = ROOTDEV -> file_ok blk sb0 ip.
Proof.
  intros Ha Hn Hd. assert (Hz : forall sl, slot_ok sl -> sval blk ip sl = 0).
  { intros [j|k] Hs; unfold sval, iaddr; rewrite Ha; simpl in Hs; [|reflexivity].
    apply list_lookup_total_correct, lookup_replicate_2. lia. }
  split; [by rewrite Ha|..]; [| |exact Hn|exact Hd]; intros sl; intros; by rewrite Hz in *.
Qed.

(** The file system after the whole file was cut. *)
Lemma trunc_fs_ok s' : trunc_at 13 slot_ok s' -> fs_ok s' i.
Proof.
  intros T. destruct (trunc_bmap _ _ _ T) as [B1 B2 _ _]. pose proof (ino_with _ _ (tr_fs _ _ _ T)) as Ei.
  split; [|exact B1|exact B2|].
  - rewrite (tr_fs _ _ _ T). simpl. rewrite length_insert. apply (fs_entry _ _ Hok).
  - rewrite Ei, (ct_sb _ _ (tr_cut _ _ _ T)). apply empty_file_ok; [|apply (fo_inum _ _ _ (fs_file _ _ Hok))|by apply fs_dev].
    simpl. unfold cleared. rewrite drop_ge by (rewrite (fo_len _ _ _ (fs_file _ _ Hok)); lia). by rewrite app_nil_r.
Qed.
End Trunc.

(** C31: [itrunc] frees a file.  On a consistent file system it returns with
    the inode empty in the table and on disk; the blocks that were the file's
    (direct, indirect and the indirect block itself) are free, and exactly the
    other used blocks are still used; it panics nowhere, so no block is freed
    twice.  No data block changes, nor does any other inode in the table. *)
Theorem itrunc_spec (i : nat) (t : tls) (s : dstate) (Hok : fs_ok s i) (Hl : d_locked s = ∅) (Hsf : short_fields (ino s i)) :
  exists s', itrunc i t s = ORet tt t s' /\ fs_ok s' i /\ d_locked s' = ∅ /\
    ino s' i = (ino s i) <| i_addrs := replicate 13 0 |> <| i_size := 0 |> /\
    (forall j, j <> i -> ino s' j = ino s j) /\
    (forall b, 0 <= b < sb_size (fs_sb (d_fs s)) ->
       used (d_blk s') (fs_sb (d_fs s)) b = true <->
       used (d_blk s) (fs_sb (d_fs s)) b = true /\
       forall sl, slot_ok sl -> sval (d_blk s) (ino s i) sl <> 0 -> sval (d_blk s) (ino s i) sl <> b) /\
    dinode_at (d_blk s' (IBLOCK (i_inum (ino s i)) (fs_sb (d_fs s)))) (dinode_off (i_inum (ino s i))) =
      dinode_of (ino s' i) /\
    forall n, data_start (fs_sb (d_fs s)) <= n -> d_blk s' n = d_blk s n.
Proof.
  destruct (trunc_dirs_ok i s Hok t Hl) as (s1 & E1 & T1).
  destruct (trunc_indirect_ok i s Hok s1 t T1) as (s2 & E2 & T2).
  pose proof (trunc_fs_ok i s Hok s2 T2) as Ok2. pose proof (ino_with i s Hok s2 _ (tr_fs _ _ _ _ _ T2)) as Ei2.
  assert (Ec : cleared i s 13 = replicate 13 0).
  { unfold cleared. rewrite drop_ge by (rewrite (fo_len _ _ _ (fs_file _ _ Hok)); lia). by rewrite app_nil_r. }
  rewrite Ec in Ei2. set (s3 := upd_ino i (fun ip => ip <| i_size := 0 |>) s2).
  assert (Ok3 : fs_ok s3 i) by (by apply upd_size_ok).
  assert (Ei3 : ino s3 i = (ino s i) <| i_addrs := replicate 13 0 |> <| i_size := 0 |>).
  { unfold s3. rewrite ino_upd by apply (fs_entry _ _ Ok2). by rewrite Ei2. }
  destruct T2 as [C2 Hl2 F2]. pose proof (ct_sb _ _ _ _ C2) as Esb. pose proof (fs_geo _ _ Hok) as G.
  assert (Esb3 : fs_sb (d_fs s3) = fs_sb (d_fs s)) by exact Esb.
  set (n0 := IBLOCK (i_inum (ino s i)) (fs_sb (d_fs s))).
  assert (Hn0 : sb_inodestart (fs_sb (d_fs s)) <= n0 < sb_bmapstart (fs_sb (d_fs s))) by (apply IBLOCK_range; [exact G|apply (fo_inum _ _ _ (fs_file _ _ Hok))]).
  pose proof (iupdate_d i t s3 Ok3 Hl2) as E4. cbv zeta in E4. rewrite Ei3 in E4. simpl in E4. rewrite Esb in E4. fold n0 in E4.
  destruct (edit_meta s3 i n0 (put_dinode (dinode_off (i_inum (ino s i))) (dinode_of (ino s3 i))) Ok3)
    as (Ok4 & _ & _ & Hu4); [by rewrite Esb3|]. rewrite Ei3 in Ok4, Hu4. rewrite Esb3 in Hu4.
  eexists. split; [|split; [|split; [|split; [|split; [|split; [|split]]]]]].
  - unfold itrunc. change (for_each (seq 0 (Z.to_nat NDIRECT)) _) with (for_each (seq 0 (Z.to_nat NDIRECT)) (trunc_direct i)).
    kstep E1. kstep (geti_d i t s1).
    unfold trunc_indirect in E2. rewrite (bind_ret _ _ _ _ _ _ _ (geti_d i t s1)) in E2. cbv beta in E2.
    kstep E2. kstep (modi_d i (fun ip => ip <| i_size := 0 |>) t s2). exact E4.
  - exact Ok4.
  - exact Hl2.
  - exact Ei3.
  - intros j Hj. change (ino s3 j = ino s j). unfold s3. rewrite ino_upd_ne by exact Hj. unfold ino. rewrite F2.
    apply list_lookup_total_insert_ne. congruence.
  - intros b Hb. rewrite Hu4 by exact Hb.
    change (d_blk s3) with (d_blk s2). by apply cut_used_iff.
  - rewrite edit_blk, blk_set_eq. simpl. change (ino (edit n0 _ s3) i) with (ino s3 i). rewrite Ei3. apply dinode_roundtrip.
    rewrite <- Ei3. apply (dinode_of_ok s3 i Ok3); rewrite Ei3; [exact Hsf|done].
  - intros n Hn. pose proof (geometry_pos _ G). rewrite edit_blk, blk_set_ne by lia. change (d_blk s3) with (d_blk s2).
    apply (ct_frame _ _ _ _ C2). intros b Hb. pose proof (BBLOCK_meta _ b G Hb). lia.
Qed.

Lemma itrunc_spec_witness : exists s', itrunc 0 thread0 demo_file = ORet tt thread0 s' /\ fs_ok s' 0.
Proof.
  destruct (itrunc_spec 0 thread0 demo_file demo_file_ok eq_refl) as (s' & E & Hok & _); [|by exists s'].
  unfold short_fields, short_ok. vm_compute. intuition congruence.
Defined.
