(* ===== verification/FsTable.v ===== *)
(** * The inode table (kernel/fs.c: [iget])

    At most one entry of the table stands for an inode, so a lock on the entry
    is a lock on the inode; an entry stays with its inode while it is
    referenced. *)

From S2P Require Import Prelude Kmonad Mem Riscv Kalloc Cstring Vm Proc Iface Sleeplock Bio Log Fs Usr FsDev FsBlock FsFile FsInode.

(** Entry [ip] is in use for inode [inum] of device [dev]. *)
Definition holds (dev inum : Z) (ip : inode) : Prop :=
  0 < i_ref ip /\ i_dev ip = dev /\ i_inum ip = inum.

(** No inode has two entries, and no count is negative. *)
Definition table_ok (l : list inode) : Prop :=
  (forall i j ip jp, l !! i = Some ip -> l !! j = Some jp -> 0 < i_ref ip ->
     holds (i_dev ip) (i_inum ip) jp -> i = j) /\
  Forall (fun ip => 0 <= i_ref ip) l.

Lemma iget_scan_spec dev inum l : forall i e,
  (exists k ip, l !! k = Some ip /\ holds dev inum ip /\ iget_scan dev inum l i e = inl (i + k)%nat) \/
  ((forall k ip, l !! k = Some ip -> ~ holds dev inum ip) /\
   iget_scan dev inum l i e =
   inr (match e with Some x => Some x | None => (fun p => (i + fst p)%nat) <$> list_find (fun ip => i_ref ip = 0) l end)).
Proof.
  induction l as [|ip l IH]; intros i e.
  { right. split; [intros k ip H; by rewrite lookup_nil in H|]. by destruct e. }
  cbn [iget_scan]. destruct ((0 <? i_ref ip) && (i_dev ip =? dev) && (i_inum ip =? inum)) eqn:E.
  { left. exists O, ip. unfold holds. split; [reflexivity|]. split; [lia|]. f_equal. lia. }
  assert (Hno : ~ holds dev inum ip) by (unfold holds; lia).
  match goal with |- context [iget_scan dev inum l (Datatypes.S i) ?e'] => destruct (IH (Datatypes.S i) e')
    as [(k & jp & Hk & Hh & Es)|(Hall & Es)] end.
  - left. exists (Datatypes.S k), jp. split; [exact Hk|]. split; [exact Hh|]. rewrite Es. f_equal. lia.
  - right. split; [intros [|k] jp Hk; [by simplify_eq/=|by apply (Hall k)]|]. rewrite Es. f_equal.
    destruct e as [x|]; [reflexivity|]. cbn [list_find].
    destruct (i_ref ip =? 0) eqn:Er; destruct (decide (i_ref ip = 0)); try lia.
    + simpl. f_equal. lia.
    + destruct (list_find _ l) as [[k jp]|]; simpl; [f_equal; lia|reflexivity].
Qed.

(** Split on whether [j] is the entry that [<[i := _]>] replaced in [H]. *)
Ltac insert_cases i j H :=
  destruct (decide (j = i)) as [->|];
  [rewrite list_lookup_insert_eq in H by assumption; injection H as <-
  |rewrite list_lookup_insert_ne in H by congruence].

(** Raising the count of an entry in use, or putting a new inode into a free
    entry when no entry holds it, keeps the table free of duplicates. *)
Lemma table_ok_ref l i ip d :
  table_ok l -> l !! i = Some ip -> 0 < i_ref ip -> 0 <= i_ref ip + d ->
  table_ok (<[i := ip <| i_ref ::= (fun r => r + d) |>]> l).
Proof.
  intros [H1 H2] Hi Hr Hd. pose proof (lookup_lt_Some _ _ _ Hi) as Hlt. split; [|by apply Forall_insert].
  intros a b ap bp Ha Hb. insert_cases i a Ha; insert_cases i b Hb; unfold holds; simpl; intros Hra Hh; auto.
  - apply (H1 i b ip bp); auto.
  - symmetry. apply (H1 i a ip ap); auto. unfold holds. lia.
  - apply (H1 a b ap bp); auto.
Qed.

Lemma table_ok_new l i ip dev inum v :
  table_ok l -> l !! i = Some ip -> i_ref ip = 0 -> (forall k jp, l !! k = Some jp -> ~ holds dev inum jp) ->
  table_ok (<[i := ip <| i_dev := dev |> <| i_inum := inum |> <| i_ref := 1 |> <| i_valid := v |>]> l).
Proof.
  intros [H1 H2] Hi Hr Hno. pose proof (lookup_lt_Some _ _ _ Hi) as Hlt.
  split; [|apply Forall_insert; simpl; [auto|lia]].
  intros a b ap bp Ha Hb. insert_cases i a Ha; insert_cases i b Hb; simpl; intros Hra Hh; auto.
  - exfalso. by apply (Hno b bp).
  - exfalso. apply (Hno a ap); auto. unfold holds in *. simpl in *. lia.
  - apply (H1 a b ap bp); auto.
Qed.

(** ** Claims *)

(** C34: [iget] finds or makes the only entry for an inode.  If an entry
    already holds the inode, that one is returned with one more reference and
    nothing else changes.  Otherwise the first free entry is returned, bound
    to the inode with one reference and marked not valid; it panics only when
    every entry is in use.  The table never gets a second entry for an
    inode. *)
Theorem iget_spec dev inum t s (Htab : table_ok (itable (d_fs s))) (Hlk : LItable ∉ held t) :
  (exists i ip, itable (d_fs s) !! i = Some ip /\ holds dev inum ip /\
     iget dev inum t s = ORet i t (upd_ino i (fun x => x <| i_ref ::= (fun r => r + 1) |>) s) /\
     table_ok (<[i := ip <| i_ref ::= (fun r => r + 1) |>]> (itable (d_fs s)))) \/
  ((forall k ip, itable (d_fs s) !! k = Some ip -> ~ holds dev inum ip) /\
   match list_find (fun ip => i_ref ip = 0) (itable (d_fs s)) with
   | Some (i, ip) =>
       let ip' := ip <| i_dev := dev |> <| i_inum := inum |> <| i_ref := 1 |> <| i_valid := 0 |> in
       iget dev inum t s = ORet i t (upd_ino i (fun _ => ip') s) /\ table_ok (<[i := ip']> (itable (d_fs s)))
   | None => iget dev inum t s = OPanic "iget: no inodes"
   end).
Proof.
  unfold iget. rewrite (bind_ret _ _ _ _ _ _ _ (acquire_free LItable t s Hlk)).
  rewrite (bind_ret hget _ _ s (d_fs s) _ s) by reflexivity.
  destruct (iget_scan_spec dev inum (itable (d_fs s)) 0 None) as [(i & ip & Hi & Hh & Es)|(Hall & Es)];
    rewrite Es; simpl plus.
  - left. exists i, ip. split; [exact Hi|]. split; [exact Hh|]. split.
    + kstep (modi_d i (fun x => x <| i_ref ::= (fun r => r + 1) |>) (Tls (LItable :: held t) (me t)) s).
      kstep (release_top (S := dstate) LItable (held t) (me t)
               (upd_ino i (fun x => x <| i_ref ::= (fun r => r + 1) |>) s)).
      by rewrite tls_eta.
    + destruct Hh. apply table_ok_ref; auto; lia.
  - right. split; [exact Hall|].
    destruct (list_find (fun ip => i_ref ip = 0) (itable (d_fs s))) as [[i ip]|] eqn:Ef; [|reflexivity].
    apply list_find_Some in Ef as (Hi & Hr & _). simpl. split; [|by apply table_ok_new].
    erewrite bind_ret by reflexivity. cbv beta. erewrite bind_ret by apply release_top. cbv beta.
    unfold ret. rewrite tls_eta. unfold upd_ino. cbn.
    by rewrite (list_lookup_total_correct _ _ _ Hi).
Qed.

(** ** Witnesses *)

Lemma iget_spec_witness :
  (exists i ip, itable (d_fs demo_file) !! i = Some ip /\ holds 1 2 ip /\
     iget 1 2 thread0 demo_file = ORet i thread0 (upd_ino i (fun x => x <| i_ref ::= (fun r => r + 1) |>) demo_file) /\
     table_ok (<[i := ip <| i_ref ::= (fun r => r + 1) |>]> (itable (d_fs demo_file)))) \/
  ((forall k ip, itable (d_fs demo_file) !! k = Some ip -> ~ holds 1 2 ip) /\
   match list_find (fun ip => i_ref ip = 0) (itable (d_fs demo_file)) with
   | Some (i, ip) =>
       let ip' := ip <| i_dev := 1 |> <| i_inum := 2 |> <| i_ref := 1 |> <| i_valid := 0 |> in
       iget 1 2 thread0 demo_file = ORet i thread0 (upd_ino i (fun _ => ip') demo_file) /\
       table_ok (<[i := ip']> (itable (d_fs demo_file)))
   | None => iget 1 2 thread0 demo_file = OPanic "iget: no inodes"
   end).
Proof.
  apply (iget_spec 1 2 thread0 demo_file); [|apply not_elem_of_nil].
  split; [|vm_compute; repeat constructor; congruence].
  assert (Hrest : forall k ip, itable (d_fs demo_file) !! Datatypes.S k = Some ip -> i_ref ip = 0).
  { intros k ip Hk. change (replicate 49 (itable (d_fs demo_fs_state) !!! 1%nat) !! k = Some ip) in Hk.
    apply lookup_replicate in Hk as [-> _]. reflexivity. }
  intros [|i] [|j] ip jp Hi Hj Hr Hh; [reflexivity|destruct Hh; rewrite (Hrest j jp Hj) in *; lia| |];
    rewrite (Hrest i ip Hi) in *; lia.
Defined.
