(* ===== verification/FsDir.v ===== *)
(** * Directories (kernel/fs.c: [dirlookup], [dirlink])

    A directory is a finite map from names to inode numbers, stored as a file
    of 16-byte entries; names are compared on their first [DIRSIZ] characters.
    [dirlookup] looks a name up in the map and [dirlink] adds a binding. *)

From S2P Require Import Prelude Kmonad Mem Riscv Kalloc Cstring Vm Proc Iface Sleeplock Bio Log Fs Usr FsDev FsBlock FsFile FsInode FsTable.

(** ** Names *)

(** What counts of a name: the characters before the NUL, at most [DIRSIZ]. *)
Definition cname (l : list Z) : list Z := ctake (take 14 l).

Lemma ctake_zeros l n : ctake (l ++ replicate n 0) = ctake l.
Proof. induction l as [|b l IH]; simpl; [by destruct n|]. by rewrite IH. Qed.

Lemma ctake_idem l : ctake (ctake l) = ctake l.
Proof. induction l as [|b l IH]; [reflexivity|]. simpl. destruct (b =? 0) eqn:E; [reflexivity|]. simpl. by rewrite E, IH. Qed.

(** A short string at [a] followed by zeros. *)
Lemma bytes_at_padded m a l n :
  (length l <= n)%nat -> (forall k, (k < n)%nat -> byte_at m (a + Z.of_nat k) = default 0 (l !! k)) ->
  bytes_at m a n = l ++ replicate (n - length l) 0.
Proof.
  intros Hn Hm. apply list_eq. intros k. destruct (decide (k < n)%nat) as [Hk|Hk].
  - rewrite lookup_bytes_at, Hm by exact Hk. destruct (decide (k < length l)%nat) as [Hl|Hl].
    + rewrite lookup_app_l by exact Hl. destruct (lookup_lt_is_Some_2 l k Hl) as [b ->]. reflexivity.
    + rewrite lookup_app_r, lookup_replicate_2 by lia. by rewrite lookup_ge_None_2 by lia.
  - rewrite !lookup_ge_None_2; [reflexivity|rewrite length_app, length_replicate; lia|rewrite length_bytes_at; lia].
Qed.

Lemma two_strings_bytes s t :
  bytes_ok s -> bytes_ok t -> (length s <= 14)%nat -> (length t <= 14)%nat ->
  bytes_at (two_strings s t) 0 14 = s ++ replicate (14 - length s) 0 /\
  bytes_at (two_strings s t) 14 14 = t ++ replicate (14 - length t) 0.
Proof.
  intros Hs Ht Ls Lt. unfold two_strings. change DIRSIZ with 14.
  split; apply bytes_at_padded; auto; intros k Hk; rewrite byte_at_mwrite by exact Hs; unfold patch.
  - case_decide; [do 2 f_equal; lia|]. rewrite byte_at_mwrite by exact Ht. unfold patch.
    rewrite decide_False by lia. by rewrite lookup_ge_None_2 by lia.
  - rewrite decide_False by lia. rewrite byte_at_mwrite by exact Ht. unfold patch.
    case_decide; [do 2 f_equal; lia|]. by rewrite lookup_ge_None_2 by lia.
Qed.

(** [namecmp] is 0 exactly on equal names. *)
Lemma namecmp_zero s t : bytes_ok s -> bytes_ok t -> namecmp s t = 0 <-> cname s = cname t.
Proof.
  intros Hs Ht. unfold namecmp, cname. change DIRSIZ with 14. change (Z.to_nat 14) with 14%nat.
  rewrite strncmp_zero_iff. unfold cstr.
  destruct (two_strings_bytes (take 14 s) (take 14 t)) as [-> ->];
    [by apply Forall_take|by apply Forall_take|rewrite length_take; lia|rewrite length_take; lia|].
  by rewrite !ctake_zeros.
Qed.

(** ** Entries *)

Lemma de_inum_eq a b l : 0 <= a < 256 -> 0 <= b < 256 -> de_inum (a :: b :: l) = a + 256 * b.
Proof.
  intros Ha Hb. unfold de_inum, mload, byte_at, mwrite. simpl length.
  destruct ((0 <=? 0) && (0 <? 0 + Z.of_nat (S (S (length l))))) eqn:E1; [|lia].
  destruct ((0 <=? 0 + 1) && (0 + 1 <? 0 + Z.of_nat (S (S (length l))))) eqn:E2; [|lia].
  change (u8 a + 256 * (u8 b + 256 * 0) = a + 256 * b). rewrite !u8_small by lia. lia.
Qed.

Lemma bytes_at_ok m a n : bytes_ok (bytes_at m a n).
Proof. revert a. induction n as [|n IH]; intros a; constructor; [apply byte_at_range|apply IH]. Qed.

Lemma dirent_bytes_ok name inum : bytes_ok (dirent_bytes name inum) /\ length (dirent_bytes name inum) = 16%nat.
Proof.
  unfold dirent_bytes. split; [apply Forall_app; split; apply bytes_at_ok|].
  rewrite length_app, !length_bytes_at. reflexivity.
Qed.

Lemma dirent_bytes_inum name inum : 0 <= inum < 65536 -> de_inum (dirent_bytes name inum) = inum.
Proof.
  intros Hi. unfold dirent_bytes. cbn [bytes_at app].
  rewrite de_inum_eq by apply byte_at_range.
  change (0 + 1) with 1. pose proof (mload_mstore_same 2 0 inum (fun _ => 0)) as H. unfold mload in H.
  change (Z.of_nat 2) with 2 in H. rewrite Z.mod_small in H by (change (256 ^ 2) with 65536; lia).
  change (0 + 1) with 1 in H. lia.
Qed.

Lemma dirent_bytes_name name inum :
  bytes_ok name -> cname (de_name (dirent_bytes name inum)) = cname name.
Proof.
  intros Hn. unfold de_name, dirent_bytes, cname. rewrite drop_app_length' by (rewrite length_bytes_at; reflexivity).
  rewrite take_ge by (rewrite length_bytes_at; reflexivity).
  change DIRSIZ with 14. change (Z.to_nat 14) with 14%nat.
  destruct (strncpy_spec 14 0 14 (two_strings [] (take 14 name))) as [-> _]; [left; lia|].
  unfold field_of, cstr. destruct (two_strings_bytes [] (take 14 name)) as [_ ->];
    [constructor|by apply Forall_take|simpl; lia|rewrite length_take; lia|].
  rewrite !ctake_zeros. apply ctake_idem.
Qed.

(** ** Directories as lists of entries *)

Definition dents (s : dstate) (i : nat) : list (list Z) :=
  (fun k => content (d_blk s) (ino s i) (16 * Z.of_nat k) 16) <$> seq 0 (Z.to_nat (i_size (ino s i) / 16)).

Record dir_ok (s : dstate) (i : nat) : Prop := DirOk {
  dr_fs : fs_ok s i;
  dr_locked : d_locked s = ∅;
  dr_holes : no_holes (d_blk s) (ino s i);
  dr_size : 0 <= i_size (ino s i) <= MAXFILE * BSIZE;
  dr_entries : i_size (ino s i) mod 16 = 0;
  dr_type : i_type (ino s i) = T_DIR;
  dr_short : short_fields (ino s i);
}.

(** The first entry for which [stop] has a result. *)
Fixpoint find_entry {A} (stop : Z -> list Z -> option A) (l : list (list Z)) (k : nat) : option A :=
  match l with
  | [] => None
  | de :: l' =>
      match stop (16 * Z.of_nat k) de with Some a => Some a | None => find_entry stop l' (Datatypes.S k) end
  end.

Lemma length_dents s i : length (dents s i) = Z.to_nat (i_size (ino s i) / 16).
Proof. unfold dents. by rewrite length_fmap, length_seq. Qed.

Lemma lookup_dents s i k :
  (k < Z.to_nat (i_size (ino s i) / 16))%nat ->
  dents s i !! k = Some (content (d_blk s) (ino s i) (16 * Z.of_nat k) 16).
Proof.
  intros Hk. unfold dents. rewrite list_lookup_fmap.
  by rewrite (proj2 (lookup_seq 0 _ k k)) by lia.
Qed.

Lemma fbyte_range blk ip x : 0 <= fbyte blk ip x < 256.
Proof. unfold fbyte. destruct (_ =? 0); [lia|apply byte_at_range]. Qed.

Lemma content_ok blk ip off n : bytes_ok (content blk ip off n).
Proof. apply Forall_fmap, Forall_true. intros k. apply fbyte_range. Qed.

Lemma read_dirent {L : LinkMap} dp k t s :
  dir_ok s dp -> (k < Z.to_nat (i_size (ino s dp) / 16))%nat ->
  readi dp DVar (16 * Z.of_nat k) 16 t s = ORet (16, content (d_blk s) (ino s dp) (16 * Z.of_nat k) 16) t s.
Proof.
  intros [D1 D2 D3 D4 D5 _ _] Hk. pose proof D4 as D4'. change (MAXFILE * BSIZE) with 274432 in D4'.
  pose proof (readi_d dp (16 * Z.of_nat k) 16 t s D1 D2 D3 ltac:(lia)) as R. cbv zeta in R.
  rewrite Z.min_l in R by dlia. apply R; [dlia|lia|]. change (2 ^ 32) with 4294967296. dlia.
Qed.

(** The loop over the entries of a directory. *)
Lemma dir_scan_d {L : LinkMap} {A} msg dp (stop : Z -> list Z -> option A) t s :
  dir_ok s dp ->
  dir_scan msg dp stop t s =
  ORet (match find_entry stop (dents s dp) 0 with Some a => inl a | None => inr (i_size (ino s dp)) end) t s.
Proof.
  intros D. pose proof D as [_ _ _ D4' D5 _ _]. unfold dir_scan. kstep (geti_d dp t s).
  pose proof (length_dents s dp) as Hld. pose proof (fun k => read_dirent dp k t s D) as R.
  set (sz := i_size (ino s dp)) in *. change (MAXFILE * BSIZE) with 274432 in D4'.
  change sizeof_dirent with 16.
  match goal with |- loop _ ?b _ _ _ = _ => set (body := b) end.
  assert (Hloop : forall fuel k, (k <= Z.to_nat (sz / 16))%nat -> (Z.to_nat (sz / 16) - k + 1 <= fuel)%nat ->
    loop fuel body (16 * Z.of_nat k) t s =
    ORet (match find_entry stop (drop k (dents s dp)) k with Some a => inl a | None => inr sz end) t s).
  { induction fuel as [|fuel IH]; intros k Hk Hf; [lia|]. cbn [loop].
    destruct (decide (k = Z.to_nat (sz / 16))) as [->|Hne].
    - rewrite drop_ge by lia.
      assert (E : body (16 * Z.of_nat (Z.to_nat (sz / 16))) t s = ORet (inr (inr sz)) t s).
      { unfold body. kstep (geti_d dp t s). fold sz. destruct (_ <? sz) eqn:E; [dlia|].
        unfold ret. do 3 f_equal. dlia. }
      kstep E. reflexivity.
    - assert (Hlt : (k < Z.to_nat (sz / 16))%nat) by lia.
      rewrite (drop_S _ _ _ (lookup_dents s dp k Hlt)). cbn [find_entry].
      set (de := content (d_blk s) (ino s dp) (16 * Z.of_nat k) 16).
      assert (E : body (16 * Z.of_nat k) t s =
        ORet (match stop (16 * Z.of_nat k) de with
              | Some a => inr (inl a) | None => inl (16 * Z.of_nat (Datatypes.S k)) end) t s).
      { unfold body. kstep (geti_d dp t s). fold sz. destruct (16 * Z.of_nat k <? sz) eqn:E; [|dlia].
        rewrite (bind_ret _ _ _ _ _ _ _ (R k Hlt)). cbv beta iota. change (negb (16 =? 16)) with false. cbv iota.
        fold de.
        destruct (stop (16 * Z.of_nat k) de); [reflexivity|]. unfold ret. rewrite u32_small by dlia.
        do 2 f_equal. lia. }
      kstep E. destruct (stop (16 * Z.of_nat k) de); [reflexivity|]. apply IH; lia. }
  apply (Hloop _ O); [lia|]. dlia.
Qed.

(** ** Directories as maps *)

(** Entry [de] is in use for [name]. *)
Definition live (name de : list Z) : Prop := de_inum de <> 0 /\ cname name = cname (de_name de).
#[global] Instance live_dec name de : Decision (live name de).
Proof. unfold live. apply _. Defined.

(** The entry that a lookup of [name] finds, with its index. *)
Definition dget (l : list (list Z)) (name : list Z) : option (nat * list Z) := list_find (live name) l.

Lemma find_entry_live name l k0 :
  bytes_ok name -> Forall bytes_ok l ->
  find_entry (fun off de => if de_inum de =? 0 then None
                            else if namecmp name (de_name de) =? 0 then Some (off, de_inum de) else None) l k0 =
  (fun p => (16 * Z.of_nat (k0 + fst p), de_inum (snd p))) <$> dget l name.
Proof.
  intros Hn Hl. revert k0. induction Hl as [|de l Hde Hl IH]; intros k0; [reflexivity|].
  cbn [find_entry]. unfold dget. cbn [list_find].
  pose proof (namecmp_zero name (de_name de) Hn ltac:(by apply Forall_drop)) as Hz.
  destruct (de_inum de =? 0) eqn:E1; [|destruct (namecmp name (de_name de) =? 0) eqn:E2].
  - rewrite decide_False by (unfold live; lia). rewrite IH. unfold dget.
    destruct (list_find (live name) l) as [[k e]|]; simpl; [|reflexivity]. do 3 f_equal. lia.
  - rewrite decide_True by (unfold live; split; [lia|apply Hz; lia]). simpl. do 3 f_equal. lia.
  - rewrite decide_False by (unfold live; intros [_ H]; apply Hz in H; lia). rewrite IH. unfold dget.
    destruct (list_find (live name) l) as [[k e]|]; simpl; [|reflexivity]. do 3 f_equal. lia.
Qed.

Lemma find_entry_free l k0 :
  find_entry (fun off de => if de_inum de =? 0 then Some off else None) l k0 =
  (fun p => 16 * Z.of_nat (k0 + fst p)) <$> list_find (fun de => de_inum de = 0) l.
Proof.
  revert k0. induction l as [|de l IH]; intros k0; [reflexivity|]. cbn [find_entry list_find].
  destruct (de_inum de =? 0) eqn:E; destruct (decide (de_inum de = 0)); try lia.
  - simpl. do 2 f_equal. lia.
  - rewrite IH. destruct (list_find _ l) as [[k e]|]; simpl; [|reflexivity]. do 2 f_equal. lia.
Qed.

Lemma dents_ok s i : Forall bytes_ok (dents s i).
Proof. apply Forall_fmap, Forall_true. intros k. apply content_ok. Qed.

Lemma dirlookup_ok {L : LinkMap} dp name t s :
  dir_ok s dp -> bytes_ok name ->
  dirlookup dp name t s =
  match dget (dents s dp) name with
  | Some (k, de) => (let* ip := iget (i_dev (ino s dp)) (de_inum de) in ret (Some (ip, 16 * Z.of_nat k))) t s
  | None => ORet None t s
  end.
Proof.
  intros D Hn. unfold dirlookup. kstep (geti_d dp t s). rewrite (dr_type _ _ D), Z.eqb_refl. cbv iota beta delta [negb].
  erewrite bind_ret by (apply dir_scan_d; exact D). cbv beta.
  rewrite find_entry_live by (auto using dents_ok).
  by destruct (dget (dents s dp) name) as [[k de]|].
Qed.

(** ** Adding a binding *)

(** What [dirlink] does to the list of entries. *)
Definition dput (l : list (list Z)) (de : list Z) : list (list Z) :=
  match list_find (fun de => de_inum de = 0) l with
  | Some (k, _) => <[k := de]> l
  | None => l ++ [de]
  end.

Lemma dput_cons x l de : dput (x :: l) de = if decide (de_inum x = 0) then de :: l else x :: dput l de.
Proof.
  unfold dput. cbn [list_find]. destruct (decide (de_inum x = 0)); [reflexivity|].
  by destruct (list_find _ l) as [[k y]|].
Qed.

(** The inode number that a lookup finds. *)
Definition dinum (l : list (list Z)) (name : list Z) : option Z := (fun p => de_inum (snd p)) <$> dget l name.

Lemma dinum_cons x l name : dinum (x :: l) name = if decide (live name x) then Some (de_inum x) else dinum l name.
Proof.
  unfold dinum, dget. cbn [list_find]. destruct (decide (live name x)); [reflexivity|].
  by destruct (list_find (live name) l) as [[k y]|].
Qed.

(** A lookup after adding an entry for a name that was not there. *)
Lemma dinum_dput l name de name' :
  dinum l name = None -> de_inum de <> 0 -> cname (de_name de) = cname name ->
  dinum (dput l de) name' =
  if decide (cname name' = cname name) then Some (de_inum de) else dinum l name'.
Proof.
  intros Hnone Hi Hc. assert (Hlive : live name' de <-> cname name' = cname name).
  { unfold live. rewrite Hc. tauto. }
  induction l as [|x l IH].
  - unfold dput. simpl. rewrite dinum_cons. by rewrite (decide_ext _ _ _ _ Hlive).
  - rewrite dinum_cons in Hnone. destruct (decide (live name x)) as [|Hnx]; [discriminate|].
    rewrite dput_cons. destruct (decide (de_inum x = 0)) as [Hx|Hx]; rewrite !dinum_cons.
    + rewrite (decide_False (P := live name' x)) by (unfold live; tauto). by rewrite (decide_ext _ _ _ _ Hlive).
    + rewrite IH by exact Hnone. destruct (decide (live name' x)) as [Hx'|]; [|reflexivity].
      rewrite decide_False; [reflexivity|]. intros E. apply Hnx. unfold live in *. by rewrite <- E.
Qed.

Lemma content_patched s s' i off l k :
  writei_post s s' i off l (length l) -> 0 <= off -> off mod 16 = 0 -> length l = 16%nat -> (16 * Z.of_nat k < 274432) ->
  content (d_blk s') (ino s' i) (16 * Z.of_nat k) 16 =
  if decide (16 * Z.of_nat k = off) then l else content (d_blk s) (ino s i) (16 * Z.of_nat k) 16.
Proof.
  intros P Ho Hal Hlen Hk. apply list_eq. intros j. destruct (decide (j < 16)%nat) as [Hj|Hj].
  - rewrite lookup_content by exact Hj.
    rewrite (wp_bytes _ _ _ _ _ _ P) by (change (MAXFILE * BSIZE) with 274432; dlia).
    rewrite take_ge by lia. unfold patch. rewrite Hlen. case_decide as H1.
    + rewrite decide_True by dlia. destruct (lookup_lt_is_Some_2 l j) as [b Eb]; [lia|].
      replace (Z.to_nat (16 * Z.of_nat k + Z.of_nat j - off)) with j by dlia. by rewrite Eb.
    + rewrite decide_False by dlia. by rewrite lookup_content.
  - case_decide; rewrite !lookup_ge_None_2; rewrite ?length_content; auto; lia.
Qed.

(** The list of entries after one entry was written in place or at the end. *)
Lemma dents_write s s' i k de :
  dir_ok s i -> writei_post s s' i (16 * Z.of_nat k) de (length de) -> length de = 16%nat ->
  (k <= length (dents s i))%nat -> 16 * Z.of_nat k + 16 <= MAXFILE * BSIZE ->
  dents s' i = if decide (k < length (dents s i))%nat then <[k := de]> (dents s i) else dents s i ++ [de].
Proof.
  intros [_ _ _ D4 D5 _ _] P Hlen Hk Hmax. change (MAXFILE * BSIZE) with 274432 in *.
  rewrite length_dents in Hk |- *. set (sz := i_size (ino s i)) in *.
  assert (Esz : i_size (ino s' i) = Z.max sz (16 * Z.of_nat k + 16)).
  { rewrite (wp_size _ _ _ _ _ _ P), Hlen. reflexivity. }
  apply list_eq. intros j. destruct (decide (j < Z.to_nat (i_size (ino s' i) / 16))%nat) as [Hj|Hj].
  - rewrite lookup_dents by exact Hj.
    rewrite (content_patched s s' i (16 * Z.of_nat k) de j P) by (auto; dlia).
    destruct (decide (k < Z.to_nat (sz / 16))%nat) as [Hin|Hin].
    + destruct (decide (j = k)) as [->|Hne].
      * rewrite decide_True by reflexivity. by rewrite list_lookup_insert_eq by (rewrite length_dents; exact Hin).
      * rewrite decide_False by lia. rewrite list_lookup_insert_ne, lookup_dents by (auto; fold sz; dlia). reflexivity.
    + destruct (decide (j = k)) as [->|Hne].
      * rewrite decide_True by reflexivity. rewrite lookup_app_r by (rewrite length_dents; fold sz; dlia).
        rewrite length_dents. fold sz. replace (k - Z.to_nat (sz / 16))%nat with O by lia. reflexivity.
      * rewrite decide_False by lia. rewrite lookup_app_l, lookup_dents by (rewrite ?length_dents; fold sz; dlia).
        reflexivity.
  - rewrite lookup_ge_None_2 by (rewrite length_dents; lia). symmetry. apply lookup_ge_None_2.
    destruct (decide (k < Z.to_nat (sz / 16))%nat); rewrite ?length_insert, ?length_app, ?length_dents; fold sz;
      simpl; dlia.
Qed.

(** The writing half of [dirlink]. *)
Lemma dir_put_ok {L : LinkMap} dp de t s :
  dir_ok s dp -> bytes_ok de -> length de = 16%nat -> i_size (ino s dp) + 16 <= MAXFILE * BSIZE ->
  let off := match list_find (fun de => de_inum de = 0) (dents s dp) with
             | Some (k, _) => 16 * Z.of_nat k | None => i_size (ino s dp) end in
  exists tot s', writei dp (SVar de) off sizeof_dirent t s = ORet (Z.of_nat tot) t s' /\
    if decide (tot = 16%nat) then dir_ok s' dp /\ dents s' dp = dput (dents s dp) de else disk_full s'.
Proof.
  intros D Hb Hlen Hmax off. pose proof D as [D1 D2 D3 D4 D5 D6 D7].
  assert (Hk : exists k, off = 16 * Z.of_nat k /\ (k <= length (dents s dp))%nat /\
    dput (dents s dp) de = if decide (k < length (dents s dp))%nat then <[k := de]> (dents s dp) else dents s dp ++ [de]).
  { unfold off, dput. destruct (list_find _ (dents s dp)) as [[k x]|] eqn:E.
    - apply list_find_Some in E as (Hx & _). apply lookup_lt_Some in Hx. exists k.
      split; [reflexivity|]. split; [lia|]. by rewrite decide_True.
    - exists (length (dents s dp)). split; [rewrite length_dents; dlia|]. split; [lia|]. by rewrite decide_False by lia. }
  destruct Hk as (k & Eoff & Hk & Eput). rewrite Eoff. clear off Eoff. pose proof Hk as Hk'. rewrite length_dents in Hk'.
  destruct (writei_ok dp (SVar de) (16 * Z.of_nat k) de t s (gives_var _ _ _) D1 D2 D3 D7 D4 Hb) as (tot & s' & E & P);
    [dlia|rewrite Hlen; dlia|].
  rewrite Hlen in E. exists tot, s'. split; [exact E|]. destruct (decide (tot = 16%nat)) as [->|Ht].
  - rewrite <- Hlen in P. split; [|rewrite Eput; apply dents_write; auto; dlia].
    pose proof (wp_size _ _ _ _ _ _ P) as Esz. destruct P as [_ P2 P3 _ (a & sz & Ei) P5 _ _ _ _ _ _].
    change (MAXFILE * BSIZE) with 274432 in *. rewrite Hlen in Esz.
    split; auto; [change (MAXFILE * BSIZE) with 274432; dlia|dlia|by rewrite Ei|by rewrite Ei].
  - destruct (wp_full _ _ _ _ _ _ P) as [->|Hf]; [lia|exact Hf].
Qed.

(** ** Claims *)

(** [dirlookup] looks a name up in the directory.  It returns the entry of
    the inode table for the first entry in use whose name agrees with [name]
    in the first [DIRSIZ] characters, and that entry's offset; when there is
    none it returns 0.  It does not change the directory. *)
Theorem dirlookup_spec {L : LinkMap} dp name t s (D : dir_ok s dp) (Hn : bytes_ok name) :
  dirlookup dp name t s =
  match dget (dents s dp) name with
  | Some (k, de) => (let* ip := iget (i_dev (ino s dp)) (de_inum de) in ret (Some (ip, 16 * Z.of_nat k))) t s
  | None => ORet None t s
  end.
Proof. by apply dirlookup_ok. Qed.

(** C9: [dirlink] adds a binding to the directory, seen as a map from names to
    inode numbers.  For a name that is not bound it either returns 0, and
    then every lookup finds what it found before except that the new name
    (up to the first [DIRSIZ] characters) is bound to the given inode, or it
    returns -1 because the disk is full. *)
Theorem dirlink_spec {L : LinkMap} dp name inum t s
    (D : dir_ok s dp) (Hn : bytes_ok name) (Hi : 0 < inum < 65536)
    (Hnone : dinum (dents s dp) name = None) (Hroom : i_size (ino s dp) + 16 <= MAXFILE * BSIZE) :
  exists s', (dirlink dp name inum t s = ORet 0 t s' /\ dir_ok s' dp /\
     forall name', dinum (dents s' dp) name' =
       if decide (cname name' = cname name) then Some inum else dinum (dents s dp) name') \/
    (dirlink dp name inum t s = ORet (-1) t s' /\ disk_full s').
Proof.
  assert (Hget : dget (dents s dp) name = None).
  { unfold dinum in Hnone. by destruct (dget (dents s dp) name). }
  pose proof (dirlookup_ok dp name t s D Hn) as El. rewrite Hget in El.
  unfold dirlink. rewrite (bind_ret _ _ _ _ _ _ _ El). cbv iota.
  erewrite bind_ret by (apply dir_scan_d; exact D). cbv beta zeta. rewrite find_entry_free.
  destruct (dirent_bytes_ok name inum) as [Hb Hlen].
  destruct (dir_put_ok dp (dirent_bytes name inum) t s D Hb Hlen Hroom) as (tot & s' & E & H).
  exists s'. revert E H. destruct (list_find _ (dents s dp)) as [[k x]|]; cbn [fmap option_fmap option_map fst plus];
    intros E H; rewrite (bind_ret _ _ _ _ _ _ _ E); cbv beta; change sizeof_dirent with 16.
  all: destruct (decide (tot = 16%nat)) as [->|Ht];
    [left|right; split; [destruct (Z.of_nat tot =? 16) eqn:Et; [lia|reflexivity]|exact H]].
  all: split; [reflexivity|]; destruct H as [H1 H2]; split; [exact H1|]; intros name'; rewrite H2.
  all: rewrite (dinum_dput _ name) by
    (auto; rewrite ?dirent_bytes_inum, ?dirent_bytes_name by (auto; lia); auto; lia).
  all: by rewrite dirent_bytes_inum by lia.
Qed.

(** ** Witnesses *)

Definition demo_dir : dstate := upd_ino 0 (fun ip => ip <| i_type := T_DIR |>) demo_file.

Lemma demo_dir_ok : dir_ok demo_dir 0.
Proof.
  destruct demo_file_ok as [F1 F2 F3 F4]. split.
  - split; [exact F1|exact F2|exact F3|by destruct F4].
  - reflexivity.
  - exact demo_file_holes.
  - change (i_size (ino demo_dir 0)) with 0. change (MAXFILE * BSIZE) with 274432. lia.
  - reflexivity.
  - reflexivity.
  - unfold short_fields, short_ok. vm_compute. intuition congruence.
Qed.

#[local] Existing Instance demo_link.

Lemma dirlink_spec_witness :
  exists s', (dirlink 0 [97; 0] 5 thread0 demo_dir = ORet 0 thread0 s' /\ dir_ok s' 0 /\
     forall name', dinum (dents s' 0) name' =
       if decide (cname name' = cname [97; 0]) then Some 5 else dinum (dents demo_dir 0) name') \/
    (dirlink 0 [97; 0] 5 thread0 demo_dir = ORet (-1) thread0 s' /\ disk_full s').
Proof.
  apply (dirlink_spec 0 [97; 0] 5 thread0 demo_dir demo_dir_ok);
    [repeat constructor; lia|lia|reflexivity|vm_compute; congruence].
Defined.
