(* ===== verification/FsPath.v ===== *)
(** * Path names (kernel/fs.c: [skipelem], [namex])

    A path is a list of elements separated by slashes.  [skipelem] takes the
    elements off one by one, and [namex] walks the directories along them. *)

From S2P Require Import Prelude Kmonad Mem Riscv Kalloc Cstring Vm Proc Iface Sleeplock Bio Log Fs Usr FsDev FsDir.

(** ** The elements of a path *)

(** The pieces between slashes, empty ones included. *)
Fixpoint split_slash (path : list Z) : list (list Z) :=
  match path with
  | [] => [[]]
  | c :: path' =>
      if c =? SLASH then [] :: split_slash path'
      else match split_slash path' with e :: es => (c :: e) :: es | [] => [[c]] end
  end.

Definition elements (path : list Z) : list (list Z) := filter (fun e => e <> []) (split_slash path).

(** What [skipelem] leaves in [name] for the element [e]. *)
Definition put_name (e name : list Z) : list Z :=
  if (Z.to_nat DIRSIZ <=? length e)%nat then take (Z.to_nat DIRSIZ) e
  else e ++ [0] ++ drop (Datatypes.S (length e)) name.

Lemma split_take_elem path :
  split_slash path = fst (take_elem path) ::
    match snd (take_elem path) with [] => [] | _ :: r => split_slash r end.
Proof.
  induction path as [|c path IH]; [reflexivity|]. cbn [split_slash take_elem].
  destruct (c =? SLASH); [reflexivity|]. rewrite IH. by destruct (take_elem path).
Qed.

Lemma elements_skip path : elements (skip_slashes path) = elements path.
Proof.
  induction path as [|c path IH]; [reflexivity|]. cbn [skip_slashes].
  destruct (c =? SLASH) eqn:E; [|reflexivity]. rewrite IH. unfold elements. cbn [split_slash]. rewrite E. reflexivity.
Qed.

Lemma take_elem_rest path : match snd (take_elem path) with [] => True | c :: _ => c = SLASH end.
Proof.
  induction path as [|c path IH]; [exact I|]. cbn [take_elem]. destruct (c =? SLASH) eqn:E; [simpl; lia|].
  by destruct (take_elem path).
Qed.

Lemma elements_nil path : elements (skip_slashes path) = [] <-> skip_slashes path = [].
Proof.
  split; [|by intros ->]. induction path as [|c path IH]; [reflexivity|]. cbn [skip_slashes].
  destruct (c =? SLASH) eqn:E; [exact IH|]. unfold elements. rewrite split_take_elem. cbn [take_elem]. rewrite E.
  by destruct (take_elem path).
Qed.

Lemma skip_slashes_length path : (length (skip_slashes path) <= length path)%nat.
Proof. induction path as [|c path IH]; [reflexivity|]. cbn [skip_slashes]. destruct (c =? SLASH); simpl; lia. Qed.

Lemma take_elem_app path : path = fst (take_elem path) ++ snd (take_elem path).
Proof.
  induction path as [|c path IH]; [reflexivity|]. cbn [take_elem]. destruct (c =? SLASH); [reflexivity|].
  destruct (take_elem path); simpl in *. by f_equal.
Qed.

(** One call of [skipelem] takes off the first element. *)
Lemma skipelem_ok path name :
  match skipelem path name with
  | None => elements path = []
  | Some (path', name') =>
      exists e, e <> [] /\ elements path = e :: elements path' /\ name' = put_name e name /\
        (path' = [] <-> elements path' = []) /\ (length path' < length path)%nat
  end.
Proof.
  unfold skipelem. rewrite <- (elements_skip path). pose proof (skip_slashes_length path) as Hlen.
  destruct (skip_slashes path) as [|c s] eqn:Es; [reflexivity|].
  assert (Hc : (c =? SLASH) = false).
  { clear Hlen. induction path as [|d path IH]; [discriminate|]. cbn [skip_slashes] in Es.
    destruct (d =? SLASH) eqn:E; [by apply IH|by injection Es as -> ->]. }
  pose proof (split_take_elem (c :: s)) as Hsp. pose proof (take_elem_rest (c :: s)) as Hr.
  pose proof (take_elem_app (c :: s)) as Happ. assert (He : fst (take_elem (c :: s)) <> []).
  { cbn [take_elem]. rewrite Hc. by destruct (take_elem s). }
  destruct (take_elem (c :: s)) as [e r]. simpl fst in *. simpl snd in *.
  exists e. split; [exact He|]. split; [|split; [reflexivity|split; [by rewrite elements_nil|]]].
  - rewrite elements_skip. unfold elements at 1. rewrite Hsp. rewrite filter_cons_True by exact He. f_equal.
    destruct r as [|d r]; [reflexivity|]. subst d. reflexivity.
  - pose proof (skip_slashes_length r). apply (f_equal length) in Happ. rewrite length_app in Happ.
    destruct e; simpl in *; [done|lia].
Qed.

(** ** The walk *)

Section Walk.

Context {S : Type} `{BlockDev S} `{LogOps S} `{SleepOps S} `{Has S fsst} `{UserOps S} `{Fuel}.

(** Look the elements up one after the other, starting in directory [ip]. *)
Fixpoint walk_path (nameiparent : bool) (es : list (list Z)) (ip : nat) (name : list Z) : M S (option nat * list Z) :=
  match es with
  | [] => if nameiparent then iput ip ;; ret (None, name) else ret (Some ip, name)
  | e :: es' =>
      let name := put_name e name in
      ilock ip ;;
      let* dp := geti ip in
      if negb (i_type dp =? T_DIR) then iunlockput ip ;; ret (None, name)
      else if nameiparent && bool_decide (es' = []) then iunlock ip ;; ret (Some ip, name)
      else
        let* r := dirlookup ip name in
        match r with
        | None => iunlockput ip ;; ret (None, name)
        | Some (next, _) => iunlockput ip ;; walk_path nameiparent es' next name
        end
  end.

(** C35: [namex] walks the elements of the path.  Whatever the path (repeated,
    leading and trailing slashes included), [namex] behaves as the walk over
    the list of its elements, which starts at the root for an absolute path
    and at the current directory otherwise; each element is looked up with
    its first [DIRSIZ] characters, and [nameiparent] stops before the last
    one.  In particular the loop ends with the path. *)
Theorem namex_walks path np name :
  namex path np name ≈
  (let* ip := (if bool_decide (head path = Some SLASH) then iget ROOTDEV ROOTINO
               else let* cwd := op_cwd in let* cwd := deref cwd in idup cwd) in
   walk_path np (elements path) ip name).
Proof.
  unfold namex. apply bind_cong. intros ip.
  assert (Hfuel : (length path < Datatypes.S (length path))%nat) by lia.
  revert Hfuel. generalize (Datatypes.S (length path)) as n. intros n. revert path ip name.
  induction n as [|n IH]; intros path ip name Hn; [lia|]. cbn [loop].
  pose proof (skipelem_ok path name) as Hs. destruct (skipelem path name) as [[path' name']|].
  2: { rewrite Hs. destruct np; [|reflexivity]. cbn [walk_path]. rewrite bind_assoc. apply bind_cong. reflexivity. }
  destruct Hs as (e & He & -> & -> & Hnil & Hlt). cbn [walk_path].
  rewrite bind_assoc. apply bind_cong. intros _. rewrite bind_assoc. apply bind_cong. intros dp.
  destruct (negb _); [rewrite bind_assoc; reflexivity|].
  rewrite (bool_decide_ext _ _ Hnil).
  destruct (np && _); [rewrite bind_assoc; reflexivity|].
  rewrite bind_assoc. apply bind_cong. intros [[next off]|]; rewrite bind_assoc; apply bind_cong; intros _.
  - rewrite bind_ret_l. apply IH. lia.
  - reflexivity.
Qed.

End Walk.
