(* ===== verification/Crash.v ===== *)
(** * Transactions survive crashes

    Whole transactions of the file system on the buffer cache and the log:
    [begin_op], any operations of fs.c and accesses to open files, [end_op].  Between transactions
    ([idle]) the disk holds the blocks of the ideal disk.  The machine may stop
    after any disk write; when it starts again, [binit], [readsb] and [initlog]
    bring it to an idle state whose blocks are those before or those after the
    transaction that was running. *)

From S2P Require Import Prelude Kmonad Mem Riscv Kalloc Cstring Vm Proc Iface Sleeplock Bio Disk BioSpec Log LogSpec Sim Fs File Usr CacheSim LogSim FsDev FsSim FsBlock FsFile FsInode FsOps.

(** ** Between transactions *)

Record idle_at (sb : superblock) (w : world) (a : astate) (s1 : dstate) : Prop := {
  id_open : w_open w = ∅;
  id_pins : w_pins w = ∅;
  id_fs : w_fs w = d_fs s1;
  id_usr : w_usr w = d_usr s1;
  id_sb : fs_sb (d_fs s1) = sb;
  id_log : log_idle (sb_logstart sb) (w_log w);
  id_dirty : d_dirty s1 = ∅;
  id_locked : d_locked s1 = ∅;
  id_head : hd_n (dsk a (sb_logstart sb)) = 0;
  id_super : sb_of (dsk a 1) = sb;
  id_magic : sb_magic sb = FSMAGIC;
  id_start : 2 <= sb_logstart sb;
  id_blk : forall n, fs_block (sb_logstart sb) n -> beq (d_blk s1 n) (dsk a n);
}.

Definition idle (sb : superblock) (s1 : dstate) (s2 : bst fsx) : Prop :=
  exists w a, cache_rel w a s2 /\ idle_at sb w a s1.

(** The ideal disk has no log: the end of a transaction forgets what it changed. *)
Definition settle (s : dstate) : dstate := s <| d_dirty := ∅ |>.

Lemma refs_none w n : w_open w = ∅ -> w_pins w = ∅ -> refs w n = 0 /\ opened w n = false.
Proof.
  intros Ho Hp. unfold refs, opened. rewrite Ho, Hp, lookup_empty.
  rewrite !bool_decide_eq_false_2; [done|by intros [? ?]|apply not_elem_of_empty].
Qed.

(** ** [begin_op] *)

Lemma begin_op_cache sb w a s1 s2 t :
  cache_rel w a s2 -> idle_at sb w a s1 -> LLog ∉ held t ->
  exists s2', op_begin t s2 = ORet tt t s2' /\ disk_rel sb (a_base a) (a_trace a) ∅ s1 s2'.
Proof.
  intros C I HL. pose proof (id_log _ _ _ _ I) as [L1 L2 L3 L4 L5 L6].
  set (f := fun l : logst => l <| log_outstanding ::= (fun n => n + 1) |>).
  pose proof (hmod_rel w a s2 C f) as C'. set (s2' := lput has (f (lget has s2)) s2) in *.
  exists s2'. split.
  - cbn [op_begin log_ops]. unfold begin_op. kstep (acquire_free LLog t s2 HL).
    change (@fuel _) with 1%nat. cbn [loop]. unfold bind at 1, bind at 1, hget, gets. cbn [obind].
    assert (El : lget has s2 = w_log w) by (simpl; by rewrite (cr_ext _ _ _ C)).
    rewrite El, L3, L4, L5. cbn [Z.eqb negb]. change (LOGBLOCKS <? _) with false. cbv iota.
    erewrite bind_ret by reflexivity. cbv beta. erewrite bind_ret by apply release_top. rewrite tls_eta. done.
  - destruct I as [I1 I2 I3 Iu I4 I5 I6 I7 I8 I9 I10 I11 I12].
    exists (w <| w_log ::= f |>), (a <| a_log ::= f |>), []. split; [exact C'|]. split; [exact I1|].
    split; [done|]. split; [done|]. split; simpl; auto.
    + split; simpl; [lia|exact L3|unfold LOGBLOCKS, MAXOPBLOCKS; lia|done| |constructor].
      intros b Hb. by apply elem_of_nil in Hb.
    + by rewrite L4.
    + intros b Hb. by apply elem_of_nil in Hb.
    + by rewrite I1, I7, dom_empty_L.
    + intros n. by rewrite I1, dom_empty_L.
    + rewrite L1. intros n Hn. unfold seen. change (refs _ n) with (refs w n).
      rewrite (proj1 (refs_none w n I1 I2)). by apply I12.
Qed.

(** ** [end_op] *)

(** A machine that finds the disk [d] when it starts and runs [initlog] ends
    with the blocks [blk]. *)
Definition recovers (sb : superblock) (d : disk) (blk : Z -> mem) : Prop :=
  recoverable (sb_logstart sb) d /\ sb_of (d 1) = sb /\
  forall t, exists a, initlog ROOTDEV (sb_logstart sb) t (crash d) = ORet tt t a /\
    hd_n (dsk a (sb_logstart sb)) = 0 /\ sb_of (dsk a 1) = sb /\
    forall n, fs_block (sb_logstart sb) n -> beq (blk n) (dsk a n).

Lemma beq_sym m m' : beq m m' -> beq m' m.
Proof. intros H x Hx. by rewrite H. Qed.

Lemma beq_sb_of m m' : beq m m' -> sb_of m = sb_of m'.
Proof. intros H. unfold sb_of. by rewrite !(beq_mload 4 m m' _ H) by (unfold BSIZE; lia). Qed.

Lemma recovers_intro sb d d' blk :
  2 <= sb_logstart sb -> recoverable (sb_logstart sb) d -> sb_of (d 1) = sb -> sb_of (d' 1) = sb ->
  (forall t, exists a, initlog ROOTDEV (sb_logstart sb) t (crash d) = ORet tt t a /\
     hd_n (dsk a (sb_logstart sb)) = 0 /\ same_outside (sb_logstart sb) (dsk a) d') ->
  (forall n, fs_block (sb_logstart sb) n -> beq (blk n) (d' n)) -> recovers sb d blk.
Proof.
  intros H2 Hr Hs Hs' Hi Hb. split; [exact Hr|]. split; [exact Hs|]. intros t. destruct (Hi t) as (a & E & H0 & Ho).
  exists a. split; [exact E|]. split; [exact H0|]. split.
  - transitivity (sb_of (d' 1)); [|exact Hs']. apply beq_sb_of, Ho. unfold in_log. lia.
  - intros n Hn. eapply beq_trans; [by apply Hb|]. apply beq_sym, Ho, Hn.
Qed.

(** Nothing was logged: the disk stays as it is. *)
Lemma recovers_empty sb d blk :
  2 <= sb_logstart sb -> hd_n (d (sb_logstart sb)) = 0 -> sb_of (d 1) = sb ->
  (forall n, fs_block (sb_logstart sb) n -> beq (blk n) (d n)) -> recovers sb d blk.
Proof.
  intros H2 H0 Hs Hb. apply (recovers_intro sb d d); auto.
  - apply empty_recoverable; [lia|exact H0].
  - intros t. apply recover_empty; [lia|exact H0].
Qed.

(** The world in which [end_op] calls [commit]. *)
Definition closing (l : logst) : logst := l <| log_outstanding := 0 |> <| log_committing := 1 |>.

Lemma logged_closing l bs : logged l bs -> logged (closing l) bs.
Proof. intros [H1 H2 H3 H4 H5 H6]. by split. Qed.

Lemma tx_closing sb w a bs s1 :
  in_tx sb w a bs s1 -> w_open w = ∅ -> fits s1 -> tx_world (w <| w_log ::= closing |>) bs.
Proof.
  intros I Ho HF. pose proof (it_logged _ _ _ _ _ I) as G. split; [|by apply logged_closing|apply (it_pins _ _ _ _ _ I)].
  split; simpl; [exact Ho|apply (lg_start _ _ G)|apply (it_dev _ _ _ _ _ I)| |].
  - intros i Hi. by apply (logged_small _ _ G).
  - rewrite (it_pins _ _ _ _ _ I), <- (it_dirty _ _ _ _ _ I). unfold fits in HF. change (Z.to_nat MAXOPBLOCKS) with 10%nat in HF.
    unfold NBUF. lia.
Qed.

(** What the kernel sees at the end of a transaction is the new contents. *)
Lemma set_blocks_seen sb w a bs s1 n :
  in_tx sb w a bs s1 -> w_open w = ∅ -> fs_block (sb_logstart sb) n ->
  beq (d_blk s1 n) (set_blocks (dsk a) bs (a_buf a) n).
Proof.
  intros I Ho Hn. rewrite <- (it_start _ _ _ _ _ I) in Hn. pose proof (it_blk _ _ _ _ _ I n Hn) as Hb.
  unfold seen, refs, opened in Hb. rewrite Ho, lookup_empty, (it_pins _ _ _ _ _ I) in Hb.
  rewrite (bool_decide_eq_false_2 (is_Some None)) in Hb by (by intros [? ?]).
  rewrite (bool_decide_ext (n ∈ list_to_set bs) (n ∈ bs)) in Hb by apply elem_of_list_to_set.
  case_bool_decide as Hin; simpl in Hb.
  - by rewrite set_blocks_in by (auto; apply (lg_nodup _ _ (it_logged _ _ _ _ _ I))).
  - by rewrite set_blocks_out.
Qed.

(** The outcome of [commit] for a transaction that leaves the ideal disk [s1]:
    the writes [ws] went to the disk, and a crash after [k] of them loses the
    transaction up to some [c] and keeps it from there on. *)
Record tx_end (sb : superblock) (w : world) (a : astate) (s1 : dstate) (w' : world) (a' : astate) (ws : list (Z * mem)) : Prop := {
  te_open : w_open w' = ∅;
  te_pins : w_pins w' = ∅;
  te_fs : w_fs w' = w_fs w;
  te_usr : w_usr w' = w_usr w;
  te_log : w_log w' = (closing (w_log w)) <| lh_n := 0 |>;
  te_base : a_base a' = a_base a;
  te_trace : a_trace a' = a_trace a ++ ws;
  te_head : hd_n (dsk a' (sb_logstart sb)) = 0;
  te_super : sb_of (dsk a' 1) = sb;
  te_blk : forall n, fs_block (sb_logstart sb) n -> beq (d_blk s1 n) (dsk a' n);
  te_crash : exists c, forall k, (k <= length ws)%nat ->
    recovers sb (apply_writes (dsk a) (take k ws)) (if (k <=? c)%nat then dsk a else d_blk s1);
}.

Lemma commit_tx sb w a bs s1 s2 t (w2 := w <| w_log ::= closing |>) (a2 := a <| a_log ::= closing |>) :
  cache_rel w2 a2 s2 -> in_tx sb w a bs s1 -> w_open w = ∅ -> a_log a = w_log w -> fits s1 -> cache_free t ->
  hd_n (dsk a (sb_logstart sb)) = 0 -> sb_of (dsk a 1) = sb -> 2 <= sb_logstart sb ->
  exists s2' w' a' ws, commit t s2 = ORet tt t s2' /\ cache_rel w' a' s2' /\ tx_end sb w a s1 w' a' ws.
Proof.
  intros C I Ho Hl HF HT H0 Hs H2. pose proof (tx_closing _ _ _ _ _ I Ho HF) as TW. fold w2 in TW.
  pose proof (it_logged _ _ _ _ _ I) as G. pose proof (it_start _ _ _ _ _ I) as Est.
  assert (H1log : ~ in_log (sb_logstart sb) 1) by (unfold in_log; lia).
  assert (H1bs : 1 ∉ bs) by (intros Hin; apply (it_bs _ _ _ _ _ I) in Hin as [? _]; lia).
  destruct (decide (bs = [])) as [->|Hne].
  - exists s2, (w2 <| w_log ::= (fun l => l <| lh_n := 0 |>) |>), a2, [].
    assert (Hn : lh_n (w_log w2) = 0) by apply (lg_n _ _ (tw_logged _ _ TW)).
    split.
    { unfold commit, lget_. unfold bind at 1, bind at 1, hget, gets, ret. cbn [obind].
      assert (El : lget has s2 = w_log w2) by (simpl; by rewrite (cr_ext _ _ _ C)). rewrite El, Hn. reflexivity. }
    assert (Ew : w2 <| w_log ::= (fun l => l <| lh_n := 0 |>) |> = w2).
    { destruct w2 as [p o l f u]. unfold update. simpl in *. destruct l. simpl in *. by rewrite Hn. }
    rewrite Ew. split; [exact C|].
    assert (Hb : forall n, fs_block (sb_logstart sb) n -> beq (d_blk s1 n) (dsk a n)) by (intros n; exact (set_blocks_seen sb w a [] s1 n I Ho)).
    split; auto.
    + apply (tw_pins _ _ TW).
    + rewrite <- Ew. done.
    + by rewrite app_nil_r.
    + exists 0%nat. intros k Hk. simpl in Hk. replace k with 0%nat by lia. by apply recovers_empty.
  - destruct (tx_at_rest _ _ _ _ C TW) as [Hrest Hpin].
    assert (Hst : log_start (a_log a2) = sb_logstart sb) by (simpl; rewrite Hl; exact Est).
    assert (Hlg2 : logged (a_log a2) bs) by (simpl; rewrite Hl; by apply logged_closing).
    rewrite <- (cr_log _ _ _ C) in Hrest.
    destruct (commit_crash t a2 bs ROOTDEV Hne Hlg2 Hrest Hpin ltac:(by rewrite Hst))
      as (a' & ws & E & Hb & Htr & Hlen & Hso & Hh & Hk). rewrite Hst in Hso, Hh, Hk.
    destruct (commit_cache _ _ _ _ _ _ C HT TW Hne E) as (s2' & E' & C').
    exists s2', (committed_world bs w2), a', ws. split; [exact E'|]. split; [exact C'|].
    change (dsk a2) with (dsk a) in *. change (a_buf a2) with (a_buf a) in *.
    assert (Hnew : forall n, fs_block (sb_logstart sb) n -> beq (d_blk s1 n) (set_blocks (dsk a) bs (a_buf a) n)).
    { intros n. exact (set_blocks_seen sb w a bs s1 n I Ho). }
    assert (Hsb1 : sb_of (set_blocks (dsk a) bs (a_buf a) 1) = sb) by (by rewrite set_blocks_out).
    split; auto.
    + unfold committed_world, drop_pins. simpl. rewrite (it_pins _ _ _ _ _ I). apply difference_diag_L.
    + transitivity (sb_of (set_blocks (dsk a) bs (a_buf a) 1)); [apply beq_sb_of, Hso, H1log|exact Hsb1].
    + intros n Hn. eapply beq_trans; [by apply Hnew|]. apply beq_sym, Hso, Hn.
    + exists (length bs). intros k Hle.
      apply (recovers_intro sb _ (if (k <=? length bs)%nat then dsk a else set_blocks (dsk a) bs (a_buf a))); auto.
      * apply (Hk k t Hle).
      * destruct (Hk k t Hle) as (_ & Hf & _). by rewrite Hf.
      * by destruct (k <=? length bs)%nat.
      * intros t2. by apply (Hk k t2 Hle).
      * intros n Hn. destruct (k <=? length bs)%nat; [apply beq_refl|by apply Hnew].
Qed.

Lemma lmod_cache w a s t f : cache_rel w a s ->
  lmod f t s = ORet tt t (lput has (f (lget has s)) s) /\
  cache_rel (w <| w_log ::= f |>) (a <| a_log ::= f |>) (lput has (f (lget has s)) s).
Proof. intros C. split; [reflexivity|]. exact (hmod_rel w a s C f). Qed.

Lemma hget_cache w a s t : cache_rel w a s -> hget t s = ORet (w_log w) t s.
Proof. intros C. unfold hget, gets. simpl. by rewrite (cr_ext _ _ _ C). Qed.

Lemma cache_free_log t : cache_free t -> cache_free (Tls (LLog :: held t) (me t)).
Proof. apply cache_free_lock. by left. Qed.

Lemma end_op_cache sb w a bs s1 s2 t :
  cache_rel w a s2 -> in_tx sb w a bs s1 -> w_open w = ∅ -> fits s1 -> fs_free t ->
  hd_n (dsk a (sb_logstart sb)) = 0 -> sb_of (dsk a 1) = sb -> sb_magic sb = FSMAGIC -> 2 <= sb_logstart sb ->
  exists s2' w' a' ws, op_end t s2 = ORet tt t s2' /\ cache_rel w' a' s2' /\ idle_at sb w' a' (settle s1) /\
    a_base a' = a_base a /\ a_trace a' = a_trace a ++ ws /\
    exists c, forall k, (k <= length ws)%nat ->
      recovers sb (apply_writes (dsk a) (take k ws)) (if (k <=? c)%nat then dsk a else d_blk s1).
Proof.
  intros C I Ho HF [HT HL] H0 Hs Hm H2. cbn [op_end log_ops]. unfold end_op.
  set (t1 := Tls (LLog :: held t) (me t)). kstep (acquire_free LLog t s2 HL). fold t1.
  destruct (lmod_cache w a s2 t1 (fun l => l <| log_outstanding ::= (fun n => n - 1) |>) C) as [E1 C1]. kstep E1.
  set (s21 := lput _ _ s2) in *. set (w1 := w <| w_log ::= _ |>) in C1. set (a1 := a <| a_log ::= _ |>) in C1.
  kstep (hget_cache w1 a1 s21 t1 C1). assert (Hout : log_outstanding (w_log w1) = 0) by (simpl; by rewrite (it_outstanding _ _ _ _ _ I)).
  assert (Hcom : log_committing (w_log w1) = 0) by apply (it_committing _ _ _ _ _ I). rewrite Hout, Hcom. cbn [Z.eqb negb].
  destruct (lmod_cache w1 a1 s21 t1 (fun l => l <| log_committing := 1 |>) C1) as [E2 C2]. kstep E2.
  set (s22 := lput _ _ s21) in *. unfold t1 at 1. kstep (release_top LLog (held t) (me t) s22). rewrite tls_eta. cbn [when].
  assert (C2' : cache_rel (w <| w_log ::= closing |>) (a <| a_log ::= closing |>) s22).
  { replace (w <| w_log ::= closing |>) with (w1 <| w_log ::= (fun l => l <| log_committing := 1 |>) |>).
    2:{ unfold w1, closing. destruct w as [? ? l ? ?]. simpl in *. unfold update. simpl. by rewrite Hout. }
    replace (a <| a_log ::= closing |>) with (a1 <| a_log ::= (fun l => l <| log_committing := 1 |>) |>); [exact C2|].
    assert (Ha : log_outstanding (a_log a) - 1 = 0) by (rewrite (cr_log _ _ _ C); exact Hout).
    unfold a1, closing, update. simpl. by rewrite Ha. }
  destruct (commit_tx sb w a bs s1 s22 t C2' I Ho (cr_log _ _ _ C) HF HT H0 Hs H2) as (s3 & w3 & a3 & ws & E3 & C3 & TE).
  kstep E3. kstep (acquire_free LLog t s3 HL). fold t1.
  destruct (lmod_cache w3 a3 s3 t1 (fun l => l <| log_committing := 0 |>) C3) as [E4 C4]. kstep E4. set (s4 := lput _ _ s3) in *.
  kstep (eq_refl : op_wakeup CLog t1 s4 = ORet tt t1 s4). unfold t1. rewrite release_top, tls_eta.
  eexists s4, _, _, ws. split; [reflexivity|]. split; [exact C4|]. destruct TE as [T1 T2 T3 Tu T4 T5 T6 T7 T8 T9 T10].
  split; [|by split_and!]. split; auto; simpl.
  - rewrite T3. apply (it_fs _ _ _ _ _ I).
  - rewrite Tu. apply (it_usr _ _ _ _ _ I).
  - apply (it_sb _ _ _ _ _ I).
  - rewrite T4. split; simpl; try done; [apply (it_start _ _ _ _ _ I)|apply (it_dev _ _ _ _ _ I)|apply (it_len _ _ _ _ _ I)].
  - by rewrite (it_locked _ _ _ _ _ I), Ho, dom_empty_L.
Qed.

(** ** Starting the machine *)

(** Memory is lost; the disk is [d].  [f] and [u] are what the machine has set
    up of the inode table and of processes and files when it starts. *)
Definition power_on (d : disk) (f : fsst) (u : usr) : bst fsx := Bst (replicate (S NBUF) zero_buf) d [] (Fsx zero_log f u).

(** [binit()] and then [fsinit(ROOTDEV)] up to [ireclaim]. *)
Definition boot : M (bst fsx) unit :=
  binit ;;
  readsb ROOTDEV ;;
  let* sb := getsb in
  if negb (sb_magic sb =? FSMAGIC) then panic "invalid file system"
  else op_initlog ROOTDEV (sb_logstart sb).

Lemma fresh_rel d f u order (s : bst fsx) :
  binv order s -> (forall i, (i < NBUF)%nat -> core (bb s i) = zero_buf) ->
  bs_base s = d -> bs_trace s = [] -> bs_ext s = Fsx zero_log f u -> cache_rel (boot_world f u) (crash d) s.
Proof.
  intros I Hz Hb Ht Hx. assert (Hr : forall n, refs (boot_world f u) n = 0 /\ opened (boot_world f u) n = false).
  { intros n. by apply refs_none. }
  split; eauto; try (intros n; symmetry; apply Hr).
  - intros i Hi. destruct (core_fields _ _ (eq_trans (Hz i Hi) (eq_refl : zero_buf = core zero_buf))) as (_ & -> & _ & _ & -> & _). done.
  - intros n Hn. destruct (Hr n). lia.
  - intros n i st Ho. change ((∅ : gmap Z (nat * bstatus)) !! n = Some (i, st)) in Ho. by rewrite lookup_empty in Ho.
  - intros i n Hc. by apply fresh_not_cached in Hc.
Qed.

(** When nobody uses a buffer and nothing was written, only the disk counts. *)
Lemma crash_rel w a s :
  cache_rel w a s -> w_open w = ∅ -> w_pins w = ∅ -> w_log w = zero_log -> a_trace a = [] -> cache_rel w (crash (a_base a)) s.
Proof.
  intros [I Hb Ht Hl Hx Hr Hk Hc Hu Ho Hf] Eo Ep El Et. pose proof (fun n => refs_none w n Eo Ep) as H.
  split; auto.
  - by rewrite Ht, Et.
  - intros n. symmetry. apply H.
  - intros n. symmetry. apply H.
  - intros n Hn. destruct (H n). lia.
  - intros n i st Hn. by rewrite Eo, lookup_empty in Hn.
Qed.

Lemma readsb_cache d f u t s :
  cache_rel (boot_world f u) (crash d) s -> cache_free t ->
  exists s', readsb ROOTDEV t s = ORet tt t s' /\ cache_rel (boot_world (f <| fs_sb := sb_of (d 1) |>) u) (crash d) s'.
Proof.
  intros C HT. unfold readsb.
  destruct (bread_rel _ _ _ t C HT 1) as (i & s1 & E1 & C1); [lia|done|vm_compute; lia|]. kstep E1.
  assert (Ho : w_open (set_open 1 i BKept (boot_world f u)) !! 1 = Some (i, BKept)) by apply lookup_insert_eq.
  destruct (cr_bd_data _ _ _ _ _ _ C1 Ho) as [_ Hd]. unfold gets. erewrite bind_ret by reflexivity. cbv beta.
  replace (bd_data i s1) with (d 1) by (symmetry; exact Hd).
  set (g := fun f : fsst => f <| fs_sb := sb_of (d 1) |>). erewrite bind_ret by reflexivity. cbv beta.
  pose proof (fs_rel _ _ _ C1 g) as C2. set (s2 := lput has (g (lget has s1)) s1) in *.
  destruct (brelse_rel _ _ _ t C2 HT 1 i BKept Ho ltac:(done)) as (s3 & E3 & C3).
  exists s3. split; [exact E3|].
  replace (boot_world (g f) u) with (del_open 1 ((set_open 1 i BKept (boot_world f u)) <| w_fs ::= g |>)).
  - apply (crash_rel _ (rel 1 (rd 1 (crash d))) s3 C3); reflexivity.
  - reflexivity.
Qed.

Lemma boot_ok sb d blk f u t :
  recovers sb d blk -> sb_magic sb = FSMAGIC -> 2 <= sb_logstart sb -> cache_free t ->
  exists s, boot t (power_on d f u) = ORet tt t s /\ idle sb (Dstate blk ∅ ∅ (f <| fs_sb := sb |>) u) s.
Proof.
  intros ((bs & Hla & Hh) & Hs & Hr) Hm H2 HT. destruct (Hr t) as (a & Ea & H0 & Hs1 & Hb).
  destruct (binit_ok d (Fsx zero_log f u) t) as (s0 & E0 & I0 & Hz & Hb0 & Ht0 & Hx0). unfold boot.
  kstep (E0 : binit t (power_on d f u) = ORet tt t s0).
  pose proof (fresh_rel d f u _ s0 I0 Hz Hb0 Ht0 Hx0) as C0.
  destruct (readsb_cache d f u t s0 C0 HT) as (s1 & E1 & C1). kstep E1. rewrite Hs in C1.
  assert (Eg : getsb t s1 = ORet sb t s1).
  { unfold getsb, bind, hget, gets. simpl. by rewrite (cr_ext _ _ _ C1). }
  kstep Eg. rewrite Hm. change (negb (FSMAGIC =? FSMAGIC)) with false. cbv iota.
  destruct (initlog_cache d (sb_logstart sb) bs _ u t s1 a C1 HT Hla Hh Ea) as (l & s2 & E2 & C2 & L2).
  exists s2. split; [exact E2|]. eexists _, a. split; [exact C2|]. by split.
Qed.

(** The disk between transactions is one to start from. *)
Lemma idle_recovers sb s1 s2 : idle sb s1 s2 -> recovers sb (bs_disk s2) (d_blk s1).
Proof.
  intros (w & a & C & I). rewrite (cr_disk _ _ _ C). destruct I. by apply recovers_empty.
Qed.

(** ** Transactions *)

(** The calls of a transaction with the type of their results. *)
Inductive fsop : Type -> Type :=
| Oialloc (dev type : Z) : fsop (option nat)
| Oiget (dev inum : Z) : fsop nat
| Oidup (i : nat) : fsop nat
| Oilock (i : nat) : fsop unit
| Oiunlock (i : nat) : fsop unit
| Oiput (i : nat) : fsop unit
| Oiupdate (i : nat) : fsop unit
| Oitrunc (i : nat) : fsop unit
| Oinode (i : nat) : fsop inode                         (* the fields of [*ip] *)
| Oassign (i : nat) (g : inode -> inode) : fsop unit    (* assignments to them *)
| Oreadi (i : nat) (dst : kdst) (off n : Z) : fsop (Z * list Z)
| Owritei (i : nat) (src : ksrc) (off n : Z) : fsop Z
| Odirlookup (dp : nat) (name : list Z) : fsop (option (nat * Z))
| Odirlink (dp : nat) (name : list Z) (inum : Z) : fsop Z
| Onamex (path : list Z) (parent : bool) (name : list Z) : fsop (option nat * list Z)
| Ofile (f : nat) : fsop file                           (* the fields of [*f], an open file *)
| Ofassign (f : nat) (g : file -> file) : fsop unit.    (* assignments to them *)

(** What is between [begin_op] and [end_op]: calls, each of which may depend
    on the results of the ones before. *)
Inductive txn (A : Type) :=
| TRet (a : A)
| TCall (B : Type) (o : fsop B) (k : B -> txn A).
Arguments TRet {A}.
Arguments TCall {A B}.

Section Exec.
Context {S : Type} `{BlockDev S} `{LogOps S} `{SleepOps S} `{Has S fsst} `{Has S filest} `{UserOps S} `{Fuel}.

Definition call {B} (o : fsop B) : M S B :=
  match o in fsop B return M S B with
  | Oialloc dev type => ialloc dev type
  | Oiget dev inum => iget dev inum
  | Oidup i => idup i
  | Oilock i => ilock i
  | Oiunlock i => iunlock i
  | Oiput i => iput i
  | Oiupdate i => iupdate i
  | Oitrunc i => itrunc i
  | Oinode i => geti i
  | Oassign i g => modi i g
  | Oreadi i dst off n => readi i dst off n
  | Owritei i src off n => writei i src off n
  | Odirlookup dp name => dirlookup dp name
  | Odirlink dp name inum => dirlink dp name inum
  | Onamex path parent name => namex path parent name
  | Ofile f => getf f
  | Ofassign f g => modf f g
  end.

Fixpoint exec {A} (p : txn A) : M S A :=
  match p with
  | TRet a => ret a
  | TCall o k => let* r := call o in exec (k r)
  end.

Definition transaction {A} (p : txn A) : M S A :=
  op_begin ;;
  let* r := exec p in
  op_end ;;
  ret r.

Fixpoint transactions {A} (ps : list (txn A)) : M S (list A) :=
  match ps with
  | [] => ret []
  | p :: ps => let* r := transaction p in let* rs := transactions ps in ret (r :: rs)
  end.
End Exec.

Lemma fgrows_getf f : fgrows (getf f : M dstate file).
Proof. by intros t s a t' s' [= <- <- <-]. Qed.
Lemma fgrows_modf f g : fgrows (modf f g : M dstate unit).
Proof. apply grows_modify. intros s. by apply dirty_same. Qed.
#[export] Hint Resolve fgrows_getf fgrows_modf : fgrows.

(** The table of open files is the same on both sides. *)
Lemma fsim_getf sb base tr o f : fsim sb base tr o (getf f) (getf f) (same o).
Proof.
  apply (sim_gets _ _ _ o (fun s : dstate => ftable (u_files (d_usr s)) !!! f) (fun s : bst fsx => ftable (u_files (x_usr (bs_ext s))) !!! f)).
  intros s1 s2 (w & a & bs & C & _ & _ & _ & I). by rewrite (cr_ext _ _ _ C), <- (it_usr _ _ _ _ _ I).
Qed.

Lemma fsim_modf sb base tr o f g : fsim sb base tr o (modf f g) (modf f g) (same o).
Proof.
  apply fsim_modify. intros s1 s2 (w & a & bs & C & Ho & Hb & Ht & I).
  set (h := fun u : usr => u <| u_files ::= (fun t => t <| ftable := <[f := g (ftable t !!! f)]> (ftable t) |>) |>).
  exists (w <| w_usr ::= h |>), a, bs. split; [exact (usr_rel w a s2 C h)|]. split_and!; auto.
  destruct I as [I1 Iu I2 I3 Isb I4 I5 I6 I7 Ibs I8 I9 I10 I11 I12]. split; auto. simpl. by rewrite Iu.
Qed.

Section Transactions.
Context {L : LinkMap}.

Lemma fgrows_call {B} (o : fsop B) : fgrows (call o : M dstate B).
Proof. destruct o; simpl; auto with fgrows. Qed.

Lemma fgrows_exec {A} (p : txn A) : fgrows (exec p : M dstate A).
Proof.
  induction p as [a|B o k IH]; simpl; [fgrow|]. apply grows_bind; [apply _|apply fgrows_call|exact IH].
Qed.

(** Every call, and so every transaction, runs on the cache. *)
Lemma fsim_call sb base tr {B} (o : fsop B) : fsim sb base tr ∅ (call o) (call o) (same ∅).
Proof.
  destruct o; simpl; auto using fsim_ialloc, fsim_iget, fsim_idup, fsim_ilock, fsim_iunlock, fsim_iput, fsim_iupdate, fsim_itrunc,
    fsim_geti, fsim_modi, fsim_readi, fsim_writei, fsim_dirlookup, fsim_dirlink, fsim_namex,
    fsim_getf, fsim_modf, empty_small.
Qed.

Lemma fsim_exec sb base tr {A} (p : txn A) : fsim sb base tr ∅ (exec p) (exec p) (same ∅).
Proof.
  induction p as [a|B o k IH]; simpl; [apply fsim_ret|].
  apply fsim_bind_same; [apply fsim_call|intros; apply fgrows_exec|exact IH].
Qed.

(** A transaction on the cache, and the crashes in it. *)
Lemma transaction_cache sb {A} (p : txn A) s1 s2 t r t' s1' :
  idle sb s1 s2 -> fs_free t -> exec p t s1 = ORet r t' s1' -> fits s1' ->
  exists s2' ws, transaction p t s2 = ORet r t' s2' /\ idle sb (settle s1') s2' /\ fs_free t' /\
    bs_base s2' = bs_base s2 /\ bs_trace s2' = bs_trace s2 ++ ws /\
    exists c, forall k, (k <= length ws)%nat ->
      recovers sb (apply_writes (bs_disk s2) (take k ws)) (if (k <=? c)%nat then bs_disk s2 else d_blk s1').
Proof.
  intros (w & a & C & I) HT E HF. unfold transaction.
  destruct (begin_op_cache sb w a s1 s2 t C I (proj2 HT)) as (s20 & E0 & R0). kstep E0.
  destruct (fsim_exec sb (a_base a) (a_trace a) p t s1 s20 r t' s1' HT R0 E HF) as (o' & r' & s21 & E1 & R1 & [-> <-] & HT').
  kstep E1. destruct R1 as (w1 & a1 & bs & C1 & Ho & Hb & Htr & I1).
  assert (Hd : dsk a1 = dsk a) by (unfold dsk; by rewrite Hb, Htr).
  destruct I as [J1 J2 J3 Ju J4 J5 J6 J7 J8 J9 J10 J11 J12].
  destruct (end_op_cache sb w1 a1 bs s1' s21 t' C1 I1 Ho HF HT') as (s22 & w2 & a2 & ws & E2 & C2 & I2 & B2 & T2 & Hc);
    rewrite ?Hd; auto. kstep E2.
  exists s22, ws. split; [reflexivity|]. split; [by exists w2, a2|]. split; [exact HT'|].
  rewrite (cr_base _ _ _ C2), (cr_trace _ _ _ C2), B2, T2, Hb, Htr, (cr_disk _ _ _ C). rewrite Hd in Hc.
  split; [symmetry; apply (cr_base _ _ _ C)|]. split; [|exact Hc]. by rewrite (cr_trace _ _ _ C).
Qed.

Lemma recovers_beq sb d blk blk' :
  (forall n, fs_block (sb_logstart sb) n -> beq (blk' n) (blk n)) -> recovers sb d blk -> recovers sb d blk'.
Proof.
  intros Hb (Hr & Hs & Hi). split; [exact Hr|]. split; [exact Hs|]. intros t. destruct (Hi t) as (a & E & H0 & H1 & H).
  exists a. split_and!; auto. intros n Hn. eapply beq_trans; [by apply Hb|by apply H].
Qed.

(** The ideal disk with the blocks [blk] on a machine that just started. *)
Definition rebooted (sb : superblock) (f : fsst) (u : usr) (blk : Z -> mem) : dstate := Dstate blk ∅ ∅ (f <| fs_sb := sb |>) u.

Lemma idle_facts sb s1 s2 : idle sb s1 s2 ->
  sb_magic sb = FSMAGIC /\ 2 <= sb_logstart sb /\ forall n, fs_block (sb_logstart sb) n -> beq (d_blk s1 n) (bs_disk s2 n).
Proof. intros (w & a & C & I). rewrite (cr_disk _ _ _ C). destruct I. by split_and!. Qed.

(** Transactions are atomic and durable.  Take any transaction (calls of
    fs.c between [begin_op] and [end_op]) that on the ideal disk returns and
    changes at most [MAXOPBLOCKS] blocks.  From an idle state the same
    transaction on the buffer cache and the log returns the same result and
    leaves an idle state with the ideal blocks.  If the machine stops after
    any number [k] of the disk writes of [end_op] and is started again, it
    comes to an idle state: with the blocks from before the transaction when
    [k] is at most some [c], and with those from after it otherwise. *)
Lemma transaction_crash sb {A} (p : txn A) s1 s2 t r t' s1' t0 f0 u0 :
  idle sb s1 s2 -> fs_free t -> cache_free t0 -> exec p t s1 = ORet r t' s1' -> fits s1' ->
  exists s2' ws c, transaction p t s2 = ORet r t' s2' /\ idle sb (settle s1') s2' /\
    bs_trace s2' = bs_trace s2 ++ ws /\
    forall k, (k <= length ws)%nat ->
      exists s3, boot t0 (power_on (apply_writes (bs_disk s2) (take k ws)) f0 u0) = ORet tt t0 s3 /\
        idle sb (rebooted sb f0 u0 (if (k <=? c)%nat then d_blk s1 else d_blk s1')) s3.
Proof.
  intros Hidle HT HT0 Hrun Hfits.
  destruct (transaction_cache sb p s1 s2 t r t' s1' Hidle HT Hrun Hfits) as (s2' & ws & E & I & _ & _ & Htr & c & Hc).
  destruct (idle_facts _ _ _ Hidle) as (Hm & H2 & Hb).
  exists s2', ws, c. split; [exact E|]. split; [exact I|]. split; [exact Htr|]. intros k Hk.
  apply boot_ok; auto. eapply recovers_beq; [|by apply Hc]. intros n Hn.
  destruct (k <=? c)%nat; [by apply Hb|apply beq_refl].
Qed.

(** Transactions one after the other on the ideal disk: the results and the
    states after each of them. *)
Inductive ideal_run {A} (t : tls) : dstate -> list (txn A) -> list A -> list dstate -> Prop :=
| ideal_nil s : ideal_run t s [] [] []
| ideal_cons s p ps r rs s' ss :
    exec p t s = ORet r t s' -> fits s' -> ideal_run t (settle s') ps rs ss ->
    ideal_run t s (p :: ps) (r :: rs) (settle s' :: ss).

Lemma last_cons {A} (l : list A) x d : List.last (x :: l) d = List.last l x.
Proof. revert x d. induction l as [|y l IH]; intros x d; [done|]. change (List.last (y :: l) d = List.last (y :: l) x). by rewrite !IH. Qed.

Lemma transactions_cache sb {A} (ps : list (txn A)) t : forall s1 s2 rs ss,
  idle sb s1 s2 -> fs_free t -> ideal_run t s1 ps rs ss ->
  exists s2' ws, transactions ps t s2 = ORet rs t s2' /\ idle sb (List.last ss s1) s2' /\
    bs_base s2' = bs_base s2 /\ bs_trace s2' = bs_trace s2 ++ ws /\
    forall k, (k <= length ws)%nat ->
      exists j sj, (s1 :: ss) !! j = Some sj /\ recovers sb (apply_writes (bs_disk s2) (take k ws)) (d_blk sj).
Proof.
  induction ps as [|p ps IH]; intros s1 s2 rs ss Hidle HT Hrun; inversion Hrun as [|? ? ? r rs' s1' ss' E HF Hrun']; subst.
  - exists s2, []. split; [reflexivity|]. split; [exact Hidle|]. split; [done|]. split; [by rewrite app_nil_r|]. intros k _.
    exists 0%nat, s1. split; [done|]. rewrite take_nil. by apply idle_recovers.
  - destruct (transaction_cache sb p s1 s2 t r t s1' Hidle HT E HF) as (s21 & ws1 & E1 & I1 & _ & B1 & T1 & c & Hc).
    destruct (IH (settle s1') s21 rs' ss' I1 HT Hrun') as (s22 & ws2 & E2 & I2 & B2 & T2 & Hk2).
    exists s22, (ws1 ++ ws2). split; [cbn [transactions]; kstep E1; kstep E2; reflexivity|].
    split; [by rewrite last_cons|]. split; [congruence|]. split; [by rewrite T2, T1, app_assoc|]. intros k Hk.
    destruct (decide (k <= length ws1)%nat) as [Hle|Hgt].
    + rewrite take_app_le by lia. specialize (Hc k Hle). destruct (k <=? c)%nat.
      * exists 0%nat, s1. split; [done|]. eapply recovers_beq; [|exact Hc]. apply (idle_facts _ _ _ Hidle).
      * exists 1%nat, (settle s1'). by split.
    + rewrite length_app in Hk. destruct (Hk2 (k - length ws1)%nat ltac:(lia)) as (j & sj & Hj & Hr).
      exists (S j), sj. split; [exact Hj|]. rewrite take_app_ge, apply_writes_app by lia.
      replace (apply_writes (bs_disk s2) ws1) with (bs_disk s21); [exact Hr|].
      unfold bs_disk. by rewrite B1, T1, apply_writes_app.
Qed.

(** C1: the file system is crash safe.  Take a sequence of transactions that
    returns on the ideal disk, each of them changing at most [MAXOPBLOCKS]
    blocks; data goes to and comes from variables of the kernel or the memory
    of the process that runs, and paths may start at its current directory.
    (The ideal disk does not go on where a copy into a block fails half way:
    there the kernel leaves bytes in the cache that it does not log, as
    FsInode.v shows.)  The same sequence on the buffer cache and the log, with
    the kernel's own copy routines, returns the same results and ends in an
    idle state with the blocks of the ideal disk; and wherever in the whole
    sequence of disk writes the machine stops, starting it again gives an
    idle state with the blocks the ideal disk had after some number [j] of
    the transactions: no transaction is half done, and none is missing before
    one that is there. *)
Theorem fs_crash_safe sb {A} (ps : list (txn A)) s1 s2 t rs ss t0 f0 u0
    (Hidle : idle sb s1 s2) (HT : fs_free t) (HT0 : cache_free t0) (Hrun : ideal_run t s1 ps rs ss) :
  exists s2' ws, transactions ps t s2 = ORet rs t s2' /\ idle sb (List.last ss s1) s2' /\
    bs_trace s2' = bs_trace s2 ++ ws /\
    forall k, (k <= length ws)%nat ->
      exists j sj s3, (s1 :: ss) !! j = Some sj /\
        boot t0 (power_on (apply_writes (bs_disk s2) (take k ws)) f0 u0) = ORet tt t0 s3 /\
        idle sb (rebooted sb f0 u0 (d_blk sj)) s3.
Proof.
  destruct (transactions_cache sb ps t s1 s2 rs ss Hidle HT Hrun) as (s2' & ws & E & I & _ & Htr & Hk).
  destruct (idle_facts _ _ _ Hidle) as (Hm & H2 & _).
  exists s2', ws. split; [exact E|]. split; [exact I|]. split; [exact Htr|]. intros k Hle.
  destruct (Hk k Hle) as (j & sj & Hj & Hr).
  destruct (boot_ok sb _ _ f0 u0 t0 Hr Hm H2 HT0) as (s3 & E3 & I3).
  exists j, sj, s3. split; [exact Hj|]. split; [exact E3|exact I3].
Qed.

End Transactions.

(** ** Witnesses *)

#[local] Existing Instance demo_link.

Lemma demo_recovers : recovers demo_sb (d_blk demo_file) (d_blk demo_file).
Proof. apply recovers_empty; [done|vm_compute; reflexivity|vm_compute; reflexivity|intros n _; apply beq_refl]. Qed.

Lemma thread0_free : fs_free thread0 /\ cache_free thread0.
Proof.
  assert (H : forall lk, lk ∉ held thread0) by (intros lk; apply not_elem_of_nil). unfold fs_free, cache_free. auto.
Qed.

(** A machine that started from the disk of mkfs. *)
Lemma demo_idle : exists s2, idle demo_sb demo_file s2.
Proof.
  destruct (boot_ok demo_sb _ _ (d_fs demo_file) (d_usr demo_file) thread0 demo_recovers) as (s2 & _ & I); [done|done|apply thread0_free|].
  exists s2. exact I.
Qed.

(** The file with its inode on disk. *)
Definition demo_after : dstate :=
  edit (IBLOCK 2 demo_sb) (put_dinode (dinode_off 2) (dinode_of demo_inode)) demo_file.

(** Two transactions: [iupdate], and a [writei] from the memory of the process. *)
Definition demo_txns : list (txn Z) :=
  [TCall (Oiupdate 0) (fun _ => TRet 0); TCall (Owritei 0 (SUser 100) 0 2) (fun r => TRet r)].
Definition demo_written : dstate :=
  match exec (TCall (Owritei 0 (SUser 100) 0 2) (fun r => TRet r)) thread0 (settle demo_after) with
  | ORet _ _ s => s
  | _ => demo_file
  end.

Lemma demo_after_ok : fs_ok (settle demo_after) 0.
Proof.
  assert (Hn : sb_inodestart demo_sb <= IBLOCK 2 demo_sb < sb_bmapstart demo_sb) by (vm_compute; intuition congruence).
  destruct (edit_meta demo_file 0 _ (put_dinode (dinode_off 2) (dinode_of demo_inode)) demo_file_ok Hn) as ([] & _).
  by split.
Qed.

Lemma demo_txns_run : ideal_run thread0 demo_file demo_txns [0; 2] [settle demo_after; settle demo_written].
Proof.
  assert (E1 : exec (TCall (Oiupdate 0) (fun _ => TRet 0)) thread0 demo_file = ORet 0 thread0 demo_after).
  { cbn [exec call]. pose proof (iupdate_d 0 thread0 demo_file demo_file_ok eq_refl) as E. cbv zeta in E. kstep E. reflexivity. }
  assert (E2 : exists r, exec (TCall (Owritei 0 (SUser 100) 0 2) (fun r => TRet r)) thread0 (settle demo_after) =
    ORet r thread0 demo_written).
  { destruct (writei_ok 0 (SUser 100) 0 [104; 105] thread0 (settle demo_after) demo_gives demo_after_ok eq_refl)
      as (tot & s' & E & _); [intros bn H0 H1; change (i_size (ino (settle demo_after) 0)) with 0 in H1; unfold BSIZE in H1; lia| | | | | |].
    - unfold short_fields, short_ok. vm_compute. intuition congruence.
    - vm_compute. intuition congruence.
    - repeat constructor; lia.
    - vm_compute. intuition congruence.
    - vm_compute. intuition congruence.
    - exists (Z.of_nat tot). unfold demo_written. cbn [exec call]. change (Z.of_nat (length [104; 105])) with 2 in E.
      by rewrite (bind_ret _ _ _ _ _ _ _ E). }
  destruct E2 as [r E2].
  assert (Er : match exec (TCall (Owritei 0 (SUser 100) 0 2) (fun r => TRet r)) thread0 (settle demo_after) with
    | ORet r _ s => r = 2 /\ (size (d_dirty s) <= 10)%nat | _ => False end) by (vm_compute; split; [reflexivity|lia]).
  rewrite E2 in Er. destruct Er as [-> Hs].
  apply (ideal_cons _ _ _ _ _ _ demo_after); [exact E1|vm_compute; lia|].
  apply (ideal_cons _ _ _ _ _ _ demo_written); [exact E2|exact Hs|constructor].
Qed.

Lemma fs_crash_safe_witness :
  exists s2 s2', transactions demo_txns thread0 s2 = ORet [0; 2] thread0 s2' /\ idle demo_sb (settle demo_written) s2'.
Proof.
  destruct demo_idle as [s2 I]. exists s2.
  destruct (fs_crash_safe demo_sb demo_txns demo_file s2 thread0 [0; 2] [settle demo_after; settle demo_written] thread0
    (d_fs demo_file) (d_usr demo_file) I (proj1 thread0_free) (proj2 thread0_free) demo_txns_run) as (s2' & ws & E & I' & _).
  exists s2'. split; [exact E|exact I'].
Defined.
