(* ===== verification/Durable.v ===== *)
(** * A write survives a crash chunk by chunk

    What the layers give a program that calls [write].  [filewrite] writes
    at most [filewrite_max] bytes in a transaction; [writei] of so many bytes
    changes at most [MAXOPBLOCKS] blocks, whatever has to be allocated and
    however large the disk is, so that the transaction fits the log.  After a
    crash at any disk write the file on the disk has the bytes of a whole
    number of these chunks, and once [filewrite] has returned it has all that
    was written. *)

From S2P Require Import Prelude Kmonad Mem Riscv Kalloc Cstring Vm Proc Iface Sleeplock Bio Disk BioSpec Log LogSpec Sim Fs Uart Console File Usr CacheSim LogSim FsDev FsSim FsBlock FsFile FsInode FsOps Crash.

(** ** The blocks a write changes *)

Lemma size_list_to_set_le (l : list Z) : (size (list_to_set l : gset Z) <= length l)%nat.
Proof.
  induction l as [|x l IH]; [done|]. rewrite list_to_set_cons. simpl.
  pose proof (size_union_alt ({[x]} : gset Z) (list_to_set l)) as E. rewrite size_singleton in E.
  pose proof (subseteq_size (list_to_set l ∖ {[x]} : gset Z) (list_to_set l) ltac:(set_solver)). lia.
Qed.

Lemma size_covered (X : gset Z) (l : list Z) (m : nat) :
  (forall n, n ∈ X -> n ∈ l) -> (length l <= m)%nat -> (size X <= m)%nat.
Proof.
  intros H Hl. pose proof (size_list_to_set_le l).
  pose proof (subseteq_size X (list_to_set l)) as Hs. rewrite elem_of_subseteq in Hs.
  specialize (Hs ltac:(intros n Hn; apply elem_of_list_to_set; auto)). lia.
Qed.

(** The blocks behind [cnt] slots of a file from block [bn] on, and what marks
    them used. *)
Definition slots_from (s : dstate) (i : nat) (bn : Z) (cnt : nat) : list Z :=
  (fun k => sval (d_blk s) (ino s i) (slot_of (bn + Z.of_nat k))) <$> seq 0 cnt.

Lemma in_slots s i bn cnt x :
  bn <= x < bn + Z.of_nat cnt -> sval (d_blk s) (ino s i) (slot_of x) ∈ slots_from s i bn cnt.
Proof.
  intros Hx. unfold slots_from. apply list_elem_of_fmap. exists (Z.to_nat (x - bn)).
  split; [do 2 f_equal; lia|]. apply elem_of_seq. lia.
Qed.

(** All blocks a write from block [bn] on may change, where [old] blocks of the
    file exist already and [new] may be allocated. *)
Definition write_set (s s' : dstate) (i : nat) (bn : Z) (old new : nat) : list Z :=
  let sb := fs_sb (d_fs s) in
  IBLOCK (i_inum (ino s i)) sb :: iaddr (ino s' i) :: BBLOCK (iaddr (ino s' i)) sb ::
  slots_from s' i bn (old + new) ++ ((fun a => BBLOCK a sb) <$> slots_from s' i (bn + Z.of_nat old) new).

Lemma write_set_length s s' i bn old new : length (write_set s s' i bn old new) = (3 + old + 2 * new)%nat.
Proof.
  unfold write_set, slots_from. simpl. rewrite length_app, !length_fmap, !length_seq. lia.
Qed.

(** A write that starts in the middle of a block finds that block allocated. *)
Lemma write_set_covers s s' i off l tot old new :
  writei_post s s' i off l tot -> d_dirty s = ∅ -> no_holes (d_blk s) (ino s i) ->
  0 <= off <= i_size (ino s i) -> (old = 0%nat \/ old = 1%nat /\ off mod BSIZE <> 0) ->
  off + Z.of_nat (length l) <= (off / BSIZE + Z.of_nat (old + new)) * BSIZE ->
  forall n, n ∈ d_dirty s' -> n ∈ write_set s s' i (off / BSIZE) old new.
Proof.
  intros P Hd Hnh Ho Hold Hend n Hn. unfold write_set.
  destruct (wp_dirty _ _ _ _ _ _ P n Hn) as [H|[->|[[_ [->|[_ ->]]]|(bn & H1 & H2 & H)]]];
    [by rewrite Hd in H; apply not_elem_of_empty in H|by apply list_elem_of_here|by apply list_elem_of_further, list_elem_of_here|
     by do 2 apply list_elem_of_further; apply list_elem_of_here|].
  do 3 apply list_elem_of_further. apply elem_of_app.
  assert (Hbn : bn < off / BSIZE + Z.of_nat (old + new)) by (unfold BSIZE in *; dlia).
  destruct H as [_ [->|[Hz ->]]]; [left; apply in_slots; lia|right].
  apply list_elem_of_fmap. eexists. split; [reflexivity|]. apply in_slots.
  destruct Hold as [->|[-> Hm]]; [lia|]. assert (bn <> off / BSIZE); [|lia]. intros ->.
  revert Hz. apply Hnh; [unfold BSIZE; dlia|]. unfold BSIZE in *. dlia.
Qed.

(** The inode, the indirect block and its bit, and at most four data blocks
    of which three are new. *)
Lemma writei_fits s s' i off l tot :
  writei_post s s' i off l tot -> d_dirty s = ∅ -> no_holes (d_blk s) (ino s i) ->
  0 <= off <= i_size (ino s i) -> Z.of_nat (length l) <= filewrite_max -> fits s'.
Proof.
  intros P Hd Hnh Ho Hlen. change filewrite_max with 3072 in Hlen. unfold fits. change (Z.to_nat MAXOPBLOCKS) with 10%nat.
  destruct (decide (off mod BSIZE = 0)) as [Ha|Ha].
  - apply (size_covered _ (write_set s s' i (off / BSIZE) 0 3)); [|rewrite write_set_length; lia].
    apply (write_set_covers s s' i off l tot); auto. unfold BSIZE in *. dlia.
  - apply (size_covered _ (write_set s s' i (off / BSIZE) 1 3)); [|rewrite write_set_length; lia].
    apply (write_set_covers s s' i off l tot); auto. unfold BSIZE in *. dlia.
Qed.

(** ** The transaction of [filewrite] *)

(** What [filewrite(f, addr, n)] does between [begin_op] and [end_op] for the
    [n1] bytes from [k] on. *)
Definition chunk_txn (f i : nat) (addr k n1 : Z) : txn Z :=
  TCall (Oilock i) (fun _ =>
  TCall (Ofile f) (fun fl =>
  TCall (Owritei i (SUser (u64 (addr + k))) (f_off fl) n1) (fun r =>
  let fin := TCall (Oiunlock i) (fun _ => TRet r) in
  if 0 <? r then TCall (Ofassign f (fun fl => fl <| f_off ::= (fun off => u32 (off + r)) |>)) (fun _ => fin)
  else fin))).

(** The body of the loop of [filewrite]. *)
Definition filewrite_body {L : LinkMap} (f i : nat) (addr n k : Z) : M (bst fsx) (Z + Z) :=
  if k <? n then
    let n1 := Z.min (n - k) filewrite_max in
    op_begin ;;
    ilock i ;;
    let* fl := getf f in
    let* r := writei i (SUser (u64 (addr + k))) (f_off fl) n1 in
    when (0 <? r) (modf f (fun fl => fl <| f_off ::= (fun off => u32 (off + r)) |>)) ;;
    iunlock i ;;
    op_end ;;
    if negb (r =? n1) then ret (inr k) else ret (inl (k + r))
  else ret (inr k).

Lemma body_txn {L : LinkMap} f i addr n k n1 t s r t' s' :
  k <? n = true -> n1 = Z.min (n - k) filewrite_max -> transaction (chunk_txn f i addr k n1) t s = ORet r t' s' ->
  filewrite_body f i addr n k t s = ORet (if negb (r =? n1) then inr k else inl (k + r)) t' s'.
Proof.
  intros Hk -> E. unfold filewrite_body. rewrite Hk. cbv zeta.
  eapply (meq_ret _ (let* r := transaction (chunk_txn f i addr k (Z.min (n - k) filewrite_max)) in
    ret (if negb (r =? Z.min (n - k) filewrite_max) then inr k else inl (k + r)))).
  2:{ by kstep E. }
  unfold transaction. cbn [exec chunk_txn call]. rewrite bind_assoc. apply bind_cong. intros _.
  rewrite !bind_assoc. apply bind_cong. intros _. rewrite bind_assoc. apply bind_cong. intros fl.
  rewrite bind_assoc. apply bind_cong. intros x. destruct (0 <? x); cbn [when exec call].
  - rewrite bind_assoc. apply bind_cong. intros _. rewrite !bind_assoc. apply bind_cong. intros _.
    rewrite bind_ret_l, bind_assoc. apply bind_cong. intros _. rewrite bind_ret_l. destruct (negb _); reflexivity.
  - rewrite bind_ret_l. rewrite !bind_assoc. apply bind_cong. intros _.
    rewrite bind_ret_l, bind_assoc. apply bind_cong. intros _. rewrite bind_ret_l. destruct (negb _); reflexivity.
Qed.

(** An open file that nobody works on: its inode is in memory, unlocked and
    equal to the one on the disk. *)
Record file_ready (s : dstate) (i : nat) : Prop := {
  fr_ok : fs_ok s i;
  fr_holes : no_holes (d_blk s) (ino s i);
  fr_short : short_fields (ino s i);
  fr_size : 0 <= i_size (ino s i) <= MAXFILE * BSIZE;
  fr_ref : 1 <= i_ref (ino s i);
  fr_valid : i_valid (ino s i) = 1;
  fr_free : i_lock (ino s i) = Sleeplock 0 0;
  fr_stored : dinode_at (d_blk s (IBLOCK (i_inum (ino s i)) (fs_sb (d_fs s)))) (dinode_off (i_inum (ino s i))) =
              dinode_of (ino s i);
}.

Definition set_lock (i : nat) (l : sleeplock) (s : dstate) : dstate := upd_ino i (fun ip => ip <| i_lock := l |>) s.

Lemma set_lock_ok i l s : fs_ok s i -> fs_ok (set_lock i l s) i.
Proof.
  intros [Hi G Hm F]. split; [cbn; by rewrite length_insert|exact G|exact Hm|].
  unfold set_lock. rewrite ino_upd by exact Hi. by destruct F.
Qed.

Lemma set_lock_ino i l s : fs_ok s i -> ino (set_lock i l s) i = (ino s i) <| i_lock := l |>.
Proof. intros H. apply ino_upd, H. Qed.

Lemma ilock_d i t s :
  fs_ok s i -> LSleep (SLinode i) ∉ held t -> 1 <= i_ref (ino s i) -> i_valid (ino s i) = 1 ->
  i_lock (ino s i) = Sleeplock 0 0 -> ilock i t s = ORet tt t (set_lock i (Sleeplock 1 1) s).
Proof.
  intros Hok HL Hr Hv Hf. unfold ilock. kstep (geti_d i t s). destruct (i_ref (ino s i) <? 1) eqn:E; [lia|].
  assert (Ea : acquiresleep (inode_lock i) (SLinode i) t s = ORet tt t (set_lock i (Sleeplock 1 1) s)).
  { unfold acquiresleep. kstep (acquire_free (LSleep (SLinode i)) t s HL). change (@fuel _) with 1%nat. cbn [loop].
    unfold bind at 1, bind at 1, bind at 1, gets. cbn [obind].
    change (lget (inode_lock i) s) with (i_lock (ino s i)). rewrite Hf. cbn [sl_locked Z.eqb negb].
    unfold ret at 1. cbn [obind]. unfold ret at 1. cbn [obind]. kstep (eq_refl : op_pid _ s = ORet 1 (Tls (LSleep (SLinode i) :: held t) (me t)) s).
    unfold modify. erewrite bind_ret by reflexivity. cbv beta. rewrite release_top, tls_eta. reflexivity. }
  kstep Ea. kstep (geti_d i t (set_lock i (Sleeplock 1 1) s)). rewrite set_lock_ino by exact Hok.
  change (i_valid (_ <| i_lock := _ |>)) with (i_valid (ino s i)). rewrite Hv. reflexivity.
Qed.

Lemma iunlock_d i t s :
  LSleep (SLinode i) ∉ held t -> 1 <= i_ref (ino s i) -> i_lock (ino s i) = Sleeplock 1 1 ->
  iunlock i t s = ORet tt t (set_lock i (Sleeplock 0 0) s).
Proof.
  intros HL Hr Hf. unfold iunlock.
  assert (Eh : holdingsleep (inode_lock i) (SLinode i) t s = ORet true t s).
  { unfold holdingsleep. kstep (acquire_free (LSleep (SLinode i)) t s HL). unfold gets. erewrite bind_ret by reflexivity. cbv beta.
    change (lget (inode_lock i) s) with (i_lock (ino s i)). rewrite Hf. cbn [sl_locked Z.eqb negb].
    erewrite bind_ret by reflexivity. cbv beta. erewrite bind_ret by apply release_top. rewrite tls_eta. reflexivity. }
  kstep Eh. kstep (geti_d i t s). destruct (i_ref (ino s i) <? 1) eqn:E; [lia|]. cbn [negb orb].
  unfold releasesleep. kstep (acquire_free (LSleep (SLinode i)) t s HL). unfold modify. erewrite bind_ret by reflexivity. cbv beta.
  erewrite bind_ret by reflexivity. cbv beta. rewrite release_top, tls_eta. reflexivity.
Qed.

(** The file has size [sz] and the bytes [g]. *)
Definition has_bytes (blk : Z -> mem) (ip : inode) (sz : Z) (g : Z -> Z) : Prop :=
  i_size ip = sz /\ forall x, 0 <= x < MAXFILE * BSIZE -> fbyte blk ip x = g x.

(** The file that inode [inum] of a disk describes. *)
Definition stored_inode (sb : superblock) (blk : Z -> mem) (inum : Z) : inode :=
  let d := dinode_at (blk (IBLOCK inum sb)) (dinode_off inum) in
  zero_inode <| i_inum := inum |> <| i_type := di_type d |> <| i_nlink := di_nlink d |> <| i_size := di_size d |> <| i_addrs := di_addrs d |>.

Lemma has_bytes_same blk ip ip' sz g :
  i_size ip' = i_size ip -> i_addrs ip' = i_addrs ip -> has_bytes blk ip sz g -> has_bytes blk ip' sz g.
Proof.
  intros Hs Ha [<- H]. split; [exact Hs|]. intros x Hx. rewrite <- (H x Hx).
  unfold fbyte, sval, iaddr. by rewrite Ha.
Qed.

Lemma ready_stored s i sz g :
  file_ready s i -> has_bytes (d_blk s) (ino s i) sz g ->
  has_bytes (d_blk s) (stored_inode (fs_sb (d_fs s)) (d_blk s) (i_inum (ino s i))) sz g.
Proof.
  intros R. unfold stored_inode. rewrite (fr_stored _ _ R). by apply has_bytes_same.
Qed.

(** The open file [f]. *)
Definition fent (s : dstate) (f : nat) : file := ftable (u_files (d_usr s)) !!! f.

(** The files with the offset of [f] moved on by what was written. *)
Definition advance (f : nat) (r : Z) (s : dstate) : dstate :=
  if 0 <? r then
    s <| d_usr ::= (fun u => u <| u_files ::= (fun t =>
      t <| ftable := <[f := (ftable t !!! f) <| f_off ::= (fun off => u32 (off + r)) |>]> (ftable t) |>) |>) |>
  else s.

Lemma advance_fent f r s :
  (f < length (ftable (u_files (d_usr s))))%nat -> 0 <= r -> 0 <= f_off (fent s f) -> f_off (fent s f) + r < 4294967296 ->
  fent (advance f r s) f = (fent s f) <| f_off ::= (fun off => off + r) |> /\
  length (ftable (u_files (d_usr (advance f r s)))) = length (ftable (u_files (d_usr s))).
Proof.
  intros Hf Hr H0 Hmax. unfold advance, fent in *. destruct (0 <? r) eqn:E; simpl.
  - rewrite list_lookup_total_insert_eq by exact Hf. rewrite length_insert. split; [|done].
    unfold update. simpl. by rewrite u32_small by lia.
  - replace r with 0 by lia. split; [|done]. unfold update. simpl. rewrite Z.add_0_r. by destruct (_ !!! f).
Qed.

Lemma advance_rest f r s : d_blk (advance f r s) = d_blk s /\ d_fs (advance f r s) = d_fs s /\
  d_dirty (advance f r s) = d_dirty s /\ d_locked (advance f r s) = d_locked s /\
  u_proc (d_usr (advance f r s)) = u_proc (d_usr s).
Proof. unfold advance. by destruct (0 <? r). Qed.

(** The outcome of a chunk: [tot] of its bytes [l] are in the file. *)
Record chunk_post (s s' : dstate) (f i : nat) (l : list Z) (tot : nat) : Prop := {
  ck_fits : fits s';
  ck_ready : file_ready (settle s') i;
  ck_inum : i_inum (ino s' i) = i_inum (ino s i);
  ck_sb : fs_sb (d_fs s') = fs_sb (d_fs s);
  ck_tot : (tot <= length l)%nat;
  ck_full : tot = length l \/ disk_full s';
  ck_bytes : has_bytes (d_blk s') (ino s' i) (Z.max (i_size (ino s i)) (f_off (fent s f) + Z.of_nat tot))
      (patch (fbyte (d_blk s) (ino s i)) (f_off (fent s f)) (take tot l));
  ck_file : fent s' f = (fent s f) <| f_off ::= (fun off => off + Z.of_nat tot) |>;
  ck_files : length (ftable (u_files (d_usr s'))) = length (ftable (u_files (d_usr s)));
  ck_proc : u_proc (d_usr s') = u_proc (d_usr s);
}.

Lemma chunk_run {L : LinkMap} f i addr k l t s (off := f_off (fent s f)) :
  file_ready s i -> d_locked s = ∅ -> d_dirty s = ∅ -> LSleep (SLinode i) ∉ held t -> bytes_ok l ->
  (f < length (ftable (u_files (d_usr s))))%nat -> gives t (d_usr s) (SUser (u64 (addr + k))) l ->
  0 <= off <= i_size (ino s i) -> off + Z.of_nat (length l) <= MAXFILE * BSIZE -> Z.of_nat (length l) <= filewrite_max ->
  exists tot s', exec (chunk_txn f i addr k (Z.of_nat (length l))) t s = ORet (Z.of_nat tot) t s' /\ chunk_post s s' f i l tot.
Proof.
  intros R Hl Hd HL Hb Hf Hsrc Ho Hmax Hlen. pose proof R as [R1 R2 R3 R4 R5 R6 R7 R8].
  set (s1 := set_lock i (Sleeplock 1 1) s). pose proof (set_lock_ok i (Sleeplock 1 1) s R1) as Ok1.
  pose proof (set_lock_ino i (Sleeplock 1 1) s R1) as Ei. fold s1 in Ok1, Ei.
  destruct (writei_ok i (SUser (u64 (addr + k))) off l t s1) as (tot & s2 & E2 & P); rewrite ?Ei; auto.
  pose proof (writei_fits _ _ _ _ _ _ P Hd ltac:(by rewrite Ei) ltac:(by rewrite Ei) Hlen) as HF.
  destruct P as [P1 P2 P3 P4 (a & sz & P5) P6 P7 P8 P9 P10 _ Esb Eu]. rewrite Ei in P4, P5, P7, P9.
  change (fs_sb (d_fs s1)) with (fs_sb (d_fs s)) in P9, Esb. change (d_blk s1) with (d_blk s) in P7.
  change (d_usr s1) with (d_usr s) in Eu.
  set (s2' := advance f (Z.of_nat tot) s2). destruct (advance_rest f (Z.of_nat tot) s2) as (A1 & A2 & A3 & A4 & A5).
  destruct (advance_fent f (Z.of_nat tot) s2) as [A6 A7]; [by rewrite Eu|lia|unfold fent; rewrite Eu; apply Ho| |].
  { change (MAXFILE * BSIZE) with 274432 in Hmax. unfold fent. rewrite Eu. fold (fent s f). fold off. lia. }
  fold s2' in A1, A2, A3, A4, A5, A6, A7. assert (Ei2 : ino s2' i = ino s2 i) by (unfold ino; by rewrite A2).
  exists tot, (set_lock i (Sleeplock 0 0) s2').
  assert (E3 : iunlock i t s2' = ORet tt t (set_lock i (Sleeplock 0 0) s2')) by (apply iunlock_d; rewrite ?Ei2, ?P5, ?Ei; auto).
  assert (P2' : fs_ok s2' i) by (destruct P2; split; rewrite ?Ei2, ?A1, ?A2; auto).
  pose proof (set_lock_ok i (Sleeplock 0 0) s2' P2') as Ok3. pose proof (set_lock_ino i (Sleeplock 0 0) s2' P2') as Ei3.
  split.
  { cbn [exec chunk_txn call]. kstep (ilock_d i t s R1 HL R5 R6 R7). fold s1.
    kstep (eq_refl : getf f t s1 = ORet (fent s f) t s1). fold off. kstep E2.
    unfold s2', advance in E3. destruct (0 <? Z.of_nat tot) eqn:Et; cbn [exec call].
    - erewrite bind_ret by reflexivity. cbv beta. kstep E3. unfold s2', advance. by rewrite Et.
    - kstep E3. unfold s2', advance. by rewrite Et. }
  set (s3 := set_lock i (Sleeplock 0 0) s2') in *. rewrite Ei2 in Ei3.
  assert (Einum : i_inum (ino s3 i) = i_inum (ino s i)) by (by rewrite Ei3, P5).
  assert (Esz : i_size (ino s3 i) = Z.max (i_size (ino s i)) (off + Z.of_nat tot)) by (rewrite Ei3; exact P4).
  assert (Esb3 : fs_sb (d_fs s3) = fs_sb (d_fs s)) by (rewrite <- Esb, <- A2; reflexivity).
  assert (Eblk : d_blk s3 = d_blk s2) by exact A1.
  split; auto.
  - unfold fits in *. change (d_dirty s3) with (d_dirty s2'). by rewrite A3.
  - split; change (ino (settle s3) i) with (ino s3 i); [by destruct Ok3|..].
    + intros bn H0 Hlt. change (d_blk (settle s3)) with (d_blk s3). rewrite Eblk. rewrite Ei3 in Hlt |- *. by apply (P6 bn).
    + rewrite Ei3, P5. exact R3.
    + rewrite Esz. change (MAXFILE * BSIZE) with 274432 in *. lia.
    + by rewrite Ei3, P5.
    + by rewrite Ei3, P5.
    + by rewrite Ei3.
    + rewrite Einum. change (fs_sb (d_fs (settle s3))) with (fs_sb (d_fs s3)). rewrite Esb3, Ei3.
      change (d_blk (settle s3)) with (d_blk s3). rewrite Eblk. exact P9.
  - destruct P10 as [P10|P10]; [by left|right]. intros b. rewrite Esb3, Eblk, <- Esb. apply P10.
  - split; [exact Esz|]. intros x Hx. rewrite Ei3, Eblk. exact (P7 x Hx).
  - change (fent s3 f) with (fent s2' f). rewrite A6. unfold fent. by rewrite Eu.
  - change (d_usr s3) with (d_usr s2'). by rewrite A7, Eu.
  - change (d_usr s3) with (d_usr s2'). by rewrite A5, Eu.
Qed.

(** ** The loop of [filewrite] *)

Section Filewrite.
Context {L : LinkMap}.
(** The file and the request: [l] is written to inode [inum] at [off], which
    had size [sz] and the bytes [old]. *)
Context (sb : superblock) (f i : nat) (addr : Z) (l : list Z) (t : tls) (fl : file) (inum sz : Z) (old : Z -> Z).
Context (HT : fs_free t) (HL : LSleep (SLinode i) ∉ held t) (Hb : bytes_ok l).

Definition woff (d : nat) : Z := f_off fl + Z.of_nat d.
(** The size and the bytes when [d] bytes are written. *)
Definition wsize (d : nat) : Z := Z.max sz (woff d).
Definition wbytes (d : nat) : Z -> Z := patch old (f_off fl) (take d l).

Context (Ho : 0 <= f_off fl <= sz) (Hmax : woff (length l) <= MAXFILE * BSIZE).

(** [d] bytes are written and no transaction runs. *)
Record writing (d : nat) (p : pst) (s1 : dstate) (s2 : bst fsx) : Prop := {
  wr_idle : idle sb s1 s2;
  wr_ready : file_ready s1 i;
  wr_inum : i_inum (ino s1 i) = inum;
  wr_bytes : has_bytes (d_blk s1) (ino s1 i) (wsize d) (wbytes d);
  wr_src : gives t (d_usr s1) (SUser addr) l;
  wr_file : fent s1 f = fl <| f_off := woff d |>;
  wr_files : (f < length (ftable (u_files (d_usr s1))))%nat;
  wr_proc : u_proc (d_usr s1) = p;
}.

(** A disk from which the machine starts with [j] bytes of the file written. *)
Definition crash_with (d : disk) (j : nat) : Prop :=
  exists blk, recovers sb d blk /\ has_bytes blk (stored_inode sb blk inum) (wsize j) (wbytes j).

(** A multiple of the size of a chunk. *)
Definition whole (j : nat) : Prop := (filewrite_max | Z.of_nat j).

Lemma writing_crash d p s1 s2 : writing d p s1 s2 -> crash_with (bs_disk s2) d.
Proof.
  intros W. exists (d_blk s1). split; [apply idle_recovers, (wr_idle _ _ _ _ W)|].
  assert (Hsb : fs_sb (d_fs s1) = sb) by (destruct (wr_idle _ _ _ _ W) as (w & a & _ & []); auto).
  rewrite <- Hsb, <- (wr_inum _ _ _ _ W). apply ready_stored; apply W.
Qed.

(** One chunk, of [n1] bytes. *)
Lemma chunk_step d n1 p s1 s2 :
  writing d p s1 s2 -> (d + n1 <= length l)%nat -> Z.of_nat n1 <= filewrite_max ->
  exists m s1' s2' ws,
    transaction (chunk_txn f i addr (Z.of_nat d) (Z.of_nat n1)) t s2 = ORet (Z.of_nat m) t s2' /\
    writing (d + m) p s1' s2' /\ (m <= n1)%nat /\ (m = n1 \/ disk_full s1') /\
    bs_disk s2' = apply_writes (bs_disk s2) ws /\ bs_trace s2' = bs_trace s2 ++ ws /\
    forall k, (k <= length ws)%nat -> exists j, (j = d \/ j = (d + m)%nat) /\ crash_with (apply_writes (bs_disk s2) (take k ws)) j.
Proof.
  intros W Hd Hn1. pose proof W as [W1 W2 W3 W4 W5 W6 W7 W8].
  assert (I : d_locked s1 = ∅ /\ d_dirty s1 = ∅ /\ fs_sb (d_fs s1) = sb) by (destruct W1 as (w & a & _ & []); auto).
  destruct I as (Hl & Hdi & Hsb). set (l1 := take n1 (drop d l)).
  assert (Hl1 : length l1 = n1) by (unfold l1; rewrite length_take, length_drop; lia).
  assert (Hoff : f_off (fent s1 f) = woff d) by (by rewrite W6).
  assert (Hsrc : gives t (d_usr s1) (SUser (u64 (addr + Z.of_nat d))) l1) by (by apply (gives_part _ _ (SUser addr) l)).
  destruct (chunk_run f i addr (Z.of_nat d) l1 t s1 W2 Hl Hdi HL) as (m & s1' & E & P);
    rewrite ?Hl1, ?Hoff, ?(proj1 W4); auto.
  { by apply Forall_take, Forall_drop. }
  { unfold wsize, woff. lia. }
  { unfold woff in *. lia. }
  rewrite Hl1 in E. destruct P as [P1 P2 P3 P4 P5 P6 P7 P8 P9 P10]. rewrite Hl1 in P5, P6. rewrite Hoff, (proj1 W4) in P7.
  destruct (transaction_cache sb _ s1 s2 t _ t s1' W1 HT E P1) as (s2' & ws & E' & I' & _ & B' & T' & c & Hc).
  assert (Hnew : has_bytes (d_blk s1') (ino s1' i) (wsize (d + m)) (wbytes (d + m))).
  { destruct P7 as [H1 H2]. split; [rewrite H1; unfold wsize, woff; lia|]. intros x Hx. rewrite H2 by exact Hx.
    unfold wbytes, l1. rewrite <- (take_take_drop l d m), <- patch_app. rewrite length_take, Nat.min_l by lia.
    rewrite take_take, Nat.min_l by lia. apply patch_ext. by apply W4. }
  assert (W' : writing (d + m) p (settle s1') s2').
  { split; auto; [by rewrite <- W3| | |change (d_usr (settle s1')) with (d_usr s1'); by rewrite P9|by rewrite <- W8].
    - destruct W5 as [G1 G2]. split; [exact G1|]. change (d_usr (settle s1')) with (d_usr s1'). rewrite P10. exact G2.
    - change (fent (settle s1') f) with (fent s1' f). rewrite P8, W6. unfold woff, update. simpl. f_equal. lia. }
  exists m, (settle s1'), s2', ws. split; [exact E'|]. split; [exact W'|]. split; [exact P5|]. split; [exact P6|].
  split; [unfold bs_disk; by rewrite B', T', apply_writes_app|]. split; [exact T'|]. intros k Hk. specialize (Hc k Hk).
  destruct (k <=? c)%nat.
  - exists d. split; [by left|]. exists (d_blk s1). split; [eapply recovers_beq; [|exact Hc]; apply (idle_facts _ _ _ W1)|].
    rewrite <- Hsb, <- W3. by apply ready_stored.
  - exists (d + m)%nat. split; [by right|]. exists (d_blk s1'). split; [exact Hc|].
    rewrite <- W3, <- P3, <- Hsb, <- P4. exact (ready_stored (settle s1') i _ _ P2 Hnew).
Qed.

(** From [d] bytes on; the loop returns the bytes before the last chunk that
    was cut short, if any. *)
Lemma filewrite_loop p : forall fuel d s1 s2,
  writing d p s1 s2 -> (d <= length l)%nat -> whole d \/ d = length l ->
  (if (d =? length l)%nat then 1 else Z.of_nat (length l - d) / filewrite_max + 2) <= Z.of_nat fuel ->
  exists d' tot s1' s2' ws,
    loop fuel (filewrite_body f i addr (Z.of_nat (length l))) (Z.of_nat d) t s2 = ORet (Z.of_nat d') t s2' /\
    (d' = length l <-> tot = length l) /\ (d <= tot <= length l)%nat /\ (tot = length l \/ disk_full s1') /\
    writing tot p s1' s2' /\ bs_disk s2' = apply_writes (bs_disk s2) ws /\ bs_trace s2' = bs_trace s2 ++ ws /\
    forall k, (k <= length ws)%nat -> exists j, (j <= tot)%nat /\ (j = tot \/ whole j) /\
      crash_with (apply_writes (bs_disk s2) (take k ws)) j.
Proof.
  change filewrite_max with 3072. induction fuel as [|fuel IH]; intros d s1 s2 W Hd Hw Hf.
  { destruct (d =? length l)%nat; dlia. }
  cbn [loop]. destruct (Nat.eqb_spec d (length l)) as [->|Hne].
  { assert (E : filewrite_body f i addr (Z.of_nat (length l)) (Z.of_nat (length l)) t s2 = ORet (inr (Z.of_nat (length l))) t s2).
    { unfold filewrite_body. by rewrite Z.ltb_irrefl. }
    exists (length l), (length l), s1, s2, []. kstep E. split_and!; auto; try tauto; [by rewrite app_nil_r|]. intros k _.
    exists (length l). rewrite take_nil. split_and!; auto. by apply (writing_crash _ p s1). }
  set (n1 := Nat.min (length l - d) 3072).
  destruct (chunk_step d n1 p s1 s2 W) as (m & s1' & s2' & ws & E & W' & Hm & Hfull & Hdk & Htr & Hc);
    [lia|change filewrite_max with 3072; lia|].
  assert (Eb : filewrite_body f i addr (Z.of_nat (length l)) (Z.of_nat d) t s2 =
    ORet (if negb (Z.of_nat m =? Z.of_nat n1) then inr (Z.of_nat d) else inl (Z.of_nat (d + m))) t s2').
  { rewrite Nat2Z.inj_add. apply body_txn; [lia| |exact E]. change filewrite_max with 3072. lia. }
  kstep Eb. assert (Hwd : whole d) by (destruct Hw; [done|lia]).
  destruct (Z.of_nat m =? Z.of_nat n1) eqn:Em; cbn [negb].
  - assert (m = n1) as -> by lia. assert (Hw' : whole (d + n1) \/ (d + n1)%nat = length l).
    { destruct (decide (length l - d <= 3072)%nat); [right; lia|left]. destruct Hwd as [q Hq]. exists (q + 1).
      change filewrite_max with 3072 in *. lia. }
    destruct (IH (d + n1)%nat s1' s2' W' ltac:(lia) Hw') as (d' & tot & s1'' & s2'' & ws' & E2 & Hd' & Ht & Hfull' & W2 & Hdk' & Htr' & Hc').
    { destruct (Nat.eqb_spec (d + n1) (length l)); [dlia|]. replace (Z.of_nat (length l - (d + n1))) with (Z.of_nat (length l - d) - 3072) by lia. dlia. }
    exists d', tot, s1'', s2'', (ws ++ ws'). split; [exact E2|]. split; [exact Hd'|]. split; [lia|]. split; [exact Hfull'|].
    split; [exact W2|]. split; [by rewrite apply_writes_app, Hdk', Hdk|]. split; [by rewrite Htr', Htr, app_assoc|].
    intros k Hk. destruct (decide (k <= length ws)%nat) as [Hle|Hgt].
    + rewrite take_app_le by lia. destruct (Hc k Hle) as (j & [-> | ->] & Hj).
      * exists d. split_and!; auto. lia.
      * exists (d + n1)%nat. split; [lia|]. split; [|exact Hj]. destruct Hw' as [?|?]; [by right|left; lia].
    + rewrite length_app in Hk. destruct (Hc' (k - length ws)%nat ltac:(lia)) as (j & H1 & H2 & Hj). exists j.
      split_and!; auto. by rewrite take_app_ge, apply_writes_app, <- Hdk by lia.
  - exists d, (d + m)%nat, s1', s2', ws. split; [done|]. split; [lia|]. split; [lia|]. split; [right; destruct Hfull; [lia|done]|].
    split_and!; auto. intros k Hk. destruct (Hc k Hk) as (j & [-> | ->] & Hj).
    + exists d. split_and!; auto. lia.
    + exists (d + m)%nat. by split_and!; auto.
Qed.
End Filewrite.

(** C2: a write is durable, and atomic chunk by chunk.  Let a process call
    [filewrite] on a file open for writing, with the bytes [l] of its memory
    ([gives]: all of it is mapped), at an offset within the file and within the
    largest file.  [filewrite], run on the buffer cache and the log, writes
    some [tot] of them at the offset and leaves all other bytes as before:
    all of them, and then it returns their number, or as many as the disk has
    room for, and then it returns -1.  The offset of the open file is moved by
    [tot] and the process keeps its memory.  If the machine stops after any
    number [k] of the disk writes and is started again, the file on the disk
    has the size and the bytes as if only the first [j] bytes had been written,
    where [j] is a whole number of chunks of [filewrite_max] bytes or all of
    [tot]; and it is [tot] when [filewrite] had returned. *)
Theorem write_atomic {L : LinkMap} {U : UartDev} sb f i addr l fl s1 s2 t t0 f0 u0
    (Hidle : idle sb s1 s2) (HT : fs_free t) (HT0 : cache_free t0) (HL : LSleep (SLinode i) ∉ held t)
    (R : file_ready s1 i) (Hf : (f < length (ftable (u_files (d_usr s1))))%nat) (Hfl : fent s1 f = fl)
    (Hw : f_writable fl = true) (Hty : f_type fl = FD_INODE) (Hip : f_ip fl = Some i)
    (Hsrc : gives t (d_usr s1) (SUser addr) l) (Hb : bytes_ok l)
    (Ho : 0 <= f_off fl <= i_size (ino s1 i)) (Hmax : f_off fl + Z.of_nat (length l) <= MAXFILE * BSIZE) :
  exists tot s1' s2' ws,
    let size j := Z.max (i_size (ino s1 i)) (f_off fl + Z.of_nat j) in
    let bytes j := patch (fbyte (d_blk s1) (ino s1 i)) (f_off fl) (take j l) in
    filewrite f addr (Z.of_nat (length l)) t s2 = ORet (if (tot =? length l)%nat then Z.of_nat (length l) else -1) t s2' /\
    (tot <= length l)%nat /\ (tot = length l \/ disk_full s1') /\
    idle sb s1' s2' /\ file_ready s1' i /\ has_bytes (d_blk s1') (ino s1' i) (size tot) (bytes tot) /\
    fent s1' f = fl <| f_off := f_off fl + Z.of_nat tot |> /\ u_proc (d_usr s1') = u_proc (d_usr s1) /\
    bs_trace s2' = bs_trace s2 ++ ws /\
    forall k, (k <= length ws)%nat ->
      exists j s3 blk, (j <= tot)%nat /\ (j = tot \/ (filewrite_max | Z.of_nat j)) /\ (k = length ws -> j = tot) /\
        boot t0 (power_on (apply_writes (bs_disk s2) (take k ws)) f0 u0) = ORet tt t0 s3 /\
        idle sb (rebooted sb f0 u0 blk) s3 /\
        has_bytes blk (stored_inode sb blk (i_inum (ino s1 i))) (size j) (bytes j).
Proof.
  assert (W0 : writing sb f i addr l t fl (i_inum (ino s1 i)) (i_size (ino s1 i)) (fbyte (d_blk s1) (ino s1 i)) 0
    (u_proc (d_usr s1)) s1 s2).
  { split; auto; [|rewrite Hfl; unfold woff; rewrite Z.add_0_r; by destruct fl].
    unfold wsize, wbytes, woff. split; [lia|]. intros x Hx. unfold patch. simpl. by rewrite decide_False by lia. }
  destruct (filewrite_loop sb f i addr l t fl _ _ _ HT HL Hb Ho Hmax (u_proc (d_usr s1))
    (Z.to_nat (Z.max 0 (Z.of_nat (length l)) / filewrite_max + 2)) 0 s1 s2 W0)
    as (d' & tot & s1' & s2' & ws & E & Hd' & Ht & Hfull & W & Hdk & Htr & Hc).
  { lia. } { left. by exists 0. }
  { change filewrite_max with 3072. rewrite Nat.sub_0_r. destruct (0 =? length l)%nat; dlia. }
  destruct (idle_facts _ _ _ Hidle) as (Hm & H2 & _).
  exists tot, s1', s2', ws. cbv zeta. split_and!; try apply W; auto; [|lia|].
  - unfold filewrite. kstep (eq_refl : getf f t s2 = ORet (ftable (u_files (x_usr (bs_ext s2))) !!! f) t s2).
    assert (Efl : ftable (u_files (x_usr (bs_ext s2))) !!! f = fl).
    { destruct Hidle as (w & a & C & I). rewrite (cr_ext _ _ _ C). cbn [x_usr]. rewrite (id_usr _ _ _ _ I). exact Hfl. }
    rewrite Efl, Hw, Hty, Hip. cbn [negb]. kstep (eq_refl : deref (Some i) t s2 = ORet i t s2).
    erewrite bind_ret by exact E. unfold ret. f_equal. destruct (Nat.eqb_spec tot (length l)) as [Et|Et].
    + apply Hd' in Et as ->. by rewrite Z.eqb_refl.
    + destruct (Z.of_nat d' =? Z.of_nat (length l)) eqn:En; [|done]. exfalso. apply Et, Hd'. lia.
  - intros k Hk.
    assert (Hj : exists j, (j <= tot)%nat /\ (j = tot \/ whole j) /\ (k = length ws -> j = tot) /\
      crash_with sb l fl (i_inum (ino s1 i)) (i_size (ino s1 i)) (fbyte (d_blk s1) (ino s1 i)) (apply_writes (bs_disk s2) (take k ws)) j).
    { destruct (decide (k = length ws)) as [->|Hne].
      - exists tot. split_and!; auto. rewrite take_ge by lia. rewrite <- Hdk. by eapply writing_crash.
      - destruct (Hc k Hk) as (j & H3 & H4 & H5). exists j. by split_and!. }
    destruct Hj as (j & H3 & H4 & H5 & blk & Hr & HB). destruct (boot_ok sb _ _ f0 u0 t0 Hr Hm H2 HT0) as (s3 & E3 & I3).
    exists j, s3, blk. by split_and!.
Qed.

(** ** Witnesses *)

#[local] Existing Instance demo_link.
#[local] Instance demo_uart : UartDev := fun _ _ => 0.

Definition demo_open : dstate := settle demo_after.

Lemma demo_open_idle : exists s2, idle demo_sb demo_open s2.
Proof.
  destruct (boot_ok demo_sb (d_blk demo_after) (d_blk demo_after) (d_fs demo_file) (d_usr demo_file) thread0) as (s2 & _ & I);
    [|done|done|apply thread0_free|exists s2; exact I].
  apply recovers_empty; [done|vm_compute; reflexivity|vm_compute; reflexivity|intros n _; apply beq_refl].
Qed.

Lemma demo_open_ready : file_ready demo_open 0.
Proof.
  split.
  - exact demo_after_ok.
  - intros bn H0 H1. change (i_size (ino demo_open 0)) with 0 in H1. unfold BSIZE in H1. lia.
  - unfold short_fields, short_ok. vm_compute. intuition congruence.
  - vm_compute. intuition congruence.
  - vm_compute. intuition congruence.
  - reflexivity.
  - reflexivity.
  - vm_compute. reflexivity.
Qed.

(** The process writes the "hi" of its memory to its file. *)
Lemma write_atomic_witness :
  exists s2 tot s1' s2', filewrite 0 100 2 thread0 s2 = ORet (if (tot =? 2)%nat then 2 else -1) thread0 s2' /\
    idle demo_sb s1' s2' /\ file_ready s1' 0.
Proof.
  destruct demo_open_idle as [s2 I]. exists s2.
  destruct (write_atomic demo_sb 0 0 100 [104; 105] (fent demo_open 0) demo_open s2 thread0 thread0 (d_fs demo_file)
    (d_usr demo_file) I (proj1 thread0_free) (proj2 thread0_free)) as (tot & s1' & s2' & ws & E & _ & _ & I' & R & _);
    try reflexivity.
  - apply not_elem_of_nil.
  - apply demo_open_ready.
  - apply (bool_decide_unpack _). reflexivity.
  - apply demo_gives.
  - repeat constructor; lia.
  - vm_compute. intuition congruence.
  - vm_compute. intuition congruence.
  - exists tot, s1', s2'. split; [exact E|]. split; [exact I'|exact R].
Defined.
