(* ===== verification/Mkfs.v ===== *)
(** * Building a file system image (mkfs/mkfs.c)

    The image is a function from block numbers to blocks.  [xshort] and [xint]
    put numbers into the byte order of the disk, which is what the stores of
    Mem.v do.  A failed [assert] gives [None]; the input files are given by
    their names and contents ([None] when [open] fails). *)

From S2P Require Import Prelude Kmonad Mem Riscv Kalloc Cstring Vm Proc Iface Sleeplock Bio Log Fs FsDev FsBlock.

Definition NINODES : Z := 200.
Definition nbitmap : Z := FSSIZE / BPB + 1.
Definition ninodeblocks : Z := NINODES / IPB + 1.
Definition nlog : Z := LOGBLOCKS + 1.
Definition nmeta : Z := 2 + nlog + ninodeblocks + nbitmap.
Definition nblocks : Z := FSSIZE - nmeta.

(** The variable [sb] as [main] sets it. *)
Definition mk_sb : superblock :=
  Superblock FSMAGIC FSSIZE nblocks NINODES nlog 2 (2 + nlog) (2 + nlog + ninodeblocks).

(** The image file and the variables [freeinode] and [freeblock]. *)
Record img := Img { im_blk : Z -> mem; freeinode : Z; freeblock : Z }.
#[global] Instance eta_img : Eta img := fun r => Img (im_blk r) (freeinode r) (freeblock r).

Definition rsect (sec : Z) (g : img) : mem := im_blk g sec.
Definition wsect (sec : Z) (buf : mem) (g : img) : img := g <| im_blk := blk_set (im_blk g) sec buf |>.

Definition winode (inum : Z) (ip : dinode) (g : img) : img :=
  let bn := IBLOCK inum mk_sb in
  wsect bn (put_dinode (dinode_off inum) ip (rsect bn g)) g.

Definition rinode (inum : Z) (g : img) : dinode := dinode_at (rsect (IBLOCK inum mk_sb) g) (dinode_off inum).

Definition ialloc (type : Z) (g : img) : Z * img :=
  let inum := freeinode g in
  let g := g <| freeinode ::= Z.succ |> in
  (inum, winode inum (Dinode type 0 0 1 0 (replicate (Z.to_nat (NDIRECT + 1)) 0)) g).

(** The loop of [balloc]: the bits [0, used). *)
Definition mark_bits (used : nat) (buf : mem) : mem :=
  fold_left (fun buf i =>
    let i := Z.of_nat i in mstore 1 (i / 8) (Z.lor (byte_at buf (i / 8)) (Z.shiftl 1 (i mod 8))) buf)
    (seq 0 used) buf.

Definition mk_balloc (used : Z) (g : img) : option img :=
  if negb (used <? BPB) then None
  else Some (wsect (sb_bmapstart mk_sb) (mark_bits (Z.to_nat used) (fun _ => 0)) g).

(** The block [x] of the [fbn]-th block of the file, allocated if need be. *)
Definition iappend_block (fbn : Z) (din : dinode) (g : img) : Z * dinode * img :=
  let set_addr (k : Z) (din : dinode) (v : Z) :=
    Dinode (di_type din) (di_major din) (di_minor din) (di_nlink din) (di_size din) (<[Z.to_nat k := v]> (di_addrs din)) in
  let addr (k : Z) (din : dinode) := di_addrs din !!! Z.to_nat k in
  let fresh (k : Z) (din : dinode) (g : img) :=
    if addr k din =? 0 then (set_addr k din (freeblock g), g <| freeblock ::= (fun b => u32 (b + 1)) |>) else (din, g) in
  if fbn <? NDIRECT then
    let '(din, g) := fresh fbn din g in
    (addr fbn din, din, g)
  else
    let '(din, g) := fresh NDIRECT din g in
    let a := addr NDIRECT din in
    let indirect := rsect a g in
    let o := 4 * (fbn - NDIRECT) in
    let '(indirect, g) :=
      if load32 o indirect =? 0 then
        let indirect := store32 o (freeblock g) indirect in
        (indirect, wsect a indirect (g <| freeblock ::= (fun b => u32 (b + 1)) |>))
      else (indirect, g) in
    (load32 o indirect, din, g).

(** [while(n > 0)] of [iappend], with [l] the bytes still to append. *)
Fixpoint iappend_loop (fuel : nat) (l : list Z) (off : Z) (din : dinode) (g : img) : option (Z * dinode * img) :=
  match l with
  | [] => Some (off, din, g)
  | _ =>
      match fuel with
      | O => None
      | S f =>
          let fbn := off / BSIZE in
          if negb (fbn <? MAXFILE) then None
          else
            let '(x, din, g) := iappend_block fbn din g in
            let n1 := Z.to_nat (Z.min (Z.of_nat (length l)) ((fbn + 1) * BSIZE - off)) in
            let g := wsect x (mwrite (off - fbn * BSIZE) (take n1 l) (rsect x g)) g in
            iappend_loop f (drop n1 l) (off + Z.of_nat n1) din g
      end
  end.

Definition iappend (inum : Z) (l : list Z) (g : img) : option img :=
  let din := rinode inum g in
  r ← iappend_loop (S (length l)) l (di_size din) din g;
  let '(off, din, g) := r in
  Some (winode inum
    (Dinode (di_type din) (di_major din) (di_minor din) (di_nlink din) off (di_addrs din)) g).

(** A directory entry. *)
Definition mk_dirent (inum : Z) (name : list Z) : list Z :=
  [u8 inum; u8 (inum / 256)] ++ take 14 (name ++ replicate 14 0).

(** [while((cc = read(fd, buf, sizeof(buf))) > 0) iappend(inum, buf, cc)] *)
Fixpoint copy_file (fuel : nat) (inum : Z) (l : list Z) (g : img) : option img :=
  match l with
  | [] => Some g
  | _ =>
      match fuel with
      | O => None
      | S f => g ← iappend inum (take (Z.to_nat BSIZE) l) g; copy_file f inum (drop (Z.to_nat BSIZE) l) g
      end
  end.

(** The name in the file system, without [user/] and the leading [_]. *)
Definition shortname (arg : list Z) : option (list Z) :=
  let user := [117; 115; 101; 114; 47] in
  let s := if bool_decide (take 5 arg = user) then drop 5 arg else arg in
  if bool_decide (47 ∈ s) then None
  else
    let s := match s with 95 :: s' => s' | _ => s end in
    if (length s <=? Z.to_nat DIRSIZ)%nat then Some s else None.

(** The body of the loop over the input files. *)
Definition add_file (rootino : Z) (f : list Z * option (list Z)) (g : img) : option img :=
  name ← shortname (fst f);
  content ← snd f;
  let '(inum, g) := ialloc T_FILE g in
  g ← iappend rootino (mk_dirent inum name) g;
  copy_file (S (length content)) inum content g.

Fixpoint add_files (rootino : Z) (fs : list (list Z * option (list Z))) (g : img) : option img :=
  match fs with
  | [] => Some g
  | f :: fs' => g ← add_file rootino f g; add_files rootino fs' g
  end.

(** [memmove(buf, &sb, sizeof(sb))] into a block of zeros. *)
Definition put_sb (sb : superblock) : mem :=
  store_addrs 0 [sb_magic sb; sb_size sb; sb_nblocks sb; sb_ninodes sb; sb_nlog sb; sb_logstart sb;
                 sb_inodestart sb; sb_bmapstart sb] (fun _ => 0).

(** [off = ((off/BSIZE) + 1) * BSIZE] for the root directory. *)
Definition fix_root (rootino : Z) (g : img) : img :=
  let din := rinode rootino g in
  winode rootino
    (Dinode (di_type din) (di_major din) (di_minor din) (di_nlink din) ((di_size din / BSIZE + 1) * BSIZE) (di_addrs din)) g.

Definition mkfs (fs : list (list Z * option (list Z))) : option img :=
  let g := wsect 1 (put_sb mk_sb) (Img (fun _ _ => 0) 1 nmeta) in
  let '(rootino, g) := ialloc T_DIR g in
  if negb (rootino =? ROOTINO) then None
  else
    g ← iappend rootino (mk_dirent rootino [46]) g;
    g ← iappend rootino (mk_dirent rootino [46; 46]) g;
    g ← add_files rootino fs g;
    mk_balloc (freeblock g) (fix_root rootino g).

(** ** The layout *)

Lemma mark_bits_spec n m bi : 0 <= bi ->
  bit_used (mark_bits n m) bi = (bi <? Z.of_nat n) || bit_used m bi.
Proof.
  intros Hbi. unfold mark_bits. induction n as [|n IH].
  { rewrite (proj2 (Z.ltb_ge bi (Z.of_nat 0))) by lia. reflexivity. }
  rewrite seq_S, fold_left_app. cbn [fold_left]. cbv zeta.
  change (Z.shiftl 1 (Z.of_nat (0 + n) mod 8)) with (bit_mask (Z.of_nat (0 + n))).
  rewrite bit_set by lia. rewrite IH. simpl plus. case_decide; subst.
  - destruct (Z.of_nat n <? Z.of_nat (S n)) eqn:E; [reflexivity|lia].
  - destruct (bi <? Z.of_nat n) eqn:E1, (bi <? Z.of_nat (S n)) eqn:E2; try reflexivity; lia.
Qed.
