(* ===== verification/Usys.v ===== *)
(** * User programs (user/user.h, user/usys.pl)

    A user program computes and makes system calls.  [prog A] is the tree of
    its calls: [Do c k] makes the call [c] and goes on with [k r d], where [r]
    is the value the call returns and [d] the data it stores through its
    pointer argument; [Done a] returns, [Exited n] is [exit(n)], which does
    not return, and [Stuck] marks that a bound on a loop was too small.  What
    the calls do is not fixed here: the theorems about a program say what they
    assume of the calls. *)

From S2P Require Import Prelude.

Declare Scope prog_scope.
Delimit Scope prog_scope with prog.

(** kernel/fcntl.h and kernel/vm.h, as the programs use them. *)
Definition O_RDONLY : Z := 0x000.
Definition O_WRONLY : Z := 0x001.
Definition O_RDWR : Z := 0x002.
Definition O_CREATE : Z := 0x200.
Definition O_TRUNC : Z := 0x400.
Definition SBRK_EAGER : Z := 1.
Definition SBRK_LAZY : Z := 2.

(** The stubs of usys.pl.  A string argument is the list of its characters;
    [Write fd l] writes the bytes [l], [Read fd n] gives at most [n] bytes as
    data, [Pipe] gives the two descriptors and [Fstat] the fields of
    [struct stat] in their order. *)
Inductive sys :=
| Fork | Wait | Pipe
| Read (fd n : Z) | Write (fd : Z) (bytes : list Z) | Close (fd : Z)
| Kill (pid : Z) | Exec (path : list Z) (argv : list (list Z))
| Open (path : list Z) (mode : Z) | Mknod (path : list Z) (major minor : Z)
| Unlink (path : list Z) | Fstat (fd : Z) | Link (old new : list Z)
| Mkdir (path : list Z) | Chdir (path : list Z) | Dup (fd : Z)
| Getpid | Sbrk (n t : Z) | Pause (n : Z) | Uptime.

#[global] Instance sys_eq_dec : EqDecision sys.
Proof. solve_decision. Defined.

Inductive prog (A : Type) : Type :=
| Done (a : A)
| Do (c : sys) (k : Z -> list Z -> prog A)
| Exited (n : Z)
| Stuck.
Arguments Done {A}.
Arguments Do {A}.
Arguments Exited {A}.
Arguments Stuck {A}.

Fixpoint pbind {A B} (m : prog A) (f : A -> prog B) : prog B :=
  match m with
  | Done a => f a
  | Do c k => Do c (fun r d => pbind (k r d) f)
  | Exited n => Exited n
  | Stuck => Stuck
  end.

Notation "'let!' x := m 'in' k" := (pbind m (fun x => k))
  (at level 10, x name, m at level 100, k at level 200) : prog_scope.
Notation "'let!' ' p := m 'in' k" := (pbind m (fun x => match x with p => k end))
  (at level 10, p pattern, m at level 100, k at level 200) : prog_scope.
Notation "m ;;; k" := (pbind m (fun _ => k))
  (at level 100, k at level 200, right associativity) : prog_scope.
#[global] Open Scope prog_scope.

(** A call whose data is not used, and one whose data is. *)
Definition sysc (c : sys) : prog Z := Do c (fun r _ => Done r).
Definition sysd (c : sys) : prog (Z * list Z) := Do c (fun r d => Done (r, d)).

Fixpoint peach {X} (l : list X) (f : X -> prog unit) : prog unit :=
  match l with [] => Done tt | x :: l' => f x ;;; peach l' f end.

(** ** Running a program

    A handler answers the calls of a program that does not fork. *)
Definition handler (W : Type) := W -> sys -> W * Z * list Z.

Inductive result (W A : Type) : Type := RDone (w : W) (a : A) | RExit (w : W) (n : Z) | RStuck.
Arguments RDone {W A}.
Arguments RExit {W A}.
Arguments RStuck {W A}.

Fixpoint run {W A} (h : handler W) (w : W) (m : prog A) : result W A :=
  match m with
  | Done a => RDone w a
  | Do c k => let '(w', r, d) := h w c in run h w' (k r d)
  | Exited n => RExit w n
  | Stuck => RStuck
  end.

Lemma run_pbind {W A B} (h : handler W) (m : prog A) (f : A -> prog B) : forall w,
  run h w (pbind m f) =
  match run h w m with
  | RDone w' a => run h w' (f a)
  | RExit w' n => RExit w' n
  | RStuck => RStuck
  end.
Proof.
  induction m as [a|c k IH|n|]; intros w; simpl; try reflexivity.
  destruct (h w c) as [[w' r] d]. apply IH.
Qed.

(** ** Reading a file

    A file is read in pieces: a call of [read] returns at least one byte while
    there is one, at most what was asked for, and otherwise as many as the
    next number of [cuts] says. *)
Record stream := Stream { inp : list Z; cuts : list nat; outp : list Z }.

Definition stream_calls : handler stream := fun w c =>
  match c with
  | Read _ n =>
      let k := Nat.min (Z.to_nat n) (Nat.max 1 (hd 1%nat (cuts w))) in
      (Stream (drop k (inp w)) (tl (cuts w)) (outp w), Z.of_nat (length (take k (inp w))), take k (inp w))
  | Write _ l => (Stream (inp w) (cuts w) (outp w ++ l), Z.of_nat (length l), [])
  | _ => (w, -1, [])
  end.
