(* ===== verification/Ulib.v ===== *)
(** * The user library (user/ulib.c)

    The routines of user/ulib.c.  Those that write memory work on byte memory
    as in Cstring.v, whose loops they share where the C text is the same;
    those that only read a string work on the list of its characters before
    the NUL. *)

From S2P Require Import Prelude Mem Cstring Usys.

(** [while(( *s++ = *t++ ) != 0)]: [None] when the fuel runs out. *)
Fixpoint strcpy (fuel : nat) (s t : Z) (m : mem) : option mem :=
  match fuel with
  | O => None
  | S f =>
      let b := byte_at m t in
      let m' := mstore 1 s b m in
      if b =? 0 then Some m' else strcpy f (s + 1) (t + 1) m'
  end.

(** [while( *p && *p == *q )] *)
Fixpoint strcmp (p q : list Z) : Z :=
  match p, q with
  | c :: p', d :: q' => if c =? d then strcmp p' q' else c - d
  | c :: _, [] => c
  | [], _ => 0 - hd 0 q
  end.

Fixpoint strlen (s : list Z) : Z :=
  match s with [] => 0 | _ :: s' => 1 + strlen s' end.

Definition memset (dst c n : Z) (m : mem) : mem := memset_loop (Z.to_nat n) 0 dst c n m.

(** The rest of the string from the first [c] on, or 0. *)
Fixpoint strchr (s : list Z) (c : Z) : option (list Z) :=
  match s with
  | [] => None
  | x :: s' => if x =? c then Some s else strchr s' c
  end.

(** [gets(buf, max)]: the characters it stores before the NUL; [k] more fit. *)
Fixpoint gets_loop (k : nat) (buf : list Z) : prog (list Z) :=
  match k with
  | O => Done buf
  | S k' =>
      let! '(cc, d) := sysd (Read 0 1) in
      if cc <? 1 then Done buf
      else
        let c := d !!! 0%nat in
        if (c =? 10) || (c =? 13) then Done (buf ++ [c]) else gets_loop k' (buf ++ [c])
  end.
Definition gets (max : Z) : prog (list Z) := gets_loop (Z.to_nat (max - 1)) [].

(** [stat(n, st)]: the result and the fields of [st]. *)
Definition stat (n : list Z) : prog (Z * list Z) :=
  let! fd := sysc (Open n O_RDONLY) in
  if fd <? 0 then Done (-1, [])
  else
    let! r := sysd (Fstat fd) in
    sysc (Close fd) ;;;
    Done r.

(** [while('0' <= *s && *s <= '9') n = n*10 + *s++ - '0'], in 32 bits. *)
Fixpoint atoi_loop (n : Z) (s : list Z) : Z :=
  match s with
  | c :: s' => if (48 <=? c) && (c <=? 57) then atoi_loop (i32 (n * 10 + c - 48)) s' else n
  | [] => n
  end.
Definition atoi (s : list Z) : Z := atoi_loop 0 s.

(** The two loops of [memmove] are those of kernel/string.c; the choice
    between them is not. *)
Definition memmove (dst src n : Z) (m : mem) : mem :=
  if dst <? src then memmove_fwd (Z.to_nat n) src dst m
  else memmove_back (Z.to_nat n) (src + n) (dst + n) m.

Fixpoint memcmp (n : nat) (s1 s2 : Z) (m : mem) : Z :=
  match n with
  | O => 0
  | S n' =>
      if negb (byte_at m s1 =? byte_at m s2) then byte_at m s1 - byte_at m s2
      else memcmp n' (s1 + 1) (s2 + 1) m
  end.

Definition memcpy (dst src n : Z) (m : mem) : mem := memmove dst src n m.

Definition sbrk (n : Z) : prog Z := sysc (Sbrk n SBRK_EAGER).
Definition sbrklazy (n : Z) : prog Z := sysc (Sbrk n SBRK_LAZY).

(** [start(argc, argv)]: run [main] and exit with what it returns. *)
Definition start (main : list (list Z) -> prog Z) (argv : list (list Z)) : prog unit :=
  let! r := main argv in Exited r.

(** ** Specifications *)

(** The user [memmove] has the effect of the kernel's, although it chooses the
    direction of the copy differently. *)
Lemma umemmove_spec (dst src n : Z) (m : mem) x :
  0 <= n -> byte_at (memmove dst src n m) x = byte_at (mmove dst src n m) x.
Proof.
  intros Hn. unfold memmove. rewrite byte_at_mmove. destruct (dst <? src) eqn:E.
  - rewrite memmove_fwd_spec by lia. rewrite Z2Nat.id by lia. reflexivity.
  - destruct (decide (src = dst)) as [->|Hne].
    + replace (x - dst + dst) with x by lia. 
      assert (Hid : forall k d m, byte_at (memmove_back k d d m) x = byte_at m x).
      { induction k as [|k IH]; intros d m'; [reflexivity|]. cbn [memmove_back]. rewrite IH. bytes. }
      rewrite Hid. by case_decide.
    + rewrite memmove_back_spec by lia. rewrite Z2Nat.id by lia.
      repeat case_decide; try lia; try reflexivity. f_equal. lia.
Qed.

(** [strcmp] orders strings of non-zero characters; it is 0 on equal ones only. *)
Lemma strcmp_zero_iff p q :
  Forall (fun c => 0 < c) p -> Forall (fun c => 0 < c) q -> strcmp p q = 0 <-> p = q.
Proof.
  revert q. induction p as [|c p IH]; intros [|d q] Hp Hq; simpl; decompose_Forall_hyps; try (split; [lia|congruence]).
  - split; reflexivity.
  - destruct (c =? d) eqn:E; [|split; [lia|intros [=]; lia]]. rewrite IH by auto. split; [intros ->; f_equal; lia|congruence].
Qed.
