(* ===== verification/Umalloc.v ===== *)
(** * The user-level memory allocator (user/umalloc.c)

    Kernighan and Ritchie's allocator: the free blocks form a circular list
    in the order of their addresses, which starts at the static header
    [base].  A header takes 16 bytes: the pointer to the next free block, then
    the size of the block in units of 16 bytes, the header included.
    [grow brk n] says whether the kernel lets the process move its break from
    [brk] by [n] bytes. *)

From S2P Require Import Prelude Mem Usys Ulib.

Record heap := Heap { h_mem : mem; h_freep : Z; h_brk : Z }.
#[global] Instance eta_heap : Eta heap := fun r => Heap (h_mem r) (h_freep r) (h_brk r).

(** [p->s.ptr] and [p->s.size], and assignments to them. *)
Definition hptr (p : Z) (h : heap) : Z := load64 p (h_mem h).
Definition hsize (p : Z) (h : heap) : Z := load32 (p + 8) (h_mem h).
Definition set_ptr (p v : Z) (h : heap) : heap := h <| h_mem ::= store64 p v |>.
Definition set_size (p v : Z) (h : heap) : heap := h <| h_mem ::= store32 (p + 8) v |>.

Section Umalloc.
Context (base : Z) (grow : Z -> Z -> bool).

(** The system call [sbrk(n)]. *)
Definition usbrk (n : Z) (h : heap) : Z * heap :=
  if grow (h_brk h) n then (h_brk h, h <| h_brk ::= (fun b => b + n) |>) else (-1, h).

(** The loop of [free]: the free block after which [bp] belongs. *)
Fixpoint free_find (fuel : nat) (bp p : Z) (h : heap) : option Z :=
  match fuel with
  | O => None
  | S f =>
      let nx := hptr p h in
      if (p <? bp) && (bp <? nx) then Some p
      else if (nx <=? p) && ((p <? bp) || (bp <? nx)) then Some p
      else free_find f bp nx h
  end.

Definition free (fuel : nat) (ap : Z) (h : heap) : option heap :=
  let bp := ap - 16 in
  p ← free_find fuel bp (h_freep h) h;
  let h :=
    if bp + 16 * hsize bp h =? hptr p h then
      let h1 := set_size bp (u32 (hsize bp h + hsize (hptr p h) h)) h in
      set_ptr bp (hptr (hptr p h1) h1) h1
    else set_ptr bp (hptr p h) h in
  let h :=
    if p + 16 * hsize p h =? bp then
      let h1 := set_size p (u32 (hsize p h + hsize bp h)) h in
      set_ptr p (hptr bp h1) h1
    else set_ptr p bp h in
  Some (h <| h_freep := p |>).

(** [morecore(nu)]: [freep] or 0. *)
Definition morecore (fuel : nat) (nu : Z) (h : heap) : option (Z * heap) :=
  let nu := if nu <? 4096 then 4096 else nu in
  let '(p, h) := usbrk (i32 (nu * 16)) h in
  if p =? -1 then Some (0, h)
  else
    h ← free fuel (p + 16) (set_size p nu h);
    Some (h_freep h, h).

(** The loop of [malloc]; [lf] is the fuel for the loop of [free]. *)
Fixpoint malloc_loop (fuel lf : nat) (nunits prevp p : Z) (h : heap) : option (Z * heap) :=
  match fuel with
  | O => None
  | S f =>
      if nunits <=? hsize p h then
        if hsize p h =? nunits then
          Some (p + 16, (set_ptr prevp (hptr p h) h) <| h_freep := prevp |>)
        else
          let h := set_size p (hsize p h - nunits) h in
          let q := p + 16 * hsize p h in
          Some (q + 16, (set_size q nunits h) <| h_freep := prevp |>)
      else if p =? h_freep h then
        r ← morecore lf nunits h;
        let '(p, h) := r in
        if p =? 0 then Some (0, h) else malloc_loop f lf nunits p (hptr p h) h
      else malloc_loop f lf nunits p (hptr p h) h
  end.

Definition malloc (fuel lf : nat) (nbytes : Z) (h : heap) : option (Z * heap) :=
  let nunits := u32 ((nbytes + 16 - 1) / 16 + 1) in
  let h :=
    if h_freep h =? 0 then set_size base 0 ((set_ptr base base h) <| h_freep := base |>) else h in
  malloc_loop fuel lf nunits (h_freep h) (hptr (h_freep h) h) h.

End Umalloc.
