(* ===== verification/Uprintf.v ===== *)
(** * Formatted output of user programs (user/printf.c)

    [vprintf] reads the format with a two-state machine and writes every
    character with a system call of its own.  The digits of a number are
    produced by the same loop as in kernel/printf.c, from an upper-case
    table.  The lemmas say that a number printed in decimal is read back by
    [atoi], and that no number overflows the 20-byte buffer. *)

From S2P Require Import Prelude Mem Cstring Printf Usys Ulib.

Definition udigits : list Z := chars "0123456789ABCDEF".

Definition putc (fd c : Z) : prog unit := sysc (Write fd [u8 c]) ;;; Done tt.

Definition uprintint_chars (xx base : Z) (sgn : bool) : list Z := rev (printint_buf udigits xx base sgn).
Definition printint (fd xx base : Z) (sgn : bool) : prog unit := peach (uprintint_chars xx base sgn) (putc fd).

Definition uprintptr_chars (x : Z) : list Z := chars "0x" ++ printptr_loop udigits 16 x.
Definition printptr (fd x : Z) : prog unit := peach (uprintptr_chars x) (putc fd).

(** The conversion [c0], with [c1] and [c2] the characters after it: the
    characters it prints and how many more of the format it takes.  [None]:
    the argument is of the wrong kind. *)
Definition uconvert (c0 c1 c2 : Z) (args : list parg) : option (list Z * nat * list parg) :=
  let d := 100 in let l := 108 in let u := 117 in let x := 120 in
  let dec z := uprintint_chars (i64 z) 10 true in
  let udec z := uprintint_chars (u64 z) 10 false in
  let hex z := uprintint_chars (u64 z) 16 false in
  if c0 =? d then conv_int args (fun z => uprintint_chars (i32 z) 10 true) 0
  else if (c0 =? l) && (c1 =? d) then conv_int args dec 1
  else if (c0 =? l) && (c1 =? l) && (c2 =? d) then conv_int args dec 2
  else if c0 =? u then conv_int args (fun z => udec (u32 z)) 0
  else if (c0 =? l) && (c1 =? u) then conv_int args udec 1
  else if (c0 =? l) && (c1 =? l) && (c2 =? u) then conv_int args udec 2
  else if c0 =? x then conv_int args (fun z => hex (u32 z)) 0
  else if (c0 =? l) && (c1 =? x) then conv_int args hex 1
  else if (c0 =? l) && (c1 =? l) && (c2 =? x) then conv_int args hex 2
  else if c0 =? 112 then conv_int args (fun z => uprintptr_chars (u64 z)) 0
  else if c0 =? 99 then conv_int args (fun z => [u32 z]) 0
  else if c0 =? 115 then
    match args with
    | PStr (Some s) :: args' => Some (s, 0%nat, args')
    | PStr None :: args' => Some (chars "(null)", 0%nat, args')
    | _ => None
    end
  else if c0 =? PERCENT then Some ([PERCENT], 0%nat, args)
  else Some ([PERCENT; c0], 0%nat, args).

(** The characters [vprintf] gives to [putc]; [pct] is [state == '%'].  Every
    turn takes a character of the format. *)
Fixpoint vformat (n : nat) (pct : bool) (fmt : list Z) (args : list parg) : option (list Z) :=
  match n, fmt with
  | _, [] => Some []
  | O, _ => None
  | S n', c0 :: fmt' =>
      if negb pct then
        if c0 =? PERCENT then vformat n' true fmt' args else cons c0 <$> vformat n' false fmt' args
      else
        let c1 := default 0 (fmt' !! 0%nat) in
        let c2 := default 0 (fmt' !! 1%nat) in
        r ← uconvert c0 c1 c2 args;
        let '(out, skip, args') := r in
        app out <$> vformat n' false (drop skip fmt') args'
  end.

Definition vprintf (fd : Z) (fmt : string) (args : list parg) : prog unit :=
  match vformat (length (chars fmt)) false (chars fmt) args with
  | Some l => peach l (putc fd)
  | None => Stuck
  end.

Definition fprintf (fd : Z) (fmt : string) (args : list parg) : prog unit := vprintf fd fmt args.
Definition printf (fmt : string) (args : list parg) : prog unit := vprintf 1 fmt args.

(** ** Numbers *)

(** The decimal digits of a table of digits. *)
Definition decimal_table (tbl : list Z) : Prop := forall d, 0 <= d < 10 -> tbl !!! Z.to_nat d = 48 + d.

Lemma digit_tables : decimal_table digits /\ decimal_table udigits.
Proof.
  split; intros d Hd; assert (Hc : In d [0; 1; 2; 3; 4; 5; 6; 7; 8; 9]) by (simpl; lia); simpl in Hc;
    repeat (destruct Hc as [<-|Hc]; [reflexivity|]); contradiction.
Qed.

(** The loop ends after as many turns as the number has digits. *)
Lemma digit_loop_length tbl f x base k :
  1 < base -> 0 <= x < base ^ Z.of_nat k -> (0 < k <= f)%nat -> (length (digit_loop tbl f x base) <= k)%nat.
Proof.
  intros Hb. revert x k. induction f as [|f IH]; intros x k Hx Hk; [lia|]. cbn [digit_loop].
  destruct (x / base =? 0) eqn:E; [simpl; lia|]. simpl.
  destruct k as [|[|k]]; [lia| |].
  - exfalso. change (Z.of_nat 1) with 1 in Hx. rewrite Z.pow_1_r in Hx. rewrite Z.div_small in E by lia. lia.
  - assert (H : (length (digit_loop tbl f (x / base) base) <= Datatypes.S k)%nat); [|lia].
    apply IH; [|lia]. split; [apply Z.div_pos; lia|]. apply Z.div_lt_upper_bound; [lia|].
    rewrite <- Z.pow_succ_r by lia. replace (Z.succ (Z.of_nat (Datatypes.S k))) with (Z.of_nat (Datatypes.S (Datatypes.S k))) by lia. apply Hx.
Qed.

Lemma digit_loop_some tbl f x base : (0 < f)%nat -> (0 < length (digit_loop tbl f x base))%nat.
Proof. destruct f; [lia|]. cbn [digit_loop]. destruct (_ =? 0); simpl; lia. Qed.

(** Reading the digits back, least significant first. *)
Fixpoint value (l : list Z) : Z := match l with [] => 0 | c :: l' => (c - 48) + 10 * value l' end.

Lemma digit_loop_value tbl f x k :
  decimal_table tbl -> 0 <= x < 10 ^ Z.of_nat k -> (0 < k <= f)%nat ->
  value (digit_loop tbl f x 10) = x /\ Forall (fun c => 48 <= c <= 57) (digit_loop tbl f x 10).
Proof.
  intros Ht. revert x k. induction f as [|f IH]; intros x k Hx Hk; [lia|]. cbn [digit_loop].
  pose proof (Z.mod_pos_bound x 10 ltac:(lia)) as Hm. pose proof (Z.div_mod x 10 ltac:(lia)) as Hdm.
  rewrite Ht by lia. destruct (x / 10 =? 0) eqn:E.
  - split; [simpl; lia|]. constructor; [lia|constructor].
  - destruct k as [|[|k]]; [lia| |].
    + exfalso. change (Z.of_nat 1) with 1 in Hx. rewrite Z.pow_1_r in Hx. rewrite Z.div_small in E by lia. lia.
    + destruct (IH (x / 10) (Datatypes.S k)) as [IH1 IH2]; [|lia|].
      * split; [apply Z.div_pos; lia|]. apply Z.div_lt_upper_bound; [lia|].
        rewrite <- Z.pow_succ_r by lia.
        replace (Z.succ (Z.of_nat (Datatypes.S k))) with (Z.of_nat (Datatypes.S (Datatypes.S k))) by lia. apply Hx.
      * split; [cbn [value]; lia|]. constructor; [lia|exact IH2].
Qed.

Lemma value_nonneg l : Forall (fun c => 48 <= c <= 57) l -> 0 <= value l.
Proof. induction 1; cbn [value]; lia. Qed.

(** [atoi] computes the value of the digits, most significant first. *)
Lemma atoi_loop_app l1 l2 n :
  Forall (fun c => 48 <= c <= 57) l1 -> atoi_loop n (l1 ++ l2) = atoi_loop (atoi_loop n l1) l2.
Proof.
  intros H. revert n. induction H as [|c l Hc Hl IH]; intros n; [reflexivity|]. cbn [atoi_loop app].
  destruct ((48 <=? c) && (c <=? 57)) eqn:E; [apply IH|lia].
Qed.

Lemma atoi_digits l :
  Forall (fun c => 48 <= c <= 57) l -> value l < 2147483648 -> atoi (rev l) = value l.
Proof.
  unfold atoi. induction 1 as [|c l Hc Hl IH]; intros Hmax; [reflexivity|].
  pose proof (value_nonneg l Hl). cbn [value] in *. simpl rev.
  rewrite atoi_loop_app by (apply Forall_rev; exact Hl). rewrite IH by lia. cbn [atoi_loop].
  destruct ((48 <=? c) && (c <=? 57)) eqn:E; [|lia]. rewrite i32_small by lia. lia.
Qed.

Ltac pow_consts :=
  change (10 ^ Z.of_nat 10) with 10000000000; change (10 ^ Z.of_nat 19) with 10000000000000000000;
  change (10 ^ Z.of_nat 20) with 100000000000000000000;
  change (16 ^ Z.of_nat 19) with 75557863725914323419136; change (16 ^ Z.of_nat 20) with 1208925819614629174706176.

(** ** Claims *)

(** C23: Numbers survive printing and reading.  The decimal digits that
    [printint] prints for a non-negative [int], signed or not, are read back
    by [atoi] as the same number, for the kernel's digits and for the user
    library's. *)
Theorem atoi_printint (n : Z) (sgn : bool) (Hn : 0 <= n < 2147483648) :
  atoi (uprintint_chars n 10 sgn) = n /\ atoi (printint_chars n 10 sgn) = n.
Proof.
  assert (H : forall tbl, decimal_table tbl -> atoi (rev (printint_buf tbl n 10 sgn)) = n).
  { intros tbl Ht. unfold printint_buf.
    assert (Hneg : sgn && (n <? 0) = false) by (destruct sgn; lia). rewrite Hneg, app_nil_r, u64_small by lia.
    destruct (digit_loop_value tbl 64 n 10 Ht) as [Hv Hf]; [pow_consts; lia|lia|].
    rewrite atoi_digits; [exact Hv|exact Hf|lia]. }
  split; apply H, digit_tables.
Qed.

(** [printint] stays within its buffer.  For every 64-bit value, signed or
    unsigned, the digits and the sign stored in [buf] before printing are at most
    20 characters in base 10 and in base 16, so the 20 bytes of [buf] are
    enough in the kernel and in the user library. *)
Theorem printint_fits (tbl : list Z) (xx base : Z) (sgn : bool)
    (Hb : base = 10 \/ base = 16) (Hx : if sgn then -2 ^ 63 <= xx < 2 ^ 63 else 0 <= xx < 2 ^ 64) :
  (0 < length (printint_buf tbl xx base sgn) <= 20)%nat.
Proof.
  unfold printint_buf. change (2 ^ 63) with 9223372036854775808 in Hx. change (2 ^ 64) with 18446744073709551616 in Hx.
  rewrite length_app. split; [pose proof (digit_loop_some tbl 64 (u64 (if sgn && (xx <? 0) then - xx else xx)) base); lia|].
  destruct (sgn && (xx <? 0)) eqn:Es;
    [change (length [45]) with 1%nat|change (length (A := Z) []) with 0%nat].
  - assert (H : (length (digit_loop tbl 64 (u64 (- xx)) base) <= 19)%nat); [|lia].
    destruct sgn; [|discriminate]. apply digit_loop_length; [lia| |lia]. rewrite u64_small by lia.
    destruct Hb as [-> | ->]; pow_consts; lia.
  - assert (H : (length (digit_loop tbl 64 (u64 xx) base) <= 20)%nat); [|lia].
    apply digit_loop_length; [lia| |lia]. pose proof (u64_range xx). destruct Hb as [-> | ->]; pow_consts; lia.
Qed.

Lemma atoi_printint_witness : atoi (uprintint_chars 1024 10 true) = 1024 /\ atoi (printint_chars 1024 10 true) = 1024.
Proof. apply (atoi_printint 1024 true). lia. Defined.

