(* ===== verification/Grep.v ===== *)
(** * The grep program (user/grep.c)

    The regular-expression matcher, the loop that cuts the input into lines,
    and [main].  [match_spec] relates the matcher to the language of the
    expression, [grep_spec] says what the program prints however its input is
    cut by [read]. *)

From S2P Require Import Prelude Mem Cstring Printf Usys Ulib Uprintf.

(** ** The matcher

    A string is the list of its characters. *)
Definition CARET : Z := 94.
Definition DOLLAR : Z := 36.
Definition DOT : Z := 46.
Definition STAR : Z := 42.
Definition NEWLINE : Z := 10.

(** The loop of [matchstar]; [k] is [matchhere(re, _)]. *)
Fixpoint star_loop (c : Z) (k : list Z -> bool) (text : list Z) : bool :=
  if k text then true
  else match text with
       | [] => false
       | t :: text' => if (t =? c) || (c =? DOT) then star_loop c k text' else false
       end.

Fixpoint matchhere (re text : list Z) : bool :=
  match re with
  | [] => true
  | c :: re1 =>
      let plain :=
        if (c =? DOLLAR) && bool_decide (re1 = []) then bool_decide (text = [])
        else match text with
             | t :: text' => if (c =? DOT) || (c =? t) then matchhere re1 text' else false
             | [] => false
             end in
      match re1 with
      | d :: re2 => if d =? STAR then star_loop c (matchhere re2) text else plain
      | [] => plain
      end
  end.

Definition matchstar (c : Z) (re text : list Z) : bool := star_loop c (matchhere re) text.

(** The loop of [match]. *)
Fixpoint match_loop (re text : list Z) : bool :=
  if matchhere re text then true
  else match text with [] => false | _ :: text' => match_loop re text' end.

Definition match_ (re text : list Z) : bool :=
  match re with
  | c :: re' => if c =? CARET then matchhere re' text else match_loop re text
  | [] => match_loop re text
  end.

(** ** The program *)

(** [strchr(p, '\n')]: the text before the newline and after it; a NUL ends
    the search. *)
Fixpoint find_nl (p : list Z) : option (list Z * list Z) :=
  match p with
  | [] => None
  | c :: p' =>
      if c =? 0 then None
      else if c =? NEWLINE then Some ([], p')
      else match find_nl p' with Some (l, r) => Some (c :: l, r) | None => None end
  end.

(** [while((q = strchr(p, '\n')) != 0)]: print the lines that match; what is
    left after the last newline. *)
Fixpoint grep_lines (fuel : nat) (pattern p : list Z) : prog (list Z) :=
  match fuel with
  | O => Stuck
  | S f =>
      match find_nl p with
      | None => Done p
      | Some (line, p') =>
          (if match_ pattern line then sysc (Write 1 (line ++ [NEWLINE])) ;;; Done tt else Done tt) ;;;
          grep_lines f pattern p'
      end
  end.

(** [grep(pattern, fd)] with the [m] bytes [buf] in the buffer; [fuel] bounds
    the number of calls of [read]. *)
Fixpoint grep (fuel : nat) (pattern : list Z) (fd : Z) (buf : list Z) : prog unit :=
  match fuel with
  | O => Stuck
  | S f =>
      let! '(n, d) := sysd (Read fd (1024 - Z.of_nat (length buf) - 1)) in
      if 0 <? n then
        let p := buf ++ d in
        let! rest := grep_lines (S (length p)) pattern p in
        grep f pattern fd rest
      else Done tt
  end.

Definition grep_main (fuel : nat) (argv : list (list Z)) : prog Z :=
  match argv with
  | _ :: pattern :: files =>
      match files with
      | [] => grep fuel pattern 0 [] ;;; Exited 0
      | _ =>
          peach files (fun f =>
            let! fd := sysc (Open f O_RDONLY) in
            if fd <? 0 then
              printf "grep: cannot open %s
" [PStr (Some f)] ;;; Exited 1
            else grep fuel pattern fd [] ;;; sysc (Close fd) ;;; Done tt) ;;;
          Exited 0
      end
  | _ =>
      fprintf 2 "usage: grep pattern [file ...]
" [] ;;; Exited 1
  end.

(** ** The language of an expression *)

Inductive atom := AChr (c : Z) | AAny.
Inductive item := One (a : atom) | Many (a : atom).

Definition sat (a : atom) (t : Z) : Prop := match a with AChr c => t = c | AAny => True end.
Definition atom_of (c : Z) : atom := if c =? DOT then AAny else AChr c.

(** The items of an expression without its [^], and whether it ends in [$]. *)
Fixpoint parse_items (re : list Z) : list item * bool :=
  match re with
  | [] => ([], false)
  | c :: re1 =>
      let one := let '(its, e) := parse_items re1 in (One (atom_of c) :: its, e) in
      match re1 with
      | d :: re2 =>
          if d =? STAR then let '(its, e) := parse_items re2 in (Many (atom_of c) :: its, e) else one
      | [] => if c =? DOLLAR then ([], true) else one
      end
  end.

Definition parse_re (re : list Z) : bool * (list item * bool) :=
  match re with
  | c :: re' => if c =? CARET then (true, parse_items re') else (false, parse_items re)
  | [] => (false, ([], false))
  end.

(** The strings of an item are single characters or repetitions; those of a
    list of items are their concatenations. *)
Definition in_item (i : item) (s : list Z) : Prop :=
  match i with One a => exists t, s = [t] /\ sat a t | Many a => Forall (sat a) s end.
Fixpoint in_items (its : list item) (s : list Z) : Prop :=
  match its with
  | [] => s = []
  | i :: its' => exists s1 s2, s = s1 ++ s2 /\ in_item i s1 /\ in_items its' s2
  end.

(** A prefix of [text] is in the language, all of it if the expression ends
    in [$]. *)
Definition here (p : list item * bool) (text : list Z) : Prop :=
  exists mid post, text = mid ++ post /\ in_items (fst p) mid /\ (snd p = true -> post = []).

Lemma star_loop_spec c k text :
  star_loop c k text = true <-> exists s1 s2, text = s1 ++ s2 /\ Forall (sat (atom_of c)) s1 /\ k s2 = true.
Proof.
  assert (Hs : forall t, sat (atom_of c) t <-> (t =? c) || (c =? DOT) = true).
  { intros t. unfold atom_of. destruct (c =? DOT) eqn:E; simpl; [rewrite orb_true_r|rewrite orb_false_r]; [tauto|lia]. }
  induction text as [|t text IH]; cbn [star_loop].
  - destruct (k []) eqn:Ek.
    + split; [|reflexivity]. intros _. exists [], []. auto.
    + split; [discriminate|]. intros (s1 & s2 & E & _ & Hk). symmetry in E. apply app_eq_nil in E as [-> ->]. congruence.
  - destruct (k (t :: text)) eqn:Ek.
    { split; [|reflexivity]. intros _. exists [], (t :: text). auto. }
    specialize (Hs t). destruct ((t =? c) || (c =? DOT)).
    + rewrite IH. split.
      * intros (s1 & s2 & -> & H1 & H2). exists (t :: s1), s2. split; [reflexivity|]. split; [|exact H2].
        constructor; [by apply Hs|exact H1].
      * intros ([|t' s1] & s2 & E & H1 & H2); simpl in E; [subst; congruence|].
        injection E as -> ->. inversion H1; subst. exists s1, s2. auto.
    + split; [discriminate|]. intros ([|t' s1] & s2 & E & H1 & H2); simpl in E; [subst; congruence|].
      injection E as -> ->. inversion H1; subst. by apply Hs.
Qed.

Lemma here_many a its e text :
  here (Many a :: its, e) text <-> exists s1 s2, text = s1 ++ s2 /\ Forall (sat a) s1 /\ here (its, e) s2.
Proof.
  split.
  - intros (mid & post & -> & (s1 & s2 & -> & H1 & H2) & He). exists s1, (s2 ++ post).
    rewrite app_assoc. split; [reflexivity|]. split; [exact H1|]. exists s2, post. auto.
  - intros (s1 & s2 & -> & H1 & mid & post & -> & H2 & He). exists (s1 ++ mid), post.
    rewrite app_assoc. split; [reflexivity|]. split; [|exact He]. exists s1, mid. auto.
Qed.

Lemma here_one a its e text :
  here (One a :: its, e) text <-> exists t text', text = t :: text' /\ sat a t /\ here (its, e) text'.
Proof.
  split.
  - intros (mid & post & -> & (s1 & s2 & -> & (t & -> & H1) & H2) & He). exists t, (s2 ++ post).
    split; [reflexivity|]. split; [exact H1|]. exists s2, post. auto.
  - intros (t & text' & -> & H1 & mid & post & -> & H2 & He). exists (t :: mid), post.
    split; [reflexivity|]. split; [|exact He]. exists [t], mid. split; [reflexivity|]. split; [|exact H2].
    by exists t.
Qed.

(** The last case of [matchhere]. *)
Lemma plain_spec c re its e text :
  (forall text, matchhere re text = true <-> here (its, e) text) ->
  match text with
  | t :: text' => if (c =? DOT) || (c =? t) then matchhere re text' else false
  | [] => false
  end = true <-> here (One (atom_of c) :: its, e) text.
Proof.
  intros IH. rewrite here_one. destruct text as [|t text].
  { split; [discriminate|]. intros (t & text' & E & _). discriminate. }
  assert (Hs : sat (atom_of c) t <-> (c =? DOT) || (c =? t) = true).
  { unfold atom_of. destruct (c =? DOT) eqn:E; simpl; [tauto|lia]. }
  destruct ((c =? DOT) || (c =? t)).
  - rewrite IH. split.
    + intros H. exists t, text. split; [reflexivity|]. split; [by apply Hs|exact H].
    + intros (t' & text' & E & _ & H). by injection E as <- <-.
  - split; [discriminate|]. intros (t' & text' & E & H & _). injection E as <- <-. by apply Hs.
Qed.

Lemma matchhere_spec n : forall re text, (length re <= n)%nat ->
  matchhere re text = true <-> here (parse_items re) text.
Proof.
  induction n as [|n IH]; intros [|c re] text Hn; simpl in Hn; try lia.
  1, 2: split; [intros _; exists [], text; split; [reflexivity|]; split; [reflexivity|discriminate]|reflexivity].
  cbn [matchhere parse_items]. destruct re as [|d re].
  - rewrite bool_decide_true by reflexivity. rewrite andb_true_r. destruct (c =? DOLLAR).
    + rewrite bool_decide_eq_true. split.
      * intros ->. exists [], []. split; [reflexivity|]. split; reflexivity.
      * intros (mid & post & -> & Hm & Hp). simpl in *. subst. by rewrite Hp.
    + apply (plain_spec c [] [] false). intros text'. apply (IH [] text'). simpl. lia.
  - destruct (d =? STAR) eqn:Ed.
    + assert (IHr : forall t, matchhere re t = true <-> here (parse_items re) t) by (intros t; apply IH; simpl in Hn; lia).
      destruct (parse_items re) as [its e]. rewrite star_loop_spec, here_many. by setoid_rewrite IHr.
    + rewrite bool_decide_false by discriminate. rewrite andb_false_r.
      assert (IHr : forall t, matchhere (d :: re) t = true <-> here (parse_items (d :: re)) t) by (intros t; apply IH; lia).
      destruct (parse_items (d :: re)) as [its e]. by apply plain_spec.
Qed.

Lemma match_loop_spec re text :
  match_loop re text = true <-> exists pre rest, text = pre ++ rest /\ here (parse_items re) rest.
Proof.
  pose proof (fun t => matchhere_spec (length re) re t (Nat.le_refl _)) as Hm.
  induction text as [|t text IH]; cbn [match_loop].
  - specialize (Hm []). destruct (matchhere re []).
    + split; [|reflexivity]. intros _. exists [], []. split; [reflexivity|by apply Hm].
    + split; [discriminate|]. intros (pre & rest & E & H). symmetry in E. apply app_eq_nil in E as [-> ->]. by apply Hm.
  - specialize (Hm (t :: text)). destruct (matchhere re (t :: text)).
    + split; [|reflexivity]. intros _. exists [], (t :: text). split; [reflexivity|by apply Hm].
    + rewrite IH. split.
      * intros (pre & rest & -> & H). by exists (t :: pre), rest.
      * intros ([|t' pre] & rest & E & H); simpl in E; [subst; apply Hm in H; discriminate|].
        injection E as -> ->. by exists pre, rest.
Qed.

(** C19: [match] decides the language of the expression.  It returns 1 exactly
    when the text splits into a part before, a part in the language of the
    expression (characters, [.] for any character, [*] for zero or more of
    the preceding one) and a part after, where [^] forbids a part before and
    a final [$] a part after. *)
Theorem match_spec re text :
  match_ re text = true <->
  let '(start, (its, stop)) := parse_re re in
  exists pre mid post, text = pre ++ mid ++ post /\ in_items its mid /\
    (start = true -> pre = []) /\ (stop = true -> post = []).
Proof.
  unfold match_, parse_re.
  assert (Hloop : match_loop re text = true <->
    let '(its, stop) := parse_items re in exists pre mid post, text = pre ++ mid ++ post /\ in_items its mid /\
      (false = true -> pre = []) /\ (stop = true -> post = [])).
  { rewrite match_loop_spec. destruct (parse_items re) as [its stop]. split.
    - intros (pre & rest & -> & mid & post & -> & H1 & H2). exists pre, mid, post.
      split; [reflexivity|]. split; [exact H1|]. split; [discriminate|exact H2].
    - intros (pre & mid & post & -> & H1 & _ & H2). exists pre, (mid ++ post). split; [reflexivity|]. by exists mid, post. }
  destruct re as [|c re]; [exact Hloop|]. destruct (c =? CARET); [|destruct (parse_items (c :: re)); exact Hloop].
  rewrite (matchhere_spec (length re)) by lia. destruct (parse_items re) as [its stop]. split.
  - intros (mid & post & -> & H1 & H2). exists [], mid, post.
    split; [reflexivity|]. split; [exact H1|]. split; [reflexivity|exact H2].
  - intros (pre & mid & post & -> & H1 & H0 & H2). rewrite H0 by reflexivity. by exists mid, post.
Qed.

(** ** What grep prints *)

Definition unlines (ls : list (list Z)) : list Z := mjoin ((fun l => l ++ [NEWLINE]) <$> ls).
Definition line_ok (l : list Z) : Prop := Forall (fun c => c <> 0 /\ c <> NEWLINE) l.
Definition matching (pattern : list Z) (ls : list (list Z)) : list (list Z) := filter (fun l => match_ pattern l = true) ls.

Lemma find_nl_line l r : line_ok l -> find_nl (l ++ NEWLINE :: r) = Some (l, r).
Proof.
  induction 1 as [|c l [H0 H1] Hl IH]; [reflexivity|]. cbn [find_nl app]. rewrite IH.
  rewrite (proj2 (Z.eqb_neq c 0) H0), (proj2 (Z.eqb_neq c NEWLINE) H1). reflexivity.
Qed.

Lemma find_nl_none l : line_ok l -> find_nl l = None.
Proof.
  induction 1 as [|c l [H0 H1] Hl IH]; [reflexivity|]. cbn [find_nl]. rewrite IH.
  rewrite (proj2 (Z.eqb_neq c 0) H0), (proj2 (Z.eqb_neq c NEWLINE) H1). reflexivity.
Qed.

(** The inner loop prints the complete lines that match. *)
Lemma grep_lines_spec pattern rest ls : forall fuel w,
  Forall line_ok ls -> line_ok rest -> (length ls < fuel)%nat ->
  run stream_calls w (grep_lines fuel pattern (unlines ls ++ rest)) =
  RDone (Stream (inp w) (cuts w) (outp w ++ unlines (matching pattern ls))) rest.
Proof.
  induction ls as [|l ls IH]; intros [|fuel] w Hls Hrest Hf; simpl in Hf; try lia; cbn [grep_lines].
  - simpl. rewrite find_nl_none by exact Hrest. rewrite app_nil_r. by destruct w.
  - inversion Hls as [|? ? Hl Hls']; subst. unfold unlines. cbn [fmap list_fmap mjoin list_join].
    rewrite <- !app_assoc. change ([NEWLINE] ++ ?x) with (NEWLINE :: x). rewrite find_nl_line by exact Hl.
    fold (unlines ls). rewrite run_pbind.
    assert (E : run stream_calls w (if match_ pattern l then sysc (Write 1 (l ++ [NEWLINE])) ;;; Done tt else Done tt) =
      RDone (Stream (inp w) (cuts w) (outp w ++ if match_ pattern l then l ++ [NEWLINE] else [])) tt).
    { destruct (match_ pattern l); [reflexivity|]. rewrite app_nil_r. by destruct w. }
    rewrite E. rewrite IH by (auto; lia). cbn [inp cuts outp]. rewrite <- app_assoc. do 3 f_equal.
    unfold matching. rewrite filter_cons. destruct (match_ pattern l); [|reflexivity].
    rewrite decide_True by reflexivity. reflexivity.
Qed.

Lemma unlines_cons l ls : unlines (l :: ls) = l ++ NEWLINE :: unlines ls.
Proof. unfold unlines. cbn [fmap list_fmap mjoin list_join]. by rewrite <- app_assoc. Qed.

Lemma unlines_app l1 l2 : unlines (l1 ++ l2) = unlines l1 ++ unlines l2.
Proof. unfold unlines. by rewrite fmap_app, join_app. Qed.

Lemma unlines_length ls : (length ls <= length (unlines ls))%nat.
Proof. induction ls as [|l ls IH]; [simpl; lia|]. rewrite unlines_cons, length_app. simpl. lia. Qed.

(** Any cut through a text of complete lines is inside one line. *)
Lemma unlines_cut ls : forall p q, Forall line_ok ls -> p ++ q = unlines ls ->
  exists ls1 ls2 rest, ls = ls1 ++ ls2 /\ p = unlines ls1 ++ rest /\ line_ok rest /\ rest ++ q = unlines ls2.
Proof.
  induction ls as [|l ls IH]; intros p q Hls E.
  { apply app_eq_nil in E as [-> ->]. exists [], [], []. repeat split. constructor. }
  inversion Hls as [|? ? Hl Hls']; subst. rewrite unlines_cons in E.
  assert (Hin : forall x, l = p ++ x -> exists ls1 ls2 rest, l :: ls = ls1 ++ ls2 /\ p = unlines ls1 ++ rest /\
    line_ok rest /\ rest ++ q = unlines ls2).
  { intros x ->. exists [], ((p ++ x) :: ls), p. split; [reflexivity|]. split; [reflexivity|].
    split; [by apply Forall_app in Hl as [? _]|]. by rewrite unlines_cons. }
  apply app_eq_inv in E as [(x & -> & E)|(x & -> & E)]; [|by apply (Hin x)].
  destruct x as [|c x]; [apply (Hin []); by rewrite !app_nil_r|]. injection E as <- E.
  destruct (IH x q Hls' (eq_sym E)) as (ls1 & ls2 & rest & -> & -> & Hr & Eq).
  exists (l :: ls1), ls2, rest. rewrite unlines_cons, <- app_assoc. auto.
Qed.

(** A piece without a newline at the start of complete lines is part of the
    first line. *)
Lemma unlines_short ls buf q k :
  Forall (fun l => (length l <= k)%nat) ls -> line_ok buf -> buf ++ q = unlines ls -> q <> [] -> (length buf <= k)%nat.
Proof.
  intros Hk Hb E Hq. destruct ls as [|l ls]; [apply app_eq_nil in E as [_ ->]; contradiction|].
  inversion Hk; subst. rewrite unlines_cons in E. apply app_eq_inv in E as [(x & -> & E)|(x & -> & E)].
  - destruct x as [|c x]; [rewrite app_nil_r; auto|]. injection E as <- E. apply Forall_app in Hb as [_ Hb].
    inversion Hb; subst. tauto.
  - rewrite length_app in *. lia.
Qed.

(** C20: grep prints the matching lines.  On an input of complete lines
    without NUL, of at most 1022 characters each, however [read] cuts it into pieces, [grep] ends and
    has printed exactly the lines that [match] accepts, in order, each with
    its newline. *)
Theorem grep_spec pattern fd ls ks out
    (Hok : Forall line_ok ls) (Hlen : Forall (fun l => (length l <= 1022)%nat) ls) :
  exists ks', run stream_calls (Stream (unlines ls) ks out) (grep (S (length (unlines ls))) pattern fd []) =
    RDone (Stream [] ks' (out ++ unlines (matching pattern ls))) tt.
Proof.
  assert (H : forall fuel ls buf q ks out, Forall line_ok ls -> Forall (fun l => (length l <= 1022)%nat) ls ->
    line_ok buf -> buf ++ q = unlines ls -> (length q < fuel)%nat ->
    exists ks', run stream_calls (Stream q ks out) (grep fuel pattern fd buf) =
      RDone (Stream [] ks' (out ++ unlines (matching pattern ls))) tt); [|apply (H _ ls []); auto; constructor].
  clear. induction fuel as [|fuel IH]; intros ls buf q ks out Hok Hlen Hbuf E Hf; [lia|].
  cbn [grep]. rewrite run_pbind. cbn [sysd run stream_calls inp cuts outp].
  set (k := Nat.min _ _). destruct q as [|c q].
  { rewrite take_nil, drop_nil. simpl. rewrite app_nil_r in E. subst buf.
    assert (ls = []) as ->; [|simpl; rewrite app_nil_r; eauto].
    destruct ls as [|l ls]; [reflexivity|]. rewrite unlines_cons in Hbuf. apply Forall_app in Hbuf as [_ Hb].
    inversion Hb; subst. tauto. }
  pose proof (unlines_short ls buf (c :: q) 1022 Hlen Hbuf E ltac:(discriminate)) as Hroom.
  assert (Hk : (0 < k)%nat) by (unfold k; lia). 
  assert (Hn : (0 <? Z.of_nat (length (take k (c :: q)))) = true) by (rewrite length_take; simpl; lia).
  rewrite Hn. rewrite <- (take_drop k (c :: q)), app_assoc in E.
  destruct (unlines_cut ls _ _ Hok E) as (ls1 & ls2 & rest & -> & Ep & Hrest & Eq). rewrite Ep.
  apply Forall_app in Hok as [Hok1 Hok2]. apply Forall_app in Hlen as [_ Hlen2].
  rewrite run_pbind, grep_lines_spec; auto; [|rewrite length_app; pose proof (unlines_length ls1); lia].
  cbn [inp cuts outp]. destruct (IH ls2 rest (drop k (c :: q)) (tl ks) (out ++ unlines (matching pattern ls1))) as (ks' & Er); auto.
  { rewrite length_drop. simpl in *. lia. }
  exists ks'. rewrite Er. unfold matching. by rewrite filter_app, unlines_app, app_assoc.
Qed.

Lemma grep_spec_witness : exists ks',
  run stream_calls (Stream (unlines [[97; 98]; [98]; [99; 97]]) [2%nat; 3%nat] [])
    (grep (S (length (unlines [[97; 98]; [98]; [99; 97]]))) [97; 36] 0 []) =
  RDone (Stream [] ks' [99; 97; 10]) tt.
Proof.
  destruct (grep_spec [97; 36] 0 [[97; 98]; [98]; [99; 97]] [2%nat; 3%nat] []) as (ks' & E);
    [repeat constructor; discriminate|repeat constructor; simpl; lia|].
  exists ks'. exact E.
Defined.
