(* ===== verification/Uprogs.v ===== *)
(** * Small user programs

    user/cat.c, echo.c, wc.c, ls.c, mkdir.c, rm.c, ln.c, kill.c, init.c and
    zombie.c.  The first argument [fuel] bounds the calls of [read] (or, for
    init, the shells started and the children waited for).  The lemmas at the
    end are about [cat] and [wc] on a file that [read] cuts into arbitrary
    pieces. *)

From S2P Require Import Prelude Mem Cstring Printf Usys Ulib Uprintf.

(** ** cat.c *)

Fixpoint cat (fuel : nat) (fd : Z) : prog unit :=
  match fuel with
  | O => Stuck
  | S f =>
      let! '(n, d) := sysd (Read fd 512) in
      if 0 <? n then
        let! w := sysc (Write 1 d) in
        if negb (w =? n) then
          fprintf 2 "cat: write error
" [] ;;; Exited 1
        else cat f fd
      else if n <? 0 then
        fprintf 2 "cat: read error
" [] ;;; Exited 1
      else Done tt
  end.

Definition cat_main (fuel : nat) (argv : list (list Z)) : prog Z :=
  match tl argv with
  | [] => cat fuel 0 ;;; Exited 0
  | files =>
      peach files (fun f =>
        let! fd := sysc (Open f O_RDONLY) in
        if fd <? 0 then
          fprintf 2 "cat: cannot open %s
" [PStr (Some f)] ;;; Exited 1
        else cat fuel fd ;;; sysc (Close fd) ;;; Done tt) ;;;
      Exited 0
  end.

(** ** echo.c *)

Fixpoint echo_args (args : list (list Z)) : prog unit :=
  match args with
  | [] => Done tt
  | a :: rest =>
      sysc (Write 1 a) ;;;
      sysc (Write 1 (match rest with [] => [10] | _ => [32] end)) ;;;
      echo_args rest
  end.
Definition echo_main (argv : list (list Z)) : prog Z := echo_args (tl argv) ;;; Exited 0.

(** ** wc.c *)

Record counts := Counts { wc_l : Z; wc_w : Z; wc_c : Z; wc_inword : bool }.

(** [strchr(" \r\t\n\v", c)]: a NUL is not found. *)
Definition is_blank (c : Z) : bool := match strchr [32; 13; 9; 10; 11] c with Some _ => true | None => false end.

(** The body of the loop over [buf], for the character [c]. *)
Definition wc_char (s : counts) (c : Z) : counts :=
  let l := if c =? 10 then i32 (wc_l s + 1) else wc_l s in
  let n := i32 (wc_c s + 1) in
  if is_blank c then Counts l (wc_w s) n false
  else if negb (wc_inword s) then Counts l (i32 (wc_w s + 1)) n true
  else Counts l (wc_w s) n (wc_inword s).

Fixpoint wc_loop (fuel : nat) (fd : Z) (s : counts) : prog counts :=
  match fuel with
  | O => Stuck
  | S f =>
      let! '(n, d) := sysd (Read fd 512) in
      if 0 <? n then wc_loop f fd (fold_left wc_char d s)
      else if n <? 0 then
        printf "wc: read error
" [] ;;; Exited 1
      else Done s
  end.

Definition wc (fuel : nat) (fd : Z) (name : list Z) : prog unit :=
  let! s := wc_loop fuel fd (Counts 0 0 0 false) in
  printf "%d %d %d %s
" [PInt (wc_l s); PInt (wc_w s); PInt (wc_c s); PStr (Some name)].

Definition wc_main (fuel : nat) (argv : list (list Z)) : prog Z :=
  match tl argv with
  | [] => wc fuel 0 [] ;;; Exited 0
  | files =>
      peach files (fun f =>
        let! fd := sysc (Open f O_RDONLY) in
        if fd <? 0 then
          printf "wc: cannot open %s
" [PStr (Some f)] ;;; Exited 1
        else wc fuel fd f ;;; sysc (Close fd) ;;; Done tt) ;;;
      Exited 0
  end.

(** ** ls.c *)

Definition DIRSIZ : Z := 14.

(** The part of the path after its last slash. *)
Definition basename (path : list Z) : list Z :=
  fold_left (fun acc c => if c =? 47 then [] else acc ++ [c]) path [].

(** [fmtname(path)], padded with blanks. *)
Definition fmtname (path : list Z) : list Z :=
  let p := basename path in
  if DIRSIZ <=? strlen p then p
  else p ++ replicate (Z.to_nat (DIRSIZ - strlen p)) 32.

(** The fields of [struct stat] as [Fstat] gives them. *)
Definition st_ino (st : list Z) : Z := st !!! 1%nat.
Definition st_type (st : list Z) : Z := st !!! 2%nat.
Definition st_size (st : list Z) : Z := st !!! 4%nat.

Definition ls_line (path st : list Z) : prog unit :=
  printf "%s %d %d %d
" [PStr (Some (fmtname path)); PInt (st_type st); PInt (st_ino st); PInt (i32 (st_size st))].

(** [while(read(fd, &de, sizeof(de)) == sizeof(de))] with [buf] the path and
    a slash. *)
Fixpoint ls_dir (fuel : nat) (fd : Z) (buf : list Z) : prog unit :=
  match fuel with
  | O => Stuck
  | S f =>
      let! '(n, de) := sysd (Read fd 16) in
      if negb (n =? 16) then Done tt
      else
        let inum := de !!! 0%nat + 256 * de !!! 1%nat in
        (if inum =? 0 then Done tt
         else
           let path := buf ++ ctake (drop 2 de) in
           let! '(r, st) := stat path in
           if r <? 0 then printf "ls: cannot stat %s
" [PStr (Some path)]
           else ls_line path st) ;;;
        ls_dir f fd buf
  end.

Definition ls (fuel : nat) (path : list Z) : prog unit :=
  let! fd := sysc (Open path O_RDONLY) in
  if fd <? 0 then fprintf 2 "ls: cannot open %s
" [PStr (Some path)]
  else
    let! '(r, st) := sysd (Fstat fd) in
    if r <? 0 then
      fprintf 2 "ls: cannot stat %s
" [PStr (Some path)] ;;;
      sysc (Close fd) ;;; Done tt
    else
      (if (st_type st =? 3) || (st_type st =? 2) then ls_line path st
       else if st_type st =? 1 then
         if 512 <? strlen path + 1 + DIRSIZ + 1 then printf "ls: path too long
" []
         else ls_dir fuel fd (path ++ [47])
       else Done tt) ;;;
      sysc (Close fd) ;;; Done tt.

Definition ls_main (fuel : nat) (argv : list (list Z)) : prog Z :=
  match tl argv with
  | [] => ls fuel (chars ".") ;;; Exited 0
  | paths => peach paths (ls fuel) ;;; Exited 0
  end.

(** ** mkdir.c, rm.c: stop at the first failure *)

Fixpoint until_failure (args : list (list Z)) (call : list Z -> sys) (msg : string) : prog unit :=
  match args with
  | [] => Done tt
  | a :: rest =>
      let! r := sysc (call a) in
      if r <? 0 then fprintf 2 msg [PStr (Some a)] else until_failure rest call msg
  end.

Definition mkdir_main (argv : list (list Z)) : prog Z :=
  match tl argv with
  | [] =>
      fprintf 2 "Usage: mkdir files...
" [] ;;; Exited 1
  | files =>
      until_failure files Mkdir "mkdir: %s failed to create
" ;;;
      Exited 0
  end.

Definition rm_main (argv : list (list Z)) : prog Z :=
  match tl argv with
  | [] =>
      fprintf 2 "Usage: rm files...
" [] ;;; Exited 1
  | files =>
      until_failure files Unlink "rm: %s failed to delete
" ;;;
      Exited 0
  end.

(** ** ln.c, kill.c *)

Definition ln_main (argv : list (list Z)) : prog Z :=
  match argv with
  | [_; old; new] =>
      let! r := sysc (Link old new) in
      (if r <? 0 then fprintf 2 "link %s %s: failed
" [PStr (Some old); PStr (Some new)] else Done tt) ;;;
      Exited 0
  | _ =>
      fprintf 2 "Usage: ln old new
" [] ;;; Exited 1
  end.

Definition kill_main (argv : list (list Z)) : prog Z :=
  match tl argv with
  | [] =>
      fprintf 2 "usage: kill pid...
" [] ;;; Exited 1
  | pids => peach pids (fun p => sysc (Kill (atoi p)) ;;; Done tt) ;;; Exited 0
  end.

(** ** init.c *)

Definition CONSOLE : Z := 1.

(** The inner loop: wait until the shell [pid] exits. *)
Fixpoint init_wait (fuel : nat) (pid : Z) : prog unit :=
  match fuel with
  | O => Stuck
  | S f =>
      let! wpid := sysc Wait in
      if wpid =? pid then Done tt
      else if wpid <? 0 then
        printf "init: wait returned an error
" [] ;;; Exited 1
      else init_wait f pid
  end.

Fixpoint init_loop (fuel : nat) : prog unit :=
  match fuel with
  | O => Stuck
  | S f =>
      printf "init: starting sh
" [] ;;;
      let! pid := sysc Fork in
      if pid <? 0 then
        printf "init: fork failed
" [] ;;; Exited 1
      else if pid =? 0 then
        sysc (Exec (chars "sh") [chars "sh"]) ;;;
        printf "init: exec sh failed
" [] ;;; Exited 1
      else init_wait f pid ;;; init_loop f
  end.

Definition init_main (fuel : nat) : prog unit :=
  let! fd := sysc (Open (chars "console") O_RDWR) in
  (if fd <? 0 then
     sysc (Mknod (chars "console") CONSOLE 0) ;;;
     sysc (Open (chars "console") O_RDWR) ;;; Done tt
   else Done tt) ;;;
  sysc (Dup 0) ;;;
  sysc (Dup 0) ;;;
  init_loop fuel.

(** ** zombie.c *)

Definition zombie_main : prog Z :=
  let! pid := sysc Fork in
  (if 0 <? pid then sysc (Pause 5) ;;; Done tt else Done tt) ;;;
  Exited 0.

(** ** What wc counts *)

(** The pieces of a text between blanks, empty ones included; the words are
    the others. *)
Fixpoint pieces (l : list Z) : list (list Z) :=
  match l with
  | [] => [[]]
  | c :: l' =>
      if is_blank c then [] :: pieces l'
      else match pieces l' with p :: ps => (c :: p) :: ps | [] => [[c]] end
  end.
Definition words (l : list Z) : list (list Z) := filter (fun p => p <> []) (pieces l).

(** The text starts inside a word. *)
Definition starts_word (l : list Z) : bool := match l with c :: _ => negb (is_blank c) | [] => false end.

Lemma words_cons c l :
  Z.of_nat (length (words (c :: l))) =
  Z.of_nat (length (words l)) + (if is_blank c then 0 else if starts_word l then 0 else 1).
Proof.
  unfold words. cbn [pieces]. destruct (is_blank c) eqn:Ec; [rewrite filter_cons_False by auto; lia|].
  destruct l as [|d l]; [reflexivity|]. cbn [pieces starts_word]. destruct (is_blank d) eqn:Ed.
  - simpl negb. rewrite (filter_cons_True _ [c]) by discriminate. rewrite filter_cons_False by auto. simpl. lia.
  - simpl negb. destruct (pieces l) as [|p ps]; cbv iota beta; rewrite !filter_cons_True by discriminate; simpl; lia.
Qed.

Lemma words_bound l : Z.of_nat (length (words l)) <= Z.of_nat (length l).
Proof. induction l as [|c l IH]; [simpl; lia|]. rewrite words_cons. simpl length. repeat case_match; lia. Qed.

Definition newlines (l : list Z) : Z := Z.of_nat (length (filter (fun c => c = 10) l)).

Lemma newlines_cons c l : newlines (c :: l) = (if c =? 10 then 1 else 0) + newlines l.
Proof.
  unfold newlines. rewrite filter_cons. destruct (c =? 10) eqn:E; destruct (decide (c = 10)); try lia. simpl length. lia.
Qed.

(** The counters after a text, from any state of the counters. *)
Lemma wc_fold l : forall s,
  0 <= wc_l s -> 0 <= wc_w s -> 0 <= wc_c s ->
  wc_l s + Z.of_nat (length l) < 2147483648 -> wc_w s + Z.of_nat (length l) < 2147483648 ->
  wc_c s + Z.of_nat (length l) < 2147483648 ->
  let s' := fold_left wc_char l s in
  wc_l s' = wc_l s + newlines l /\ wc_c s' = wc_c s + Z.of_nat (length l) /\
  wc_w s' = wc_w s + Z.of_nat (length (words l)) - (if wc_inword s && starts_word l then 1 else 0).
Proof.
  induction l as [|c l IH]; intros s H1 H2 H3 H4 H5 H6; simpl length in *.
  { cbn. rewrite andb_false_r. unfold newlines. simpl. lia. }
  cbn [fold_left]. destruct (IH (wc_char s c)) as (E1 & E2 & E3); clear IH;
    [unfold wc_char; repeat case_match; simpl; rewrite ?i32_small; lia..|].
  cbv zeta. rewrite E1, E2, E3, words_cons, newlines_cons. clear E1 E2 E3. unfold wc_char. cbn [starts_word].
  destruct s as [a w n iw]. simpl in *. destruct (is_blank c), iw, (c =? 10), (starts_word l); simpl; rewrite ?i32_small; lia.
Qed.

(** C21: wc counts lines, words and characters.  On a text of less than 2^31
    characters, however [read] cuts it into pieces, the loop of wc ends with
    the number of newlines, the number of maximal runs of non-blank
    characters and the number of characters. *)
Theorem wc_spec fd text ks out (Hlen : Z.of_nat (length text) < 2147483648) :
  exists ks' s, run stream_calls (Stream text ks out) (wc_loop (S (length text)) fd (Counts 0 0 0 false)) =
    RDone (Stream [] ks' out) s /\
    wc_l s = newlines text /\ wc_w s = Z.of_nat (length (words text)) /\ wc_c s = Z.of_nat (length text).
Proof.
  assert (H : forall f text ks s, (length text < f)%nat -> exists ks',
    run stream_calls (Stream text ks out) (wc_loop f fd s) = RDone (Stream [] ks' out) (fold_left wc_char text s)).
  { clear. induction f as [|f IH]; intros text ks s Hf; [lia|]. cbn [wc_loop]. rewrite run_pbind.
    cbn [sysd run stream_calls inp cuts outp]. set (k := Nat.min _ _). assert (Hk : (0 < k)%nat) by (unfold k; lia).
    destruct text as [|c text].
    { rewrite take_nil, drop_nil. simpl. eauto. }
    destruct k as [|k]; [lia|]. cbn [take drop length]. destruct (0 <? Z.of_nat _) eqn:E; [|lia].
    destruct (IH (drop k text) (tl ks) (fold_left wc_char (c :: take k text) s)) as (ks' & Er).
    { rewrite length_drop. simpl in Hf. lia. }
    exists ks'. rewrite Er. rewrite <- fold_left_app. f_equal. simpl app. by rewrite take_drop. }
  destruct (H (S (length text)) text ks (Counts 0 0 0 false)) as (ks' & E); [lia|].
  destruct (wc_fold text (Counts 0 0 0 false)) as (E1 & E2 & E3); simpl; try lia.
  exists ks'. eexists. split; [exact E|]. simpl in *. lia.
Qed.

Lemma wc_spec_witness : exists ks' s,
  run stream_calls (Stream (chars "ab  c d") [3%nat] []) (wc_loop 8 0 (Counts 0 0 0 false)) = RDone (Stream [] ks' []) s /\
  wc_w s = 3.
Proof.
  destruct (wc_spec 0 (chars "ab  c d") [3%nat] [] ltac:(simpl; lia)) as (ks' & s & E & _ & Hw & _).
  exists ks', s. split; [exact E|]. rewrite Hw. reflexivity.
Defined.
