(* ===== verification/Utests.v ===== *)
(** * Test programs (user/forktest.c, stressfs.c, logstress.c, forphan.c,
      dorphan.c, grind.c)

    The programs that exercise the kernel, as trees of system calls.  The
    first argument [fuel] bounds the loops that never end ([for(;;)] and
    [while(1)]).  The theorems are about the random numbers of grind, which
    are those of the Park-Miller generator, and about forktest, which
    succeeds on every system whose [fork] fails at some point. *)

From S2P Require Import Prelude Mem Cstring Printf Usys Ulib Uprintf.

Definition NL : list Z := [10].
Definition O_CREATE_RDWR : Z := Z.lor O_CREATE O_RDWR.

(** ** forktest.c *)

Definition print (s : list Z) : prog unit := sysc (Write 1 s) ;;; Done tt.

(** [for(n=0; n<N; n++)], with [k] turns to go: the final [n]. *)
Fixpoint fork_loop (k : nat) (n : Z) : prog Z :=
  match k with
  | O => Done n
  | S k' =>
      let! pid := sysc Fork in
      if pid <? 0 then Done n
      else if pid =? 0 then Exited 0
      else fork_loop k' (n + 1)
  end.

(** [for(; n > 0; n--)] *)
Fixpoint wait_loop (n : nat) : prog unit :=
  match n with
  | O => Done tt
  | S n' =>
      let! r := sysc Wait in
      if r <? 0 then print (chars "wait stopped early" ++ NL) ;;; Exited 1
      else wait_loop n'
  end.

Definition forktest : prog unit :=
  print (chars "fork test" ++ NL) ;;;
  let! n := fork_loop 1000 0 in
  if n =? 1000 then print (chars "fork claimed to work N times!" ++ NL) ;;; Exited 1
  else
    wait_loop (Z.to_nat n) ;;;
    let! r := sysc Wait in
    if negb (r =? -1) then print (chars "wait got too many" ++ NL) ;;; Exited 1
    else print (chars "fork test OK" ++ NL).

Definition forktest_main : prog Z := forktest ;;; Exited 0.

(** ** stressfs.c *)

(** [for(i = 0; i < 4; i++) if(fork() > 0) break;]: the final [i]. *)
Fixpoint stress_fork (k : nat) (i : Z) : prog Z :=
  match k with
  | O => Done i
  | S k' => let! r := sysc Fork in if 0 <? r then Done i else stress_fork k' (i + 1)
  end.

Definition stressfs_main : prog Z :=
  printf "stressfs starting
" [] ;;;
  let data := replicate 512 97 in
  let! i := stress_fork 4 0 in
  printf "write %d
" [PInt i] ;;;
  let path := chars "stressfs" ++ [u8 (48 + i)] in
  let! fd := sysc (Open path O_CREATE_RDWR) in
  peach (seq 0 20) (fun _ => sysc (Write fd data) ;;; Done tt) ;;;
  sysc (Close fd) ;;;
  printf "read
" [] ;;;
  let! fd := sysc (Open path O_RDONLY) in
  peach (seq 0 20) (fun _ => sysc (Read fd 512) ;;; Done tt) ;;;
  sysc (Close fd) ;;;
  sysc Wait ;;;
  Exited 0.

(** ** logstress.c

    [memset] and [write] use the first 2000 bytes from [buf], which is
    declared with 500; the model takes the memory behind it to be writable. *)

(** The child that writes file [f], the argument number [i]. *)
Definition logstress_child (s : option (list Z)) (f : list Z) (i : Z) : prog unit :=
  let! fd := sysc (Open f O_CREATE_RDWR) in
  if fd <? 0 then
    printf "%s: create %s failed
" [PStr s; PStr (Some f)] ;;; Exited 1
  else
    peach (seq 0 250) (fun _ =>
      let! n := sysc (Write fd (replicate 2000 (u8 (48 + i)))) in
      if negb (n =? 2000) then
        printf "write failed %d
" [PInt n] ;;; Exited 1
      else Done tt) ;;;
    Exited 0.

Fixpoint logstress_fork (s : option (list Z)) (files : list (list Z)) (i : Z) : prog unit :=
  match files with
  | [] => Done tt
  | f :: rest =>
      let! pid1 := sysc Fork in
      if pid1 <? 0 then printf "%s: fork failed
" [PStr s] ;;; Exited 1
      else if pid1 =? 0 then logstress_child s f i
      else logstress_fork s rest (i + 1)
  end.

(** The second loop; [x] is the contents of [xstatus]. *)
Fixpoint logstress_wait (k : nat) (x : Z) : prog unit :=
  match k with
  | O => Done tt
  | S k' =>
      let! '(_, d) := sysd Wait in
      let x := default x (head d) in
      if negb (x =? 0) then Exited x else logstress_wait k' x
  end.

Definition logstress_main (x : Z) (argv : list (list Z)) : prog Z :=
  logstress_fork (head argv) (tl argv) 1 ;;;
  logstress_wait (length (tl argv)) x ;;;
  Done 0.

(** ** forphan.c and dorphan.c *)

(** [for(;;) pause(1000);] *)
Definition pause_forever (fuel : nat) : prog Z :=
  peach (seq 0 fuel) (fun _ => sysc (Pause 1000) ;;; Done tt) ;;; Stuck.

Definition forphan_main (fuel : nat) (argv : list (list Z)) : prog Z :=
  let s := PStr (head argv) in
  let ff := chars "file0" in
  let! fd := sysc (Open ff (Z.lor O_CREATE O_WRONLY)) in
  if fd <? 0 then printf "%s: open failed
" [s] ;;; Exited 1
  else
    let! '(r, st) := sysd (Fstat fd) in
    if r <? 0 then fprintf 2 "%s: cannot stat %s
" [s; PStr (Some (chars "ff"))] ;;; Exited 1
    else
      let! r := sysc (Unlink ff) in
      if r <? 0 then printf "%s: unlink failed
" [s] ;;; Exited 1
      else
        let! r := sysc (Open ff O_RDONLY) in
        if negb (r =? -1) then printf "%s: open successed
" [s] ;;; Exited 1
        else
          printf "wait for kill and reclaim %d
" [PInt (st !!! 1%nat)] ;;;
          pause_forever fuel.

Definition dorphan_main (fuel : nat) (argv : list (list Z)) : prog Z :=
  let s := PStr (head argv) in
  let! r := sysc (Mkdir (chars "dd")) in
  if negb (r =? 0) then printf "%s: mkdir dd failed
" [s] ;;; Exited 1
  else
    let! r := sysc (Chdir (chars "dd")) in
    if negb (r =? 0) then printf "%s: chdir dd failed
" [s] ;;; Exited 1
    else
      let! r := sysc (Unlink (chars "../dd")) in
      if r <? 0 then printf "%s: unlink failed
" [s] ;;; Exited 1
      else
        printf "wait for kill and reclaim
" [] ;;;
        pause_forever fuel.

(** ** grind.c *)

(** [do_rand(ctx)]: the new [*ctx], and the result as [int]. *)
Definition do_rand (ctx : Z) : Z * Z :=
  let x := ctx mod 0x7ffffffe + 1 in
  let hi := Z.quot x 127773 in
  let lo := Z.rem x 127773 in
  let x := 16807 * lo - 2836 * hi in
  let x := if x <? 0 then x + 0x7fffffff else x in
  let x := x - 1 in
  (u64 x, i32 x).

(** The variables of [go] that live across turns of its loop: [fd], the array
    [buf] and the variable [rand_next]. *)
Record gst := Gst { g_fd : Z; g_buf : list Z; g_rand : Z }.
#[global] Instance eta_gst : Eta gst := fun r => Gst (g_fd r) (g_buf r) (g_rand r).

(** [printf] or [fprintf], then [exit]. *)
Definition die {A} (fd : Z) (msg : string) (n : Z) : prog A := fprintf fd msg [] ;;; Exited n.

(** [close(open(path, O_CREATE|O_RDWR))] *)
Definition touch (path : string) : prog unit :=
  let! fd := sysc (Open (chars path) O_CREATE_RDWR) in sysc (Close fd) ;;; Done tt.

(** [pid = fork(); if(pid == 0){ child } else if(pid < 0){ message, exit(n) }]:
    the pid, in the parent. *)
Definition fork_or_die {A} (fd n : Z) (child : prog A) : prog Z :=
  let! pid := sysc Fork in
  if pid =? 0 then child ;;; Exited 0
  else if pid <? 0 then die fd "grind: fork failed
" n
  else Done pid.

Definition grind_pipe_child (fds : list Z) : prog unit :=
  sysc Fork ;;; sysc Fork ;;;
  let! n := sysc (Write (fds !!! 1%nat) (chars "x")) in
  (if negb (n =? 1) then printf "grind: pipe write failed
" [] else Done tt) ;;;
  let! n := sysc (Read (fds !!! 0%nat) 1) in
  if negb (n =? 1) then printf "grind: pipe read failed
" [] else Done tt.

(** Case 21: there must be free i-nodes, descriptors and blocks. *)
Definition grind_create : prog unit :=
  sysc (Unlink (chars "c")) ;;;
  let! fd1 := sysc (Open (chars "c") O_CREATE_RDWR) in
  if fd1 <? 0 then die 1 "grind: create c failed
" 1
  else
    let! n := sysc (Write fd1 (chars "x")) in
    if negb (n =? 1) then die 1 "grind: write c failed
" 1
    else
      let! '(r, st) := sysd (Fstat fd1) in
      if negb (r =? 0) then die 1 "grind: fstat failed
" 1
      else if negb (st !!! 4%nat =? 1) then
        printf "grind: fstat reports wrong size %d
" [PInt (i32 (st !!! 4%nat))] ;;; Exited 1
      else if 200 <? st !!! 1%nat then
        printf "grind: fstat reports crazy i-number %d
" [PInt (st !!! 1%nat)] ;;; Exited 1
      else sysc (Close fd1) ;;; sysc (Unlink (chars "c")) ;;; Done tt.

(** The format [s] between double quotes, at the end of a line. *)
Definition quoted (s : string) : string := String (Ascii.ascii_of_nat 34) (String.append s (String (Ascii.ascii_of_nat 34) "
")).

(** [close(fd); if(dup(from) != fd) ...; close(from)] in a child. *)
Definition redirect (fd from n : Z) : prog unit :=
  sysc (Close fd) ;;;
  let! r := sysc (Dup from) in
  if negb (r =? fd) then die 2 "grind: dup failed
" n
  else sysc (Close from) ;;; Done tt.

(** Case 22: [echo hi | cat].  [u1] and [u2] are in [st1] and [st2] before
    the calls of [wait]. *)
Definition grind_pipeline (u1 u2 : Z) : prog unit :=
  let! '(r, aa) := sysd Pipe in
  if r <? 0 then die 2 "grind: pipe failed
" 1
  else
    let! '(r, bb) := sysd Pipe in
    if r <? 0 then die 2 "grind: pipe failed
" 1
    else
      let aa0 := aa !!! 0%nat in let aa1 := aa !!! 1%nat in
      let bb0 := bb !!! 0%nat in let bb1 := bb !!! 1%nat in
      fork_or_die 2 3
        (sysc (Close bb0) ;;; sysc (Close bb1) ;;; sysc (Close aa0) ;;;
         redirect 1 aa1 1 ;;;
         sysc (Exec (chars "grindir/../echo") [chars "echo"; chars "hi"]) ;;;
         @die unit 2 "grind: echo: not found
" 2) ;;;
      fork_or_die 2 7
        (sysc (Close aa1) ;;; sysc (Close bb0) ;;;
         redirect 0 aa0 4 ;;;
         redirect 1 bb1 5 ;;;
         sysc (Exec (chars "/cat") [chars "cat"]) ;;;
         @die unit 2 "grind: cat: not found
" 6) ;;;
      sysc (Close aa0) ;;; sysc (Close aa1) ;;; sysc (Close bb1) ;;;
      let! '(_, b0) := sysd (Read bb0 1) in
      let! '(_, b1) := sysd (Read bb0 1) in
      let! '(_, b2) := sysd (Read bb0 1) in
      let buf := ctake (default 0 <$> [head b0; head b1; head b2]) in
      sysc (Close bb0) ;;;
      let! '(_, d1) := sysd Wait in
      let! '(_, d2) := sysd Wait in
      let st1 := default u1 (head d1) in
      let st2 := default u2 (head d2) in
      if negb (st1 =? 0) || negb (st2 =? 0) || negb (strcmp buf (chars "hi" ++ NL) =? 0) then
        printf (String.append "grind: exec pipeline failed %d %d " (quoted "%s")) [PInt st1; PInt st2; PStr (Some buf)] ;;; Exited 1
      else Done tt.

(** The body of the loop of [go], for the random number [what]: the new [fd]
    and [buf]. *)
Definition grind_op (what break0 u1 u2 : Z) (s : gst) : prog gst :=
  let fd := g_fd s in
  let keep {A} (m : prog A) : prog gst := m ;;; Done s in
  if what =? 1 then keep (touch "grindir/../a")
  else if what =? 2 then keep (touch "grindir/../grindir/../b")
  else if what =? 3 then keep (sysc (Unlink (chars "grindir/../a")))
  else if what =? 4 then
    let! r := sysc (Chdir (chars "grindir")) in
    if negb (r =? 0) then die 1 "grind: chdir grindir failed
" 1
    else keep (sysc (Unlink (chars "../b")) ;;; sysc (Chdir (chars "/")))
  else if what =? 5 then
    sysc (Close fd) ;;;
    let! fd := sysc (Open (chars "/grindir/../a") O_CREATE_RDWR) in Done (s <| g_fd := fd |>)
  else if what =? 6 then
    sysc (Close fd) ;;;
    let! fd := sysc (Open (chars "/./grindir/./../b") O_CREATE_RDWR) in Done (s <| g_fd := fd |>)
  else if what =? 7 then keep (sysc (Write fd (g_buf s)))
  else if what =? 8 then
    let! '(_, d) := sysd (Read fd 999) in Done (s <| g_buf := d ++ drop (length d) (g_buf s) |>)
  else if what =? 9 then
    keep (sysc (Mkdir (chars "grindir/../a")) ;;; touch "a/../a/./a" ;;; sysc (Unlink (chars "a/a")))
  else if what =? 10 then
    keep (sysc (Mkdir (chars "/../b")) ;;; touch "grindir/../b/b" ;;; sysc (Unlink (chars "b/b")))
  else if what =? 11 then
    keep (sysc (Unlink (chars "b")) ;;; sysc (Link (chars "../grindir/./../a") (chars "../b")))
  else if what =? 12 then
    keep (sysc (Unlink (chars "../grindir/../a")) ;;; sysc (Link (chars ".././b") (chars "/grindir/../a")))
  else if what =? 13 then keep (fork_or_die 1 1 (Done tt) ;;; sysc Wait)
  else if what =? 14 then keep (fork_or_die 1 1 (sysc Fork ;;; sysc Fork) ;;; sysc Wait)
  else if what =? 15 then keep (sbrk 6011)
  else if what =? 16 then
    let! b := sbrk 0 in
    if break0 <? b then let! b := sbrk 0 in keep (sbrk (i32 (- (b - break0)))) else Done s
  else if what =? 17 then
    let! pid := fork_or_die 1 1 (touch "a") in
    let! r := sysc (Chdir (chars "../grindir/..")) in
    if negb (r =? 0) then die 1 "grind: chdir failed
" 1
    else keep (sysc (Kill pid) ;;; sysc Wait)
  else if what =? 18 then
    keep (fork_or_die 1 1 (let! pid := sysc Getpid in sysc (Kill pid)) ;;; sysc Wait)
  else if what =? 19 then
    let! '(r, fds) := sysd Pipe in
    if r <? 0 then die 1 "grind: pipe failed
" 1
    else
      keep (fork_or_die 1 1 (grind_pipe_child fds) ;;;
            sysc (Close (fds !!! 0%nat)) ;;; sysc (Close (fds !!! 1%nat)) ;;; sysc Wait)
  else if what =? 20 then
    keep (fork_or_die 1 1
            (sysc (Unlink (chars "a")) ;;; sysc (Mkdir (chars "a")) ;;; sysc (Chdir (chars "a")) ;;;
             sysc (Unlink (chars "../a")) ;;; sysc (Open (chars "x") O_CREATE_RDWR) ;;; sysc (Unlink (chars "x"))) ;;;
          sysc Wait)
  else if what =? 21 then keep grind_create
  else if what =? 22 then keep (grind_pipeline u1 u2)
  else Done s.

(** [while(1)] of [go], from the turn number [iters] on. *)
Fixpoint go_loop (fuel : nat) (which_child iters break0 u1 u2 : Z) (s : gst) : prog unit :=
  match fuel with
  | O => Stuck
  | S f =>
      let iters := u64 (iters + 1) in
      (if iters mod 500 =? 0
       then sysc (Write 1 (chars (if negb (which_child =? 0) then "B" else "A"))) ;;; Done tt else Done tt) ;;;
      let '(ctx, r) := do_rand (g_rand s) in
      let! s := grind_op (Z.rem r 23) break0 u1 u2 (s <| g_rand := ctx |>) in
      go_loop f which_child iters break0 u1 u2 s
  end.

Definition go (fuel : nat) (which_child rand_next u1 u2 : Z) : prog unit :=
  let! break0 := sbrk 0 in
  sysc (Mkdir (chars "grindir")) ;;;
  let! r := sysc (Chdir (chars "grindir")) in
  if negb (r =? 0) then die 1 "grind: chdir grindir failed
" 1
  else
    sysc (Chdir (chars "/")) ;;;
    go_loop fuel which_child 0 break0 u1 u2 (Gst (-1) (replicate 999 0) rand_next).

Definition iter (fuel : nat) (rand_next u1 u2 : Z) : prog unit :=
  sysc (Unlink (chars "a")) ;;;
  sysc (Unlink (chars "b")) ;;;
  let! pid1 := sysc Fork in
  if pid1 <? 0 then die 1 "grind: fork failed
" 1
  else if pid1 =? 0 then go fuel 0 (Z.lxor rand_next 31) u1 u2 ;;; Exited 0
  else
    let! pid2 := sysc Fork in
    if pid2 <? 0 then die 1 "grind: fork failed
" 1
    else if pid2 =? 0 then go fuel 1 (Z.lxor rand_next 7177) u1 u2 ;;; Exited 0
    else
      let! '(_, d) := sysd Wait in
      let st1 := default (-1) (head d) in
      (if negb (st1 =? 0) then sysc (Kill pid1) ;;; sysc (Kill pid2) ;;; Done tt else Done tt) ;;;
      sysc Wait ;;;
      Exited 0.

(** [while(1)] of [main]. *)
Fixpoint grind_main (fuel : nat) (rand_next u1 u2 : Z) : prog Z :=
  match fuel with
  | O => Stuck
  | S f =>
      let! pid := sysc Fork in
      if pid =? 0 then iter fuel rand_next u1 u2 ;;; Exited 0
      else
        (if 0 <? pid then sysc Wait ;;; Done tt else Done tt) ;;;
        sysc (Pause 20) ;;;
        grind_main f (u64 (rand_next + 1)) u1 u2
  end.

(** ** The random numbers of grind *)

(** The modulus is prime to the multiplier. *)
Lemma rand_gcd : Z.gcd 0x7fffffff 16807 = 1.
Proof. reflexivity. Qed.

(** Schrage's way to multiply modulo [2^31 - 1] in 32 bits. *)
Lemma schrage y :
  1 <= y <= 0x7ffffffe ->
  let x := 16807 * Z.rem y 127773 - 2836 * Z.quot y 127773 in
  -0x7fffffff < x < 0x7fffffff /\ (if x <? 0 then x + 0x7fffffff else x) = 16807 * y mod 0x7fffffff.
Proof.
  intros Hy. rewrite Z.rem_mod_nonneg, Z.quot_div_nonneg by lia. cbv zeta.
  pose proof (Z.div_mod y 127773 ltac:(lia)) as Hd. pose proof (Z.mod_pos_bound y 127773 ltac:(lia)) as Hm.
  assert (Hq : 0 <= y / 127773 <= 16807) by dlia.
  set (q := y / 127773) in *. set (r := y mod 127773) in *.
  assert (Hx : 16807 * r - 2836 * q = 16807 * y - 0x7fffffff * q) by lia.
  split; [lia|]. destruct (_ <? 0) eqn:E.
  - apply (Z.mod_unique _ _ (q - 1)); lia.
  - apply (Z.mod_unique _ _ q); lia.
Qed.

(** Different states stay different: multiplication is injective. *)
Lemma rand_inj y1 y2 :
  1 <= y1 <= 0x7ffffffe -> 1 <= y2 <= 0x7ffffffe -> 16807 * y1 mod 0x7fffffff = 16807 * y2 mod 0x7fffffff -> y1 = y2.
Proof.
  intros H1 H2 He. assert (Hd : (0x7fffffff | 16807 * (y1 - y2))).
  { apply Z.mod_divide; [lia|]. replace (16807 * (y1 - y2)) with (16807 * y1 - 16807 * y2) by lia.
    rewrite Zminus_mod, He, Z.sub_diag. reflexivity. }
  apply Z.gauss in Hd; [|exact rand_gcd]. destruct Hd as [k Hk]. nia.
Qed.

Lemma rand_pos y : 1 <= y <= 0x7ffffffe -> 1 <= 16807 * y mod 0x7fffffff <= 0x7ffffffe.
Proof.
  intros Hy. pose proof (Z.mod_pos_bound (16807 * y) 0x7fffffff ltac:(lia)).
  destruct (decide (16807 * y mod 0x7fffffff = 0)) as [E|]; [|lia].
  apply Z.mod_divide in E; [|lia]. apply Z.gauss in E; [|exact rand_gcd]. destruct E as [k Hk]. nia.
Qed.

(** C25: [do_rand] is the generator of Park and Miller: the state
    [ctx = y - 1] becomes [7^5 * y mod (2^31 - 1) - 1], the intermediate
    results fit 32 bits (the point of the way it is computed), the result is
    from 0 to 0x7ffffffd and equals the new state, and two different states
    never lead to the same one. *)
Theorem do_rand_spec (ctx : Z) (H : 0 <= ctx <= 0x7ffffffd) :
  let x := 16807 * Z.rem (ctx + 1) 127773 - 2836 * Z.quot (ctx + 1) 127773 in
  -2 ^ 31 < x < 2 ^ 31 /\
  fst (do_rand ctx) = 7 ^ 5 * (ctx + 1) mod (2 ^ 31 - 1) - 1 /\ snd (do_rand ctx) = fst (do_rand ctx) /\
  0 <= fst (do_rand ctx) <= 0x7ffffffd /\
  forall ctx', 0 <= ctx' <= 0x7ffffffd -> fst (do_rand ctx') = fst (do_rand ctx) -> ctx' = ctx.
Proof.
  assert (E : forall c, 0 <= c <= 0x7ffffffd -> do_rand c =
    (16807 * (c + 1) mod 0x7fffffff - 1, 16807 * (c + 1) mod 0x7fffffff - 1)).
  { intros c Hc. unfold do_rand. rewrite (Z.mod_small c) by lia. cbv zeta.
    destruct (schrage (c + 1)) as [_ ->]; [lia|]. pose proof (rand_pos (c + 1) ltac:(lia)).
    rewrite u64_small, i32_small by lia. reflexivity. }
  destruct (schrage (ctx + 1)) as [Hx _]; [lia|]. cbv zeta in *. rewrite (E ctx H).
  split; [lia|]. split; [reflexivity|]. split; [reflexivity|]. pose proof (rand_pos (ctx + 1) ltac:(lia)).
  split; [simpl; lia|]. intros c Hc Heq. rewrite (E c Hc) in Heq. simpl in Heq.
  pose proof (rand_inj (c + 1) (ctx + 1) ltac:(lia) ltac:(lia) ltac:(lia)). lia.
Qed.

Lemma do_rand_spec_witness : fst (do_rand 1) = 33613.
Proof. destruct (do_rand_spec 1 ltac:(lia)) as (_ & -> & _). reflexivity. Defined.

(** ** forktest

    A system on which [limit] forks succeed, as the parent sees it. *)
Record fworld := Fworld { children : nat; forked : nat; limit : nat; fout : list Z }.
Definition fork_calls : handler fworld := fun w c =>
  match c with
  | Fork => if (forked w <? limit w)%nat
            then (Fworld (S (children w)) (S (forked w)) (limit w) (fout w), Z.of_nat (forked w) + 3, [])
            else (w, -1, [])
  | Wait => match children w with
            | O => (w, -1, [])
            | S n => (Fworld n (forked w) (limit w) (fout w), Z.of_nat n + 3, [0])
            end
  | Write _ l => (Fworld (children w) (forked w) (limit w) (fout w ++ l), Z.of_nat (length l), [])
  | _ => (w, -1, [])
  end.

Lemma run_fork_loop k : forall w, children w = forked w -> (forked w <= limit w)%nat ->
  run fork_calls w (fork_loop k (Z.of_nat (forked w))) =
  let n := Nat.min (forked w + k) (limit w) in RDone (Fworld n n (limit w) (fout w)) (Z.of_nat n).
Proof.
  induction k as [|k IH]; intros [c f l o]; simpl; intros -> Hl.
  - replace (Nat.min (f + 0) l) with f by lia. reflexivity.
  - destruct (f <? l)%nat eqn:E.
    + replace (Z.of_nat f + 3 <? 0) with false by lia. replace (Z.of_nat f + 3 =? 0) with false by lia.
      specialize (IH (Fworld (S f) (S f) l o)). cbn [children forked limit fout] in IH.
      replace (Z.of_nat f + 1) with (Z.of_nat (S f)) by lia. rewrite IH by lia.
      replace (S f + k)%nat with (f + S k)%nat by lia. reflexivity.
    + replace (Nat.min (f + S k) l) with f by lia. reflexivity.
Qed.

Lemma run_wait_loop n : forall w, children w = n ->
  run fork_calls w (wait_loop n) = RDone (Fworld 0 (forked w) (limit w) (fout w)) tt.
Proof.
  induction n as [|n IH]; intros [c f l o]; simpl; intros ->; [reflexivity|].
  simpl. replace (Z.of_nat n + 3 <? 0) with false by lia. by apply (IH (Fworld n f l o)).
Qed.

(** forktest succeeds, with every child waited for, whenever fewer than 1000
    processes fit, and reports a failure otherwise. *)
Theorem forktest_spec (l : nat) :
  run fork_calls (Fworld 0 0 l []) forktest_main =
  if decide (l < 1000)%nat
  then RExit (Fworld 0 l l (chars "fork test" ++ NL ++ chars "fork test OK" ++ NL)) 0
  else RExit (Fworld 1000 1000 l (chars "fork test" ++ NL ++ chars "fork claimed to work N times!" ++ NL)) 1.
Proof.
  set (w := Fworld 0 0 l (chars "fork test" ++ NL)). unfold forktest_main, forktest.
  rewrite run_pbind, run_pbind. change (run fork_calls (Fworld 0 0 l []) (print (chars "fork test" ++ NL))) with (@RDone fworld unit w tt).
  cbv iota beta. rewrite run_pbind. pose proof (run_fork_loop 1000 w eq_refl (Nat.le_0_l l)) as E.
  change (Z.of_nat (forked w)) with 0 in E. rewrite E. clear E. cbv zeta. change (forked w + 1000)%nat with 1000%nat.
  change (limit w) with l. change (fout w) with (chars "fork test" ++ NL).
  case_decide as Hl.
  - replace (Nat.min 1000 l) with l by lia. replace (Z.of_nat l =? 1000) with false by lia.
    rewrite Nat2Z.id, !run_pbind, run_wait_loop by reflexivity. reflexivity.
  - replace (Nat.min 1000 l) with 1000%nat by lia. reflexivity.
Qed.
