(* ===== verification/UtFiles.v ===== *)
(** * usertests.c: tests of the file system by one process

    The tests of user/usertests.c that make system calls on files and
    directories and do not fork, as trees of system calls.  A test returns, or
    prints what is wrong and exits with 1.  [s] is the name of the test, [buf]
    what the global array [buf] holds at its start, and [fuel] bounds the loops
    that read until the end of a file. *)

From S2P Require Import Prelude Mem Riscv Cstring Printf Usys Ulib Uprintf.

Local Notation "a .| b" := (Z.lor a b) (at level 50, left associativity).

(** The format [m] with a newline at its end. *)
Definition line (m : string) : string := String.append m (String (Ascii.ascii_of_nat 10) EmptyString).

(** [printf("%s: m\n", s, args); exit(1);] when [b] holds, and the same
    without the newline. *)
Definition oops (s : list Z) (b : bool) (m : string) (args : list parg) : prog unit :=
  if b then printf (String.append "%s: " (line m)) (PStr (Some s) :: args) ;;; Exited 1 else Done tt.
Definition oops_ (s : list Z) (b : bool) (m : string) (args : list parg) : prog unit :=
  if b then printf (String.append "%s: " m) (PStr (Some s) :: args) ;;; Exited 1 else Done tt.

Definition open_ (path : string) (mode : Z) : prog Z := sysc (Open (chars path) mode).
Definition write_ (fd : Z) (l : string) : prog Z := sysc (Write fd (chars l)).
Definition close_ (fd : Z) : prog unit := sysc (Close fd) ;;; Done tt.
Definition unlink_ (path : string) : prog Z := sysc (Unlink (chars path)).
Definition mkdir_ (path : string) : prog Z := sysc (Mkdir (chars path)).
Definition chdir_ (path : string) : prog Z := sysc (Chdir (chars path)).
Definition link_ (old new : string) : prog Z := sysc (Link (chars old) (chars new)).

(** [read] of [d] into an array that holds [b]. *)
Definition fill (d b : list Z) : list Z := d ++ drop (length d) b.

(** [for] over a list with the state [x]. *)
Fixpoint pfold {I X} (l : list I) (f : I -> X -> prog X) (x : X) : prog X :=
  match l with [] => Done x | i :: l' => let! x := f i x in pfold l' f x end.

(** [MAXFILE] and [BSIZE] of kernel/fs.h, [BUFSZ] of usertests.c. *)
Definition ut_BSIZE : Z := 1024.
Definition ut_MAXFILE : Z := 12 + ut_BSIZE / 4.
Definition BUFSZ : Z := (MAXOPBLOCKS + 2) * ut_BSIZE.

(** Two characters: a letter and ['0' + i]. *)
Definition name2 (c i : Z) : list Z := [c; u8 (48 + i)].

Section Tests.
Context (fuel : nat) (buf s : list Z).

Let oops := oops s.
Let oops_ := oops_ s.

Definition truncate1 : prog unit :=
  unlink_ "truncfile" ;;;
  let! fd1 := open_ "truncfile" (O_CREATE .| O_WRONLY .| O_TRUNC) in
  write_ fd1 "abcd" ;;;
  close_ fd1 ;;;
  let! fd2 := open_ "truncfile" O_RDONLY in
  let! n := sysc (Read fd2 32) in
  oops (negb (n =? 4)) "read %d bytes, wanted 4" [PInt n] ;;;
  let! fd1 := open_ "truncfile" (O_WRONLY .| O_TRUNC) in
  let! fd3 := open_ "truncfile" O_RDONLY in
  let! n := sysc (Read fd3 32) in
  (if negb (n =? 0) then printf (line "aaa fd3=%d") [PInt fd3] else Done tt) ;;;
  oops (negb (n =? 0)) "read %d bytes, wanted 0" [PInt n] ;;;
  let! n := sysc (Read fd2 32) in
  (if negb (n =? 0) then printf (line "bbb fd2=%d") [PInt fd2] else Done tt) ;;;
  oops (negb (n =? 0)) "read %d bytes, wanted 0" [PInt n] ;;;
  write_ fd1 "abcdef" ;;;
  let! n := sysc (Read fd3 32) in
  oops (negb (n =? 6)) "read %d bytes, wanted 6" [PInt n] ;;;
  let! n := sysc (Read fd2 32) in
  oops (negb (n =? 2)) "read %d bytes, wanted 2" [PInt n] ;;;
  unlink_ "truncfile" ;;;
  close_ fd1 ;;; close_ fd2 ;;; close_ fd3.

Definition truncate2 : prog unit :=
  unlink_ "truncfile" ;;;
  let! fd1 := open_ "truncfile" (O_CREATE .| O_TRUNC .| O_WRONLY) in
  write_ fd1 "abcd" ;;;
  let! fd2 := open_ "truncfile" (O_TRUNC .| O_WRONLY) in
  let! n := write_ fd1 "x" in
  oops (negb (n =? -1)) "write returned %d, expected -1" [PInt n] ;;;
  unlink_ "truncfile" ;;;
  close_ fd1 ;;; close_ fd2.

Definition iputtest : prog unit :=
  let! r := mkdir_ "iputdir" in
  oops (r <? 0) "mkdir failed" [] ;;;
  let! r := chdir_ "iputdir" in
  oops (r <? 0) "chdir iputdir failed" [] ;;;
  let! r := unlink_ "../iputdir" in
  oops (r <? 0) "unlink ../iputdir failed" [] ;;;
  let! r := chdir_ "/" in
  oops (r <? 0) "chdir / failed" [].

Definition opentest : prog unit :=
  let! fd := open_ "echo" 0 in
  oops (fd <? 0) "open echo failed!" [] ;;;
  close_ fd ;;;
  let! fd := open_ "doesnotexist" 0 in
  oops (0 <=? fd) "open doesnotexist succeeded!" [].

Definition writetest : prog unit :=
  let! fd := open_ "small" (O_CREATE .| O_RDWR) in
  oops (fd <? 0) "error: creat small failed!" [] ;;;
  peach (seq 0 100) (fun i =>
    let! n := write_ fd "aaaaaaaaaa" in
    oops (negb (n =? 10)) "error: write aa %d new file failed" [PInt (Z.of_nat i)] ;;;
    let! n := write_ fd "bbbbbbbbbb" in
    oops (negb (n =? 10)) "error: write bb %d new file failed" [PInt (Z.of_nat i)]) ;;;
  close_ fd ;;;
  let! fd := open_ "small" O_RDONLY in
  oops (fd <? 0) "error: open small failed!" [] ;;;
  let! i := sysc (Read fd 2000) in
  oops (negb (i =? 2000)) "read failed" [] ;;;
  close_ fd ;;;
  let! r := unlink_ "small" in
  oops (r <? 0) "unlink small failed" [].

(** The first four bytes of [buf] as an [int]. *)
Definition int_at (b : list Z) : Z := i32 (b !!! 0%nat + 256 * (b !!! 1%nat) + 65536 * (b !!! 2%nat) + 16777216 * (b !!! 3%nat)).
Definition put_int (i : Z) (b : list Z) : list Z := fill [u8 i; u8 (i / 256); u8 (i / 65536); u8 (i / 16777216)] b.

(** The second loop: read block after block; [n] blocks were read. *)
Fixpoint writebig_read (f : nat) (fd n : Z) (b : list Z) : prog unit :=
  match f with
  | O => Stuck
  | S f' =>
      let! '(i, d) := sysd (Read fd ut_BSIZE) in
      let b := fill d b in
      if i =? 0 then oops_ (negb (n =? ut_MAXFILE)) "read only %d blocks from big" [PInt n]
      else
        oops (negb (i =? ut_BSIZE)) "read failed %d" [PInt i] ;;;
        oops (negb (int_at b =? n)) "read content of block %d is %d" [PInt n; PInt (int_at b)] ;;;
        writebig_read f' fd (n + 1) b
  end.

Definition writebig : prog unit :=
  let! fd := open_ "big" (O_CREATE .| O_RDWR) in
  oops (fd <? 0) "error: creat big failed!" [] ;;;
  let! b := pfold (seq 0 (Z.to_nat ut_MAXFILE)) (fun i b =>
    let b := put_int (Z.of_nat i) b in
    let! n := sysc (Write fd (take (Z.to_nat ut_BSIZE) b)) in
    oops (negb (n =? ut_BSIZE)) "error: write big file failed i=%d" [PInt (Z.of_nat i)] ;;;
    Done b) buf in
  close_ fd ;;;
  let! fd := open_ "big" O_RDONLY in
  oops (fd <? 0) "error: open big failed!" [] ;;;
  writebig_read fuel fd 0 b ;;;
  close_ fd ;;;
  let! r := unlink_ "big" in
  oops (r <? 0) "unlink big failed" [].

Definition createtest : prog unit :=
  peach (seq 0 52) (fun i =>
    let! fd := sysc (Open (name2 97 (Z.of_nat i)) (O_CREATE .| O_RDWR)) in close_ fd) ;;;
  peach (seq 0 52) (fun i => sysc (Unlink (name2 97 (Z.of_nat i))) ;;; Done tt).

Definition dirtest : prog unit :=
  let! r := mkdir_ "dir0" in
  oops (r <? 0) "mkdir failed" [] ;;;
  let! r := chdir_ "dir0" in
  oops (r <? 0) "chdir dir0 failed" [] ;;;
  let! r := chdir_ ".." in
  oops (r <? 0) "chdir .. failed" [] ;;;
  let! r := unlink_ "dir0" in
  oops (r <? 0) "unlink dir0 failed" [].

Definition unlinkread : prog unit :=
  let! fd := open_ "unlinkread" (O_CREATE .| O_RDWR) in
  oops (fd <? 0) "create unlinkread failed" [] ;;;
  write_ fd "hello" ;;;
  close_ fd ;;;
  let! fd := open_ "unlinkread" O_RDWR in
  oops (fd <? 0) "open unlinkread failed" [] ;;;
  let! r := unlink_ "unlinkread" in
  oops (negb (r =? 0)) "unlink unlinkread failed" [] ;;;
  let! fd1 := open_ "unlinkread" (O_CREATE .| O_RDWR) in
  write_ fd1 "yyy" ;;;
  close_ fd1 ;;;
  let! '(n, d) := sysd (Read fd BUFSZ) in
  let b := fill d buf in
  oops_ (negb (n =? 5)) "unlinkread read failed" [] ;;;
  oops (negb (b !!! 0%nat =? 104)) "unlinkread wrong data" [] ;;;
  let! n := sysc (Write fd (take 10 b)) in
  oops (negb (n =? 10)) "unlinkread write failed" [] ;;;
  close_ fd ;;;
  unlink_ "unlinkread" ;;;
  Done tt.

Definition linktest : prog unit :=
  unlink_ "lf1" ;;;
  unlink_ "lf2" ;;;
  let! fd := open_ "lf1" (O_CREATE .| O_RDWR) in
  oops (fd <? 0) "create lf1 failed" [] ;;;
  let! n := write_ fd "hello" in
  oops (negb (n =? 5)) "write lf1 failed" [] ;;;
  close_ fd ;;;
  let! r := link_ "lf1" "lf2" in
  oops (r <? 0) "link lf1 lf2 failed" [] ;;;
  unlink_ "lf1" ;;;
  let! r := open_ "lf1" 0 in
  oops (0 <=? r) "unlinked lf1 but it is still there!" [] ;;;
  let! fd := open_ "lf2" 0 in
  oops (fd <? 0) "open lf2 failed" [] ;;;
  let! n := sysc (Read fd BUFSZ) in
  oops (negb (n =? 5)) "read lf2 failed" [] ;;;
  close_ fd ;;;
  let! r := link_ "lf2" "lf2" in
  oops (0 <=? r) "link lf2 lf2 succeeded! oops" [] ;;;
  unlink_ "lf2" ;;;
  let! r := link_ "lf2" "lf1" in
  oops (0 <=? r) "link non-existent succeeded! oops" [] ;;;
  let! r := link_ "." "lf1" in
  oops (0 <=? r) "link . lf1 succeeded! oops" [].

(** The first half of [subdir] makes the files, the second half tries calls
    that must fail and cleans up. *)
Definition subdir_make : prog unit :=
  unlink_ "ff" ;;;
  let! r := mkdir_ "dd" in
  oops (negb (r =? 0)) "mkdir dd failed" [] ;;;
  let! fd := open_ "dd/ff" (O_CREATE .| O_RDWR) in
  oops (fd <? 0) "create dd/ff failed" [] ;;;
  write_ fd "ff" ;;;
  close_ fd ;;;
  let! r := unlink_ "dd" in
  oops (0 <=? r) "unlink dd (non-empty dir) succeeded!" [] ;;;
  let! r := mkdir_ "/dd/dd" in
  oops (negb (r =? 0)) "subdir mkdir dd/dd failed" [] ;;;
  let! fd := open_ "dd/dd/ff" (O_CREATE .| O_RDWR) in
  oops (fd <? 0) "create dd/dd/ff failed" [] ;;;
  write_ fd "FF" ;;;
  close_ fd ;;;
  let! fd := open_ "dd/dd/../ff" 0 in
  oops (fd <? 0) "open dd/dd/../ff failed" [] ;;;
  let! '(cc, d) := sysd (Read fd BUFSZ) in
  oops (negb (cc =? 2) || negb (fill d buf !!! 0%nat =? 102)) "dd/dd/../ff wrong content" [] ;;;
  close_ fd ;;;
  let! r := link_ "dd/dd/ff" "dd/dd/ffff" in
  oops (negb (r =? 0)) "link dd/dd/ff dd/dd/ffff failed" [] ;;;
  let! r := unlink_ "dd/dd/ff" in
  oops (negb (r =? 0)) "unlink dd/dd/ff failed" [] ;;;
  let! r := open_ "dd/dd/ff" O_RDONLY in
  oops (0 <=? r) "open (unlinked) dd/dd/ff succeeded" [] ;;;
  let! r := chdir_ "dd" in
  oops (negb (r =? 0)) "chdir dd failed" [] ;;;
  let! r := chdir_ "dd/../../dd" in
  oops (negb (r =? 0)) "chdir dd/../../dd failed" [] ;;;
  let! r := chdir_ "dd/../../../dd" in
  oops (negb (r =? 0)) "chdir dd/../../../dd failed" [] ;;;
  let! r := chdir_ "./.." in
  oops (negb (r =? 0)) "chdir ./.. failed" [] ;;;
  let! fd := open_ "dd/dd/ffff" 0 in
  oops (fd <? 0) "open dd/dd/ffff failed" [] ;;;
  let! n := sysc (Read fd BUFSZ) in
  oops (negb (n =? 2)) "read dd/dd/ffff wrong len" [] ;;;
  close_ fd.

Definition subdir_refused : prog unit :=
  let! r := open_ "dd/dd/ff" O_RDONLY in
  oops (0 <=? r) "open (unlinked) dd/dd/ff succeeded!" [] ;;;
  let! r := open_ "dd/ff/ff" (O_CREATE .| O_RDWR) in
  oops (0 <=? r) "create dd/ff/ff succeeded!" [] ;;;
  let! r := open_ "dd/xx/ff" (O_CREATE .| O_RDWR) in
  oops (0 <=? r) "create dd/xx/ff succeeded!" [] ;;;
  let! r := open_ "dd" O_CREATE in
  oops (0 <=? r) "create dd succeeded!" [] ;;;
  let! r := open_ "dd" O_RDWR in
  oops (0 <=? r) "open dd rdwr succeeded!" [] ;;;
  let! r := open_ "dd" O_WRONLY in
  oops (0 <=? r) "open dd wronly succeeded!" [] ;;;
  let! r := link_ "dd/ff/ff" "dd/dd/xx" in
  oops (r =? 0) "link dd/ff/ff dd/dd/xx succeeded!" [] ;;;
  let! r := link_ "dd/xx/ff" "dd/dd/xx" in
  oops (r =? 0) "link dd/xx/ff dd/dd/xx succeeded!" [] ;;;
  let! r := link_ "dd/ff" "dd/dd/ffff" in
  oops (r =? 0) "link dd/ff dd/dd/ffff succeeded!" [] ;;;
  let! r := mkdir_ "dd/ff/ff" in
  oops (r =? 0) "mkdir dd/ff/ff succeeded!" [] ;;;
  let! r := mkdir_ "dd/xx/ff" in
  oops (r =? 0) "mkdir dd/xx/ff succeeded!" [] ;;;
  let! r := mkdir_ "dd/dd/ffff" in
  oops (r =? 0) "mkdir dd/dd/ffff succeeded!" [] ;;;
  let! r := unlink_ "dd/xx/ff" in
  oops (r =? 0) "unlink dd/xx/ff succeeded!" [] ;;;
  let! r := unlink_ "dd/ff/ff" in
  oops (r =? 0) "unlink dd/ff/ff succeeded!" [] ;;;
  let! r := chdir_ "dd/ff" in
  oops (r =? 0) "chdir dd/ff succeeded!" [] ;;;
  let! r := chdir_ "dd/xx" in
  oops (r =? 0) "chdir dd/xx succeeded!" [].

Definition subdir : prog unit :=
  subdir_make ;;;
  subdir_refused ;;;
  let! r := unlink_ "dd/dd/ffff" in
  oops (negb (r =? 0)) "unlink dd/dd/ff failed" [] ;;;
  let! r := unlink_ "dd/ff" in
  oops (negb (r =? 0)) "unlink dd/ff failed" [] ;;;
  let! r := unlink_ "dd" in
  oops (r =? 0) "unlink non-empty dd succeeded!" [] ;;;
  let! r := unlink_ "dd/dd" in
  oops (r <? 0) "unlink dd/dd failed" [] ;;;
  let! r := unlink_ "dd" in
  oops (r <? 0) "unlink dd failed" [].

Definition bigwrite : prog unit :=
  unlink_ "bigwrite" ;;;
  peach ((fun k => 499 + 471 * Z.of_nat k) <$> seq 0 26) (fun sz =>
    let! fd := open_ "bigwrite" (O_CREATE .| O_RDWR) in
    oops (fd <? 0) "cannot create bigwrite" [] ;;;
    peach (seq 0 2) (fun _ =>
      let! cc := sysc (Write fd (take (Z.to_nat sz) buf)) in
      oops (negb (cc =? sz)) "write(%d) ret %d" [PInt sz; PInt cc]) ;;;
    close_ fd ;;;
    unlink_ "bigwrite" ;;; Done tt).

(** The second loop of [bigfile]: the total, from turn [i] on. *)
Fixpoint bigfile_read (f : nat) (fd i total : Z) (b : list Z) : prog Z :=
  match f with
  | O => Stuck
  | S f' =>
      let! '(cc, d) := sysd (Read fd 300) in
      let b := fill d b in
      oops (cc <? 0) "read bigfile failed" [] ;;;
      if cc =? 0 then Done total
      else
        oops (negb (cc =? 300)) "short read bigfile" [] ;;;
        oops (negb (b !!! 0%nat =? i / 2) || negb (b !!! 299%nat =? i / 2)) "read bigfile wrong data" [] ;;;
        bigfile_read f' fd (i + 1) (total + cc) b
  end.

Definition bigfile : prog unit :=
  unlink_ "bigfile.dat" ;;;
  let! fd := open_ "bigfile.dat" (O_CREATE .| O_RDWR) in
  oops_ (fd <? 0) "cannot create bigfile" [] ;;;
  let! b := pfold (seq 0 20) (fun i b =>
    let b := fill (replicate 600 (u8 (Z.of_nat i))) b in
    let! n := sysc (Write fd (take 600 b)) in
    oops (negb (n =? 600)) "write bigfile failed" [] ;;;
    Done b) buf in
  close_ fd ;;;
  let! fd := open_ "bigfile.dat" 0 in
  oops (fd <? 0) "cannot open bigfile" [] ;;;
  let! total := bigfile_read fuel fd 0 0 b in
  close_ fd ;;;
  oops (negb (total =? 12000)) "read bigfile wrong total" [] ;;;
  unlink_ "bigfile.dat" ;;;
  Done tt.

Definition fourteen : prog unit :=
  let! r := mkdir_ "12345678901234" in
  oops (negb (r =? 0)) "mkdir 12345678901234 failed" [] ;;;
  let! r := mkdir_ "12345678901234/123456789012345" in
  oops (negb (r =? 0)) "mkdir 12345678901234/123456789012345 failed" [] ;;;
  let! fd := open_ "123456789012345/123456789012345/123456789012345" O_CREATE in
  oops (fd <? 0) "create 123456789012345/123456789012345/123456789012345 failed" [] ;;;
  close_ fd ;;;
  let! fd := open_ "12345678901234/12345678901234/12345678901234" 0 in
  oops (fd <? 0) "open 12345678901234/12345678901234/12345678901234 failed" [] ;;;
  close_ fd ;;;
  let! r := mkdir_ "12345678901234/12345678901234" in
  oops (r =? 0) "mkdir 12345678901234/12345678901234 succeeded!" [] ;;;
  let! r := mkdir_ "123456789012345/12345678901234" in
  oops (r =? 0) "mkdir 12345678901234/123456789012345 succeeded!" [] ;;;
  unlink_ "123456789012345/12345678901234" ;;;
  unlink_ "12345678901234/12345678901234" ;;;
  unlink_ "12345678901234/12345678901234/12345678901234" ;;;
  unlink_ "123456789012345/123456789012345/123456789012345" ;;;
  unlink_ "12345678901234/123456789012345" ;;;
  unlink_ "12345678901234" ;;;
  Done tt.

Definition rmdot : prog unit :=
  let! r := mkdir_ "dots" in
  oops (negb (r =? 0)) "mkdir dots failed" [] ;;;
  let! r := chdir_ "dots" in
  oops (negb (r =? 0)) "chdir dots failed" [] ;;;
  let! r := unlink_ "." in
  oops (r =? 0) "rm . worked!" [] ;;;
  let! r := unlink_ ".." in
  oops (r =? 0) "rm .. worked!" [] ;;;
  let! r := chdir_ "/" in
  oops (negb (r =? 0)) "chdir / failed" [] ;;;
  let! r := unlink_ "dots/." in
  oops (r =? 0) "unlink dots/. worked!" [] ;;;
  let! r := unlink_ "dots/.." in
  oops (r =? 0) "unlink dots/.. worked!" [] ;;;
  let! r := unlink_ "dots" in
  oops (negb (r =? 0)) "unlink dots failed!" [].

Definition dirfile : prog unit :=
  let! fd := open_ "dirfile" O_CREATE in
  oops (fd <? 0) "create dirfile failed" [] ;;;
  close_ fd ;;;
  let! r := chdir_ "dirfile" in
  oops (r =? 0) "chdir dirfile succeeded!" [] ;;;
  let! fd := open_ "dirfile/xx" 0 in
  oops (0 <=? fd) "create dirfile/xx succeeded!" [] ;;;
  let! fd := open_ "dirfile/xx" O_CREATE in
  oops (0 <=? fd) "create dirfile/xx succeeded!" [] ;;;
  let! r := mkdir_ "dirfile/xx" in
  oops (r =? 0) "mkdir dirfile/xx succeeded!" [] ;;;
  let! r := unlink_ "dirfile/xx" in
  oops (r =? 0) "unlink dirfile/xx succeeded!" [] ;;;
  let! r := link_ "README" "dirfile/xx" in
  oops (r =? 0) "link to dirfile/xx succeeded!" [] ;;;
  let! r := unlink_ "dirfile" in
  oops (negb (r =? 0)) "unlink dirfile failed!" [] ;;;
  let! fd := open_ "." O_RDWR in
  oops (0 <=? fd) "open . for writing succeeded!" [] ;;;
  let! fd := open_ "." 0 in
  let! n := write_ fd "x" in
  oops (0 <? n) "write . succeeded!" [] ;;;
  close_ fd.

Definition iref : prog unit :=
  peach (seq 0 (NINODE + 1)) (fun _ =>
    let! r := mkdir_ "irefd" in
    oops (negb (r =? 0)) "mkdir irefd failed" [] ;;;
    let! r := chdir_ "irefd" in
    oops (negb (r =? 0)) "chdir irefd failed" [] ;;;
    sysc (Mkdir []) ;;;
    sysc (Link (chars "README") []) ;;;
    let! fd := sysc (Open [] O_CREATE) in
    (if 0 <=? fd then close_ fd else Done tt) ;;;
    let! fd := open_ "xx" O_CREATE in
    (if 0 <=? fd then close_ fd else Done tt) ;;;
    unlink_ "xx" ;;; Done tt) ;;;
  peach (seq 0 (NINODE + 1)) (fun _ => chdir_ ".." ;;; unlink_ "irefd" ;;; Done tt) ;;;
  chdir_ "/" ;;;
  Done tt.

Definition bd_name (i : nat) : list Z := [120; u8 (48 + Z.of_nat i / 64); u8 (48 + Z.of_nat i mod 64)].

Definition bigdir : prog unit :=
  unlink_ "bd" ;;;
  let! fd := open_ "bd" O_CREATE in
  oops (fd <? 0) "bigdir create failed" [] ;;;
  close_ fd ;;;
  peach (seq 0 500) (fun i =>
    let! r := sysc (Link (chars "bd") (bd_name i)) in
    oops (negb (r =? 0)) "bigdir i=%d link(bd, %s) failed" [PInt (Z.of_nat i); PStr (Some (bd_name i))]) ;;;
  unlink_ "bd" ;;;
  peach (seq 0 500) (fun i =>
    let! r := sysc (Unlink (bd_name i)) in
    oops_ (negb (r =? 0)) "bigdir unlink failed" []).
(** [while(1)] of [fsfull]: the bytes written to one file. *)
Fixpoint fsfull_write (f : nat) (fd total : Z) : prog Z :=
  match f with
  | O => Stuck
  | S f' =>
      let! cc := sysc (Write fd (take (Z.to_nat ut_BSIZE) buf)) in
      if cc <? ut_BSIZE then Done total else fsfull_write f' fd (total + cc)
  end.

Definition ff_name (n : Z) : list Z :=
  [102; u8 (48 + n / 1000); u8 (48 + n mod 1000 / 100); u8 (48 + n mod 100 / 10); u8 (48 + n mod 10)].

(** The first loop: the number of files. *)
Fixpoint fsfull_files (f : nat) (nfiles : Z) : prog Z :=
  match f with
  | O => Stuck
  | S f' =>
      let name := ff_name nfiles in
      printf (line "writing %s") [PStr (Some name)] ;;;
      let! fd := sysc (Open name (O_CREATE .| O_RDWR)) in
      if fd <? 0 then printf (line "open %s failed") [PStr (Some name)] ;;; Done nfiles
      else
        let! total := fsfull_write fuel fd 0 in
        printf (line "wrote %d bytes") [PInt total] ;;;
        close_ fd ;;;
        if total =? 0 then Done nfiles else fsfull_files f' (nfiles + 1)
  end.

Definition fsfull : prog unit :=
  printf (line "fsfull test") [] ;;;
  let! nfiles := fsfull_files fuel 0 in
  peach (rev (seq 0 (Z.to_nat (nfiles + 1)))) (fun n => sysc (Unlink (ff_name (Z.of_nat n))) ;;; Done tt) ;;;
  printf (line "fsfull test finished") [].

Definition big_name (i : nat) : list Z := chars "big" ++ [u8 (48 + Z.of_nat i)].
Definition zz_name (i : nat) : list Z := chars "zz" ++ [u8 (48 + Z.of_nat i / 32); u8 (48 + Z.of_nat i mod 32)].

(** The blocks of one file of [diskfull], [k] of them to go: did a write fail?
    [stk] is what the array [buf] on the stack holds. *)
Fixpoint diskfull_write (k : nat) (fd : Z) (stk : list Z) : prog bool :=
  match k with
  | O => Done false
  | S k' =>
      let! n := sysc (Write fd (take (Z.to_nat ut_BSIZE) stk)) in
      if negb (n =? ut_BSIZE) then close_ fd ;;; Done true else diskfull_write k' fd stk
  end.

(** The first loop of [diskfull], from file [fi] on. *)
Fixpoint diskfull_files (files : list nat) (stk : list Z) : prog unit :=
  match files with
  | [] => Done tt
  | fi :: rest =>
      sysc (Unlink (big_name fi)) ;;;
      let! fd := sysc (Open (big_name fi) (O_CREATE .| O_RDWR .| O_TRUNC)) in
      if fd <? 0 then printf (line "%s: could not create file %s") [PStr (Some s); PStr (Some (big_name fi))]
      else
        let! done := diskfull_write (Z.to_nat ut_MAXFILE) fd stk in
        close_ fd ;;;
        if done then Done tt else diskfull_files rest stk
  end.

(** Create the files [zz] until that fails. *)
Fixpoint create_zz (files : list nat) : prog unit :=
  match files with
  | [] => Done tt
  | i :: rest =>
      sysc (Unlink (zz_name i)) ;;;
      let! fd := sysc (Open (zz_name i) (O_CREATE .| O_RDWR .| O_TRUNC)) in
      if fd <? 0 then Done tt else close_ fd ;;; create_zz rest
  end.

Definition unlink_zz (n : nat) : prog unit := peach (seq 0 n) (fun i => sysc (Unlink (zz_name i)) ;;; Done tt).

(** ['0' + fi < 0177] bounds the number of files. *)
Definition diskfull (stk : list Z) : prog unit :=
  unlink_ "diskfulldir" ;;;
  diskfull_files (seq 0 79) stk ;;;
  create_zz (seq 0 128) ;;;
  let! r := mkdir_ "diskfulldir" in
  (if r =? 0 then printf (line "%s: mkdir(diskfulldir) unexpectedly succeeded!") [PStr (Some s)] else Done tt) ;;;
  unlink_ "diskfulldir" ;;;
  unlink_zz 128 ;;;
  peach (seq 0 79) (fun i => sysc (Unlink (big_name i)) ;;; Done tt).

Definition outofinodes : prog unit :=
  create_zz (seq 0 (32 * 32)) ;;;
  unlink_zz (32 * 32).
End Tests.
