(* ===== verification/UtProcs.v ===== *)
(** * usertests.c: tests with several processes

    The tests of user/usertests.c that fork.  After [fork] parent and child go
    on in the same tree, the child with the result 0.  [junk] is what a
    variable on the stack holds that no call has stored into; a process that
    computes forever is [Stuck]. *)

From S2P Require Import Prelude Mem Riscv Cstring Printf Usys Ulib Uprintf UtFiles.

Local Notation "a .| b" := (Z.lor a b) (at level 50, left associativity).

Section Tests.
Context (fuel : nat) (junk : Z) (buf s : list Z).

Let oops := oops s.
Let oops_ := oops_ s.

(** [wait(&x)] for a variable that holds [x]: the pid and the new [x]. *)
Definition wait_ (x : Z) : prog (Z * Z) := let! '(r, d) := sysd Wait in Done (r, default x (head d)).

(** [pid = fork();] and the message of all tests when that fails. *)
Definition fork_ : prog Z :=
  let! pid := sysc Fork in
  oops (pid <? 0) "fork failed" [] ;;;
  Done pid.

(** An [int] that [pipe] stores, or that was there before. *)
Definition fd_at (d : list Z) (i : nat) : Z := default junk (d !! i).

Definition truncate3 : prog unit :=
  let! fd := open_ "truncfile" (O_CREATE .| O_TRUNC .| O_WRONLY) in
  close_ fd ;;;
  let! pid := fork_ in
  if pid =? 0 then
    peach (seq 0 100) (fun _ =>
      let! fd := open_ "truncfile" O_WRONLY in
      oops (fd <? 0) "open failed" [] ;;;
      let! n := write_ fd "1234567890" in
      oops (negb (n =? 10)) "write got %d, expected 10" [PInt n] ;;;
      close_ fd ;;;
      let! fd := open_ "truncfile" O_RDONLY in
      sysc (Read fd 32) ;;;
      close_ fd) ;;;
    Exited 0
  else
    peach (seq 0 150) (fun _ =>
      let! fd := open_ "truncfile" (O_CREATE .| O_WRONLY .| O_TRUNC) in
      oops (fd <? 0) "open failed" [] ;;;
      let! n := write_ fd "xxx" in
      oops (negb (n =? 3)) "write got %d, expected 3" [PInt n] ;;;
      close_ fd) ;;;
    let! '(_, xstatus) := wait_ junk in
    unlink_ "truncfile" ;;;
    Exited xstatus.

Definition exitiputtest : prog unit :=
  let! pid := fork_ in
  if pid =? 0 then
    let! r := mkdir_ "iputdir" in
    oops (r <? 0) "mkdir failed" [] ;;;
    let! r := chdir_ "iputdir" in
    oops (r <? 0) "child chdir failed" [] ;;;
    let! r := unlink_ "../iputdir" in
    oops (r <? 0) "unlink ../iputdir failed" [] ;;;
    Exited 0
  else
    let! '(_, xstatus) := wait_ junk in
    Exited xstatus.

Definition openiputtest : prog unit :=
  let! r := mkdir_ "oidir" in
  oops (r <? 0) "mkdir oidir failed" [] ;;;
  let! pid := fork_ in
  if pid =? 0 then
    let! fd := open_ "oidir" O_RDWR in
    oops (0 <=? fd) "open directory for write succeeded" [] ;;;
    Exited 0
  else
    sysc (Pause 1) ;;;
    let! r := unlink_ "oidir" in
    oops (negb (r =? 0)) "unlink failed" [] ;;;
    let! '(_, xstatus) := wait_ junk in
    Exited xstatus.

(** Where [exec] fails to fail, the child would go on as the parent. *)
Definition exectest : prog unit :=
  unlink_ "echo-ok" ;;;
  let! pid := fork_ in
  (if pid =? 0 then
     close_ 1 ;;;
     let! fd := open_ "echo-ok" (O_CREATE .| O_WRONLY) in
     oops (fd <? 0) "create failed" [] ;;;
     oops (negb (fd =? 1)) "wrong fd" [] ;;;
     let! r := sysc (Exec (chars "echo") [chars "echo"; chars "OK"]) in
     oops (r <? 0) "exec echo failed" []
   else Done tt) ;;;
  let! '(r, xstatus) := wait_ junk in
  (if negb (r =? pid) then printf (line "%s: wait failed!") [PStr (Some s)] else Done tt) ;;;
  if negb (xstatus =? 0) then Exited xstatus
  else
    let! fd := open_ "echo-ok" O_RDONLY in
    oops (fd <? 0) "open failed" [] ;;;
    let! '(n, d) := sysd (Read fd 2) in
    oops (negb (n =? 2)) "read failed" [] ;;;
    unlink_ "echo-ok" ;;;
    if (d !!! 0%nat =? 79) && (d !!! 1%nat =? 75) then Exited 0
    else oops true "wrong output" [].

(** The reader of [pipe1]: the bytes read, or [None] when one is wrong; [seq_]
    is the value expected next. *)
Fixpoint pipe1_read (f : nat) (fd cc total seq_ : Z) (b : list Z) : prog (option Z) :=
  match f with
  | O => Stuck
  | S f' =>
      let! '(n, d) := sysd (Read fd cc) in
      let b := fill d b in
      if n <=? 0 then Done (Some total)
      else if forallb (fun i => u8 (b !!! i) =? u8 (seq_ + Z.of_nat i)) (seq 0 (Z.to_nat n))
      then pipe1_read f' fd (Z.min (cc * 2) BUFSZ) (total + n) (seq_ + n) b
      else Done None
  end.

Definition pipe1 : prog unit :=
  let! '(r, fds) := sysd Pipe in
  oops (negb (r =? 0)) "pipe() failed" [] ;;;
  let! pid := sysc Fork in
  if pid =? 0 then
    close_ (fd_at fds 0) ;;;
    peach (seq 0 5) (fun n =>
      let! r := sysc (Write (fd_at fds 1) ((fun i => u8 (Z.of_nat (n * 1033 + i))) <$> seq 0 1033)) in
      oops (negb (r =? 1033)) "pipe1 oops 1" []) ;;;
    Exited 0
  else if 0 <? pid then
    close_ (fd_at fds 1) ;;;
    let! r := pipe1_read fuel (fd_at fds 0) 1 0 0 buf in
    match r with
    | None => printf (line "%s: pipe1 oops 2") [PStr (Some s)]
    | Some total =>
        oops (negb (total =? 5 * 1033)) "pipe1 oops 3 total %d" [PInt total] ;;;
        close_ (fd_at fds 0) ;;;
        let! '(_, xstatus) := wait_ junk in
        Exited xstatus
    end
  else oops true "fork() failed" [].

Definition killstatus : prog unit :=
  pfold (seq 0 100) (fun _ xst =>
    let! pid1 := fork_ in
    if pid1 =? 0 then peach (seq 0 fuel) (fun _ => sysc Getpid ;;; Done tt) ;;; Stuck
    else
      sysc (Pause 1) ;;;
      sysc (Kill pid1) ;;;
      let! '(_, xst) := wait_ xst in
      oops (negb (xst =? -1)) "status should be -1" [] ;;;
      Done xst) junk ;;;
  Exited 0.

Definition preempt : prog unit :=
  let! pid1 := sysc Fork in
  oops_ (pid1 <? 0) "fork failed" [] ;;;
  if pid1 =? 0 then Stuck
  else
    let! pid2 := fork_ in
    if pid2 =? 0 then Stuck
    else
      let! '(_, pfds) := sysd Pipe in
      let! pid3 := fork_ in
      if pid3 =? 0 then
        close_ (fd_at pfds 0) ;;;
        let! n := write_ (fd_at pfds 1) "x" in
        (if negb (n =? 1) then printf "%s: preempt write error" [PStr (Some s)] else Done tt) ;;;
        close_ (fd_at pfds 1) ;;;
        Stuck
      else
        close_ (fd_at pfds 1) ;;;
        let! n := sysc (Read (fd_at pfds 0) BUFSZ) in
        if negb (n =? 1) then printf "%s: preempt read error" [PStr (Some s)]
        else
          close_ (fd_at pfds 0) ;;;
          printf "kill... " [] ;;;
          sysc (Kill pid1) ;;; sysc (Kill pid2) ;;; sysc (Kill pid3) ;;;
          printf "wait... " [] ;;;
          sysc Wait ;;; sysc Wait ;;; sysc Wait ;;;
          Done tt.

Definition exitwait : prog unit :=
  peach (seq 0 100) (fun i =>
    let! pid := fork_ in
    if negb (pid =? 0) then
      let! '(r, xstate) := wait_ junk in
      oops (negb (r =? pid)) "wait wrong pid" [] ;;;
      oops (negb (Z.of_nat i =? xstate)) "wait wrong exit status" []
    else Exited (Z.of_nat i)).

Definition reparent : prog unit :=
  let! master_pid := sysc Getpid in
  peach (seq 0 200) (fun _ =>
    let! pid := fork_ in
    if negb (pid =? 0) then
      let! r := sysc Wait in
      oops (negb (r =? pid)) "wait wrong pid" []
    else
      let! pid2 := sysc Fork in
      if pid2 <? 0 then sysc (Kill master_pid) ;;; Exited 1 else Exited 0) ;;;
  Exited 0.

Definition twochildren : prog unit :=
  peach (seq 0 1000) (fun _ =>
    let! pid1 := fork_ in
    if pid1 =? 0 then Exited 0
    else
      let! pid2 := fork_ in
      if pid2 =? 0 then Exited 0 else sysc Wait ;;; sysc Wait ;;; Done tt).

Definition forkfork : prog unit :=
  peach (seq 0 2) (fun _ =>
    let! pid := sysc Fork in
    oops_ (pid <? 0) "fork failed" [] ;;;
    if pid =? 0 then
      peach (seq 0 200) (fun _ =>
        let! pid1 := sysc Fork in
        if pid1 <? 0 then Exited 1
        else if pid1 =? 0 then Exited 0
        else sysc Wait ;;; Done tt) ;;;
      Exited 0
    else Done tt) ;;;
  pfold (seq 0 2) (fun _ x =>
    let! '(_, xstatus) := wait_ x in
    oops_ (negb (xstatus =? 0)) "fork in child failed" [] ;;;
    Done xstatus) junk ;;;
  Done tt.

(** [while(1)] of [forkforkfork]; the processes it forks run it, too. *)
Fixpoint fork_until_stopped (f : nat) : prog unit :=
  match f with
  | O => Stuck
  | S f' =>
      let! fd := open_ "stopforking" 0 in
      if 0 <=? fd then Exited 0
      else
        let! r := sysc Fork in
        (if r <? 0 then let! fd := open_ "stopforking" (O_CREATE .| O_RDWR) in close_ fd else Done tt) ;;;
        fork_until_stopped f'
  end.

Definition forkforkfork : prog unit :=
  unlink_ "stopforking" ;;;
  let! pid := sysc Fork in
  oops_ (pid <? 0) "fork failed" [] ;;;
  if pid =? 0 then fork_until_stopped fuel
  else
    sysc (Pause 20) ;;;
    let! fd := open_ "stopforking" (O_CREATE .| O_RDWR) in
    close_ fd ;;;
    sysc Wait ;;;
    sysc (Pause 10) ;;;
    Done tt.

Definition reparent2 : prog unit :=
  peach (seq 0 800) (fun _ =>
    let! pid1 := sysc Fork in
    if pid1 <? 0 then printf (line "fork failed") [] ;;; Exited 1
    else if pid1 =? 0 then sysc Fork ;;; sysc Fork ;;; Exited 0
    else sysc Wait ;;; Done tt) ;;;
  Exited 0.

(** The reading loop of [sharedfd], which looks at all of [buf] whatever
    [read] returned: the numbers of ['c'] and ['p']. *)
Fixpoint sharedfd_read (f : nat) (fd : Z) (b : list Z) (nc np : Z) : prog (Z * Z) :=
  match f with
  | O => Stuck
  | S f' =>
      let! '(n, d) := sysd (Read fd 10) in
      let b := fill d b in
      if n <=? 0 then Done (nc, np)
      else
        let count c := Z.of_nat (length (List.filter (fun x => x =? c) b)) in
        sharedfd_read f' fd b (nc + count 99) (np + count 112)
  end.

Definition sharedfd : prog unit :=
  unlink_ "sharedfd" ;;;
  let! fd := open_ "sharedfd" (O_CREATE .| O_RDWR) in
  oops_ (fd <? 0) "cannot open sharedfd for writing" [] ;;;
  let! pid := sysc Fork in
  let b := replicate 10 (if pid =? 0 then 99 else 112) in
  peach (seq 0 1000) (fun _ =>
    let! n := sysc (Write fd b) in
    oops (negb (n =? 10)) "write sharedfd failed" []) ;;;
  if pid =? 0 then Exited 0
  else
    let! '(_, xstatus) := wait_ junk in
    if negb (xstatus =? 0) then Exited xstatus
    else
      close_ fd ;;;
      let! fd := open_ "sharedfd" 0 in
      oops (fd <? 0) "cannot open sharedfd for reading" [] ;;;
      let! '(nc, np) := sharedfd_read fuel fd b 0 0 in
      close_ fd ;;;
      unlink_ "sharedfd" ;;;
      if (nc =? 10000) && (np =? 10000) then Exited 0
      else oops true "nc/np test fails" [].

Definition wait_ok (n : nat) (status : Z -> Z) : prog unit :=
  pfold (seq 0 n) (fun _ x =>
    let! '(_, xstatus) := wait_ x in
    if negb (xstatus =? 0) then Exited (status xstatus) else Done xstatus) junk ;;;
  Done tt.

(** The child of [fourfiles] with number [pi]. *)
Definition fourfiles_child (pi : nat) : prog unit :=
  let! fd := sysc (Open (name2 102 (Z.of_nat pi)) (O_CREATE .| O_RDWR)) in
  oops (fd <? 0) "create failed" [] ;;;
  peach (seq 0 12) (fun _ =>
    let! n := sysc (Write fd (replicate 500 (48 + Z.of_nat pi))) in
    if negb (n =? 500) then printf (line "write failed %d") [PInt n] ;;; Exited 1 else Done tt) ;;;
  Exited 0.

(** Reading file [i] back: its length, and [buf]. *)
Fixpoint fourfiles_read (f : nat) (fd : Z) (i : nat) (total : Z) (b : list Z) : prog (Z * list Z) :=
  match f with
  | O => Stuck
  | S f' =>
      let! '(n, d) := sysd (Read fd BUFSZ) in
      let b := fill d b in
      if n <=? 0 then Done (total, b)
      else
        oops (negb (forallb (fun c => c =? 48 + Z.of_nat i) (take (Z.to_nat n) b))) "wrong char" [] ;;;
        fourfiles_read f' fd i (total + n) b
  end.

Definition fourfiles : prog unit :=
  peach (seq 0 4) (fun pi =>
    sysc (Unlink (name2 102 (Z.of_nat pi))) ;;;
    let! pid := fork_ in
    if pid =? 0 then fourfiles_child pi else Done tt) ;;;
  wait_ok 4 (fun x => x) ;;;
  pfold (seq 0 4) (fun i b =>
    let! fd := sysc (Open (name2 102 (Z.of_nat i)) 0) in
    let! '(total, b) := fourfiles_read fuel fd i 0 b in
    close_ fd ;;;
    (if negb (total =? 6000) then printf (line "wrong length %d") [PInt total] ;;; Exited 1 else Done tt) ;;;
    sysc (Unlink (name2 102 (Z.of_nat i))) ;;;
    Done b) buf ;;;
  Done tt.

(** The child of [createdelete] with number [pi]. *)
Definition createdelete_child (pi : nat) : prog unit :=
  let name i := name2 (112 + Z.of_nat pi) (Z.of_nat i) in
  peach (seq 0 20) (fun i =>
    let! fd := sysc (Open (name i) (O_CREATE .| O_RDWR)) in
    oops (fd <? 0) "create failed" [] ;;;
    close_ fd ;;;
    if (0 <? i)%nat && (i mod 2 =? 0)%nat then
      let! r := sysc (Unlink (name (i / 2)%nat)) in
      oops (r <? 0) "unlink failed" []
    else Done tt) ;;;
  Exited 0.

Definition createdelete : prog unit :=
  peach (seq 0 4) (fun pi =>
    let! pid := fork_ in
    if pid =? 0 then createdelete_child pi else Done tt) ;;;
  wait_ok 4 (fun _ => 1) ;;;
  peach (seq 0 20) (fun i => peach (seq 0 4) (fun pi =>
    let name := name2 (112 + Z.of_nat pi) (Z.of_nat i) in
    let! fd := sysc (Open name 0) in
    (if ((i =? 0)%nat || (10 <=? i)%nat) && (fd <? 0) then
       oops true "oops createdelete %s didn't exist" [PStr (Some name)]
     else if ((1 <=? i)%nat && (i <? 10)%nat) && (0 <=? fd) then
       oops true "oops createdelete %s did exist" [PStr (Some name)]
     else Done tt) ;;;
    if 0 <=? fd then close_ fd else Done tt)) ;;;
  peach (seq 0 20) (fun i => peach (seq 0 4) (fun pi =>
    sysc (Unlink (name2 (112 + Z.of_nat pi) (Z.of_nat i))) ;;; Done tt)).

(** Turn [i] of the first loop of [concreate]. *)
Definition concreate_make (i : nat) : prog unit :=
  let file := name2 67 (Z.of_nat i) in
  sysc (Unlink file) ;;;
  let! pid := sysc Fork in
  (if negb (pid =? 0) && (i mod 3 =? 1)%nat then sysc (Link (chars "C0") file) ;;; Done tt
   else if (pid =? 0) && (i mod 5 =? 1)%nat then sysc (Link (chars "C0") file) ;;; Done tt
   else
     let! fd := sysc (Open file (O_CREATE .| O_RDWR)) in
     if fd <? 0 then printf (line "concreate create %s failed") [PStr (Some file)] ;;; Exited 1
     else close_ fd) ;;;
  if pid =? 0 then Exited 0
  else
    let! '(_, xstatus) := wait_ junk in
    if negb (xstatus =? 0) then Exited 1 else Done tt.

(** The loop over the directory: [de] is the entry, [fa] the files seen and
    [n] their number. *)
Fixpoint concreate_scan (f : nat) (fd : Z) (de : list Z) (fa : list bool) (n : Z) : prog Z :=
  match f with
  | O => Stuck
  | S f' =>
      let! '(r, d) := sysd (Read fd 16) in
      let de := fill d de in
      if r <=? 0 then Done n
      else if de !!! 0%nat + 256 * de !!! 1%nat =? 0 then concreate_scan f' fd de fa n
      else if (de !!! 2%nat =? 67) && (de !!! 4%nat =? 0) then
        let i := de !!! 3%nat - 48 in
        let name := PStr (Some (ctake [67; de !!! 3%nat])) in
        oops ((i <? 0) || (40 <=? i)) "concreate weird file %s" [name] ;;;
        oops (fa !!! Z.to_nat i) "concreate duplicate file %s" [name] ;;;
        concreate_scan f' fd de (<[Z.to_nat i := true]> fa) (n + 1)
      else concreate_scan f' fd de fa n
  end.

(** Turn [i] of the last loop of [concreate]. *)
Definition concreate_race (i : nat) : prog unit :=
  let file := name2 67 (Z.of_nat i) in
  let! pid := fork_ in
  (if ((i mod 3 =? 0)%nat && (pid =? 0)) || ((i mod 3 =? 1)%nat && negb (pid =? 0))
   then peach (seq 0 6) (fun _ => let! fd := sysc (Open file 0) in close_ fd)
   else peach (seq 0 6) (fun _ => sysc (Unlink file) ;;; Done tt)) ;;;
  if pid =? 0 then Exited 0 else sysc Wait ;;; Done tt.

Definition concreate (de : list Z) : prog unit :=
  peach (seq 0 40) concreate_make ;;;
  let! fd := open_ "." 0 in
  let! n := concreate_scan fuel fd de (replicate 40 false) 0 in
  close_ fd ;;;
  oops (negb (n =? 40)) "concreate not enough files in directory listing" [] ;;;
  peach (seq 0 40) concreate_race.

Definition linkunlink : prog unit :=
  unlink_ "x" ;;;
  let! pid := fork_ in
  pfold (seq 0 100) (fun _ x =>
    let x := u32 (x * 1103515245 + 12345) in
    (if x mod 3 =? 0 then let! fd := open_ "x" (O_RDWR .| O_CREATE) in close_ fd
     else if x mod 3 =? 1 then link_ "cat" "x" ;;; Done tt
     else unlink_ "x" ;;; Done tt) ;;;
    Done x) (if negb (pid =? 0) then 1 else 97) ;;;
  if negb (pid =? 0) then sysc Wait ;;; Done tt else Exited 0.

(** [for(n=0; n<N; n++)] of [forktest], with [k] turns to go: the final [n]. *)
Fixpoint fork_many (k : nat) (n : Z) : prog Z :=
  match k with
  | O => Done n
  | S k' =>
      let! pid := sysc Fork in
      if pid <? 0 then Done n
      else if pid =? 0 then Exited 0
      else fork_many k' (n + 1)
  end.

Definition forktest : prog unit :=
  let! n := fork_many 1000 0 in
  oops (n =? 0) "no fork at all!" [] ;;;
  oops (n =? 1000) "fork claimed to work 1000 times!" [] ;;;
  peach (seq 0 (Z.to_nat n)) (fun _ =>
    let! r := sysc Wait in
    oops (r <? 0) "wait stopped early" []) ;;;
  let! r := sysc Wait in
  oops (negb (r =? -1)) "wait got too many" [].

Definition SBRK_ERROR : Z := -1.
Definition BIG : Z := 100 * 1024 * 1024.

(** The children of [sbrkfail]: their pids, whether an allocation failed, and
    [scratch]. *)
Definition sbrkfail_fork (fds : list Z) : prog (list Z * bool * Z) :=
  pfold (seq 0 10) (fun _ '(pids, failed, scratch) =>
    let! pid := sysc Fork in
    if pid =? 0 then
      let! b := sbrk 0 in
      let! r := sbrk (i32 (BIG - b)) in
      (if r =? SBRK_ERROR then write_ (fd_at fds 1) "0" else write_ (fd_at fds 1) "1") ;;;
      peach (seq 0 fuel) (fun _ => sysc (Pause 1000) ;;; Done tt) ;;;
      Stuck
    else if negb (pid =? -1) then
      let! '(_, d) := sysd (Read (fd_at fds 0) 1) in
      let scratch := default scratch (head d) in
      Done (pids ++ [pid], failed || (scratch =? 48), scratch)
    else Done (pids ++ [pid], failed, scratch)) ([], false, junk).

Definition sbrkfail : prog unit :=
  let! '(r, fds) := sysd Pipe in
  oops (negb (r =? 0)) "pipe() failed" [] ;;;
  let! '(pids, failed, _) := sbrkfail_fork fds in
  (if negb failed then printf (line "%s: no allocation failed; allocate more?") [PStr (Some s)] else Done tt) ;;;
  let! c := sbrk PGSIZE in
  peach pids (fun pid => if pid =? -1 then Done tt else sysc (Kill pid) ;;; sysc Wait ;;; Done tt) ;;;
  oops (c =? SBRK_ERROR) "failed sbrk leaked memory" [] ;;;
  let! pid := fork_ in
  if pid =? 0 then
    let! a := sbrk (10 * BIG) in
    if a =? SBRK_ERROR then Exited 0
    else oops true "allocate a lot of memory succeeded %d" [PInt (10 * BIG)]
  else
    let! '(_, xstatus) := wait_ junk in
    if negb (xstatus =? 0) then Exited 1 else Done tt.

Definition bigargtest : prog unit :=
  unlink_ "bigarg-ok" ;;;
  let! pid := sysc Fork in
  if pid =? 0 then
    sysc (Exec (chars "echo") (replicate (MAXARG - 1) (replicate 399 32))) ;;;
    let! fd := open_ "bigarg-ok" O_CREATE in
    close_ fd ;;;
    Exited 0
  else
    oops (pid <? 0) "bigargtest: fork failed" [] ;;;
    let! '(_, xstatus) := wait_ junk in
    if negb (xstatus =? 0) then Exited xstatus
    else
      let! fd := open_ "bigarg-ok" 0 in
      oops (fd <? 0) "bigarg test failed!" [] ;;;
      close_ fd.

(** The child of [manywrites] with number [ci]. *)
Definition manywrites_child (ci : nat) : prog unit :=
  let name := [98; u8 (97 + Z.of_nat ci)] in
  sysc (Unlink name) ;;;
  peach (seq 0 30) (fun _ =>
    peach (seq 0 (ci + 1)) (fun _ =>
      let! fd := sysc (Open name (O_CREATE .| O_RDWR)) in
      oops (fd <? 0) "cannot create %s" [PStr (Some name)] ;;;
      let! cc := sysc (Write fd buf) in
      oops (negb (cc =? BUFSZ)) "write(%d) ret %d" [PInt BUFSZ; PInt cc] ;;;
      close_ fd) ;;;
    sysc (Unlink name) ;;; Done tt) ;;;
  sysc (Unlink name) ;;;
  Exited 0.

Definition manywrites : prog unit :=
  peach (seq 0 4) (fun ci =>
    let! pid := sysc Fork in
    (if pid <? 0 then printf (line "fork failed") [] ;;; Exited 1 else Done tt) ;;;
    if pid =? 0 then manywrites_child ci else Done tt) ;;;
  peach (seq 0 4) (fun _ =>
    let! '(_, st) := wait_ 0 in
    if negb (st =? 0) then Exited st else Done tt) ;;;
  Exited 0.
End Tests.
