(* ===== verification/UtRun.v ===== *)
(** * usertests.c: running the tests

    The driver of user/usertests.c, which runs every test in a process of its
    own, and the meaning of a program that forks when children run to their
    end before their parents go on: [srun].  Whatever the tests do, the driver
    reports and counts what the exit statuses of the children say. *)

From S2P Require Import Prelude Mem Riscv Cstring Printf Usys Ulib Uprintf UtFiles UtProcs.

(** ** The driver *)

(** [struct test]: the function, which gets its own name, and the name. *)
Record test := Test { t_f : list Z -> prog unit; t_s : list Z }.

Section Driver.
Context (fuel : nat) (junk : Z).

Definition run_test (t : test) : prog bool :=
  printf "test %s: " [PStr (Some (t_s t))] ;;;
  let! pid := sysc Fork in
  if pid <? 0 then printf (line "runtest: fork error") [] ;;; Exited 1
  else if pid =? 0 then t_f t (t_s t) ;;; Exited 0
  else
    let! '(_, xstatus) := wait_ junk in
    (if negb (xstatus =? 0) then printf (line "FAILED") [] else printf (line "OK") []) ;;;
    Done (xstatus =? 0).

(** [(justone == 0) || strcmp(t->s, justone) == 0] *)
Definition selected (justone : option (list Z)) (t : test) : bool :=
  match justone with None => true | Some j => strcmp (t_s t) j =? 0 end.

(** The loop of [runtests], [ntests] tests having run. *)
Fixpoint runtests_loop (tests : list test) (justone : option (list Z)) (continuous ntests : Z) : prog Z :=
  match tests with
  | [] => Done ntests
  | t :: rest =>
      if selected justone t then
        let ntests := ntests + 1 in
        let! ok := run_test t in
        if negb ok && negb (continuous =? 2) then printf (line "SOME TESTS FAILED") [] ;;; Done (-1)
        else runtests_loop rest justone continuous ntests
      else runtests_loop rest justone continuous ntests
  end.

Definition runtests (tests : list test) (justone : option (list Z)) (continuous : Z) : prog Z :=
  runtests_loop tests justone continuous 0.

(** [while(1)] of [countfree]. *)
Fixpoint count_pages (f : nat) (n : Z) : prog Z :=
  match f with
  | O => Stuck
  | S f' => let! a := sbrk PGSIZE in if a =? SBRK_ERROR then Done n else count_pages f' (n + 1)
  end.

Definition countfree : prog Z :=
  let! sz0 := sbrk 0 in
  let! n := count_pages fuel 0 in
  let! b := sbrk 0 in
  sbrk (i32 (- (b - sz0))) ;;;
  Done n.

(** The body of the loop of [drivetests]: [Some 1] for [return 1]. *)
Definition drive_once (quicktests slowtests : list test) (quick : bool) (continuous : Z) (justone : option (list Z)) :
    prog (option Z) :=
  printf (line "usertests starting") [] ;;;
  let! free0 := countfree in
  let! n := runtests quicktests justone continuous in
  if (n <? 0) && negb (continuous =? 2) then Done (Some 1)
  else
    let ntests := if n <? 0 then 0 else n in
    let! r :=
      (if negb quick then
         (match justone with None => printf (line "usertests slow tests starting") [] | Some _ => Done tt end) ;;;
         let! n := runtests slowtests justone continuous in
         if (n <? 0) && negb (continuous =? 2) then Done None
         else Done (Some (if n <? 0 then ntests else ntests + n))
       else Done (Some ntests)) in
    match r with
    | None => Done (Some 1)
    | Some ntests =>
        let! free1 := countfree in
        (if free1 <? free0 then
           printf (line "FAILED -- lost some free pages %d (out of %d)") [PInt free1; PInt free0]
         else Done tt) ;;;
        if (free1 <? free0) && negb (continuous =? 2) then Done (Some 1)
        else if (match justone with Some _ => true | None => false end) && (ntests =? 0) then
          printf (line "NO TESTS EXECUTED") [] ;;; Done (Some 1)
        else Done None
    end.

(** [do ... while(continuous)] *)
Fixpoint drivetests (f : nat) (quicktests slowtests : list test) (quick : bool) (continuous : Z)
    (justone : option (list Z)) : prog Z :=
  match f with
  | O => Stuck
  | S f' =>
      let! r := drive_once quicktests slowtests quick continuous justone in
      match r with
      | Some v => Done v
      | None => if continuous =? 0 then Done 0 else drivetests f' quicktests slowtests quick continuous justone
      end
  end.

(** [main]; [argv[0]] is the name of the program. *)
Definition usertests_main (quicktests slowtests : list test) (argv : list (list Z)) : prog Z :=
  let go quick continuous justone :=
    let! r := drivetests fuel quicktests slowtests quick continuous justone in
    if negb (r =? 0) then Exited 1 else printf (line "ALL TESTS PASSED") [] ;;; Exited 0 in
  match argv with
  | [_; a] =>
      if strcmp a (chars "-q") =? 0 then go true 0 None
      else if strcmp a (chars "-c") =? 0 then go false 1 None
      else if strcmp a (chars "-C") =? 0 then go false 2 None
      else if negb (nth 0 a 0 =? 45) then go false 0 (Some a)
      else printf (line "Usage: usertests [-c] [-C] [-q] [testname]") [] ;;; Exited 1
  | _ :: _ :: _ => printf (line "Usage: usertests [-c] [-C] [-q] [testname]") [] ;;; Exited 1
  | _ => go false 0 None
  end.
End Driver.

(** ** Programs that fork

    The system says whether there is room for another process.  If there is, the
    child runs to its end when it is forked; [join w w'] is the world the
    parent goes on in when it forked in [w] and the child ended in [w'].  The
    state also has the children that nobody waited for, with their exit
    statuses, and the next pid.  A child that does not call [exit] has no
    meaning. *)
Record os (W : Type) := Os { o_world : W; o_zombies : list (Z * Z); o_pid : Z }.
Arguments Os {W}.
Arguments o_world {W}.
Arguments o_zombies {W}.
Arguments o_pid {W}.

Section Forks.
Context {W : Type} (h : handler W) (join : W -> W -> W).

Fixpoint srun {A} (o : os W) (m : prog A) : result (os W) A :=
  match m with
  | Done a => RDone o a
  | Exited n => RExit o n
  | Stuck => RStuck
  | Do c k =>
      match c with
      | Fork =>
          let '(w, r, d) := h (o_world o) Fork in
          let pid := o_pid o in
          if r <? 0 then srun (Os w (o_zombies o) pid) (k r d)
          else
            match srun (Os w [] (pid + 1)) (k 0 []) with
            | RExit oc n => srun (Os (join w (o_world oc)) (o_zombies o ++ [(pid, n)]) (pid + 1)) (k pid [])
            | _ => RStuck
            end
      | Wait =>
          match o_zombies o with
          | [] => srun o (k (-1) [])
          | (pid, n) :: z => srun (Os (o_world o) z (o_pid o)) (k pid [n])
          end
      | _ => let '(w, r, d) := h (o_world o) c in srun (Os w (o_zombies o) (o_pid o)) (k r d)
      end
  end.

Lemma srun_bind {A B} (m : prog A) (f : A -> prog B) : forall o,
  match srun o m with
  | RDone o' a => srun o (pbind m f) = srun o' (f a)
  | RExit o' n => srun o (pbind m f) = RExit o' n
  | RStuck => True
  end.
Proof.
  induction m as [a|c k IH|n|]; intros o; simpl; try reflexivity.
  destruct c; simpl; try (destruct (h _ _) as [[w r] d]; apply IH).
  - destruct (h _ _) as [[w r] d]. destruct (r <? 0); [apply IH|].
    pose proof (IH 0 [] (Os w [] (o_pid o + 1))) as H.
    destruct (srun _ (k 0 [])) as [| |]; try done. rewrite H. apply IH.
  - destruct (o_zombies o) as [|[pid n] z]; apply IH.
Qed.

Lemma srun_done {A B} (m : prog A) (f : A -> prog B) o o' a :
  srun o m = RDone o' a -> srun o (pbind m f) = srun o' (f a).
Proof. intros E. pose proof (srun_bind m f o) as H. by rewrite E in H. Qed.

Lemma srun_exit {A B} (m : prog A) (f : A -> prog B) o o' n :
  srun o m = RExit o' n -> srun o (pbind m f) = RExit o' n.
Proof. intros E. pose proof (srun_bind m f o) as H. by rewrite E in H. Qed.

(** The console does not change the world. *)
Context (Hwrite : forall w l, h w (Write 1 l) = (w, Z.of_nat (length l), [])).

Lemma srun_printf fmt args l o :
  vformat (length (chars fmt)) false (chars fmt) args = Some l -> srun o (printf fmt args) = RDone o tt.
Proof.
  intros E. unfold printf, vprintf. rewrite E. clear E. revert o. induction l as [|c l IH]; intros o; [reflexivity|].
  simpl. rewrite Hwrite. destruct o. apply IH.
Qed.

(** What becomes of a test: no process for it, or an exit status. *)
Inductive fate := NoFork | Status (n : Z).

(** A test run by itself: its fate and the system its parent goes on in.  A
    test that returns exits with 0. *)
Definition test_run (o : os W) (t : test) : option (fate * os W) :=
  let '(w, r, _) := h (o_world o) Fork in
  if r <? 0 then Some (NoFork, Os w [] (o_pid o))
  else
    let o1 oc := Os (join w (o_world oc)) [] (o_pid o + 1) in
    match srun (Os w [] (o_pid o + 1)) (t_f t (t_s t)) with
    | RDone oc _ => Some (Status 0, o1 oc)
    | RExit oc n => Some (Status n, o1 oc)
    | RStuck => None
    end.

Lemma run_test_ok junk o t f o' :
  0 < o_pid o -> o_zombies o = [] -> test_run o t = Some (f, o') ->
  srun o (run_test junk t) =
    match f with NoFork => RExit o' 1 | Status n => RDone o' (n =? 0) end.
Proof.
  intros Hp Hz. unfold run_test, test_run.
  erewrite srun_done by (eapply srun_printf; reflexivity). cbn [pbind sysc srun].
  destruct (h (o_world o) Fork) as [[w r] d]. rewrite Hz. destruct (r <? 0) eqn:Er.
  { intros [= <- <-]. cbv iota. erewrite srun_done by (eapply srun_printf; reflexivity). reflexivity. }
  intros Ht. change (0 <? 0) with false. change (0 =? 0) with true. cbv iota.
  assert (Hc : srun (Os w [] (o_pid o + 1)) (t_f t (t_s t) ;;; Exited 0 : prog bool) =
    match srun (Os w [] (o_pid o + 1)) (t_f t (t_s t)) with
    | RDone oc _ => RExit oc 0 | RExit oc n => RExit oc n | RStuck => RStuck end).
  { pose proof (srun_bind (t_f t (t_s t)) (fun _ => Exited 0 : prog bool) (Os w [] (o_pid o + 1))) as H.
    destruct (srun _ (t_f t (t_s t))); [exact H|exact H|discriminate]. }
  rewrite Hc. destruct (o_pid o <? 0) eqn:E1; [lia|]. destruct (o_pid o =? 0) eqn:E2; [lia|].
  revert Ht. destruct (srun _ (t_f t (t_s t))) as [oc u|oc m|]; [intros [= <- <-]..|discriminate];
    unfold wait_; cbn [app pbind sysd srun o_zombies o_world o_pid head default from_option id];
    [change (0 =? 0) with true|destruct (m =? 0)]; cbn [negb];
    (erewrite srun_done by (eapply srun_printf; reflexivity)); reflexivity.
Qed.

(** The fates of tests that run one after the other, until one has no process
    or, without [-C], fails; [None] if one does not end. *)
Fixpoint history (continuous : Z) (o : os W) (ts : list test) : option (list fate * os W) :=
  match ts with
  | [] => Some ([], o)
  | t :: ts' =>
      match test_run o t with
      | None => None
      | Some (NoFork, o1) => Some ([NoFork], o1)
      | Some (Status n, o1) =>
          if negb (n =? 0) && negb (continuous =? 2) then Some ([Status n], o1)
          else option_map (fun '(fs, o2) => (Status n :: fs, o2)) (history continuous o1 ts')
      end
  end.

Definition lacks_process (f : fate) : bool := match f with NoFork => true | Status _ => false end.
Definition passes (f : fate) : bool := match f with NoFork => false | Status n => n =? 0 end.

(** What [runtests] should do, [k] tests having run: end the driver, fail, or
    return how many tests ran. *)
Definition verdict (continuous k : Z) (fs : list fate) (o : os W) : result (os W) Z :=
  if existsb lacks_process fs then RExit o 1
  else if (continuous =? 2) || forallb passes fs then RDone o (k + Z.of_nat (length fs))
  else RDone o (-1).

Lemma verdict_cons continuous k n fs o :
  negb (n =? 0) && negb (continuous =? 2) = false ->
  verdict continuous k (Status n :: fs) o = verdict continuous (k + 1) fs o.
Proof.
  unfold verdict. cbn [existsb forallb lacks_process passes orb length]. intros B.
  destruct (existsb _ fs); [reflexivity|].
  replace (k + Z.of_nat (S (length fs))) with (k + 1 + Z.of_nat (length fs)) by lia.
  revert B. by destruct (n =? 0), (continuous =? 2).
Qed.

Lemma test_run_pid o t f o' :
  0 < o_pid o -> test_run o t = Some (f, o') -> 0 < o_pid o' /\ o_zombies o' = [].
Proof.
  unfold test_run. intros Hp. destruct (h _ _) as [[w r] d]. destruct (r <? 0); [by intros [= <- <-]|].
  destruct (srun _ _); intros [= <- <-]; (split; [simpl; lia|reflexivity]).
Qed.

Lemma runtests_ok junk justone continuous tests : forall o fs o' k,
  0 < o_pid o -> o_zombies o = [] ->
  history continuous o (filter (fun t => selected justone t = true) tests) = Some (fs, o') ->
  srun o (runtests_loop junk tests justone continuous k) = verdict continuous k fs o'.
Proof.
  induction tests as [|t tests IH]; intros o fs o' k Hp Hz Hs.
  { injection Hs as <- <-. unfold verdict. rewrite orb_true_r. cbn. by rewrite Z.add_0_r. }
  cbn [runtests_loop]. rewrite filter_cons in Hs. destruct (decide (selected justone t = true)) as [E|E].
  2:{ destruct (selected justone t); [done|]. by apply IH. }
  rewrite E. cbn [history] in Hs. destruct (test_run o t) as [[f o1]|] eqn:Ht; [|discriminate].
  pose proof (run_test_ok junk o t f o1 Hp Hz Ht) as Hr. destruct (test_run_pid _ _ _ _ Hp Ht) as [Hp1 Hz1].
  destruct f as [|n].
  { injection Hs as <- <-. by rewrite (srun_exit _ _ _ _ _ Hr). }
  rewrite (srun_done _ _ _ _ _ Hr). destruct (negb (n =? 0) && negb (continuous =? 2)) eqn:B.
  - injection Hs as <- <-. erewrite srun_done by (eapply srun_printf; reflexivity).
    unfold verdict. cbn. revert B. by destruct (n =? 0), (continuous =? 2).
  - destruct (history continuous o1 _) as [[fs1 o2]|] eqn:Eh; [|discriminate]. injection Hs as <- <-.
    rewrite verdict_cons by exact B. by apply IH.
Qed.

(** Unless the driver stops, every test has its turn. *)
Lemma history_length continuous ts : forall o fs o',
  history continuous o ts = Some (fs, o') -> existsb lacks_process fs = false ->
  (continuous =? 2) || forallb passes fs = true -> length fs = length ts.
Proof.
  induction ts as [|t ts IH]; intros o fs o'; cbn [history]; [by intros [= <- _]|].
  destruct (test_run o t) as [[[|n] o1]|]; [by intros [= <- _]| |discriminate].
  destruct (negb (n =? 0) && negb (continuous =? 2)) eqn:B.
  { intros [= <- _] _. cbn. revert B. by destruct (n =? 0), (continuous =? 2). }
  destruct (history continuous o1 ts) as [[fs1 o2]|] eqn:Eh; [|discriminate]. intros [= <- _]. cbn.
  intros Hn Hp. f_equal. eapply IH; [exact Eh|exact Hn|]. revert Hp. by destruct (n =? 0), (continuous =? 2).
Qed.
End Forks.

(** C24: the driver reports the exit statuses.  Take any system on which the
    tests that get to run end, and let [fs] be what becomes of the selected
    tests one after the other.  [runtests] ends the whole driver with status 1
    if there is no process for a test; otherwise, without [-C], it returns -1
    at the first test that exits with another status than 0, and else it
    returns the number of selected tests, under [-C] whatever their statuses
    are.  The system is left as the last test that ran left it. *)
Theorem runtests_spec {W} (h : handler W) (join : W -> W -> W) junk tests justone continuous o fs o'
    (Hwrite : forall w l, h w (Write 1 l) = (w, Z.of_nat (length l), [])) (Hp : 0 < o_pid o) (Hz : o_zombies o = [])
    (Hs : history h join continuous o (filter (fun t => selected justone t = true) tests) = Some (fs, o')) :
  srun h join o (runtests junk tests justone continuous) =
    if existsb lacks_process fs then RExit o' 1
    else if (continuous =? 2) || forallb passes fs
    then RDone o' (Z.of_nat (length (filter (fun t => selected justone t = true) tests)))
    else RDone o' (-1).
Proof.
  unfold runtests. rewrite (runtests_ok h join Hwrite junk justone continuous tests o fs o' 0 Hp Hz Hs).
  unfold verdict. destruct (existsb _ fs) eqn:E; [reflexivity|].
  destruct (_ || _) eqn:E2; [|reflexivity]. by rewrite (history_length h join _ _ _ _ _ Hs E E2).
Qed.

(** Three tests of which the second fails, on a system with room for two more
    processes: the world is how many. *)
Definition demo_tests : list test :=
  [Test (fun _ => Done tt) (chars "good"); Test (fun _ => Exited 1) (chars "bad"); Test (fun _ => Done tt) (chars "last")].
Definition demo_system : handler nat := fun w c =>
  match c with
  | Write _ l => (w, Z.of_nat (length l), [])
  | Fork => (pred w, if (0 <? w)%nat then 0 else -1, [])
  | _ => (w, -1, [])
  end.

Lemma runtests_spec_witness :
  srun demo_system (fun w _ => w) (Os 2%nat [] 3) (runtests 0 demo_tests None 0) = RDone (Os 0%nat [] 5) (-1) /\
  srun demo_system (fun w _ => w) (Os 3%nat [] 3) (runtests 0 demo_tests None 2) = RDone (Os 0%nat [] 6) 3 /\
  srun demo_system (fun w _ => w) (Os 2%nat [] 3) (runtests 0 demo_tests None 2) = RExit (Os 0%nat [] 5) 1.
Proof.
  split_and!.
  - apply (runtests_spec demo_system (fun w _ => w) 0 demo_tests None 0 (Os 2%nat [] 3) [Status 0; Status 1]); reflexivity.
  - apply (runtests_spec demo_system (fun w _ => w) 0 demo_tests None 2 (Os 3%nat [] 3) [Status 0; Status 1; Status 0]); reflexivity.
  - apply (runtests_spec demo_system (fun w _ => w) 0 demo_tests None 2 (Os 2%nat [] 3) [Status 0; Status 1; NoFork]); reflexivity.
Defined.
