(* ===== verification/Shell.v ===== *)
(** * The shell (user/sh.c)

    The recursive-descent parser works on positions in the line buffer, as the
    C pointers [s], [q] and [eq] do; [nulterminate] then writes NULs into the
    buffer, which makes C strings of the words.  [runcmd] turns the command
    into system calls.  Memory for the command tree comes from [malloc], which
    is taken to succeed, as the C code does. *)

From S2P Require Import Prelude Mem Cstring Printf Usys Ulib Uprintf.

Definition MAXARGS : nat := 10.

(** ** Commands

    A word or a file name is a pair of positions: its first character and the
    one after its last. *)
Inductive cmd :=
| EXEC (argv : list (nat * nat))
| REDIR (c : cmd) (file efile : nat) (mode fd : Z)
| PIPE (left right : cmd)
| LIST (left right : cmd)
| BACK (c : cmd).

Definition execcmd : cmd := EXEC [].
Definition redircmd (subcmd : cmd) (file efile : nat) (mode fd : Z) : cmd := REDIR subcmd file efile mode fd.
Definition pipecmd (left right : cmd) : cmd := PIPE left right.
Definition listcmd (left right : cmd) : cmd := LIST left right.
Definition backcmd (subcmd : cmd) : cmd := BACK subcmd.

(** ** Tokens *)

Definition whitespace : list Z := [32; 9; 13; 10; 11].
Definition symbols : list Z := chars "<|>&;()".

(** [strchr(set, c)] as a condition. *)
Definition member (set : list Z) (c : Z) : bool := match strchr set c with Some _ => true | None => false end.

(** The character at [s]; the end of the line holds a NUL. *)
Definition at_ (b : list Z) (s : nat) : Z := default 0 (b !! s).

(** [while(s < es && cond( *s )) s++] *)
Fixpoint skip (n : nat) (cond : Z -> bool) (b : list Z) (s : nat) : nat :=
  match n with
  | O => s
  | S n' => if (s <? length b)%nat && cond (at_ b s) then skip n' cond b (S s) else s
  end.
Definition skip_ws (b : list Z) (s : nat) : nat := skip (length b) (member whitespace) b s.

(** [gettoken(ps, es, q, eq)]: the token, [q], [eq] and the new [*ps]. *)
Definition gettoken (b : list Z) (s : nat) : Z * nat * nat * nat :=
  let s := skip_ws b s in
  let q := s in
  let c := at_ b s in
  let '(ret, s) :=
    if c =? 0 then (c, s)
    else if member (chars "|();&<") c then (c, S s)
    else if c =? 62 then
      (if at_ b (S s) =? 62 then (43, S (S s)) else (c, S s))
    else (97, skip (length b) (fun x => negb (member whitespace x) && negb (member symbols x)) b s) in
  (ret, q, s, skip_ws b s).

Definition peek (b : list Z) (s : nat) (toks : list Z) : bool * nat :=
  let s := skip_ws b s in
  (negb (at_ b s =? 0) && member toks (at_ b s), s).

(** ** The parser

    A result is a value and the new [*ps]; [PPanic] is [panic(msg)], [PFuel]
    means that the bound on the recursion was too small. *)
Inductive pres (A : Type) := POk (a : A) (s : nat) | PPanic (msg : string) | PFuel.
Arguments POk {A}.
Arguments PPanic {A}.
Arguments PFuel {A}.

Definition rbind {A B} (r : pres A) (f : A -> nat -> pres B) : pres B :=
  match r with POk a s => f a s | PPanic m => PPanic m | PFuel => PFuel end.

Fixpoint parseredirs (n : nat) (b : list Z) (c : cmd) (s : nat) : pres cmd :=
  match n with
  | O => PFuel
  | S n' =>
      let '(more, s) := peek b s (chars "<>") in
      if more then
        let '(tok, _, _, s) := gettoken b s in
        let '(w, q, eq, s) := gettoken b s in
        if negb (w =? 97) then PPanic "missing file for redirection"
        else
          let c :=
            if tok =? 60 then redircmd c q eq O_RDONLY 0
            else if tok =? 62 then redircmd c q eq (Z.lor (Z.lor O_WRONLY O_CREATE) O_TRUNC) 1
            else if tok =? 43 then redircmd c q eq (Z.lor O_WRONLY O_CREATE) 1
            else c in
          parseredirs n' b c s
      else POk c s
  end.

(** [cmd->argv[argc] = q; cmd->eargv[argc] = eq] for the [execcmd] at the end
    of the chain of redirections [ret]. *)
Fixpoint add_arg (ret : cmd) (q eq : nat) : cmd :=
  match ret with
  | EXEC argv => EXEC (argv ++ [(q, eq)])
  | REDIR c f e m fd => REDIR (add_arg c q eq) f e m fd
  | c => c
  end.

(** The loop of [parseexec] over the arguments. *)
Fixpoint parseargs (n : nat) (b : list Z) (ret : cmd) (argc : nat) (s : nat) : pres cmd :=
  match n with
  | O => PFuel
  | S n' =>
      let '(stop, s) := peek b s (chars "|)&;") in
      if stop then POk ret s
      else
        let '(tok, q, eq, s) := gettoken b s in
        if tok =? 0 then POk ret s
        else if negb (tok =? 97) then PPanic "syntax"
        else
          let ret := add_arg ret q eq in
          let argc := S argc in
          if (MAXARGS <=? argc)%nat then PPanic "too many args"
          else rbind (parseredirs (S (length b)) b ret s) (fun ret s => parseargs n' b ret argc s)
  end.

(** [while(peek(ps, es, "&"))] of [parseline] *)
Fixpoint parsebacks (n : nat) (b : list Z) (c : cmd) (s : nat) : pres cmd :=
  match n with
  | O => PFuel
  | S n' =>
      let '(more, s) := peek b s (chars "&") in
      if more then let '(_, _, _, s) := gettoken b s in parsebacks n' b (backcmd c) s
      else POk c s
  end.

Fixpoint parseline (n : nat) (b : list Z) (s : nat) : pres cmd :=
  match n with
  | O => PFuel
  | S n' =>
      rbind (parsepipe n' b s) (fun c s =>
      rbind (parsebacks (S (length b)) b c s) (fun c s =>
      let '(more, s) := peek b s (chars ";") in
      if more then
        let '(_, _, _, s) := gettoken b s in
        rbind (parseline n' b s) (fun r s => POk (listcmd c r) s)
      else POk c s))
  end
with parsepipe (n : nat) (b : list Z) (s : nat) : pres cmd :=
  match n with
  | O => PFuel
  | S n' =>
      rbind (parseexec n' b s) (fun c s =>
      let '(more, s) := peek b s (chars "|") in
      if more then
        let '(_, _, _, s) := gettoken b s in
        rbind (parsepipe n' b s) (fun r s => POk (pipecmd c r) s)
      else POk c s)
  end
with parseblock (n : nat) (b : list Z) (s : nat) : pres cmd :=
  match n with
  | O => PFuel
  | S n' =>
      let '(open, s) := peek b s (chars "(") in
      if negb open then PPanic "parseblock"
      else
        let '(_, _, _, s) := gettoken b s in
        rbind (parseline n' b s) (fun c s =>
        let '(close, s) := peek b s (chars ")") in
        if negb close then PPanic "syntax - missing )"
        else
          let '(_, _, _, s) := gettoken b s in
          parseredirs (S (length b)) b c s)
  end
with parseexec (n : nat) (b : list Z) (s : nat) : pres cmd :=
  match n with
  | O => PFuel
  | S n' =>
      let '(open, s) := peek b s (chars "(") in
      if open then parseblock n' b s
      else rbind (parseredirs (S (length b)) b execcmd s) (fun ret s => parseargs (S (length b)) b ret 0 s)
  end.

(** [*p = 0] for a position of the line or its end. *)
Definition put_nul (p : nat) (b : list Z) : list Z := <[p := 0]> b.

Fixpoint nulterminate (c : cmd) (b : list Z) : list Z :=
  match c with
  | EXEC argv => fold_left (fun b a => put_nul (snd a) b) argv b
  | REDIR c _ efile _ _ => put_nul efile (nulterminate c b)
  | PIPE l r => nulterminate r (nulterminate l b)
  | LIST l r => nulterminate r (nulterminate l b)
  | BACK c => nulterminate c b
  end.

(** [parsecmd(s)]: the command and the buffer, or the message of [panic]; the
    text after the command is printed first when there is one. *)
Inductive parsed := Parsed (c : cmd) (b : list Z) | Leftovers (rest : list Z) | Panicked (msg : string) | NoFuel.

Definition parsecmd (b : list Z) : parsed :=
  match parseline (4 * length b + 4) b 0 with
  | POk c s =>
      let '(_, s) := peek b s [] in
      if (s =? length b)%nat then Parsed c (nulterminate c b) else Leftovers (drop s b)
  | PPanic m => Panicked m
  | PFuel => NoFuel
  end.

(** ** Running commands

    After [nulterminate] a word is the C string at its first position.
    [scmd] is a command with its strings read off the buffer. *)
Inductive scmd :=
| SExec (argv : list (list Z))
| SRedir (c : scmd) (file : list Z) (mode fd : Z)
| SPipe (left right : scmd)
| SList (left right : scmd)
| SBack (c : scmd).

Definition string_at (b : list Z) (q : nat) : list Z := ctake (drop q b).

Fixpoint strings (b : list Z) (c : cmd) : scmd :=
  match c with
  | EXEC argv => SExec ((fun a => string_at b (fst a)) <$> argv)
  | REDIR c file _ mode fd => SRedir (strings b c) (string_at b file) mode fd
  | PIPE l r => SPipe (strings b l) (strings b r)
  | LIST l r => SList (strings b l) (strings b r)
  | BACK c => SBack (strings b c)
  end.

Definition panic {A} (s : string) : prog A :=
  fprintf 2 "%s
" [PStr (Some (chars s))] ;;; Exited 1.

Definition fork1 : prog Z :=
  let! pid := sysc Fork in
  if pid =? -1 then panic "fork" else Done pid.

(** The child of [fork1()] runs [m], which does not return. *)
Definition in_child (m : prog unit) : prog unit :=
  let! pid := fork1 in if pid =? 0 then m else Done tt.

Fixpoint runcmd (c : scmd) : prog unit :=
  match c with
  | SExec argv =>
      match argv with
      | [] => Exited 1
      | a :: _ =>
          sysc (Exec a argv) ;;;
          fprintf 2 "exec %s failed
" [PStr (Some a)]
      end
  | SRedir c file mode fd =>
      sysc (Close fd) ;;;
      let! r := sysc (Open file mode) in
      if r <? 0 then
        fprintf 2 "open %s failed
" [PStr (Some file)] ;;; Exited 1
      else runcmd c
  | SList lc rc =>
      in_child (runcmd lc) ;;;
      sysc Wait ;;;
      runcmd rc
  | SPipe lc rc =>
      let! '(r, p) := sysd Pipe in
      if r <? 0 then panic "pipe"
      else
        let p0 := p !!! 0%nat in let p1 := p !!! 1%nat in
        in_child (sysc (Close 1) ;;; sysc (Dup p1) ;;; sysc (Close p0) ;;; sysc (Close p1) ;;; runcmd lc) ;;;
        in_child (sysc (Close 0) ;;; sysc (Dup p0) ;;; sysc (Close p0) ;;; sysc (Close p1) ;;; runcmd rc) ;;;
        sysc (Close p0) ;;;
        sysc (Close p1) ;;;
        sysc Wait ;;;
        sysc Wait ;;; Done tt
  | SBack c => in_child (runcmd c)
  end ;;;
  Exited 0.

(** [getcmd(buf, nbuf)]: the line, or -1 at the end of the input. *)
Definition getcmd (nbuf : Z) : prog (option (list Z)) :=
  sysc (Write 2 (chars "$ ")) ;;;
  let! buf := gets nbuf in
  let buf := ctake buf in
  if bool_decide (buf = []) then Done None else Done (Some buf).

(** [runcmd(parsecmd(cmd))] *)
Definition run_line (b : list Z) : prog unit :=
  match parsecmd b with
  | Parsed c b' => runcmd (strings b' c)
  | Leftovers rest =>
      fprintf 2 "leftovers: %s
" [PStr (Some rest)] ;;; panic "syntax"
  | Panicked m => panic m
  | NoFuel => Stuck
  end.

(** [while(( fd = open("console", O_RDWR) ) >= 0)] *)
Fixpoint open_console (n : nat) : prog unit :=
  match n with
  | O => Stuck
  | S n' =>
      let! fd := sysc (Open (chars "console") O_RDWR) in
      if 0 <=? fd then
        if 3 <=? fd then sysc (Close fd) ;;; Done tt else open_console n'
      else Done tt
  end.

Fixpoint skip_blanks (l : list Z) : list Z :=
  match l with c :: l' => if (c =? 32) || (c =? 9) then skip_blanks l' else l | [] => [] end.

(** The loop of [main] over the lines of the input; [n] bounds their
    number. *)
Fixpoint sh_loop (n : nat) : prog unit :=
  match n with
  | O => Stuck
  | S n' =>
      let! line := getcmd 100 in
      match line with
      | None => Done tt
      | Some buf =>
          let c := skip_blanks buf in
          if bool_decide (c !! 0%nat = Some 10) then sh_loop n'
          else
            (if bool_decide (take 3 c = chars "cd ") then
               let c := take (length c - 1) c in
               let! r := sysc (Chdir (drop 3 c)) in
               if r <? 0 then fprintf 2 "cannot cd %s
" [PStr (Some (drop 3 c))] else Done tt
             else
               in_child (run_line c) ;;;
               sysc Wait ;;; Done tt) ;;;
            sh_loop n'
      end
  end.

Definition sh_main (n : nat) : prog unit :=
  open_console 4 ;;;
  sh_loop n ;;;
  Exited 0.
