(* ===== verification/ShellRun.v ===== *)
(** * Pipes and redirections of the shell (user/sh.c: [runcmd])

    Which programs a command starts, and with which files open.  Descriptors
    are handed out as the kernel does it, the lowest free one first
    ([fdalloc] of kernel/sysfile.c); [fork] copies the descriptor table. *)

From S2P Require Import Prelude Mem Cstring Printf Usys Ulib Uprintf Shell.

(** What a descriptor refers to. *)
Inductive obj := Inherited (k : Z) | PathFile (path : list Z) (mode : Z) | PipeR (id : nat) | PipeW (id : nat).
Abbreviation fdt := (gmap Z obj).

Definition fd_alloc (σ : fdt) : option Z := snd <$> list_find (fun i => σ !! i = None) (seqZ 0 16).

(** The programs that [m] executes, in the order of the calls of [exec] when
    a child runs before its parent, each with its arguments and its table of
    descriptors; [n] numbers the pipes.  [exec] succeeds, and [fork], [pipe],
    [dup] and [open] do as long as there are descriptors. *)
Fixpoint execs {A} (n : nat) (σ : fdt) (m : prog A) : list (list (list Z) * fdt) * nat :=
  match m with
  | Done _ | Exited _ | Stuck => ([], n)
  | Do c k =>
      match c with
      | Fork =>
          let '(l1, n1) := execs n σ (k 0 []) in
          let '(l2, n2) := execs n1 σ (k 1 []) in
          (l1 ++ l2, n2)
      | Exec _ argv => ([(argv, σ)], n)
      | Close fd =>
          match σ !! fd with
          | Some _ => execs n (delete fd σ) (k 0 [])
          | None => execs n σ (k (-1) [])
          end
      | Dup fd =>
          match σ !! fd, fd_alloc σ with
          | Some o, Some i => execs n (<[i := o]> σ) (k i [])
          | _, _ => execs n σ (k (-1) [])
          end
      | Open path mode =>
          match fd_alloc σ with
          | Some i => execs n (<[i := PathFile path mode]> σ) (k i [])
          | None => execs n σ (k (-1) [])
          end
      | Pipe =>
          match fd_alloc σ with
          | Some i =>
              let σ1 := <[i := PipeR n]> σ in
              match fd_alloc σ1 with
              | Some j => execs (S n) (<[j := PipeW n]> σ1) (k 0 [i; j])
              | None => execs n σ (k (-1) [])
              end
          | None => execs n σ (k (-1) [])
          end
      | _ => execs n σ (k 0 [])
      end
  end.

(** What a command means: a redirection replaces the file behind a
    descriptor, a pipe connects the output of the left side to the input of
    the right side. *)
Fixpoint plan (n : nat) (σ : fdt) (c : scmd) : list (list (list Z) * fdt) * nat :=
  match c with
  | SExec [] => ([], n)
  | SExec argv => ([(argv, σ)], n)
  | SRedir c file mode fd => plan n (<[fd := PathFile file mode]> σ) c
  | SPipe l r =>
      let '(l1, n1) := plan (S n) (<[1 := PipeW n]> σ) l in
      let '(l2, n2) := plan n1 (<[0 := PipeR n]> σ) r in
      (l1 ++ l2, n2)
  | SList l r =>
      let '(l1, n1) := plan n σ l in
      let '(l2, n2) := plan n1 σ r in
      (l1 ++ l2, n2)
  | SBack c => plan n σ c
  end.

(** Exactly the standard descriptors are open. *)
Definition std (σ : fdt) : Prop := forall fd, is_Some (σ !! fd) <-> 0 <= fd < 3.

(** The redirections the parser makes are of descriptors 0 and 1. *)
Fixpoint redirs_std (c : scmd) : Prop :=
  match c with
  | SExec _ => True
  | SRedir c _ _ fd => (fd = 0 \/ fd = 1) /\ redirs_std c
  | SPipe l r | SList l r => redirs_std l /\ redirs_std r
  | SBack c => redirs_std c
  end.

Lemma execs_assoc {A B C} (m : prog A) (f : A -> prog B) (g : B -> prog C) : forall n σ,
  execs n σ (pbind (pbind m f) g) = execs n σ (pbind m (fun a => pbind (f a) g)).
Proof.
  induction m as [a|c k IH|x|]; intros n σ; try reflexivity.
  destruct c; cbn [pbind execs]; try apply IH; try reflexivity;
    repeat case_match; rewrite ?IH in *; try congruence; try apply IH; reflexivity.
Qed.

Lemma fd_alloc_first (σ : fdt) i :
  0 <= i < 16 -> σ !! i = None -> (forall j, 0 <= j < i -> is_Some (σ !! j)) -> fd_alloc σ = Some i.
Proof.
  intros Hi Hn Hs. unfold fd_alloc.
  rewrite (proj2 (list_find_Some (fun i => σ !! i = None) (seqZ 0 16) (Z.to_nat i) i)); [reflexivity|].
  split; [|split; [exact Hn|]].
  - apply lookup_seqZ. lia.
  - intros j y Hj Hlt. apply lookup_seqZ in Hj as [-> Hj]. destruct (Hs (0 + Z.of_nat j)) as [o Ho]; [lia|]. congruence.
Qed.

Lemma std_open σ fd : std σ -> 0 <= fd < 3 -> exists o, σ !! fd = Some o.
Proof. intros H Hfd. by apply H in Hfd. Qed.

Lemma std_closed σ fd : std σ -> ~ 0 <= fd < 3 -> σ !! fd = None.
Proof. intros H Hfd. apply eq_None_not_Some. intros Ho. by apply Hfd, H. Qed.

Lemma std_insert σ fd o : std σ -> 0 <= fd < 3 -> std (<[fd := o]> σ).
Proof.
  intros H Hfd i. destruct (decide (i = fd)) as [->|Hne].
  - rewrite lookup_insert_eq. split; eauto.
  - rewrite lookup_insert_ne by congruence. apply H.
Qed.

(** The descriptor tables along the calls of [runcmd]. *)
Lemma redirect_table σ fd : std σ -> 0 <= fd < 3 -> fd_alloc (delete fd σ) = Some fd.
Proof.
  intros Hs Hfd. apply fd_alloc_first; [lia|apply lookup_delete_eq|].
  intros j Hj. rewrite lookup_delete_ne by lia. apply Hs. lia.
Qed.

Section PipeTable.
Context (σ : fdt) (Hs : std σ) (r w : obj).
Let τ : fdt := <[4 := w]> (<[3 := r]> σ).

Lemma pipe_alloc : fd_alloc σ = Some 3 /\ fd_alloc (<[3 := r]> σ) = Some 4.
Proof.
  split; apply fd_alloc_first; try lia.
  - apply std_closed; auto; lia.
  - intros j Hj. apply Hs. lia.
  - rewrite lookup_insert_ne by lia. apply std_closed; auto; lia.
  - intros j Hj. destruct (decide (j = 3)) as [->|]; [rewrite lookup_insert_eq; eauto|].
    rewrite lookup_insert_ne by lia. apply Hs. lia.
Qed.

Lemma pipe_lookup fd : 0 <= fd < 3 ->
  (exists o, τ !! fd = Some o) /\ fd_alloc (delete fd τ) = Some fd /\
  delete fd τ !! 3 = Some r /\ delete fd τ !! 4 = Some w.
Proof.
  intros Hfd. unfold τ. split; [|split].
  - rewrite !lookup_insert_ne by lia. by apply std_open.
  - apply fd_alloc_first; [lia|apply lookup_delete_eq|]. intros j Hj.
    rewrite lookup_delete_ne, !lookup_insert_ne by lia. apply Hs. lia.
  - rewrite !lookup_delete_ne by lia. rewrite (lookup_insert_ne _ 4 3), !lookup_insert_eq by lia. auto.
Qed.

Lemma pipe_side fd o : 0 <= fd < 3 ->
  (exists x, (<[fd := o]> (delete fd τ)) !! 3 = Some x) /\
  (exists x, (delete 3 (<[fd := o]> (delete fd τ))) !! 4 = Some x) /\
  delete 4 (delete 3 (<[fd := o]> (delete fd τ))) = <[fd := o]> σ.
Proof.
  intros Hfd. destruct (pipe_lookup fd Hfd) as (_ & _ & H3 & H4). split; [|split].
  - rewrite lookup_insert_ne by lia. eauto.
  - rewrite lookup_delete_ne, lookup_insert_ne by lia. eauto.
  - unfold τ. apply map_eq. intros i. destruct (decide (i = 4)) as [->|?].
    { rewrite lookup_delete_eq, lookup_insert_ne by lia. symmetry. apply std_closed; auto; lia. }
    destruct (decide (i = 3)) as [->|?].
    { rewrite lookup_delete_ne, lookup_delete_eq, lookup_insert_ne by lia. symmetry. apply std_closed; auto; lia. }
    rewrite !lookup_delete_ne by lia. destruct (decide (i = fd)) as [->|?]; [by rewrite !lookup_insert_eq|].
    rewrite !lookup_insert_ne, lookup_delete_ne, !lookup_insert_ne by lia. reflexivity.
Qed.

Lemma pipe_parent :
  (exists x, τ !! 3 = Some x) /\ (exists x, delete 3 τ !! 4 = Some x) /\ delete 4 (delete 3 τ) = σ.
Proof.
  unfold τ. split; [|split].
  - rewrite lookup_insert_ne, lookup_insert_eq by lia. eauto.
  - rewrite lookup_delete_ne, lookup_insert_eq by lia. eauto.
  - apply map_eq. intros i. destruct (decide (i = 4)) as [->|?].
    { rewrite lookup_delete_eq. symmetry. apply std_closed; auto; lia. }
    rewrite lookup_delete_ne by lia. destruct (decide (i = 3)) as [->|?].
    { rewrite lookup_delete_eq. symmetry. apply std_closed; auto; lia. }
    rewrite lookup_delete_ne, !lookup_insert_ne by lia. reflexivity.
Qed.
End PipeTable.

(** The child runs [m] and whatever follows the [if]. *)
Lemma in_child_execs {B} n σ m (f : unit -> prog B) :
  execs n σ (pbind (in_child m) f) =
  let '(l1, n1) := execs n σ (pbind m f) in
  let '(l2, n2) := execs n1 σ (f tt) in (l1 ++ l2, n2).
Proof. reflexivity. Qed.

(** The child of a pipe replaces [fd] by the end [d] of the pipe. *)
Lemma pipe_child_execs {B} n k σ fd d m (f : unit -> prog B) :
  std σ -> 0 <= fd < 3 -> d = 3 \/ d = 4 ->
  execs k (<[4 := PipeW n]> (<[3 := PipeR n]> σ))
    (pbind (sysc (Close fd) ;;; sysc (Dup d) ;;; sysc (Close 3) ;;; sysc (Close 4) ;;; m) f) =
  execs k (<[fd := if decide (d = 3) then PipeR n else PipeW n]> σ) (pbind m f).
Proof.
  intros Hs Hfd Hd. destruct (pipe_lookup σ Hs (PipeR n) (PipeW n) fd Hfd) as ((o & H1) & Ha & H3 & H4).
  destruct (pipe_side σ Hs (PipeR n) (PipeW n) fd (if decide (d = 3) then PipeR n else PipeW n) Hfd) as ((x & E1) & (y & E2) & E3).
  cbn [pbind sysc execs]. rewrite H1. cbn [pbind sysc execs].
  assert (Ed : delete fd (<[4 := PipeW n]> (<[3 := PipeR n]> σ)) !! d = Some (if decide (d = 3) then PipeR n else PipeW n)).
  { case_decide as H; [by subst|]. destruct Hd as [->| ->]; [contradiction|exact H4]. }
  rewrite Ed, Ha. cbn [pbind sysc execs]. rewrite E1. cbn [pbind sysc execs]. rewrite E2, E3. reflexivity.
Qed.

(** [runcmd] does not return, so what follows it does not matter. *)
Lemma runcmd_execs c : forall {B} n σ (f : unit -> prog B), std σ -> redirs_std c ->
  execs n σ (pbind (runcmd c) f) = plan n σ c.
Proof.
  induction c as [argv|c IH file mode fd|l IHl r IHr|l IHl r IHr|c IH]; intros B n σ f Hs Hc;
    cbn [runcmd plan]; rewrite execs_assoc.
  - by destruct argv.
  - destruct Hc as [Hfd Hc]. destruct (std_open σ fd Hs) as [o Ho]; [lia|].
    cbn [pbind sysc execs]. rewrite Ho. cbn [pbind sysc execs]. rewrite redirect_table by (auto; lia).
    rewrite (proj2 (Z.ltb_ge fd 0)) by lia. rewrite insert_delete_eq. apply IH; [apply std_insert; auto; lia|auto].
  - destruct Hc as [Hl Hr]. destruct (pipe_alloc σ Hs (PipeR n)) as [A3 A4]. cbn [pbind sysd execs].
    rewrite A3, A4. cbn [pbind]. change (0 <? 0) with false. cbv iota.
    cbn [lookup_total list_lookup_total]. rewrite execs_assoc, in_child_execs, pipe_child_execs by (auto; lia).
    rewrite IHl by (auto; apply std_insert; auto; lia). destruct (plan (S n) _ l) as [l1 n1].
    rewrite execs_assoc, in_child_execs, pipe_child_execs by (auto; lia).
    rewrite IHr by (auto; apply std_insert; auto; lia). destruct (plan n1 _ r) as [l2 n2].
    destruct (pipe_parent σ Hs (PipeR n) (PipeW n)) as ((x & E3) & (y & E4) & _).
    cbn [pbind sysc execs]. rewrite E3. cbn [pbind sysc execs]. rewrite E4. cbn. by rewrite !app_nil_r.
  - destruct Hc as [Hl Hr]. rewrite execs_assoc, in_child_execs, IHl by auto. destruct (plan n σ l) as [l1 n1].
    rewrite execs_assoc. cbn [pbind sysc execs]. rewrite IHr by auto. reflexivity.
  - rewrite in_child_execs, IH by auto. destruct (plan n σ c) as [l1 n1]. cbn. by rewrite app_nil_r.
Qed.

Lemma plan_std c : forall n σ, std σ -> redirs_std c -> Forall (fun p => std (snd p)) (fst (plan n σ c)).
Proof.
  induction c as [argv|c IH file mode fd|l IHl r IHr|l IHl r IHr|c IH]; intros n σ Hs Hc; cbn [plan].
  - destruct argv; simpl; [constructor|by repeat constructor; apply Hs].
  - destruct Hc. apply IH; [apply std_insert; auto; lia|auto].
  - destruct Hc as [Hl Hr]. pose proof (IHl (S n) (<[1 := PipeW n]> σ) ltac:(apply std_insert; auto; lia) Hl) as H1.
    destruct (plan (S n) _ l) as [l1 n1].
    pose proof (IHr n1 (<[0 := PipeR n]> σ) ltac:(apply std_insert; auto; lia) Hr) as H2.
    destruct (plan n1 _ r) as [l2 n2]. by apply Forall_app.
  - destruct Hc as [Hl Hr]. pose proof (IHl n σ Hs Hl) as H1. destruct (plan n σ l) as [l1 n1].
    pose proof (IHr n1 σ Hs Hr) as H2. destruct (plan n1 σ r) as [l2 n2]. by apply Forall_app.
  - by apply IH.
Qed.

(** C18: [runcmd] plumbs the descriptors right.  Started with just the standard
    descriptors open, and when its system calls succeed, a command runs exactly the programs it names, each
    again with just the standard descriptors open: a redirection replaces
    descriptor 0 or 1 by the file, a pipe connects descriptor 1 of every
    program on the left to descriptor 0 of every program on the right, and no
    end of a pipe stays open anywhere else. *)
Theorem runcmd_plan c n σ (Hs : std σ) (Hc : redirs_std c) :
  execs n σ (runcmd c) = plan n σ c /\
  Forall (fun p => std (snd p)) (fst (plan n σ c)).
Proof.
  split; [|by apply plan_std].
  rewrite <- (runcmd_execs c n σ Done Hs Hc). clear. generalize (runcmd c). intros m. revert n σ.
  induction m as [[]|d k IH|x|]; intros n σ; try reflexivity.
  destruct d; cbn [pbind execs]; try apply IH; try reflexivity; repeat case_match; rewrite ?IH in *; try congruence; try apply IH; reflexivity.
Qed.

(** [a < i | b > o] *)
Definition demo_table : fdt := <[0 := Inherited 0]> (<[1 := Inherited 1]> (<[2 := Inherited 2]> ∅)).
Definition demo_cmd : scmd :=
  SPipe (SRedir (SExec [[97]]) [105] 0 0) (SRedir (SExec [[98]]) [111] 1537 1).

Lemma runcmd_plan_witness :
  execs 0 demo_table (runcmd demo_cmd) =
  ([([[97]], {[0 := PathFile [105] 0; 1 := PipeW 0; 2 := Inherited 2]});
    ([[98]], {[0 := PipeR 0; 1 := PathFile [111] 1537; 2 := Inherited 2]})], 1%nat).
Proof.
  rewrite (proj1 (runcmd_plan demo_cmd 0 demo_table ltac:(
    intros fd; unfold demo_table; rewrite !lookup_insert, lookup_empty;
    repeat case_decide; subst; split; try lia; eauto; intros [? ?]; discriminate) ltac:(simpl; auto 10))).
  reflexivity.
Defined.
