(* ===== verification/ShellParse.v ===== *)
(** * The parser of the shell (user/sh.c: [parsecmd])

    The parser ends on every line, and it reads back what it should: a
    command printed with its words, symbols and parentheses is parsed to the
    same command, and after [nulterminate] the words in the buffer are C
    strings. *)

From S2P Require Import Prelude Mem Cstring Printf Usys Ulib Uprintf Shell.

(** ** Termination

    Every call moves [*ps] forward and never beyond the end of the line. *)

Lemma skip_bounds n cond b s : (s <= length b)%nat -> (s <= skip n cond b s <= length b)%nat.
Proof.
  revert s. induction n as [|n IH]; intros s Hs; cbn [skip]; [lia|].
  destruct ((s <? length b)%nat && cond (at_ b s)) eqn:E; [|lia]. specialize (IH (S s)). lia.
Qed.

Lemma skip_ws_bounds b s : (s <= length b)%nat -> (s <= skip_ws b s <= length b)%nat.
Proof. apply skip_bounds. Qed.

Lemma at_nonzero b s : at_ b s <> 0 -> (s < length b)%nat.
Proof.
  unfold at_. intros H. destruct (decide (s < length b)%nat) as [|Hge]; [auto|].
  rewrite lookup_ge_None_2 in H by lia. contradiction.
Qed.

Lemma skip_progress n cond b s : (0 < n)%nat -> (s < length b)%nat -> cond (at_ b s) = true -> (s < skip n cond b s)%nat.
Proof.
  intros Hn Hs Hc. destruct n as [|n]; [lia|]. cbn [skip].
  rewrite Hc, andb_true_r, (proj2 (Nat.ltb_lt s (length b))) by lia.
  pose proof (skip_bounds n cond b (S s)). lia.
Qed.

Lemma skip_stop n cond b s :
  (length b - s <= n)%nat -> ((skip n cond b s <? length b)%nat && cond (at_ b (skip n cond b s))) = false.
Proof.
  revert s. induction n as [|n IH]; intros s Hn; cbn [skip].
  - rewrite (proj2 (Nat.ltb_ge s (length b))) by lia. reflexivity.
  - destruct ((s <? length b)%nat && cond (at_ b s)) eqn:E; [apply IH; lia|exact E].
Qed.

Lemma skip_ws_stop b s :
  (skip_ws b s < length b)%nat -> member whitespace (at_ b (skip_ws b s)) = false.
Proof.
  intros H. pose proof (skip_stop (length b) (member whitespace) b s ltac:(lia)) as E. fold (skip_ws b s) in E.
  rewrite (proj2 (Nat.ltb_lt _ _) H) in E. exact E.
Qed.

Lemma skip_ws_idem b s : skip_ws b (skip_ws b s) = skip_ws b s.
Proof.
  pose proof (skip_stop (length b) (member whitespace) b s ltac:(lia)) as E. fold (skip_ws b s) in E.
  unfold skip_ws at 1. destruct (length b) eqn:El; [reflexivity|]. cbn [skip]. rewrite El, E. reflexivity.
Qed.

Lemma member_existsb set c : member set c = existsb (fun x => x =? c) set.
Proof.
  unfold member. induction set as [|x set IH]; [reflexivity|]. cbn [strchr existsb]. by destruct (x =? c).
Qed.

(** A character that is neither white space nor a symbol starts a word. *)
Lemma symbols_split c : member symbols c = member (chars "|();&<") c || (c =? 62).
Proof.
  rewrite !member_existsb, (Z.eqb_sym c 62). change symbols with [60; 124; 62; 38; 59; 40; 41].
  change (chars "|();&<") with [124; 40; 41; 59; 38; 60]. cbn [existsb].
  destruct (60 =? c), (124 =? c), (62 =? c), (38 =? c), (59 =? c), (40 =? c), (41 =? c); reflexivity.
Qed.

Lemma gettoken_progress b s tok q eq s' :
  gettoken b s = (tok, q, eq, s') -> (s <= length b)%nat ->
  (s <= s' <= length b)%nat /\ (at_ b (skip_ws b s) <> 0 -> tok <> 0 /\ (s < s')%nat) /\
  (at_ b (skip_ws b s) = 0 -> tok = 0).
Proof.
  unfold gettoken. intros E Hs. pose proof (skip_ws_bounds b s Hs) as Hb. pose proof (skip_ws_stop b s) as Hw.
  pose proof (at_nonzero b (skip_ws b s)) as Hnz. pose proof (symbols_split (at_ b (skip_ws b s))) as Hsym.
  set (p := skip_ws b s) in *. set (c := at_ b p) in *.
  assert (Hend : forall r e, (p <= e <= length b)%nat -> (r, p, e, skip_ws b e) = (tok, q, eq, s') ->
    (s <= s' <= length b)%nat /\ (e <= s')%nat /\ r = tok).
  { intros r e He [= -> _ _ <-]. pose proof (skip_ws_bounds b e). lia. }
  destruct (c =? 0) eqn:E0.
  { apply Hend in E as (H1 & _ & <-); [|lia]. split; [lia|]. split; [lia|]. lia. }
  assert (Hp : (p < length b)%nat) by (apply Hnz; lia).
  destruct (member (chars "|();&<") c) eqn:E1.
  { apply Hend in E as (H1 & H2 & <-); [|lia]. split; [lia|]. split; [lia|lia]. }
  destruct (c =? 62) eqn:E2.
  { destruct (at_ b (S p) =? 62) eqn:E3.
    - pose proof (at_nonzero b (S p) ltac:(lia)). apply Hend in E as (H1 & H2 & <-); [|lia]. lia.
    - apply Hend in E as (H1 & H2 & <-); [|lia]. lia. }
  set (cond := fun x => negb (member whitespace x) && negb (member symbols x)) in E.
  pose proof (skip_progress (length b) cond b p ltac:(lia) Hp) as Hprog.
  pose proof (skip_bounds (length b) cond b p ltac:(lia)).
  apply Hend in E as (H1 & H2 & <-); [|lia]. split; [lia|]. split; [|lia]. intros _. split; [lia|].
  enough (p < skip (length b) cond b p)%nat by lia. apply Hprog.
  unfold cond. change (at_ b p) with c. rewrite Hw by exact Hp. rewrite Hsym. reflexivity.
Qed.

Lemma peek_spec b s set r s' :
  peek b s set = (r, s') -> (s <= length b)%nat ->
  (s <= s' <= length b)%nat /\ skip_ws b s' = s' /\ (r = true -> at_ b s' <> 0).
Proof.
  unfold peek. intros [= <- <-] Hs. split; [by apply skip_ws_bounds|]. split; [apply skip_ws_idem|]. lia.
Qed.

Definition total {A} (b : list Z) (s : nat) (r : pres A) : Prop :=
  match r with POk _ s' => (s <= s' <= length b)%nat | PPanic _ => True | PFuel => False end.

Lemma total_bind {A B} b s (r : pres A) (f : A -> nat -> pres B) :
  total b s r -> (forall a s', (s <= s' <= length b)%nat -> total b s' (f a s')) -> total b s (rbind r f).
Proof.
  destruct r as [a s'|m|]; simpl; auto. intros Hs Hf. specialize (Hf a s' Hs). unfold total in *.
  destruct (f a s'); auto. lia.
Qed.

Lemma total_mono {A} b s s' (r : pres A) : total b s' r -> (s <= s')%nat -> total b s r.
Proof. destruct r; simpl; auto. lia. Qed.

(** Runs [peek] or [gettoken] and notes how far it moves. *)
Ltac lex :=
  match goal with
  | |- context [peek ?b ?s ?t] =>
      let E := fresh "E" in let r := fresh "r" in let s' := fresh "s" in
      destruct (peek b s t) as [r s'] eqn:E; apply peek_spec in E as (? & ? & ?); [|lia]
  | |- context [gettoken ?b ?s] =>
      let E := fresh "E" in
      destruct (gettoken b s) as [[[? ?] ?] ?] eqn:E; apply gettoken_progress in E as (? & ? & ?); [|lia]
  end.

Lemma parseredirs_total b n : forall c s,
  (s <= length b)%nat -> (length b - s < n)%nat -> total b s (parseredirs n b c s).
Proof.
  induction n as [|n IH]; intros c s Hs Hn; [lia|]. cbn [parseredirs]. lex. destruct r; [|simpl; lia].
  lex. lex. destruct (negb _); [exact I|]. eapply total_mono; [apply IH|]; rewrite ?H0 in *; lia.
Qed.

Lemma parsebacks_total b n : forall c s,
  (s <= length b)%nat -> (length b - s < n)%nat -> total b s (parsebacks n b c s).
Proof.
  induction n as [|n IH]; intros c s Hs Hn; [lia|]. cbn [parsebacks]. lex. destruct r; [|simpl; lia].
  lex. eapply total_mono; [apply IH|]; rewrite ?H0 in *; lia.
Qed.

Lemma parseargs_total b n : forall ret argc s,
  (s <= length b)%nat -> (length b - s < n)%nat -> total b s (parseargs n b ret argc s).
Proof.
  induction n as [|n IH]; intros ret argc s Hs Hn; [lia|]. cbn [parseargs]. lex. destruct r; [simpl; lia|].
  lex. destruct (z =? 0) eqn:Ez; [simpl; lia|]. destruct (negb _); [exact I|].
  destruct (MAXARGS <=? S argc)%nat; [exact I|].
  assert (at_ b (skip_ws b s0) <> 0) by lia.
  eapply total_mono; [apply total_bind|].
  - apply parseredirs_total; lia.
  - intros a s' Hs'. apply IH; lia.
  - lia.
Qed.

Lemma parse_total b n : forall s, (s <= length b)%nat ->
  ((4 * (length b - s) + 3 < n)%nat -> total b s (parseline n b s)) /\
  ((4 * (length b - s) + 2 < n)%nat -> total b s (parsepipe n b s)) /\
  ((4 * (length b - s) + 0 < n)%nat -> total b s (parseblock n b s)) /\
  ((4 * (length b - s) + 1 < n)%nat -> total b s (parseexec n b s)).
Proof.
  induction n as [|n IH]; intros s Hs; [lia|].
  split; [|split; [|split]]; intros Hn; cbn [parseline parsepipe parseblock parseexec].
  - apply total_bind; [apply IH; lia|]. intros c s1 Hs1. apply total_bind; [apply parsebacks_total; lia|].
    intros c2 s2 Hs2. lex. destruct r; [|simpl; lia]. lex. rewrite H0 in *.
    eapply total_mono; [eapply total_bind; [apply IH; lia|intros; simpl; lia]|lia].
  - apply total_bind; [apply IH; lia|]. intros c s1 Hs1. lex. destruct r; [|simpl; lia]. lex. rewrite H0 in *.
    eapply total_mono; [eapply total_bind; [apply IH; lia|intros; simpl; lia]|lia].
  - lex. destruct r; [|exact I]. simpl negb. cbv iota. lex. rewrite H0 in *.
    eapply total_mono; [eapply total_bind; [apply IH; lia|]|lia]. intros c s2 Hs2. lex.
    destruct r; [|exact I]. simpl negb. cbv iota. lex. eapply total_mono; [apply parseredirs_total; lia|lia].
  - lex. destruct r; [eapply total_mono; [apply IH; lia|lia]|].
    apply (total_mono b s s0); [|lia]. apply total_bind; [apply parseredirs_total; lia|]. 
    intros c s1 Hs1. apply parseargs_total; lia.
Qed.

(** C22: The shell's parser ends on every line.  Whatever the input of
    [n] characters, [4 * n + 4] turns are enough for it: the recursive descent and its loops stop with a command, with leftover text
    or with one of the messages for a syntax error. *)
Theorem parsecmd_total b : parsecmd b <> NoFuel.
Proof.
  unfold parsecmd. destruct (parse_total b (4 * length b + 4) 0 ltac:(lia)) as [H _].
  specialize (H ltac:(lia)). destruct (parseline _ b 0) as [c s|m|]; [|discriminate|destruct H].
  destruct (peek b s []) as [r s']. by destruct (s' =? length b)%nat.
Qed.

(** ** Printing commands

    A command is printed as tokens with a blank after each. *)
Inductive tok := TWord (w : list Z) | TSym (c : Z) | TApp.

Definition tok_chars (t : tok) : list Z := match t with TWord w => w | TSym c => [c] | TApp => [62; 62] end.
Definition tok_code (t : tok) : Z := match t with TWord _ => 97 | TSym c => c | TApp => 43 end.
Definition show_toks (ts : list tok) : list Z := mjoin ((fun t => tok_chars t ++ [32]) <$> ts).

Definition word_char (c : Z) : bool := negb (c =? 0) && negb (member whitespace c) && negb (member symbols c).
Definition word_ok (w : list Z) : Prop := w <> [] /\ Forall (fun c => word_char c = true) w.
Definition tok_ok (t : tok) : Prop :=
  match t with TWord w => word_ok w | TSym c => member symbols c = true | TApp => True end.

Definition parens (b : bool) (ts : list tok) : list tok := if b then TSym 40 :: ts ++ [TSym 41] else ts.
Definition redir_tok (mode fd : Z) : tok :=
  if fd =? 0 then TSym 60 else if mode =? Z.lor (Z.lor O_WRONLY O_CREATE) O_TRUNC then TSym 62 else TApp.

(** The tokens of a command: [lvl] is 0 where a line may stand, 1 before [&],
    2 on the right and 3 on the left of [|]. *)
Fixpoint toks (lvl : nat) (c : scmd) : list tok :=
  match c with
  | SExec argv => TWord <$> argv
  | SRedir c file mode fd => toks 3 c ++ [redir_tok mode fd; TWord file]
  | SPipe l r => parens (2 <? lvl)%nat (toks 3 l ++ TSym 124 :: toks 2 r)
  | SBack c => parens (1 <? lvl)%nat (toks 1 c ++ [TSym 38])
  | SList l r => parens (0 <? lvl)%nat (toks 1 l ++ TSym 59 :: toks 0 r)
  end.
Definition show (c : scmd) : list Z := show_toks (toks 0 c).

(** The commands there are: words without blanks, symbols or NULs, at most
    nine per program, and the three kinds of redirections. *)
Fixpoint cmd_ok (c : scmd) : Prop :=
  match c with
  | SExec argv => Forall word_ok argv /\ (length argv < MAXARGS)%nat
  | SRedir c file mode fd =>
      cmd_ok c /\ word_ok file /\
      ((mode = O_RDONLY /\ fd = 0) \/
       (mode = Z.lor (Z.lor O_WRONLY O_CREATE) O_TRUNC /\ fd = 1) \/ (mode = Z.lor O_WRONLY O_CREATE /\ fd = 1))
  | SPipe l r | SList l r => cmd_ok l /\ cmd_ok r
  | SBack c => cmd_ok c
  end.

(** The parser stands before the tokens [ts]. *)
Definition at_toks (b : list Z) (s : nat) (ts : list tok) : Prop :=
  (s <= length b)%nat /\ drop s b = show_toks ts /\ Forall tok_ok ts.

(** ** The lexer on printed tokens *)

Lemma show_toks_cons t ts : show_toks (t :: ts) = tok_chars t ++ 32 :: show_toks ts.
Proof. unfold show_toks. cbn [fmap list_fmap mjoin list_join]. by rewrite <- app_assoc. Qed.

Lemma at_drop b s l : drop s b = l -> at_ b s = hd 0 l.
Proof.
  intros <-. unfold at_. rewrite <- (Nat.add_0_r s) at 1. rewrite <- lookup_drop. by destruct (drop s b).
Qed.

Lemma skip_run n cond b s w r :
  drop s b = w ++ r -> Forall (fun c => cond c = true) w -> (length w <= n)%nat ->
  (r = [] \/ cond (hd 0 r) = false) -> skip n cond b s = (s + length w)%nat.
Proof.
  revert n s. induction w as [|c w IH]; intros n s E Hw Hn Hr; simpl.
  - rewrite Nat.add_0_r. destruct n; [reflexivity|]. cbn [skip]. rewrite (at_drop b s _ E).
    destruct Hr as [->|Hr]; [|simpl; by rewrite Hr, andb_false_r].
    apply (f_equal length) in E. rewrite length_drop in E. simpl in E.
    rewrite (proj2 (Nat.ltb_ge s (length b))) by lia. reflexivity.
  - inversion Hw; subst. destruct n as [|n]; [simpl in Hn; lia|]. cbn [skip]. rewrite (at_drop b s _ E). simpl hd.
    rewrite H1, andb_true_r. pose proof (f_equal length E) as El. rewrite length_drop, length_app in El. simpl in El.
    rewrite (proj2 (Nat.ltb_lt s (length b))) by lia. rewrite IH; [lia| |auto|simpl in Hn; lia|auto].
    rewrite <- Nat.add_1_r, <- drop_drop, E. reflexivity.
Qed.

(** The first character of a token is not a blank, and no NUL. *)
Lemma tok_hd t : tok_ok t -> exists c l, tok_chars t = c :: l /\ member whitespace c = false /\ c <> 0.
Proof.
  destruct t as [w|c|]; simpl.
  - intros [Hne Hw]. destruct w as [|c w]; [contradiction|]. exists c, w. split; [reflexivity|].
    inversion Hw as [|? ? Hc _]. unfold word_char in Hc. split; [|lia].
    destruct (member whitespace c); [|reflexivity]. rewrite andb_false_r in Hc. discriminate.
  - intros H. exists c, []. split; [reflexivity|]. rewrite member_existsb in *.
    change symbols with [60; 124; 62; 38; 59; 40; 41] in H. unfold whitespace. cbn [existsb] in H |- *. lia.
  - intros _. by exists 62, [62].
Qed.

Lemma skip_ws_toks b s ts : at_toks b s ts -> skip_ws b s = s.
Proof.
  intros (Hs & E & Hok). unfold skip_ws. rewrite (skip_run (length b) _ b s [] (show_toks ts)); [apply Nat.add_0_r|exact E|constructor|simpl; lia|].
  destruct Hok as [|t ts Ht _]; [by left|right]. destruct (tok_hd t Ht) as (c & l & Ec & Hw & _).
  rewrite show_toks_cons, Ec. exact Hw.
Qed.

Lemma peek_toks b s ts set :
  at_toks b s ts ->
  peek b s set = (match ts with [] => false | t :: _ => member set (hd 0 (tok_chars t)) end, s).
Proof.
  intros Hat. unfold peek. rewrite (skip_ws_toks b s ts Hat). destruct Hat as (Hs & E & Hok).
  rewrite (at_drop b s _ E). destruct Hok as [|t ts Ht _]; [reflexivity|].
  destruct (tok_hd t Ht) as (c & l & Ec & _ & Hc). rewrite show_toks_cons, Ec. cbn [hd app].
  by rewrite (proj2 (Z.eqb_neq c 0) Hc).
Qed.

Lemma at_toks_next b s t ts :
  at_toks b s (t :: ts) ->
  at_toks b (s + length (tok_chars t) + 1) ts /\ skip_ws b (s + length (tok_chars t)) = (s + length (tok_chars t) + 1)%nat.
Proof.
  intros (Hs & E & Hok). rewrite show_toks_cons in E. inversion Hok; subst.
  assert (E1 : drop (s + length (tok_chars t)) b = 32 :: show_toks ts).
  { rewrite <- drop_drop, E. apply drop_app_length. }
  pose proof (f_equal length E1) as El. rewrite length_drop in El. simpl in El.
  assert (E2 : drop (s + length (tok_chars t) + 1) b = show_toks ts) by (rewrite <- drop_drop, E1; reflexivity).
  split; [split; [lia|split; [exact E2|auto]]|].
  unfold skip_ws. rewrite (skip_run (length b) _ b _ [32] (show_toks ts)); [reflexivity|exact E1|by repeat constructor|simpl; lia|].
  destruct ts as [|t' ts]; [by left|right]. inversion H2; subst. destruct (tok_hd t' H3) as (c & l & Ec & Hw & _).
  by rewrite show_toks_cons, Ec.
Qed.

Lemma gettoken_toks b s t ts :
  at_toks b s (t :: ts) ->
  gettoken b s = (tok_code t, s, (s + length (tok_chars t))%nat, (s + length (tok_chars t) + 1)%nat).
Proof.
  intros Hat. destruct (at_toks_next b s t ts Hat) as [_ Hnext]. pose proof (skip_ws_toks b s _ Hat) as Hws.
  destruct Hat as (Hs & E & Hok). rewrite show_toks_cons in E. inversion Hok as [|? ? Ht _]; subst.
  unfold gettoken. rewrite Hws, (at_drop b s _ E).
  assert (Esec : forall c, tok_chars t = [c] -> at_ b (S s) = 32).
  { intros c Ec. rewrite <- Nat.add_1_r. rewrite (at_drop b (s + 1) (32 :: show_toks ts)); [reflexivity|].
    rewrite <- drop_drop, E, Ec. reflexivity. }
  destruct t as [w|c|]; cbn [tok_chars tok_code length] in *.
  - destruct Ht as [Hne Hw]. destruct w as [|c w]; [contradiction|]. cbn [hd app].
    pose proof (Forall_inv Hw) as Hc. unfold word_char in Hc. rewrite symbols_split in Hc.
    destruct (c =? 0); [discriminate|]. destruct (member (chars "|();&<") c); [lia|]. destruct (c =? 62); [lia|].
    rewrite (skip_run (length b) _ b s (c :: w) (32 :: show_toks ts)); [by rewrite Hnext|exact E| | |by right].
    + eapply Forall_impl; [exact Hw|]. intros x Hx. unfold word_char in Hx. lia.
    + pose proof (f_equal length E) as El. rewrite length_drop, length_app in El. lia.
  - cbn [hd app]. destruct (tok_hd (TSym c) Ht) as (c' & l & Ec & _ & Hc). unfold tok_ok in Ht. rewrite symbols_split in Ht.
    injection Ec as <- _. rewrite (proj2 (Z.eqb_neq c 0) Hc), (Esec c eq_refl). rewrite Nat.add_1_r in Hnext |- *.
    destruct (member (chars "|();&<") c); [by rewrite Hnext|]. simpl in Ht. rewrite Ht. change (32 =? 62) with false. cbv iota.
    by rewrite Hnext.
  - cbn [hd app]. change (62 =? 0) with false. change (member (chars "|();&<") 62) with false. change (62 =? 62) with true. cbv iota.
    assert (E1 : at_ b (S s) = 62).
    { rewrite <- Nat.add_1_r. rewrite (at_drop b (s + 1) (62 :: 32 :: show_toks ts)); [reflexivity|].
      rewrite <- drop_drop, E. reflexivity. }
    rewrite E1. change (62 =? 62) with true. cbv iota. replace (S (S s)) with (s + 2)%nat by lia. by rewrite Hnext.
Qed.

(** ** The parser on printed tokens *)

(** The positions [a] delimit the word [w], with a blank after it. *)
Definition word_at (b : list Z) (a : nat * nat) (w : list Z) : Prop :=
  word_ok w /\ snd a = (fst a + length w)%nat /\ exists r, drop (fst a) b = w ++ 32 :: r.

(** The command tree [c] over the buffer [b] stands for [sc]. *)
Fixpoint denotes (b : list Z) (c : cmd) (sc : scmd) : Prop :=
  match c, sc with
  | EXEC argv, SExec ws => Forall2 (word_at b) argv ws
  | REDIR c q e mode fd, SRedir sc f mode' fd' => denotes b c sc /\ word_at b (q, e) f /\ mode = mode' /\ fd = fd'
  | PIPE l r, SPipe sl sr => denotes b l sl /\ denotes b r sr
  | LIST l r, SList sl sr => denotes b l sl /\ denotes b r sr
  | BACK c, SBack sc => denotes b c sc
  | _, _ => False
  end.

(** The next token is one of the symbols [set], or there is none. *)
Definition stop (set : list Z) (ts : list tok) : Prop :=
  match ts with [] => True | t :: _ => exists c, t = TSym c /\ member set c = true end.

(** No word and no parenthesis follows. *)
Definition no_arg (ts : list tok) : Prop :=
  match ts with TWord _ :: _ => False | TSym c :: _ => c <> 40 | _ => True end.

Definition EXECS : list Z := chars "|)&;".
Definition PIPES : list Z := chars ")&;".

Lemma member_cons x set c : member (x :: set) c = (x =? c) || member set c.
Proof. rewrite !member_existsb. reflexivity. Qed.

(** Decides a goal about characters in literal sets. *)
Ltac chars_lia :=
  unfold EXECS, PIPES in *;
  change (chars "|)&;") with [124; 41; 38; 59] in *; change (chars ")&;") with [41; 38; 59] in *;
  change (chars "<>") with [60; 62] in *; change (chars "(") with [40] in *; change (chars ")") with [41] in *;
  change (chars "|") with [124] in *; change (chars "&") with [38] in *; change (chars ";") with [59] in *;
  rewrite ?member_existsb in *; cbn [existsb tok_chars hd] in *; try lia.

Lemma stop_weaken set set' ts :
  (forall c, member set c = true -> member set' c = true) -> stop set ts -> stop set' ts.
Proof. intros H. destruct ts as [|t ts]; [auto|]. intros (c & -> & Hc). exists c. auto. Qed.

Lemma stop_no_arg ts : stop EXECS ts -> no_arg ts.
Proof. destruct ts as [|t ts]; [auto|]. intros (c & -> & Hc). simpl. chars_lia. Qed.

(** What [peek] says before the tokens that end a construct. *)
Lemma peek_stop b s ts set set' :
  at_toks b s ts -> stop set ts -> (forall c, member set c = true -> member set' c = false) -> peek b s set' = (false, s).
Proof.
  intros Hat Hst Hd. rewrite (peek_toks b s ts set' Hat). destruct ts as [|t ts]; [reflexivity|].
  destruct Hst as (c & -> & Hc). simpl. by rewrite Hd.
Qed.

Lemma word_not_symbol w set :
  word_ok w -> (forall c, member set c = true -> member symbols c = true) -> member set (hd 0 w) = false.
Proof.
  intros [Hne Hw] Hs. destruct w as [|c w]; [contradiction|]. pose proof (Forall_inv Hw) as Hc. simpl.
  unfold word_char in Hc. destruct (member set c) eqn:E; [|reflexivity]. rewrite (Hs c E) in Hc. lia.
Qed.

Lemma peek_word b s w ts set :
  at_toks b s (TWord w :: ts) -> (forall c, member set c = true -> member symbols c = true) -> peek b s set = (false, s).
Proof.
  intros Hat Hs. rewrite (peek_toks b s _ set Hat). simpl. rewrite (word_not_symbol w set); auto.
  destruct Hat as (_ & _ & Hok). by apply (Forall_inv Hok).
Qed.

Lemma rbind_assoc {A B C} (r : pres A) (f : A -> nat -> pres B) (g : B -> nat -> pres C) :
  rbind (rbind r f) g = rbind r (fun a s => rbind (f a s) g).
Proof. by destruct r. Qed.

Lemma rbind_POk {A} (r : pres A) : rbind r POk = r.
Proof. by destruct r. Qed.

(** [parseredirs] stops where no redirection follows. *)
Lemma parseredirs_stop b c s ts k :
  at_toks b s ts -> stop EXECS ts -> (0 < k)%nat -> parseredirs k b c s = POk c s.
Proof.
  intros Hat Hst Hk. destruct k as [|k]; [lia|]. cbn [parseredirs].
  rewrite (peek_stop b s ts EXECS); [reflexivity|auto|auto|]. intros d Hd. chars_lia.
Qed.

Lemma parseargs_stop b c s ts k argc :
  at_toks b s ts -> stop EXECS ts -> (0 < k)%nat -> parseargs k b c argc s = POk c s.
Proof.
  intros Hat Hst Hk. destruct k as [|k]; [lia|]. cbn [parseargs]. rewrite (peek_toks b s ts _ Hat).
  destruct ts as [|t ts].
  - destruct Hat as (Hs & E & _). unfold gettoken. 
    assert (Hws : skip_ws b s = s) by (apply (skip_ws_toks b s []); split; [auto|split; [exact E|constructor]]).
    rewrite Hws, (at_drop b s [] E). simpl. by rewrite Hws.
  - destruct Hst as (d & -> & Hd). unfold tok_chars, hd. fold EXECS. by rewrite Hd.
Qed.

(** What the four procedures do with the tokens of a command, whatever
    follows. *)
Definition exec_parses (ts : list tok) (sc : scmd) : Prop := forall ts' n b s,
  no_arg ts' -> at_toks b s (ts ++ ts') -> (4 * (length b - s) + 1 < n)%nat ->
  exists c s' k fin, parseexec n b s = rbind (parseredirs k b c s') fin /\ at_toks b s' ts' /\ denotes b c sc /\
    (length b - s' < k)%nat /\
    forall c2 s2 ts2, at_toks b s2 ts2 -> stop EXECS ts2 -> fin c2 s2 = POk c2 s2.

Definition pipe_parses (ts : list tok) (sc : scmd) : Prop := forall ts' n b s,
  stop PIPES ts' -> at_toks b s (ts ++ ts') -> (4 * (length b - s) + 2 < n)%nat ->
  exists c s', parsepipe n b s = POk c s' /\ at_toks b s' ts' /\ denotes b c sc.

Definition front_parses (ts : list tok) (sc : scmd) : Prop := forall ts' n b s,
  stop PIPES ts' -> at_toks b s (ts ++ ts') -> (4 * (length b - s) + 2 < n)%nat ->
  exists c s' k, rbind (parsepipe n b s) (fun c s => parsebacks (S (length b)) b c s) = parsebacks k b c s' /\
    at_toks b s' ts' /\ denotes b c sc /\ (length b - s' < k)%nat.

Definition line_parses (ts : list tok) (sc : scmd) : Prop := forall ts' n b s,
  stop (chars ")") ts' -> at_toks b s (ts ++ ts') -> (4 * (length b - s) + 3 < n)%nat ->
  exists c s', parseline n b s = POk c s' /\ at_toks b s' ts' /\ denotes b c sc.

Lemma at_toks_app b s ts ts' s' :
  at_toks b s (ts ++ ts') -> at_toks b s' ts' -> (s <= s' <= length b)%nat.
Proof.
  intros (H1 & E1 & _) (H2 & E2 & _). apply (f_equal length) in E1, E2. rewrite length_drop in E1, E2.
  assert (Ha : show_toks (ts ++ ts') = show_toks ts ++ show_toks ts') by (unfold show_toks; by rewrite fmap_app, join_app).
  rewrite Ha, length_app in E1. lia.
Qed.

(** Read the next token. *)
Lemma next_tok b s t ts :
  at_toks b s (t :: ts) -> exists s', gettoken b s = (tok_code t, s, (s + length (tok_chars t))%nat, s') /\
    at_toks b s' ts /\ (s < s' <= length b)%nat.
Proof.
  intros Hat. exists (s + length (tok_chars t) + 1)%nat. split; [by eapply gettoken_toks|].
  destruct (at_toks_next b s t ts Hat) as [Hn _]. split; [exact Hn|]. destruct Hn. lia.
Qed.

Lemma next_word b s w ts :
  at_toks b s (TWord w :: ts) -> exists s' e, gettoken b s = (97, s, e, s') /\ word_at b (s, e) w /\
    at_toks b s' ts /\ (s < s' <= length b)%nat.
Proof.
  intros Hat. destruct (next_tok b s _ ts Hat) as (s' & E & Hn & Hs). exists s', (s + length w)%nat.
  split; [exact E|]. split; [|auto]. destruct Hat as (_ & Ed & Hok). split; [exact (Forall_inv Hok)|].
  split; [reflexivity|]. exists (show_toks ts). rewrite show_toks_cons in Ed. exact Ed.
Qed.

Lemma exec_redir ts sc f mode fd :
  cmd_ok (SRedir sc f mode fd) -> exec_parses ts sc ->
  exec_parses (ts ++ [redir_tok mode fd; TWord f]) (SRedir sc f mode fd).
Proof.
  intros (_ & Hf & Hr) IH ts' n b s Hno Hat Hn. rewrite <- app_assoc in Hat.
  assert (Hrt : redir_tok mode fd = TSym 60 /\ mode = O_RDONLY /\ fd = 0 \/
    redir_tok mode fd = TSym 62 /\ mode = Z.lor (Z.lor O_WRONLY O_CREATE) O_TRUNC /\ fd = 1 \/
    redir_tok mode fd = TApp /\ mode = Z.lor O_WRONLY O_CREATE /\ fd = 1).
  { destruct Hr as [[-> ->]|[[-> ->]|[-> ->]]]; auto. }
  destruct (IH ([redir_tok mode fd; TWord f] ++ ts') n b s) as (c & s1 & k & fin & E & Hat1 & Hd & Hk & Hfin); auto.
  { destruct Hrt as [(-> & _)|[(-> & _)|(-> & _)]]; simpl; lia. }
  rewrite E. destruct k as [|k]; [lia|]. cbn [parseredirs]. rewrite (peek_toks b s1 _ _ Hat1).
  destruct (next_tok _ _ _ _ Hat1) as (s2 & E2 & Hat2 & Hs2). destruct (next_word _ _ _ _ Hat2) as (s3 & e & E3 & Hw & Hat3 & Hs3).
  exists (REDIR c s2 e mode fd), s3, k, fin. split; [|split; [exact Hat3|split; [simpl; auto|split; [lia|exact Hfin]]]].
  cbn [app]. rewrite E2, E3. change (negb (97 =? 97)) with false. cbv iota.
  destruct Hrt as [(-> & -> & ->)|[(-> & -> & ->)|(-> & -> & ->)]]; reflexivity.
Qed.

Lemma parseargs_words b : forall ws w s acc sacc argc ts' n,
  (S argc + length ws < MAXARGS)%nat -> no_arg ts' -> at_toks b s (TWord w :: (TWord <$> ws) ++ ts') ->
  Forall2 (word_at b) acc sacc -> (length b - s < n)%nat ->
  exists args s' n' argc', parseargs n b (EXEC acc) argc s =
    rbind (parseredirs (S (length b)) b (EXEC args) s') (fun ret s => parseargs n' b ret argc' s) /\
    at_toks b s' ts' /\ Forall2 (word_at b) args (sacc ++ w :: ws) /\ (0 < n')%nat.
Proof.
  induction ws as [|w2 ws IH]; intros w s acc sacc argc ts' n Ha Hno Hat Hacc Hn;
    (destruct n as [|n]; [lia|]); cbn [parseargs];
    rewrite (peek_word b s w _ _ Hat) by (intros c Hc; change symbols with [60; 124; 62; 38; 59; 40; 41]; chars_lia);
    destruct (next_word _ _ _ _ Hat) as (s1 & e & E & Hw & Hat1 & Hs1); rewrite E;
    change (97 =? 0) with false; change (negb (97 =? 97)) with false; cbv iota; cbn [add_arg];
    rewrite (proj2 (Nat.leb_gt MAXARGS (S argc))) by (simpl in Ha; lia).
  - exists (acc ++ [(s, e)]), s1, n, (S argc). split; [reflexivity|]. split; [exact Hat1|]. split; [|lia].
    apply Forall2_app; [exact Hacc|]. constructor; [exact Hw|constructor].
  - cbn [parseredirs]. cbn [fmap list_fmap app] in Hat1.
    rewrite (peek_word b s1 w2 _ _ Hat1) by (intros c Hc; change symbols with [60; 124; 62; 38; 59; 40; 41]; chars_lia).
    cbn [rbind].
    destruct (IH w2 s1 (acc ++ [(s, e)]) (sacc ++ [w]) (S argc) ts' n) as (args & s' & n' & argc' & E' & Hat' & Hargs & Hn');
      [simpl in Ha; lia|exact Hno|exact Hat1|apply Forall2_app; [exact Hacc|constructor; [exact Hw|constructor]]|lia|].
    exists args, s', n', argc'. split; [exact E'|]. split; [exact Hat'|]. split; [|exact Hn'].
    by rewrite <- app_assoc in Hargs.
Qed.

Lemma exec_words argv : cmd_ok (SExec argv) -> exec_parses (TWord <$> argv) (SExec argv).
Proof.
  intros [Hws Hlen] ts' n b s Hno Hat Hn. destruct n as [|n]; [lia|]. cbn [parseexec].
  assert (Hp : peek b s (chars "(") = (false, s)).
  { destruct argv as [|w ws]; simpl in Hat.
    - rewrite (peek_toks b s _ _ Hat). destruct ts' as [|[w|c|] ts']; [reflexivity|contradiction| |reflexivity].
      simpl in Hno |- *. f_equal. chars_lia.
    - apply (peek_word b s w _ _ Hat). intros c Hc. change symbols with [60; 124; 62; 38; 59; 40; 41]. chars_lia. }
  rewrite Hp. destruct argv as [|w ws]; simpl in Hat.
  - exists (EXEC []), s, (S (length b)), (fun ret s => parseargs (S (length b)) b ret 0 s).
    split; [reflexivity|]. split; [exact Hat|]. split; [constructor|]. split; [lia|].
    intros c2 s2 ts2 H2 Hst. apply (parseargs_stop b c2 s2 ts2); auto; lia.
  - cbn [parseredirs].
    rewrite (peek_word b s w _ _ Hat) by (intros c Hc; change symbols with [60; 124; 62; 38; 59; 40; 41]; chars_lia).
    cbn [rbind]. destruct (parseargs_words b ws w s [] [] 0 ts' (S (length b))) as (args & s' & n' & argc' & E & Hat' & Hargs & Hn');
      [simpl in Hlen; lia|exact Hno|exact Hat|constructor|lia|].
    exists (EXEC args), s', (S (length b)), (fun ret s => parseargs n' b ret argc' s).
    split; [exact E|]. split; [exact Hat'|]. split; [exact Hargs|]. split; [lia|].
    intros c2 s2 ts2 H2 Hst. by apply (parseargs_stop b c2 s2 ts2).
Qed.

Lemma exec_block ts sc : line_parses ts sc -> exec_parses (parens true ts) sc.
Proof.
  intros IH ts' n b s Hno Hat Hn. destruct n as [|[|n]]; [lia|lia|]. cbn [parseexec parseblock parens app] in *.
  rewrite <- app_assoc in Hat. rewrite (peek_toks b s _ _ Hat). change (member (chars "(") (hd 0 (tok_chars (TSym 40)))) with true.
  cbv iota. rewrite (peek_toks b s _ _ Hat). change (negb (member (chars "(") (hd 0 (tok_chars (TSym 40))))) with false. cbv iota.
  destruct (next_tok _ _ _ _ Hat) as (s1 & E1 & Hat1 & Hs1). rewrite E1.
  destruct (IH ([TSym 41] ++ ts') n b s1) as (c & s2 & E2 & Hat2 & Hd); [by exists 41|exact Hat1|lia|].
  rewrite E2. cbn [rbind]. rewrite (peek_toks b s2 _ _ Hat2). cbn [app].
  change (negb (member (chars ")") (hd 0 (tok_chars (TSym 41))))) with false. cbv iota.
  destruct (next_tok _ _ _ _ Hat2) as (s3 & E3 & Hat3 & Hs3). rewrite E3.
  exists c, s3, (S (length b)), POk. rewrite rbind_POk. split; [reflexivity|]. split; [exact Hat3|].
  split; [exact Hd|]. split; [lia|]. reflexivity.
Qed.

(** [parseexec] to the end, where a pipe or the end of it follows. *)
Lemma exec_run ts sc ts' n b s :
  exec_parses ts sc -> stop EXECS ts' -> at_toks b s (ts ++ ts') -> (4 * (length b - s) + 1 < n)%nat ->
  exists c s', parseexec n b s = POk c s' /\ at_toks b s' ts' /\ denotes b c sc.
Proof.
  intros IH Hst Hat Hn. destruct (IH ts' n b s) as (c & s' & k & fin & E & Hat' & Hd & Hk & Hfin); auto using stop_no_arg.
  exists c, s'. split; [|auto]. rewrite E, (parseredirs_stop b c s' ts') by (auto; lia). cbn [rbind]. by eapply Hfin.
Qed.

Lemma pipe_exec ts sc : exec_parses ts sc -> pipe_parses ts sc.
Proof.
  intros IH ts' n b s Hst Hat Hn. destruct n as [|n]; [lia|]. cbn [parsepipe].
  destruct (exec_run ts sc ts' n b s IH) as (c & s' & E & Hat' & Hd); auto; [|lia|].
  { eapply stop_weaken; [|exact Hst]. intros c Hc. chars_lia. }
  exists c, s'. split; [|auto]. rewrite E. cbn [rbind].
  rewrite (peek_stop b s' ts' PIPES); auto. intros d Hd'. chars_lia.
Qed.

Lemma pipe_pipe t1 l t2 r :
  exec_parses t1 l -> pipe_parses t2 r -> pipe_parses (t1 ++ TSym 124 :: t2) (SPipe l r).
Proof.
  intros IH1 IH2 ts' n b s Hst Hat Hn. rewrite <- app_assoc in Hat. cbn [app] in Hat.
  destruct n as [|n]; [lia|]. cbn [parsepipe].
  destruct (exec_run t1 l (TSym 124 :: t2 ++ ts') n b s IH1) as (c & s1 & E1 & Hat1 & Hd1); auto; [by exists 124|lia|].
  pose proof (at_toks_app _ _ _ _ _ Hat Hat1). rewrite E1. cbn [rbind]. rewrite (peek_toks b s1 _ _ Hat1).
  change (member (chars "|") (hd 0 (tok_chars (TSym 124)))) with true. cbv iota.
  destruct (next_tok _ _ _ _ Hat1) as (s2 & E2 & Hat2 & Hs2). rewrite E2.
  destruct (IH2 ts' n b s2 Hst Hat2) as (c3 & s3 & E3 & Hat3 & Hd3); [lia|].
  exists (PIPE c c3), s3. rewrite E3. split; [reflexivity|]. split; [exact Hat3|]. by split.
Qed.

Lemma front_pipe ts sc : pipe_parses ts sc -> front_parses ts sc.
Proof.
  intros IH ts' n b s Hst Hat Hn. destruct (IH ts' n b s Hst Hat Hn) as (c & s' & E & Hat' & Hd).
  exists c, s', (S (length b)). rewrite E. split; [reflexivity|]. split; [exact Hat'|]. split; [exact Hd|lia].
Qed.

Lemma front_back ts sc : front_parses ts sc -> front_parses (ts ++ [TSym 38]) (SBack sc).
Proof.
  intros IH ts' n b s Hst Hat Hn. rewrite <- app_assoc in Hat. cbn [app] in Hat.
  destruct (IH (TSym 38 :: ts') n b s) as (c & s1 & k & E & Hat1 & Hd & Hk); [by exists 38|exact Hat|exact Hn|].
  destruct k as [|k]; [lia|]. rewrite E. cbn [parsebacks]. rewrite (peek_toks b s1 _ _ Hat1).
  change (member (chars "&") (hd 0 (tok_chars (TSym 38)))) with true. cbv iota.
  destruct (next_tok _ _ _ _ Hat1) as (s2 & E2 & Hat2 & Hs2). rewrite E2.
  exists (BACK c), s2, k. split; [reflexivity|]. split; [exact Hat2|]. split; [exact Hd|lia].
Qed.

(** [parseline] up to the [;] or the end of the line. *)
Lemma front_run ts sc ts' n b s :
  front_parses ts sc -> stop (chars ");") ts' -> at_toks b s (ts ++ ts') -> (4 * (length b - s) + 2 < n)%nat ->
  exists c s', rbind (parsepipe n b s) (fun c s => parsebacks (S (length b)) b c s) = POk c s' /\
    at_toks b s' ts' /\ denotes b c sc.
Proof.
  intros IH Hst Hat Hn. change (chars ");") with [41; 59] in Hst.
  destruct (IH ts' n b s) as (c & s' & k & E & Hat' & Hd & Hk); auto.
  { eapply stop_weaken; [|exact Hst]. intros c Hc. chars_lia. }
  exists c, s'. split; [|auto]. rewrite E. destruct k as [|k]; [lia|]. cbn [parsebacks].
  rewrite (peek_stop b s' ts' [41; 59]); auto. intros d Hd'. chars_lia.
Qed.

Lemma line_front ts sc : front_parses ts sc -> line_parses ts sc.
Proof.
  intros IH ts' n b s Hst Hat Hn. destruct n as [|n]; [lia|]. cbn [parseline].
  rewrite <- (rbind_assoc (parsepipe n b s) (fun c s => parsebacks (S (length b)) b c s)).
  destruct (front_run ts sc ts' n b s IH) as (c & s' & E & Hat' & Hd); auto; [|lia|].
  { eapply stop_weaken; [|exact Hst]. intros c Hc. change (chars ");") with [41; 59]. chars_lia. }
  exists c, s'. split; [|auto]. rewrite E. cbn [rbind].
  rewrite (peek_stop b s' ts' (chars ")")); auto. intros d Hd'. chars_lia.
Qed.

Lemma line_list t1 l t2 r :
  front_parses t1 l -> line_parses t2 r -> line_parses (t1 ++ TSym 59 :: t2) (SList l r).
Proof.
  intros IH1 IH2 ts' n b s Hst Hat Hn. rewrite <- app_assoc in Hat. cbn [app] in Hat.
  destruct n as [|n]; [lia|]. cbn [parseline].
  rewrite <- (rbind_assoc (parsepipe n b s) (fun c s => parsebacks (S (length b)) b c s)).
  destruct (front_run t1 l (TSym 59 :: t2 ++ ts') n b s IH1) as (c & s1 & E1 & Hat1 & Hd1); auto; [by exists 59|lia|].
  pose proof (at_toks_app _ _ _ _ _ Hat Hat1). rewrite E1. cbn [rbind]. rewrite (peek_toks b s1 _ _ Hat1).
  change (member (chars ";") (hd 0 (tok_chars (TSym 59)))) with true. cbv iota.
  destruct (next_tok _ _ _ _ Hat1) as (s2 & E2 & Hat2 & Hs2). rewrite E2.
  destruct (IH2 ts' n b s2 Hst Hat2) as (c3 & s3 & E3 & Hat3 & Hd3); [lia|].
  exists (LIST c c3), s3. rewrite E3. split; [reflexivity|]. split; [exact Hat3|]. by split.
Qed.

(** All levels of the grammar. *)
Lemma toks_parse c : cmd_ok c ->
  exec_parses (toks 3 c) c /\ pipe_parses (toks 2 c) c /\ front_parses (toks 1 c) c /\ line_parses (toks 0 c) c.
Proof.
  assert (Hup : forall ts sc, exec_parses ts sc ->
    exec_parses ts sc /\ pipe_parses ts sc /\ front_parses ts sc /\ line_parses ts sc).
  { intros ts sc H. auto 10 using pipe_exec, front_pipe, line_front. }
  induction c as [argv|c IH f mode fd|l IHl r IHr|l IHl r IHr|c IH]; intros Hc.
  - apply Hup. by apply exec_words.
  - apply Hup. apply exec_redir; [exact Hc|]. apply IH, Hc.
  - destruct Hc as [Hl Hr]. destruct (IHl Hl) as (E & _). destruct (IHr Hr) as (_ & P & _).
    pose proof (pipe_pipe _ _ _ _ E P) as Q. split; [apply exec_block|]; auto using front_pipe, line_front.
  - destruct Hc as [Hl Hr]. destruct (IHl Hl) as (_ & _ & F & _). destruct (IHr Hr) as (_ & _ & _ & R).
    pose proof (line_list _ _ _ _ F R) as Q. pose proof (exec_block _ _ Q) as X.
    split; [exact X|]. split; [by apply pipe_exec|]. split; [by apply front_pipe, pipe_exec|exact Q].
  - destruct (IH Hc) as (_ & _ & F & _). pose proof (front_back _ _ F) as Q.
    pose proof (exec_block _ _ (line_front _ _ Q)) as X. split; [exact X|]. split; [by apply pipe_exec|]. auto using line_front.
Qed.

(** ** C strings in the buffer *)

(** [b'] is [b] with some blanks replaced by NULs. *)
Definition blanked (b b' : list Z) : Prop :=
  length b' = length b /\ forall i, b' !! i = b !! i \/ (b !! i = Some 32 /\ b' !! i = Some 0).

Fixpoint ends (c : cmd) : list nat :=
  match c with
  | EXEC argv => snd <$> argv
  | REDIR c _ e _ _ => e :: ends c
  | PIPE l r | LIST l r => ends l ++ ends r
  | BACK c => ends c
  end.

Lemma word_end b a w : word_at b a w -> b !! snd a = Some 32.
Proof.
  intros (_ & E & r & Hr). rewrite E, <- lookup_drop, Hr. by rewrite lookup_app_r, Nat.sub_diag by lia.
Qed.

Lemma put_nul_blanked b b' p :
  blanked b b' -> b !! p = Some 32 ->
  blanked b (put_nul p b') /\ (forall i, b' !! i = Some 0 -> put_nul p b' !! i = Some 0) /\ put_nul p b' !! p = Some 0.
Proof.
  intros [Hl H] Hp. pose proof (lookup_lt_Some _ _ _ Hp) as Hlt. unfold put_nul.
  assert (Hn : <[p := 0]> b' !! p = Some 0) by (apply list_lookup_insert_eq; lia).
  split; [split; [by rewrite length_insert|]|split; [|exact Hn]]; intros i;
    (destruct (decide (i = p)) as [->|]; [auto|]); rewrite list_lookup_insert_ne by congruence; auto.
Qed.

Lemma nulterminate_blanked b c : forall sc b',
  denotes b c sc -> blanked b b' ->
  blanked b (nulterminate c b') /\ (forall i, b' !! i = Some 0 -> nulterminate c b' !! i = Some 0) /\
  Forall (fun e => nulterminate c b' !! e = Some 0) (ends c).
Proof.
  assert (Htwo : forall l r b', (forall b', blanked b b' -> blanked b (nulterminate l b') /\
      (forall i, b' !! i = Some 0 -> nulterminate l b' !! i = Some 0) /\ Forall (fun e => nulterminate l b' !! e = Some 0) (ends l)) ->
    (forall b', blanked b b' -> blanked b (nulterminate r b') /\
      (forall i, b' !! i = Some 0 -> nulterminate r b' !! i = Some 0) /\ Forall (fun e => nulterminate r b' !! e = Some 0) (ends r)) ->
    blanked b b' -> blanked b (nulterminate r (nulterminate l b')) /\
      (forall i, b' !! i = Some 0 -> nulterminate r (nulterminate l b') !! i = Some 0) /\
      Forall (fun e => nulterminate r (nulterminate l b') !! e = Some 0) (ends l ++ ends r)).
  { intros l r b' Hl Hr Hb. destruct (Hl b' Hb) as (B1 & Z1 & F1). destruct (Hr _ B1) as (B2 & Z2 & F2).
    split; [exact B2|]. split; [auto|]. apply Forall_app. split; [|exact F2]. eapply Forall_impl; [exact F1|]. auto. }
  induction c as [argv|c IH q e m fd|l IHl r IHr|l IHl r IHr|c IH]; intros sc b' Hd Hb; destruct sc; try contradiction;
    cbn [denotes nulterminate ends] in *.
  - revert b' Hb argv0 Hd. induction argv as [|a argv IHa]; intros b' Hb ws Hd; [split; [exact Hb|split; [auto|constructor]]|].
    inversion Hd as [|? w ? ws' Hw Hd']; subst. cbn [fold_left].
    destruct (put_nul_blanked b b' (snd a) Hb (word_end _ _ _ Hw)) as (B1 & Z1 & N1).
    destruct (IHa _ B1 ws' Hd') as (B2 & Z2 & F2). split; [exact B2|]. split; [auto|]. constructor; auto.
  - destruct Hd as (Hd & Hw & _ & _). destruct (IH sc b' Hd Hb) as (B1 & Z1 & F1).
    destruct (put_nul_blanked b _ e B1 (word_end _ _ _ Hw)) as (B2 & Z2 & N2).
    split; [exact B2|]. split; [auto|]. constructor; [exact N2|]. eapply Forall_impl; [exact F1|]. auto.
  - destruct Hd. eauto.
  - destruct Hd. eauto.
  - eauto.
Qed.

Lemma string_at_word b b' a w :
  word_at b a w -> blanked b b' -> b' !! snd a = Some 0 -> string_at b' (fst a) = w.
Proof.
  intros ([_ Hw] & Ea & r & Hr) [Hl Hb] Hz. unfold string_at. rewrite Ea in Hz.
  enough (E : exists r', drop (fst a) b' = w ++ 0 :: r').
  { destruct E as [r' ->]. clear -Hw. induction Hw as [|c w Hc _ IH]; [reflexivity|]. cbn [app ctake].
    unfold word_char in Hc. destruct (c =? 0); [discriminate|]. by rewrite IH. }
  exists (drop (length w + 1) (drop (fst a) b')). apply list_eq. intros i.
  destruct (decide (i < length w)%nat) as [Hi|Hi].
  - rewrite lookup_app_l, lookup_drop by exact Hi. destruct (lookup_lt_is_Some_2 w i Hi) as [c Hc].
    assert (E : b !! (fst a + i)%nat = Some c) by (by rewrite <- lookup_drop, Hr, lookup_app_l).
    destruct (Hb (fst a + i)%nat) as [->|[E2 _]]; [congruence|]. rewrite Forall_lookup in Hw. specialize (Hw i c Hc).
    rewrite E in E2. injection E2 as ->. discriminate.
  - rewrite lookup_app_r by lia. destruct (i - length w)%nat as [|k] eqn:Ek; simpl.
    + rewrite lookup_drop. replace i with (length w) by lia. exact Hz.
    + rewrite !lookup_drop. f_equal. lia.
Qed.

Lemma strings_denotes b b' c : forall sc,
  denotes b c sc -> blanked b b' -> Forall (fun e => b' !! e = Some 0) (ends c) -> strings b' c = sc.
Proof.
  induction c as [argv|c IH q e m fd|l IHl r IHr|l IHl r IHr|c IH]; intros sc Hd Hb He; destruct sc; try contradiction;
    cbn [denotes strings ends] in *.
  - f_equal. revert argv0 Hd. induction argv as [|a argv IHa]; intros ws Hd; inversion Hd; subst; [reflexivity|].
    inversion He; subst. cbn [fmap list_fmap]. f_equal; [by eapply string_at_word|auto].
  - destruct Hd as (Hd & Hw & -> & ->). inversion He; subst. f_equal; [auto|]. exact (string_at_word b b' (q, e) file Hw Hb H1).
  - destruct Hd. apply Forall_app in He as [H1 H2]. f_equal; auto.
  - destruct Hd. apply Forall_app in He as [H1 H2]. f_equal; auto.
  - f_equal. auto.
Qed.

Lemma toks_ok lvl c : cmd_ok c -> Forall tok_ok (toks lvl c).
Proof.
  assert (Hpar : forall p ts, Forall tok_ok ts -> Forall tok_ok (parens p ts)).
  { intros [] ts H; [|exact H]. constructor; [reflexivity|]. apply Forall_app. split; [exact H|]. by repeat constructor. }
  revert lvl. induction c as [argv|c IH f mode fd|l IHl r IHr|l IHl r IHr|c IH]; intros lvl Hc; cbn [toks cmd_ok] in *.
  - destruct Hc as [Hc _]. induction Hc; simpl; constructor; auto.
  - destruct Hc as (Hc & Hf & Hr). apply Forall_app. split; [by apply IH|]. constructor; [|by constructor].
    unfold redir_tok. destruct Hr as [[-> ->]|[[-> ->]|[-> ->]]]; reflexivity || exact I.
  - destruct Hc. apply Hpar, Forall_app. split; [by apply IHl|]. constructor; [reflexivity|by apply IHr].
  - destruct Hc. apply Hpar, Forall_app. split; [by apply IHl|]. constructor; [reflexivity|by apply IHr].
  - apply Hpar, Forall_app. split; [by apply IH|]. by constructor.
Qed.

(** C17: The shell reads what it should.  A command of programs with their
    arguments, redirections, pipes, lists and background commands, printed
    with a blank between any two tokens and with parentheses where the grammar
    needs them, is parsed to the same
    command: the tree has the same shape, and after [nulterminate] the C
    string behind every argument and file name is the word that was
    printed. *)
Theorem parse_show c (Hc : cmd_ok c) :
  exists t b, parsecmd (show c) = Parsed t b /\ strings b t = c.
Proof.
  destruct (toks_parse c Hc) as (_ & _ & _ & L). set (b := show c).
  destruct (L [] (4 * length b + 4)%nat b 0%nat) as (t & s & E & (Hs & Ed & _) & Hd); [exact I| |lia|].
  { split; [lia|]. rewrite app_nil_r. split; [reflexivity|by apply toks_ok]. }
  assert (s = length b) as ->.
  { apply (f_equal length) in Ed. rewrite length_drop in Ed. simpl in Ed. lia. }
  exists t, (nulterminate t b). unfold parsecmd. rewrite E.
  rewrite (peek_toks b (length b) []) by (split; [lia|split; [exact Ed|constructor]]). rewrite Nat.eqb_refl.
  split; [reflexivity|].
  destruct (nulterminate_blanked b t c b Hd) as (Hb & _ & He); [split; auto|]. by apply (strings_denotes b).
Qed.

(** [( a < i & ) > o ; b | c] *)
Definition demo_line : scmd :=
  SList (SRedir (SBack (SRedir (SExec [[97]]) [105] 0 0)) [111] 1537 1) (SPipe (SExec [[98]]) (SExec [[99]])).

Lemma parse_show_witness : exists t b, parsecmd (show demo_line) = Parsed t b /\ strings b t = demo_line.
Proof.
  apply (parse_show demo_line). unfold demo_line, cmd_ok, word_ok, MAXARGS. simpl length.
  repeat split; try lia; try discriminate; auto; repeat constructor.
Defined.
